(* ===== verification/_CoqProject ===== *)
-Q . S2P
Prelude.v
SysTime.v
Sem.v
Mbox.v
MboxConc.v
Protect.v
Threads.v
Objects.v
Lwip.v
Cs.v
Tcp.v
TcpSend.v
LwipRef.v
Config.v
TcpConn.v
Udp.v
Netif.v
Echo.v
Bridge.v
Mains.v
GoChan.v
GoBind.v
GoApp.v
GoWf.v
GoReach.v
GoConc.v
GoEcho.v
GoEchoRun.v
Csocks.v
DnsConc.v
Runs.v
GoMulti.v
GoLive.v
GoRuns.v
Port.v
EchoConn.v
GoUdp.v
GoUdpEcho.v
GoInput.v
