(* ===== verification/Prelude.v ===== *)
(** * lwip-cs: a verification development

    lwip-cs is a layer between the TCP/IP stack lwIP and an application.  Its C
    code keeps the TCP connections that lwIP accepts (src/src/tcp.c), sends and
    receives datagrams (src/src/udp.c), moves packets between lwIP and a device
    (src/src/cs.c), hands all of it to a Go program through a table of
    functions (src/lwipcs.c), and ports lwIP's operating system layer to
    pthreads (src/src/sys.c).  src/src/test.c is an echo server on top; the Go
    side (src/lwipcs.go) makes a network connection of each of lwIP's.  This
    library models these parts and proves what makes them correct; it also
    proves some places where they are not.

    ** The files

    - [Prelude] (this file): C integers, runs with faults and a small Hoare
      logic for them, invariants of transition systems, a lock invariant
      shared by the three machines of threads, counting.
    - [SysTime]: src/src/sys.c, the clock, [sys_now], [sys_jiffies] and
      the arithmetic of [cond_wait].
    - [Sem]: src/src/sys.c, [sys_arch_sem_wait] and [sys_sem_signal] as a
      machine of interleaved threads; it refines an atomic semaphore and loses
      no wakeup.
    - [Mbox]: src/src/sys.c, the ring of a mailbox and every operation
      run alone; it refines a FIFO queue of capacity [SYS_MBOX_SIZE] - 1.
    - [MboxConc]: the same operations run by many threads, one step for
      each access: order, mutual exclusion, absence of deadlock with one
      fetching thread, and the wakeup that is lost with two.
    - [Protect]: [sys_arch_protect] and [sys_arch_unprotect]: mutual exclusion
      and recursion.
    - [Threads]: [sys_thread_new], what the new thread runs, the lock of the
      lwIP core and its check.
    - [Objects]: creating, freeing and testing semaphores and mutexes on a
      heap (src/src/sys.c, src/src/arch/sys_arch.h).
    - [Lwip]: the interface to lwIP.  The class [Lwip] has the operations that
      the layer calls, [LwipLaws] their documented behaviour over a view of
      the stack: packet buffers with reference counts, control blocks with
      callback slots and the stream of bytes accepted for sending, memory
      blocks, datagrams sent.  [LwipUdp] and [LwipUdpLaws] are the same for
      UDP.
    - [Cs]: src/src/cs.h and src/src/tcp.h, the table of callbacks, the state
      of a connection and the state of the whole program ([world]).
    - [Tcp]: src/src/tcp.c, every function, under its own name.
    - [TcpSend]: what [cs_tcp_raw_send] and [cs_tcp_char_send] do.
    - [TcpConn]: the invariant of the connections; [AppOk] is what the layer
      asks of an application, up to faults of the application's own, and with
      it every callback is safe from every reachable state; accepting, closing,
      the peer's close and the error callback, which is not safe.
    - [LwipRef]: a small executable stack that satisfies the laws, for
      concrete runs.
    - [Config]: src/src/lwipopts.h, the features and the sizes of the pools and
      buffers.
    - [Port]: the directives of src/src/lwipopts.h, src/src/arch/cc.h,
      src/src/arch/sys_arch.h, src/src/lwipcfg.h and of the parts of
      src/src/sys.c and src/src/test.c that depend on them, as data, with the
      preprocessor that reads them: the names and values of [lwipopts.h] agree
      with [Config], and the build has of [sys.c] only the clock and the random
      numbers.
    - [Udp]: src/src/udp.c.
    - [Netif]: src/src/cs.c, including [cs_init] and [cs_ip_get].
    - [Echo]: src/src/test.c, the echo server.  It keeps the promises of
      [AppOk], so the theorems of [TcpConn] apply to it, and what it sends
      followed by what it has queued is what it received.
    - [Bridge]: src/lwipcs.c, and the table that the main programs of
      src/echo/test/test.c and src/csocks/pc/test/test.c fill for Go.
    - [Mains]: these two programs: their device functions, their test
      callbacks and [main].
    - [GoChan]: Go's channels, and the object [PCB] of a connection.
    - [GoBind]: src/lwipcs.go, every function under its own name (the package's
      function [Read] is [ReadNetif]), by a goroutine that runs alone.
    - [GoApp]: the binding as the application of the layer: it keeps what
      [AppOk] asks, up to waiting and panics; what packets and datagrams do,
      and the datagrams that make it panic or end up with another host.
    - [GoWf]: the well-formed states of the binding, which the methods of [PCB]
      keep, and where exactly these panic.
    - [GoReach]: the exported functions and the loops keep them too, so every
      state that runs of whole methods, callbacks and turns of the loops reach is
      well formed.
    - [GoConc]: [Read], [Write], [Close], the callbacks for TCP and the
      processing loop on one connection, as a machine of interleaved
      goroutines: order of the data, one write at a time, where a panic is
      possible, and the deadlock of [Write] with the peer's close.
    - [GoEcho], [GoEchoRun]: src/echo/echo.go, the goroutine of [OnAccept] as
      the user of a connection in that machine: what it hands to C is what it
      received, and C loses of it only what it has no memory for; as long as
      there was memory the echo can always be completed while the connection is
      open; and a peer can still bring it and the whole stack to a stop.
      [echo_run] executes the machine.
    - [Csocks]: src/csocks/csocks.go, the routing of connections and name
      queries of the SOCKS client, by goroutines that run one at a time.
    - [DnsConc]: the goroutines of its name service, those that read from and
      close its connections, and the rest of the program as a machine of
      interleaved steps: every query is read once and in order at its target;
      who is to blame for a panic; three races that end in one.
    - [EchoConn]: the loopback connection of src/csocks/pc/pc.go.
    - [GoMulti]: the machine of [GoConc] for any number of connections, which
      share the processing goroutine and its queues.  What each one sees is a
      run of [GoConc] with it alone, so that what is proved there holds of
      each; and a close in Go can hit another connection.
    - [GoLive]: the C layer, the binding and the goroutines as one machine, for
      a program that leaves it to the peer to close: what is open in Go is live
      in C, and the processing loop never touches what is not.
    - [GoUdp]: the methods and the part of the processing loop for datagram
      connections as a machine of goroutines on any number of them, with the
      memory that the slices of [Read] and [Write] point to: the order of the
      datagrams of a host, who is to blame for a panic, where it can come to a
      stop, and what closing a connection twice does to another one.
    - [GoUdpEcho]: src/echo/echo.go, the goroutine of [OnAccept] on the
      connections of that machine: for each datagram of a host one of the same
      length comes back, and the same one if the host waits for it; otherwise a
      later one can come in its place; and a host that is too fast stops the
      stack.
    - [GoInput]: a packet's way from the device through both input queues and the
      bridge to lwIP: what a turn of the loop does with it, and the order of the
      packets whichever way the two goroutines run.
    - [Runs], [GoRuns]: concrete states and runs in which the theorems about
      the layer and about the binding are applied.

    ** How the model reads

    Sequential code is a run over an explicit state, [M], that ends in a result
    or in a fault: a failed assertion, undefined behaviour, the end of the
    program.  Reading through a pointer to a connection is a lookup in
    [es_heap], so a use after [mem_free] is a fault; a lwIP call on a dead
    control block is one by [tcp_arg_dead].  "Safe" means no fault.  Code that
    several threads run is a function from a thread's place and the shared
    state to the next place and state, one step for each access to shared
    memory or to a lock; reachability is the closure of the steps of all
    threads.

    lwIP calls back into the layer through the slots of its control blocks:
    [dispatch] in [TcpConn] makes the call that a slot names, [event_ok] is
    when lwIP makes it, and [env_step] is what lwIP may do in between.  A
    failing lwIP call (no memory, no room) is possible wherever the laws allow
    it.

    Go code runs over the state of the binding inside that of the program; a
    send or receive that has to wait, or a lock that is taken, is the fault
    [Blocked], and a panic is [Panicked].  [GoConc] interleaves the same
    operations; there [Blocked] means that the goroutine has no step, and the
    steps of one goroutine together are the method of [GoBind].

    The loop of [cs_tcp_raw_send] has fuel.  It makes at most one more turn
    than the queue has buffers, so any fuel above that number gives the same
    result, which the theorems ask for: directly as a bound on the queue, or
    as a bound on the number of allocated buffers ([enough_fuel]), which lwIP's
    pools limit.

    ** What is not modelled

    The sources of lwIP and of the operating system are not part of the
    repository: they are the classes [Lwip], [LwipUdp], [LwipNetif],
    [LwipTcpAddr], [Pthreads] and [TapOs].  The functions that a Go program
    exports to C are the classes [GoExports], of which [GoBind] has the
    instance, and [GoProc].  To [GoBind] the Go
    program above it is the handler of events, about which nothing but its
    type and what a theorem says is assumed.  In [GoEcho] and [GoUdpEcho] [io.Copy] is the
    sequence of its calls, and lwIP and the peer are the steps of [GoConc].  In
    [Csocks] the processors of the package core, the parser of DNS messages,
    [url.Parse], [regexp] and the text of addresses are parameters, with their
    documented behaviour as hypotheses where a theorem needs it; the result of
    a route is only the call of a processor.  Of the packages src/csocks/pc and
    src/csocks/mobile what reads a configuration and starts the rest is left
    out.  Of the binding the method
    [String] and the messages about times are left out; the text of an address
    as a key of [udpPcbs] is its bytes; and accesses of goroutines to variables
    without a lock are taken to be atomic and in order.  [GoConc] has one
    connection, [GoMulti] any number, both for TCP, and [GoUdp] datagram
    connections that nobody intercepts, all with C reduced to what it does to
    the Go side; so one machine has no connections of both kinds, which share
    the processing goroutine, [sendQueue] and [closeQueue].  In [GoConc],
    [GoMulti] and [GoLive] the data of a [Write] are a value: the method waits
    until they are sent, and nothing else is taken to write to its buffer until
    then.  In [GoUdp], where [Write] does not wait, a slice is an
    address and a length, and reading or writing one is one step; the packet that
    lwIP hands over is copied in the step in which it comes, and in [GoInput]
    everything but the two input queues may change at any time.  [GoLive] has both sides, but there a callback or a turn of the
    loop is one step, the program does not call [Close], and what the handler
    does with a new connection is to start goroutines.  [DnsConc] has the steps
    of the name service and takes a method of the binding, and
    [Next.ProcConn], as one step each.  Messages to the console, the unused member
    [tpcb] of a connection, the macros of src/src/arch/perf.h, which are machine
    instructions that no code uses, and declarations of types and prototypes
    are left out.  The shipped configuration sets [NO_SYS] to 1, so the parts of
    src/src/sys.c on semaphores, mailboxes, threads and critical sections are
    compiled only in other configurations.  Integers are [Z], with every
    conversion to a narrower type written out; bytes are [Z] too.  The window
    that lwIP advertises to the peer is not in the view of the stack, so
    nothing is proved about the calls of [tcp_recved]. *)

From stdpp Require Export base list gmap relations.
From stdpp Require Import options.
From Stdlib Require Export ZArith Lia.

(** ** Pointers and bytes *)

(** An address of a C object.  A pointer that may be [NULL] is an
    [option ptr], [NULL] being [None]. *)
Abbreviation ptr := positive (only parsing).

(** The bytes of a C buffer, each a value of an 8-bit type. *)
Abbreviation bytes := (list Z) (only parsing).

(** ** C integers

    An integer of the program is a [Z]; the conversions to a fixed-width
    unsigned type wrap, and the arithmetic of the type [int] is undefined
    when its result does not fit. *)

Definition wrap_u (w z : Z) : Z := z `mod` 2 ^ w.

Abbreviation u8 := (wrap_u 8) (only parsing).
Abbreviation u16 := (wrap_u 16) (only parsing).
Abbreviation u32 := (wrap_u 32) (only parsing).
Abbreviation u64 := (wrap_u 64) (only parsing).

Definition INT_MIN : Z := - 2 ^ 31.
Definition INT_MAX : Z := 2 ^ 31 - 1.

Definition int_ok (z : Z) : bool := (INT_MIN <=? z)%Z && (z <=? INT_MAX)%Z.

Lemma wrap_u_small w z : (0 <= z < 2 ^ w)%Z -> wrap_u w z = z.
Proof. intros. by apply Z.mod_small. Qed.

Lemma wrap_u_range w z : (0 <= w)%Z -> (0 <= wrap_u w z < 2 ^ w)%Z.
Proof. intros. apply Z.mod_pos_bound. by apply Z.pow_pos_nonneg. Qed.

Lemma wrap_u_sub w a b : wrap_u w (wrap_u w a - wrap_u w b) = wrap_u w (a - b).
Proof. unfold wrap_u. by rewrite <- Zminus_mod. Qed.

Lemma int_ok_true z : int_ok z = true <-> (INT_MIN <= z <= INT_MAX)%Z.
Proof. unfold int_ok. rewrite andb_true_iff, !Z.leb_le. tauto. Qed.

(** ** Outcomes of running C code *)

(** How a run can stop without a result: a failed [LWIP_ASSERT] (which
    calls [cs_lwip_app_platform_assert] and aborts), undefined behaviour
    (a [NULL] or dangling pointer, an overflowing [int], an uninitialised
    function pointer), a wait on a semaphore that nobody can signal because
    the run is sequential, a call of [exit] or [abort], a panic of Go code, or
    the fuel of a loop of the model.  A goroutine that has to wait for another
    one is [Blocked] too. *)
Inductive fault : Type :=
| AssertFail
| UB
| Blocked
| Exited (code : Z)
| Aborted
| Panicked
| OutOfFuel.

#[export] Instance fault_eq_dec : EqDecision fault.
Proof. solve_decision. Defined.

Inductive outcome (A : Type) : Type :=
| Ok (a : A)
| Fault (f : fault).
Arguments Ok {A} a.
Arguments Fault {A} f.

(** A C computation over the state [St]. *)
Definition M (St A : Type) : Type := St -> outcome (A * St).

Section monad.
Context {St : Type}.

#[global] Instance M_ret : MRet (M St) := fun A a st => Ok (a, st).

#[global] Instance M_bind : MBind (M St) :=
  fun A B f m st =>
    match m st with
    | Ok (a, st') => f a st'
    | Fault x => Fault x
    end.

Definition gets {A} (f : St -> A) : M St A := fun st => Ok (f st, st).

Definition modify (f : St -> St) : M St unit := fun st => Ok (tt, f st).

Definition stop {A} (x : fault) : M St A := fun _ => Fault x.

(** [LWIP_ASSERT(msg, b)]. *)
Definition lwip_assert (b : bool) : M St unit :=
  if b then mret tt else stop AssertFail.

(** A side condition of the C standard, or of the documentation of a
    called function, without which the behaviour is undefined. *)
Definition require (b : bool) : M St unit :=
  if b then mret tt else stop UB.

(** A read through a pointer: undefined when nothing is there. *)
Definition deref {A} (o : option A) : M St A :=
  match o with
  | Some a => mret a
  | None => stop UB
  end.

End monad.

Arguments M_ret {St} A a st : simpl never.
Arguments M_bind {St} A B f m st : simpl never.
Arguments modify {St} f st : simpl never.

Lemma bind_Ok {St A B} (m : M St A) (f : A -> M St B) st a st' :
  m st = Ok (a, st') -> (m ≫= f) st = f a st'.
Proof. intros H. unfold mbind, M_bind. by rewrite H. Qed.

Lemma bind_Fault {St A B} (m : M St A) (f : A -> M St B) st x :
  m st = Fault x -> (m ≫= f) st = Fault x.
Proof. intros H. unfold mbind, M_bind. by rewrite H. Qed.

(** A run over a part of the state. *)
Definition zoom {St T X} (get : St -> T) (set : T -> St -> St) (m : M T X)
    : M St X := fun st =>
  match m (get st) with
  | Ok (x, t) => Ok (x, set t st)
  | Fault f => Fault f
  end.
Arguments zoom {St T X} get set m st : simpl never.

(** A run over one object of a heap; [f] is the fault of a bad pointer. *)
Definition at_key {K T X} `{Countable K} (f : fault) (k : K) (m : M T X)
    : M (gmap K T) X := fun h =>
  match h !! k with
  | Some t =>
      match m t with
      | Ok (x, t') => Ok (x, <[k := t']> h)
      | Fault f' => Fault f'
      end
  | None => Fault f
  end.
Arguments at_key {K T X} {_ _} f k m h : simpl never.

(** A use of a pointer that may be [NULL], then what follows in either case. *)
Lemma use_then {St R X} (m : M St (option ptr)) (use : ptr -> M St R)
    (k : option ptr -> M St X) st :
  (p ← m;
   match p with Some p' => _ ← use p'; mret tt | None => mret tt end;; k p) st =
  (p ← m;
   match p with None => k None | Some p' => _ ← use p'; k (Some p') end) st.
Proof.
  unfold mbind, M_bind. destruct (m st) as [[[p|] st1]|]; [|done..].
  by destruct (use p st1) as [[x st2]|].
Qed.

(** ** A small Hoare logic

    [wpf F m st Q]: run from [st], [m] either ends with a result and a final
    state that satisfy [Q], or stops at one of the faults [F].  [wp] is the
    case where there is no such fault. *)

Definition wpf {St A} (F : fault -> Prop) (m : M St A) (st : St)
    (Q : A -> St -> Prop) : Prop :=
  match m st with
  | Ok (a, st') => Q a st'
  | Fault x => F x
  end.

Arguments wpf {St A} F m st Q : simpl never.

Definition no_fault (x : fault) : Prop := False.

Abbreviation wp := (wpf no_fault).

Section wp.
Context {St : Type} {F : fault -> Prop}.
Implicit Types st : St.

Lemma wp_ret {A} (a : A) st Q : Q a st -> wpf F (mret a : M St A) st Q.
Proof. done. Qed.

Lemma wp_bind {A B} (m : M St A) (f : A -> M St B) st Q :
  wpf F m st (fun a st' => wpf F (f a) st' Q) -> wpf F (m ≫= f) st Q.
Proof. unfold wpf, mbind, M_bind. by destruct (m st) as [[a st']|]. Qed.

Lemma wp_gets {A} (f : St -> A) st Q : Q (f st) st -> wpf F (gets f) st Q.
Proof. done. Qed.

Lemma wp_modify (f : St -> St) st (Q : unit -> St -> Prop) :
  Q tt (f st) -> wpf F (modify f) st Q.
Proof. done. Qed.

Lemma wp_require (b : bool) st (Q : unit -> St -> Prop) :
  b = true -> Q tt st -> wpf F (require b) st Q.
Proof. by intros ->. Qed.

Lemma wp_assert (b : bool) st (Q : unit -> St -> Prop) :
  b = true -> Q tt st -> wpf F (lwip_assert b) st Q.
Proof. by intros ->. Qed.

Lemma wp_deref {A} (o : option A) (a : A) st Q :
  o = Some a -> Q a st -> wpf F (deref o) st Q.
Proof. by intros ->. Qed.

Lemma wp_stop {A} x st (Q : A -> St -> Prop) : F x -> wpf F (stop x) st Q.
Proof. done. Qed.

Lemma wp_mono {A} (m : M St A) st (Q Q' : A -> St -> Prop) :
  wp m st Q -> (forall a st', Q a st' -> Q' a st') -> wpf F m st Q'.
Proof. unfold wpf. destruct (m st) as [[a st']|]; [eauto|done]. Qed.

Lemma wpf_mono {A} (m : M St A) st (Q Q' : A -> St -> Prop) :
  wpf F m st Q -> (forall a st', Q a st' -> Q' a st') -> wpf F m st Q'.
Proof. unfold wpf. destruct (m st) as [[a st']|]; eauto. Qed.

(** [wp] is what it says: the run ends without fault, in [Q]. *)
Lemma wp_Ok {A} (m : M St A) st Q :
  wp m st Q <-> exists a st', m st = Ok (a, st') /\ Q a st'.
Proof.
  unfold wpf. destruct (m st) as [[a st']|x]; split.
  - eauto.
  - by intros (a' & st'' & [= -> ->] & ?).
  - done.
  - by intros (? & ? & ? & ?).
Qed.

Lemma wpf_Ok {A} (m : M St A) st Q a st' :
  m st = Ok (a, st') -> Q a st' -> wpf F m st Q.
Proof. unfold wpf. by intros ->. Qed.

Lemma wp_zoom {T X} (get : St -> T) (set : T -> St -> St) (m : M T X) st
    (Q : X -> St -> Prop) :
  wpf F m (get st) (fun x t => Q x (set t st)) -> wpf F (zoom get set m) st Q.
Proof. unfold wpf, zoom. by destruct (m (get st)) as [[x t]|]. Qed.

End wp.

Lemma wp_at_key {K T X} `{Countable K} {F} f k (m : M T X) (h : gmap K T) t
    (Q : X -> gmap K T -> Prop) :
  h !! k = Some t ->
  wpf F m t (fun x t' => Q x (<[k := t']> h)) -> wpf F (at_key f k m) h Q.
Proof.
  unfold wpf, at_key. intros ->. by destruct (m t) as [[x t']|].
Qed.

(** ** Runs that stop at some faults only

    Proved by following the structure of the run. *)
Class Stops {St X} (F : fault -> Prop) (m : M St X) : Prop :=
  stops st : wpf F m st (fun _ _ => True).
#[global] Hint Mode Stops - - ! ! : typeclass_instances.

Section stops.
Context {F : fault -> Prop}.

#[global] Instance stops_ret {St X} (x : X) : Stops F (mret x : M St X).
Proof. done. Qed.

#[global] Instance stops_bind {St X Y} (m : M St X) (f : X -> M St Y) :
  Stops F m -> (forall x, Stops F (f x)) -> Stops F (m ≫= f).
Proof.
  intros Hm Hf st. apply wp_bind. eapply wpf_mono; [apply Hm|].
  intros x st' _. apply Hf.
Qed.

#[global] Instance stops_gets {St X} (f : St -> X) : Stops F (gets f).
Proof. done. Qed.

#[global] Instance stops_modify {St} (f : St -> St) : Stops F (modify f).
Proof. done. Qed.

#[global] Instance stops_zoom {St T X} (get : St -> T) set (m : M T X) :
  Stops F m -> Stops F (zoom get set m).
Proof. intros Hm st. apply wp_zoom. eapply wpf_mono; [apply Hm|done]. Qed.

Lemma stops_stop {St X} x : F x -> Stops F (stop x : M St X).
Proof. by intros ? ?. Qed.

Lemma stops_at_key {K T X} `{Countable K} x (k : K) (m : M T X) :
  F x -> Stops F m -> Stops F (at_key x k m).
Proof.
  intros Hx Hm h. unfold at_key, wpf. destruct (h !! k) as [t|]; [|done].
  specialize (Hm t). unfold wpf in Hm. by destruct (m t) as [[? ?]|].
Qed.
End stops.

Create HintDb wp discriminated.
#[export] Hint Resolve wp_ret wp_bind wp_gets wp_modify wp_require wp_assert
  wp_deref wp_stop wp_zoom : wp.

(** One step of a symbolic run; [wp_auto] takes as many as it can. *)
Ltac wp_step :=
  match goal with
  | |- wpf _ (_ ≫= _) _ _ => apply wp_bind
  | |- wpf _ (mret _) _ _ => apply wp_ret
  | |- wpf _ (gets _) _ _ => apply wp_gets
  | |- wpf _ (modify _) _ _ => apply wp_modify
  | |- wpf _ (require _) _ _ => apply wp_require; [try done|]
  | |- wpf _ (lwip_assert _) _ _ => apply wp_assert; [try done|]
  | |- wpf _ (deref _) _ _ => eapply wp_deref; [try done; try eassumption|]
  end.

Ltac wp_auto := repeat (wp_step; cbn beta iota).

(** Case analysis on every scrutinee of a hypothesis. *)
Ltac case_in H :=
  repeat match type of H with
  | context [match ?x with _ => _ end] =>
      let E := fresh "E" in destruct x eqn:E; try discriminate H
  end.

(** ** Error codes of lwIP

    [err_t] of [lwip/err.h], by name: the program compares the codes and
    passes them on, and never relies on their values.  [ERR_OTHER n] is a
    value the program has no name for. *)
Inductive err_t : Type :=
| ERR_OK
| ERR_MEM
| ERR_VAL
| ERR_IF
| ERR_ABRT
| ERR_OTHER (code : Z).

#[export] Instance err_t_eq_dec : EqDecision err_t.
Proof. solve_decision. Defined.

(** ** Generic lemmas *)

(** Rule induction over the steps of a transition system. *)
Lemma rtc_invariant {A} (R : relation A) (I : A -> Prop) :
  (forall x y, I x -> R x y -> I y) ->
  forall x y, rtc R x y -> I x -> I y.
Proof. intros Hstep x y Hr. induction Hr; eauto. Qed.

(** ** Threads and a lock

    [ps] is where each thread of a system is, [holding p] says that a thread
    at [p] holds the lock, and [o] names the holder. *)
Section lock.
Context {P : Type} (holding : P -> bool).
Implicit Types (ps : list P) (o : option nat).

Record lock_inv ps o : Prop := LockInv {
  lock_iff : forall t p, ps !! t = Some p -> (holding p = true <-> o = Some t);
  lock_in : forall t, o = Some t -> is_Some (ps !! t)
}.

Lemma lock_inv_init n (p : P) :
  holding p = false -> lock_inv (replicate n p) None.
Proof.
  intros Hp. split; [|done]. intros t q [-> _]%lookup_replicate.
  by rewrite Hp.
Qed.

(** A thread goes from [p] to [p'], taking or giving back the lock as it
    goes in or out of a critical section. *)
Lemma lock_inv_step ps o t p p' o' :
  lock_inv ps o -> ps !! t = Some p ->
  match holding p, holding p' with
  | false, false | true, true => o' = o
  | false, true => o = None /\ o' = Some t
  | true, false => o' = None
  end ->
  lock_inv (<[t := p']> ps) o'.
Proof.
  intros [Hiff Hin] Hp Hmove. pose proof (Hiff t p Hp) as Ht.
  assert (t < length ps) as Hlt by (by eapply lookup_lt_Some).
  split.
  - intros u q. destruct (decide (t = u)) as [<-|Hne].
    + rewrite list_lookup_insert_eq by done. intros [= <-].
      destruct (holding p), (holding p'); destruct_and?; subst;
        intuition congruence.
    + rewrite list_lookup_insert_ne by done. intros Hq.
      rewrite (Hiff u q Hq).
      destruct (holding p), (holding p'); destruct_and?; subst;
        intuition congruence.
  - intros u Hu. apply lookup_lt_is_Some. rewrite length_insert.
    assert (u = t \/ o = Some u) as [->|Ho]; [|done|].
    + destruct (holding p), (holding p'); destruct_and?; subst;
        intuition congruence.
    + apply lookup_lt_is_Some. by apply Hin.
Qed.

Lemma lock_inv_holder ps o t p :
  lock_inv ps o -> ps !! t = Some p -> holding p = true -> o = Some t.
Proof. intros [Hiff _] Hp. by apply Hiff. Qed.

Lemma lock_inv_not_holder ps o t p :
  lock_inv ps o -> ps !! t = Some p -> holding p = false -> o <> Some t.
Proof. intros [Hiff _] Hp Hh Ho. apply (Hiff t p Hp) in Ho. congruence. Qed.

(** Mutual exclusion. *)
Lemma lock_inv_unique ps o t p u q :
  lock_inv ps o ->
  ps !! t = Some p -> holding p = true ->
  ps !! u = Some q -> holding q = true -> t = u.
Proof.
  intros I Hp Hh Hq Hh'.
  pose proof (lock_inv_holder _ _ _ _ I Hp Hh).
  pose proof (lock_inv_holder _ _ _ _ I Hq Hh'). congruence.
Qed.
End lock.

(** ** Counting *)
Section count.
Context {A : Type}.
Implicit Types (f : A -> bool) (l : list A).

Fixpoint count_if f l : nat :=
  match l with
  | [] => 0
  | x :: l => Nat.b2n (f x) + count_if f l
  end.

(** The count after element [i] went from [x] to [y]. *)
Lemma count_if_insert f l i x y :
  l !! i = Some x ->
  count_if f (<[i := y]> l) + Nat.b2n (f x) = count_if f l + Nat.b2n (f y).
Proof.
  revert i. induction l as [|z l IH]; intros [|i]; simpl; try done.
  - intros [= ->]. lia.
  - intros Hi. specialize (IH i Hi). lia.
Qed.

Lemma count_if_length f l : count_if f l <= length l.
Proof. induction l as [|x l IH]; simpl; [done|]. destruct (f x); cbn; lia. Qed.

Lemma count_if_mono f g l :
  (forall x, f x = true -> g x = true) -> count_if f l <= count_if g l.
Proof.
  intros H. induction l as [|x l IH]; simpl; [done|].
  specialize (H x). destruct (f x), (g x); cbn; intuition lia.
Qed.

Lemma count_if_replicate f n x : f x = false -> count_if f (replicate n x) = 0.
Proof. intros Hx. induction n; simpl; [done|]. by rewrite Hx. Qed.

Lemma count_if_pos f l i x : l !! i = Some x -> f x = true -> 0 < count_if f l.
Proof.
  revert i. induction l as [|z l IH]; intros [|i]; simpl; try done.
  - intros [= ->] ->. cbn. lia.
  - intros Hi Hx. specialize (IH i Hi Hx). lia.
Qed.

Lemma count_if_pos_inv f l :
  0 < count_if f l -> exists i x, l !! i = Some x /\ f x = true.
Proof.
  induction l as [|x l IH]; simpl; [lia|]. destruct (f x) eqn:Hx.
  - intros _. by exists 0, x.
  - intros (i & y & ? & ?)%IH. by exists (S i), y.
Qed.

Lemma count_if_unique f l i x j y :
  count_if f l <= 1 -> l !! i = Some x -> f x = true ->
  l !! j = Some y -> f y = true -> i = j.
Proof.
  revert i j. induction l as [|z l IH]; intros [|i] [|j]; simpl; try done.
  - intros Hc [= ->] Hx Hj Hy. pose proof (count_if_pos f l j y Hj Hy).
    rewrite Hx in Hc. cbn in Hc. lia.
  - intros Hc Hi Hx [= ->] Hy. pose proof (count_if_pos f l i x Hi Hx).
    rewrite Hy in Hc. cbn in Hc. lia.
  - intros Hc Hi Hx Hj Hy. f_equal. apply IH; try done. lia.
Qed.

Lemma count_if_le_1 f l :
  (forall i x j y, l !! i = Some x -> f x = true -> l !! j = Some y ->
     f y = true -> i = j) ->
  count_if f l <= 1.
Proof.
  induction l as [|z l IH]; intros H; simpl; [lia|].
  assert (count_if f l <= 1) as Hl.
  { apply IH. intros i x j y Hi Hx Hj Hy.
    specialize (H (S i) x (S j) y Hi Hx Hj Hy). congruence. }
  destruct (f z) eqn:Hz; cbn; [|lia].
  destruct (decide (0 < count_if f l)) as [(i & x & Hi & Hx)%count_if_pos_inv|];
    [|lia].
  specialize (H 0 z (S i) x eq_refl Hz Hi Hx). done.
Qed.
End count.
