(* ===== verification/SysTime.v ===== *)
(** * Time (src/src/sys.c)

    The monotonic clock, the deadline and the elapsed time of a condition
    wait, [sys_now] and [sys_jiffies]. *)

From S2P Require Import Prelude.
From stdpp Require Import options.
Local Open Scope Z_scope.

(** ** The clock *)

(** [struct timespec]; [time_t] and [long] are 64 bits wide. *)
Record timespec : Type := Timespec { tv_sec : Z; tv_nsec : Z }.

(** The ports [arch/cc.h] distinguishes, as far as this file depends on
    them: [LWIP_UNIX_MACH], [LWIP_UNIX_HURD], and [LWIP_UNIX_ANDROID] with
    an [__ANDROID_API__] below 21. *)
Record port : Type := Port {
  LWIP_UNIX_MACH : bool;
  LWIP_UNIX_HURD : bool;
  android_before_21 : bool
}.

Definition linux : port := Port false false false.

(** [get_monotonic_time] where [mach_absolute_time()] returned [t] and
    [mach_timebase_info] filled in [numer] and [denom]: [u64_t] arithmetic,
    with an undefined division by zero. *)
Definition get_monotonic_time_mach (t numer denom : Z) : option timespec :=
  if denom =? 0 then None
  else
    let nano := u64 (t * numer) / denom in
    let sec := nano / 1000000000 in
    Some (Timespec sec (u64 (nano - sec * 1000000000))).

(** [get_monotonic_time]: the reading of the platform's clock, [mach] on
    Darwin and [clock_gettime(CLOCK_MONOTONIC)] elsewhere. *)
Definition get_monotonic_time (pt : port) (mach clock : timespec) : timespec :=
  if LWIP_UNIX_MACH pt then mach else clock.

(** [sys_now]: milliseconds, in 32 bits. *)
Definition sys_now (ts : timespec) : Z :=
  u32 (tv_sec ts * 1000 + Z.quot (tv_nsec ts) 1000000).

(** [sys_jiffies]: nanoseconds, in 32 bits. *)
Definition sys_jiffies (ts : timespec) : Z :=
  u32 (tv_sec ts * 1000000000 + tv_nsec ts).

(** ** Waiting on a condition variable with a timeout *)

(** The timeout of a relative wait (Darwin and old Android). *)
Definition cond_relative (timeout : Z) : timespec :=
  Timespec (timeout / 1000) ((timeout mod 1000) * 1000000).

(** The absolute deadline of [pthread_cond_timedwait]. *)
Definition cond_deadline (rtime1 : timespec) (timeout : Z) : timespec :=
  let ts := Timespec (tv_sec rtime1 + timeout / 1000)
                     (tv_nsec rtime1 + (timeout mod 1000) * 1000000) in
  if tv_nsec ts >=? 1000000000
  then Timespec (tv_sec ts + 1) (tv_nsec ts - 1000000000)
  else ts.

(** The time the wait took, in milliseconds. *)
Definition cond_elapsed (rtime1 rtime2 : timespec) : Z :=
  let ts := Timespec (tv_sec rtime2 - tv_sec rtime1)
                     (tv_nsec rtime2 - tv_nsec rtime1) in
  let ts := if tv_nsec ts <? 0
            then Timespec (tv_sec ts - 1) (tv_nsec ts + 1000000000)
            else ts in
  u32 (tv_sec ts * 1000 + Z.quot (tv_nsec ts) 1000000).

Definition uses_relative_wait (pt : port) : bool :=
  LWIP_UNIX_MACH pt || android_before_21 pt.

Section cond_wait.
(** Constants of lwIP and of the platform's [errno.h]. *)
Variable SYS_ARCH_TIMEOUT : Z.
Variable ETIMEDOUT EINTR : Z.

(** The platform's waits: what they return, the timed ones for the
    [timespec] they are given. *)
Variable pthread_cond_wait : Z.
Variable pthread_cond_timedwait : timespec -> Z.
Variable pthread_cond_timedwait_relative_np : timespec -> Z.

(** [SYS_ARCH_INTR]. *)
Definition SYS_ARCH_INTR : Z := 4294967294.

(** [cond_wait], where the clock reads [rtime1] before the wait and
    [rtime2] after it. *)
Definition cond_wait (pt : port) (rtime1 rtime2 : timespec) (timeout : Z) : Z :=
  if timeout =? 0 then
    if LWIP_UNIX_HURD pt && (pthread_cond_wait =? 1) then SYS_ARCH_INTR
    else u32 pthread_cond_wait
  else
    let ret :=
      if uses_relative_wait pt
      then pthread_cond_timedwait_relative_np (cond_relative timeout)
      else pthread_cond_timedwait (cond_deadline rtime1 timeout) in
    if ret =? ETIMEDOUT then SYS_ARCH_TIMEOUT
    else if LWIP_UNIX_HURD pt && (ret =? EINTR) then SYS_ARCH_INTR
    else cond_elapsed rtime1 rtime2.
End cond_wait.

(** ** Properties *)

(** A [timespec] in normal form, and the instant it denotes. *)
Definition ts_ok (ts : timespec) : Prop :=
  0 <= tv_sec ts /\ 0 <= tv_nsec ts < 1000000000.

Definition ts_ns (ts : timespec) : Z := tv_sec ts * 1000000000 + tv_nsec ts.

Definition ts_ms (ts : timespec) : Z := ts_ns ts / 1000000.

Lemma ts_ms_split ts :
  ts_ok ts -> tv_sec ts * 1000 + Z.quot (tv_nsec ts) 1000000 = ts_ms ts.
Proof.
  intros [? ?]. unfold ts_ms, ts_ns.
  rewrite Z.quot_div_nonneg by lia.
  replace (tv_sec ts * 1000000000 + tv_nsec ts)
    with (tv_nsec ts + (tv_sec ts * 1000) * 1000000) by lia.
  rewrite Z.div_add by lia. lia.
Qed.

Lemma cond_deadline_ns rtime1 timeout :
  ts_ns (cond_deadline rtime1 timeout) = ts_ns rtime1 + timeout * 1000000.
Proof.
  unfold cond_deadline, ts_ns. pose proof (Z.div_mod timeout 1000).
  cbn [tv_sec tv_nsec]. destruct (_ >=? _) eqn:E; cbn [tv_sec tv_nsec]; lia.
Qed.

Lemma cond_deadline_ok rtime1 timeout :
  ts_ok rtime1 -> 0 <= timeout -> ts_ok (cond_deadline rtime1 timeout).
Proof.
  intros [? ?] ?. unfold cond_deadline, ts_ok.
  pose proof (Z.mod_pos_bound timeout 1000).
  pose proof (Z.div_pos timeout 1000). cbn [tv_sec tv_nsec].
  destruct (_ >=? _) eqn:E; cbn [tv_sec tv_nsec]; lia.
Qed.

Lemma cond_elapsed_ms rtime1 rtime2 :
  ts_ok rtime1 -> ts_ok rtime2 ->
  cond_elapsed rtime1 rtime2 = u32 ((ts_ns rtime2 - ts_ns rtime1) / 1000000).
Proof.
  intros [? ?] [? ?]. unfold cond_elapsed, ts_ns. f_equal.
  cbn [tv_sec tv_nsec]. destruct (_ <? 0) eqn:E; cbn [tv_sec tv_nsec];
    rewrite Z.quot_div_nonneg by lia.
  - replace (tv_sec rtime2 * 1000000000 + tv_nsec rtime2 -
             (tv_sec rtime1 * 1000000000 + tv_nsec rtime1))
      with ((tv_nsec rtime2 - tv_nsec rtime1 + 1000000000) +
            ((tv_sec rtime2 - tv_sec rtime1 - 1) * 1000) * 1000000) by lia.
    rewrite Z.div_add by lia. lia.
  - replace (tv_sec rtime2 * 1000000000 + tv_nsec rtime2 -
             (tv_sec rtime1 * 1000000000 + tv_nsec rtime1))
      with ((tv_nsec rtime2 - tv_nsec rtime1) +
            ((tv_sec rtime2 - tv_sec rtime1) * 1000) * 1000000) by lia.
    rewrite Z.div_add by lia. lia.
Qed.

Lemma mach_clock_ns t numer denom ts :
  0 <= t -> 0 <= numer -> 0 < denom -> t * numer < 2 ^ 64 ->
  get_monotonic_time_mach t numer denom = Some ts ->
  ts_ok ts /\ ts_ns ts = t * numer / denom.
Proof.
  intros ? ? ? Hov. unfold get_monotonic_time_mach.
  destruct (denom =? 0) eqn:E; [lia|]. intros [= <-].
  rewrite (wrap_u_small 64 (t * numer)) by lia.
  set (nano := t * numer / denom).
  assert (0 <= nano < 2 ^ 64).
  { split; [apply Z.div_pos; lia|]. apply Z.div_lt_upper_bound; nia. }
  pose proof (Z.div_mod nano 1000000000).
  pose proof (Z.mod_pos_bound nano 1000000000).
  pose proof (Z.div_pos nano 1000000000).
  rewrite wrap_u_small by lia.
  unfold ts_ok, ts_ns. cbn [tv_sec tv_nsec]. lia.
Qed.

(** the timed wait of [cond_wait] asks the platform to wait until
    exactly [timeout] milliseconds after its first clock reading, as a
    normalised [timespec], and reports a timeout as [SYS_ARCH_TIMEOUT] and
    any other end as the elapsed milliseconds, modulo 2^32. *)
Theorem cond_wait_timed
    (SYS_ARCH_TIMEOUT ETIMEDOUT EINTR cw : Z) (timed rel : timespec -> Z)
    (rtime1 rtime2 : timespec) (timeout : Z) :
  ts_ok rtime1 -> ts_ok rtime2 -> 0 < timeout ->
  exists deadline,
    ts_ok deadline /\
    ts_ns deadline = ts_ns rtime1 + timeout * 1000000 /\
    cond_wait SYS_ARCH_TIMEOUT ETIMEDOUT EINTR cw timed rel linux
      rtime1 rtime2 timeout =
      (if timed deadline =? ETIMEDOUT then SYS_ARCH_TIMEOUT
       else u32 ((ts_ns rtime2 - ts_ns rtime1) / 1000000)).
Proof.
  intros H1 H2 Ht. exists (cond_deadline rtime1 timeout).
  split; [by apply cond_deadline_ok; [|lia]|].
  split; [apply cond_deadline_ns|].
  unfold cond_wait, linux. cbn [LWIP_UNIX_HURD uses_relative_wait LWIP_UNIX_MACH
    android_before_21 orb andb].
  destruct (timeout =? 0) eqn:E; [lia|].
  by rewrite cond_elapsed_ms.
Qed.

Lemma cond_wait_timed_witness :
  exists deadline,
    ts_ok deadline /\
    ts_ns deadline = ts_ns (Timespec 5 999999999) + 2500 * 1000000 /\
    cond_wait 4294967295 110 4 0 (fun _ => 0) (fun _ => 0) linux
      (Timespec 5 999999999) (Timespec 7 1000000) 2500 =
      (if 0 =? 110 then 4294967295
       else u32 ((ts_ns (Timespec 7 1000000) - ts_ns (Timespec 5 999999999))
                 / 1000000)).
Proof.
  apply (cond_wait_timed 4294967295 110 4 0 (fun _ => 0) (fun _ => 0)
           (Timespec 5 999999999) (Timespec 7 1000000) 2500);
    unfold ts_ok; cbn; lia.
Defined.

(** the difference of two readings of [sys_now], taken modulo 2^32 as
    lwIP's timers do, is the number of milliseconds between them as long as
    that is below 2^32, also when the counter wrapped in between. *)
Theorem sys_now_difference (t1 t2 : timespec) :
  ts_ok t1 -> ts_ok t2 -> 0 <= ts_ms t2 - ts_ms t1 < 2 ^ 32 ->
  u32 (sys_now t2 - sys_now t1) = ts_ms t2 - ts_ms t1.
Proof.
  intros H1 H2 Hd. unfold sys_now. rewrite wrap_u_sub, !ts_ms_split by done.
  by apply wrap_u_small.
Qed.

Lemma sys_now_difference_witness :
  u32 (sys_now (Timespec 4294968 0) - sys_now (Timespec 4294967 0)) = 1000.
Proof.
  rewrite (sys_now_difference (Timespec 4294967 0) (Timespec 4294968 0));
    [reflexivity|split; cbn; lia..|vm_compute; split; congruence].
Defined.

(** on Darwin, the clock is [t * numer / denom] nanoseconds, normalised,
    as long as [t * numer] fits in 64 bits. *)
Theorem get_monotonic_time_mach_exact (t numer denom : Z) :
  0 <= t -> 0 <= numer -> 0 < denom -> t * numer < 2 ^ 64 ->
  exists ts, get_monotonic_time_mach t numer denom = Some ts /\
    ts_ok ts /\ ts_ns ts = t * numer / denom.
Proof.
  intros ? ? ? ?. unfold get_monotonic_time_mach at 1.
  destruct (denom =? 0) eqn:E; [lia|]. eexists; split; [done|].
  apply (mach_clock_ns t numer denom); try done.
  unfold get_monotonic_time_mach. by rewrite E.
Qed.

Lemma get_monotonic_time_mach_exact_witness :
  exists ts, get_monotonic_time_mach 1000000000000 125 3 = Some ts /\
    ts_ok ts /\ ts_ns ts = 1000000000000 * 125 / 3.
Proof. apply get_monotonic_time_mach_exact; lia. Defined.
