(* ===== verification/Sem.v ===== *)
(** * Semaphores (src/src/sys.c)

    [struct sys_sem] is a counter guarded by a pthread mutex and a condition
    variable.  Two levels: the code of [sys_arch_sem_wait] and
    [sys_sem_signal] as the steps of threads interleaved at every access,
    and the atomic semaphore the rest of the port relies on ([bsem_take],
    [bsem_give]).  The first refines the second ([sem_refines_bsem]), and no
    wake-up is lost ([sem_no_lost_wakeup]). *)

From S2P Require Import Prelude SysTime.
From stdpp Require Import options.
Local Open Scope Z_scope.

(** ** The atomic semaphore *)

(** What a completed [sys_arch_sem_wait] does to the count, where it can
    complete, and what [sys_sem_signal] does. *)
Definition bsem_take (c : Z) : option Z :=
  if c <=? 0 then None else Some (c - 1).

Definition bsem_give (c : Z) : Z := 1.

Inductive sem_event : Type := Take | Give.

Inductive bsem_step : Z -> sem_event -> Z -> Prop :=
| bsem_step_take c c' : bsem_take c = Some c' -> bsem_step c Take c'
| bsem_step_give c : bsem_step c Give (bsem_give c).

(** ** Creation and destruction *)

(** [struct sys_sem]: the count [c], the holder of [mutex] and the threads
    blocked in [cond]. *)
Record sys_sem : Type := SysSem {
  c : Z;
  owner : option nat;
  sleepers : gset nat
}.

(** [sys_sem_new_internal(count)], where [malloc] returned [m]. *)
Definition sys_sem_new_internal (m : option ptr) (count : Z)
  : option (ptr * sys_sem) :=
  match m with
  | Some p => Some (p, SysSem (u8 count) None ∅)
  | None => None
  end.

(** [sys_sem_new(sem, count)]: the error code, the new [*sem], and the
    [sem.used] statistic, which counts the attempt before it is made. *)
Definition sys_sem_new (m : option ptr) (count used : Z)
  : err_t * option (ptr * sys_sem) * Z :=
  let used := used + 1 in
  let sem := sys_sem_new_internal m count in
  match sem with
  | None => (ERR_MEM, None, used)
  | Some _ => (ERR_OK, sem, used)
  end.

(** ** The code of a wait and of a signal, one access at a time *)

(** Where a thread is in the two functions.  A thread with [holding] true
    holds [sem->mutex]. *)
Inductive sem_pc : Type :=
| Idle                          (* outside *)
| WEnter (timeout : Z)          (* before pthread_mutex_lock *)
| WTest (timeout tn : Z)        (* at while (sem->c <= 0) *)
| WSleep (timeout : Z)          (* inside cond_wait *)
| WCheck (timeout tn : Z)       (* cond_wait returned tn *)
| WDec (tn : Z)                 (* before sem->c-- *)
| WUnlock (ret : Z)             (* before pthread_mutex_unlock; return ret *)
| WDone (ret : Z)               (* returned ret *)
| SEnter                        (* before pthread_mutex_lock *)
| SInc                          (* before sem->c++ *)
| SCap                          (* before if (sem->c > 1) *)
| SBroadcast                    (* before pthread_cond_broadcast *)
| SUnlock.                      (* before pthread_mutex_unlock *)

#[export] Instance sem_pc_eq_dec : EqDecision sem_pc.
Proof. solve_decision. Defined.

Definition holding (p : sem_pc) : bool :=
  match p with
  | WTest _ _ | WCheck _ _ | WDec _ | WUnlock _
  | SInc | SCap | SBroadcast | SUnlock => true
  | _ => false
  end.

(** What the scheduler chooses at a step: to call a function, to let the
    thread's code go on, or to let the blocking wait return [r]. *)
Inductive sem_choice : Type :=
| CallWait (timeout : Z)
| CallSignal
| Run
| Wake (r : Z)
| Return.

Section sem.
(** Constants of lwIP and the platform; [cond_returns timeout r]: the wait
    of the platform with that timeout can return [r] (through [cond_wait]
    of [SysTime]). *)
Context (SYS_ARCH_TIMEOUT : Z) (pt : port) (cond_returns : Z -> Z -> bool).

(** After [cond_wait] returned [tn]: the branches of the loop body. *)
Definition wait_returned (timeout tn : Z) : sem_pc :=
  if timeout >? 0 then
    if tn =? SYS_ARCH_TIMEOUT then WUnlock SYS_ARCH_TIMEOUT
    else if LWIP_UNIX_HURD pt && (tn =? SYS_ARCH_INTR) then WUnlock 0
    else WTest timeout tn
  else if negb (tn =? 0) then WUnlock 0
  else WTest timeout 0.

(** One step of thread [t], at [p]; [None] if it cannot take it. *)
Definition sem_next (t : nat) (ch : sem_choice) (p : sem_pc) (s : sys_sem)
  : option (sem_pc * sys_sem) :=
  match ch, p with
  | CallWait timeout, Idle => Some (WEnter timeout, s)
  | CallSignal, Idle => Some (SEnter, s)
  | Run, WEnter timeout =>
      match owner s with
      | None => Some (WTest timeout 0, SysSem (c s) (Some t) (sleepers s))
      | Some _ => None
      end
  | Run, WTest timeout tn =>
      if c s <=? 0
      then Some (WSleep timeout, SysSem (c s) None ({[t]} ∪ sleepers s))
      else Some (WDec tn, s)
  | Wake r, WSleep timeout =>
      match owner s with
      | None =>
          if cond_returns timeout r
          then Some (WCheck timeout r,
                     SysSem (c s) (Some t) (sleepers s ∖ {[t]}))
          else None
      | Some _ => None
      end
  | Run, WCheck timeout tn => Some (wait_returned timeout tn, s)
  | Run, WDec tn =>
      Some (WUnlock tn, SysSem (u32 (c s - 1)) (owner s) (sleepers s))
  | Run, WUnlock ret => Some (WDone ret, SysSem (c s) None (sleepers s))
  | Run, SEnter =>
      match owner s with
      | None => Some (SInc, SysSem (c s) (Some t) (sleepers s))
      | Some _ => None
      end
  | Run, SInc => Some (SCap, SysSem (u32 (c s + 1)) (owner s) (sleepers s))
  | Run, SCap =>
      Some (SBroadcast,
            SysSem (if c s >? 1 then 1 else c s) (owner s) (sleepers s))
  | Run, SBroadcast => Some (SUnlock, SysSem (c s) (owner s) ∅)
  | Run, SUnlock => Some (Idle, SysSem (c s) None (sleepers s))
  | Return, WDone _ => Some (Idle, s)
  | _, _ => None
  end.

(** The semaphore and all the threads that use it. *)
Record sem_sys : Type := SemSys { sem : sys_sem; pcs : list sem_pc }.

(** The access at which a wait, or a signal, takes effect. *)
Definition sem_event_of (p : sem_pc) : option sem_event :=
  match p with
  | WDec _ => Some Take
  | SInc => Some Give
  | _ => None
  end.

Inductive sem_sys_step : sem_sys -> option sem_event -> sem_sys -> Prop :=
| sem_sys_step_thread st t ch p p' s' :
    pcs st !! t = Some p ->
    sem_next t ch p (sem st) = Some (p', s') ->
    sem_sys_step st (if ch is Run then sem_event_of p else None)
      (SemSys s' (<[t := p']> (pcs st))).

Definition sem_any_step (x y : sem_sys) : Prop :=
  exists ev, sem_sys_step x ev y.

(** A semaphore just created with [count], and [n] threads outside. *)
Definition sem_init (count : Z) (n : nat) : sem_sys :=
  SemSys (SysSem (u8 count) None ∅) (replicate n Idle).

Definition sem_reachable (count : Z) (n : nat) (st : sem_sys) : Prop :=
  rtc sem_any_step (sem_init count n) st.

(** The count the atomic semaphore has: [c], except between the two halves
    of a signal. *)
Definition sem_count (st : sem_sys) : Z :=
  match owner (sem st) with
  | Some t => match pcs st !! t with Some SCap => 1 | _ => c (sem st) end
  | None => c (sem st)
  end.

(** ** Invariant *)

(** What is true of the semaphore while the holder of its mutex is at [p]. *)
Definition holder_ok (s : sys_sem) (p : sem_pc) : Prop :=
  match p with
  | WDec _ => 0 < c s <= 255
  | SCap => 1 <= c s <= 256
  | SBroadcast => c s = 1
  | _ => 0 <= c s <= 255
  end /\
  (sleepers s = ∅ \/ c s = 0 \/ p = SCap \/ p = SBroadcast).

Record sem_inv (st : sem_sys) : Prop := SemInv {
  inv_lock : lock_inv holding (pcs st) (owner (sem st));
  inv_owner : forall t p, owner (sem st) = Some t -> pcs st !! t = Some p ->
    holder_ok (sem st) p;
  inv_free : owner (sem st) = None ->
    0 <= c (sem st) <= 255 /\ (sleepers (sem st) = ∅ \/ c (sem st) = 0)
}.

Lemma sem_inv_init count n : sem_inv (sem_init count n).
Proof.
  split; cbn; [by apply lock_inv_init|done|].
  intros _. pose proof (wrap_u_range 8 count). split; [lia|by left].
Qed.

(** A step of thread [t] from [p] to [p'] that ends with the thread holding
    the mutex, and one that ends with the mutex free. *)
Lemma sem_inv_held st t p p' s' :
  sem_inv st -> pcs st !! t = Some p ->
  (holding p = true \/ owner (sem st) = None) ->
  owner s' = Some t -> holding p' = true -> holder_ok s' p' ->
  sem_inv (SemSys s' (<[t := p']> (pcs st))).
Proof.
  intros [IL IO IF] Hp Hor Ho Hh Hok. split; cbn.
  - eapply lock_inv_step; [done..|]. rewrite Hh.
    destruct (holding p) eqn:Hhp; [|by destruct Hor].
    rewrite Ho. symmetry. by eapply lock_inv_holder.
  - intros u q Hu. rewrite Ho in Hu. injection Hu as <-.
    rewrite list_lookup_insert_eq by (by eapply lookup_lt_Some). by intros [= <-].
  - by rewrite Ho.
Qed.

Lemma sem_inv_freed st t p p' s' :
  sem_inv st -> pcs st !! t = Some p -> holding p = true ->
  owner s' = None -> holding p' = false ->
  0 <= c s' <= 255 -> (sleepers s' = ∅ \/ c s' = 0) ->
  sem_inv (SemSys s' (<[t := p']> (pcs st))).
Proof.
  intros [IL IO IF] Hp Hhp Ho Hh Hc Hs. split; cbn.
  - eapply lock_inv_step; [done..|]. by rewrite Hhp, Hh.
  - by rewrite Ho.
  - done.
Qed.

(** A thread outside of the mutex moves on without touching anything. *)
Lemma sem_inv_local st t p p' :
  sem_inv st -> pcs st !! t = Some p ->
  holding p = false -> holding p' = false ->
  sem_inv (SemSys (sem st) (<[t := p']> (pcs st))).
Proof.
  intros [IL IO IF] Hp Hh Hh'. split; cbn; [| |done].
  - eapply lock_inv_step; [done..|]. by rewrite Hh, Hh'.
  - intros u q Hu. pose proof (lock_inv_not_holder _ _ _ _ _ IL Hp Hh).
    rewrite list_lookup_insert_ne by congruence. by apply IO.
Qed.

Lemma wait_returned_holding timeout tn :
  holding (wait_returned timeout tn) = true.
Proof. unfold wait_returned. by repeat case_match. Qed.

(** The places of the code where the count is an ordinary one. *)
Lemma holder_ok_weaken s p p' :
  holder_ok s p ->
  match p with SCap | SBroadcast => False | _ => True end ->
  match p' with WDec _ | SCap | SBroadcast => False | _ => True end ->
  holder_ok s p'.
Proof.
  intros [Hc Hs] Hp Hp'. split; [by destruct p, p'; try done; lia|].
  by destruct p; try done; destruct Hs as [|[|[|]]]; auto.
Qed.

Lemma holder_ok_wait_returned s timeout tn :
  holder_ok s (WCheck timeout tn) -> holder_ok s (wait_returned timeout tn).
Proof.
  intros H. apply (holder_ok_weaken _ _ _ H); [done|].
  unfold wait_returned. by repeat case_match.
Qed.

Lemma sem_inv_step st ev st' :
  sem_inv st -> sem_sys_step st ev st' -> sem_inv st'.
Proof.
  intros I Hstep. destruct Hstep as [st t ch p p' s' Hp Hnext].
  assert (holding p = true ->
          owner (sem st) = Some t /\ holder_ok (sem st) p) as Hhold.
  { intros Hh. pose proof (lock_inv_holder _ _ _ _ _ (inv_lock _ I) Hp Hh) as Ho.
    split; [done|]. by apply (inv_owner _ I t). }
  destruct ch, p; cbn in Hnext; try discriminate; case_in Hnext;
    simplify_eq; try (destruct Hhold as [Ho Hok]; [done|]).
  - by eapply sem_inv_local.
  - by eapply sem_inv_local.
  - eapply sem_inv_held; try done; [by right|].
    destruct (inv_free _ I) as [? Hs]; [done|]. split; cbn; [lia|tauto].
  - destruct Hok as [Hc Hs]. eapply sem_inv_freed; try done; cbn in *;
      right; lia.
  - eapply sem_inv_held; try done; [by left|]. destruct Hok as [Hc Hs].
    split; [cbn in *; lia|]. destruct Hs as [|[|[|]]]; auto; done.
  - eapply sem_inv_held; try done; [by left|apply wait_returned_holding|].
    by apply holder_ok_wait_returned.
  - eapply sem_inv_held; try done; [by left|]. destruct Hok as [Hc Hs].
    split; cbn in *; rewrite wrap_u_small by lia; [lia|].
    destruct Hs as [|[|[|]]]; auto; done || lia.
  - destruct Hok as [Hc Hs]. eapply sem_inv_freed; try done; cbn in *.
    destruct Hs as [|[|[|]]]; auto; done.
  - eapply sem_inv_held; try done; [by right|].
    destruct (inv_free _ I) as [? Hs]; [done|]. split; cbn; [lia|tauto].
  - eapply sem_inv_held; try done; [by left|]. destruct Hok as [Hc Hs].
    split; cbn in *; [rewrite wrap_u_small by lia; lia|tauto].
  - eapply sem_inv_held; try done; [by left|]. destruct Hok as [Hc Hs].
    split; cbn in *; [lia|tauto].
  - eapply sem_inv_held; try done; [by left|]. destruct Hok as [Hc Hs].
    split; cbn in *; [lia|tauto].
  - eapply sem_inv_held; try done; [by left|]. destruct Hok as [Hc Hs].
    split; cbn in *; [lia|tauto].
  - destruct Hok as [Hc Hs]. eapply sem_inv_freed; try done; cbn in *.
    destruct Hs as [|[|[|]]]; auto; done.
  - eapply sem_inv_held; try done; [by right|].
    destruct (inv_free _ I) as [? Hs]; [done|].
    split; cbn; [lia|]. destruct Hs as [->|]; [left; set_solver|auto].
  - by eapply sem_inv_local.
Qed.

Lemma sem_inv_reachable count n st : sem_reachable count n st -> sem_inv st.
Proof.
  intros Hr. eapply rtc_invariant; [|exact Hr|apply sem_inv_init].
  intros x y Ix [ev Hev]. by eapply sem_inv_step.
Qed.

(** ** The refinement *)

Definition count_at (s : sys_sem) (p : sem_pc) : Z :=
  match p with SCap => 1 | _ => c s end.

Lemma sem_count_holder st t p :
  owner (sem st) = Some t -> pcs st !! t = Some p ->
  sem_count st = count_at (sem st) p.
Proof. intros Ho Hp. unfold sem_count. by rewrite Ho, Hp. Qed.

Lemma sem_count_free st : owner (sem st) = None -> sem_count st = c (sem st).
Proof. intros Ho. unfold sem_count. by rewrite Ho. Qed.

Lemma sem_count_set s l t p :
  (t < length l)%nat -> owner s = Some t ->
  sem_count (SemSys s (<[t := p]> l)) = count_at s p.
Proof.
  intros Hlt Ho.
  apply (sem_count_holder (SemSys s (<[t := p]> l)) t); [done|].
  by apply list_lookup_insert_eq.
Qed.

Lemma sem_count_other s l t p :
  owner s <> Some t ->
  sem_count (SemSys s (<[t := p]> l)) = sem_count (SemSys s l).
Proof.
  intros Ho. unfold sem_count. cbn. destruct (owner s) as [t'|]; [|done].
  by rewrite list_lookup_insert_ne by congruence.
Qed.

Lemma count_at_wait_returned s timeout tn :
  count_at s (wait_returned timeout tn) = c s.
Proof. unfold wait_returned. by repeat case_match. Qed.

(** A thread that does not hold the mutex and moves on by itself. *)
Lemma sem_count_local st t p p' :
  sem_inv st -> pcs st !! t = Some p -> holding p = false ->
  sem_count (SemSys (sem st) (<[t := p']> (pcs st))) = sem_count st.
Proof.
  intros I Hp Hh. rewrite sem_count_other; [by destruct st|].
  by apply (lock_inv_not_holder _ _ _ _ _ (inv_lock _ I) Hp).
Qed.

Lemma sem_event_step st ev st' :
  sem_inv st -> sem_sys_step st ev st' ->
  match ev with
  | None => sem_count st' = sem_count st
  | Some e => bsem_step (sem_count st) e (sem_count st')
  end.
Proof.
  intros I Hstep. destruct Hstep as [st t ch p p' s' Hp Hnext].
  assert (holding p = true ->
          owner (sem st) = Some t /\ holder_ok (sem st) p /\
          sem_count st = count_at (sem st) p) as Hhold.
  { intros Hh. pose proof (lock_inv_holder _ _ _ _ _ (inv_lock _ I) Hp Hh) as Ho.
    split; [done|]. split; [by apply (inv_owner _ I t)|].
    by apply (sem_count_holder _ t). }
  assert (t < length (pcs st))%nat as Hlt by (by eapply lookup_lt_Some).
  destruct ch, p; cbn in Hnext; try discriminate; case_in Hnext;
    simplify_eq;
    try (destruct Hhold as (Ho & [Hc _] & Hcount); [done|]; rewrite Hcount);
    cbn [sem_event_of];
    rewrite ?sem_count_set, ?count_at_wait_returned by done;
    try (by rewrite (sem_count_local _ _ _ _ I Hp));
    try (by rewrite !sem_count_free);
    cbn in Hc |- *; try done; try lia.
  - constructor. unfold bsem_take. rewrite wrap_u_small by lia.
    by destruct (Z.leb_spec (c (sem st)) 0); [lia|].
  - constructor.
Qed.

(** ** Schedules

    Runs given by the list of the threads and choices that step, for concrete
    instances. *)
Definition sem_exec1 (tc : nat * sem_choice) (st : sem_sys) : option sem_sys :=
  p ← pcs st !! tc.1;
  '(p', s') ← sem_next tc.1 tc.2 p (sem st);
  Some (SemSys s' (<[tc.1 := p']> (pcs st))).

Fixpoint sem_exec (sched : list (nat * sem_choice)) (st : sem_sys)
  : option sem_sys :=
  match sched with
  | [] => Some st
  | tc :: sched => sem_exec1 tc st ≫= sem_exec sched
  end.

Lemma sem_exec1_sound tc st st' :
  sem_exec1 tc st = Some st' -> sem_any_step st st'.
Proof.
  destruct tc as [t ch]. unfold sem_exec1. cbn.
  destruct (pcs st !! t) as [p|] eqn:Hp; [|done]. cbn.
  destruct (sem_next t ch p (sem st)) as [[p' s']|] eqn:Hn; [|done].
  intros [= <-]. eexists. by econstructor.
Qed.

Lemma sem_exec_sound count n sched st :
  sem_exec sched (sem_init count n) = Some st -> sem_reachable count n st.
Proof.
  unfold sem_reachable. generalize (sem_init count n). clear count n.
  induction sched as [|tc sched IH]; cbn; intros st0.
  - by intros [= <-].
  - destruct (sem_exec1 tc st0) as [st1|] eqn:E; [|done]. cbn. intros H.
    eapply rtc_l; [by eapply sem_exec1_sound|by apply IH].
Qed.

(** ** Properties *)

(** C28: the code of [sys_arch_sem_wait] and [sys_sem_signal], run by any
    number of threads interleaved at every access to the semaphore, refines
    the atomic semaphore: in every reachable state a step either leaves the
    atomic count alone, or is a wait taking one from a positive count, or a
    signal setting it to 1. *)
Theorem sem_refines_bsem (count : Z) (n : nat) (st st' : sem_sys)
    (ev : option sem_event) :
  sem_reachable count n st -> sem_sys_step st ev st' ->
  match ev with
  | None => sem_count st' = sem_count st
  | Some e => bsem_step (sem_count st) e (sem_count st')
  end.
Proof. intros Hr. apply sem_event_step. by eapply sem_inv_reachable. Qed.

(** No wake-up is lost: whenever the mutex of the semaphore is free and
    the count is positive, no thread is asleep on the condition variable. *)
Theorem sem_no_lost_wakeup (count : Z) (n : nat) (st : sem_sys) :
  sem_reachable count n st ->
  owner (sem st) = None -> 0 < c (sem st) -> sleepers (sem st) = ∅.
Proof.
  intros Hr Ho Hc. apply sem_inv_reachable in Hr as I.
  destruct (inv_free _ I Ho) as [_ [|]]; [done|lia].
Qed.
End sem.

(** Thread 0 finds the count at 0 and sleeps; thread 1 signals; thread 0 wakes
    up and is about to decrement. *)
Definition demo_schedule : list (nat * sem_choice) :=
  [(0, CallWait 0); (0, Run); (0, Run);
   (1, CallSignal); (1, Run); (1, Run); (1, Run); (1, Run); (1, Run);
   (0, Wake 0); (0, Run); (0, Run)]%nat.

Definition demo_state (sched : list (nat * sem_choice)) : sem_sys :=
  default (sem_init 0 2)
    (sem_exec 4294967295 linux (fun _ r => r =? 0) sched (sem_init 0 2)).

Lemma sem_refines_bsem_witness :
  let st := demo_state demo_schedule in
  let st' := demo_state (demo_schedule ++ [(0%nat, Run)]) in
  sem_count st = 1 /\ bsem_step (sem_count st) Take (sem_count st').
Proof.
  intros st st'. split; [by vm_compute|].
  apply (sem_refines_bsem 4294967295 linux (fun _ r => r =? 0) 0 2 st st'
           (Some Take)).
  - apply sem_exec_sound with demo_schedule. by vm_compute.
  - apply (sem_sys_step_thread _ _ _ st 0 Run (WDec 0) (WUnlock 0)
             (SysSem 0 (Some 0%nat) ∅)); by vm_compute.
Defined.

Lemma sem_no_lost_wakeup_witness :
  let st := demo_state (take 9 demo_schedule) in
  0 < c (sem st) /\ sleepers (sem st) = ∅.
Proof.
  intros st. split; [by vm_compute|].
  apply (sem_no_lost_wakeup 4294967295 linux (fun _ r => r =? 0) 0 2 st).
  - apply sem_exec_sound with (take 9 demo_schedule). by vm_compute.
  - by vm_compute.
  - by vm_compute.
Defined.
