(* ===== verification/Mbox.v ===== *)
(** * Mailboxes (src/src/sys.c)

    [struct sys_mbox] is a ring of [SYS_MBOX_SIZE] pointers between two
    counters that only grow, with three semaphores.  This file has its data,
    the accesses the mailbox functions are made of, the functions that do not
    wait ([sys_mbox_new], [sys_mbox_free], [sys_mbox_trypost],
    [sys_arch_mbox_tryfetch]), and the proof that they implement a bounded
    FIFO queue until the counters overflow.  The functions that wait are in
    [MboxConc]. *)

From S2P Require Import Prelude Sem.
From stdpp Require Import options.
Local Open Scope Z_scope.

Definition SYS_MBOX_SIZE : Z := 128.

Section mbox.
(** What a message pointer stands for. *)
Context {Msg : Type}.

(** [struct sys_mbox].  A semaphore is its count (see [Sem]) or [None] for a
    [NULL] pointer; a slot of [msgs] is [None] until something was stored. *)
Record sys_mbox : Type := SysMbox {
  first : Z;
  last : Z;
  msgs : list (option Msg);
  not_empty : option Z;
  not_full : option Z;
  mutex : option Z;
  wait_send : Z
}.

Inductive mbox_sem : Type := NotEmpty | NotFull | Mutex.

Definition get_sem (s : mbox_sem) (mb : sys_mbox) : option Z :=
  match s with
  | NotEmpty => not_empty mb
  | NotFull => not_full mb
  | Mutex => mutex mb
  end.

Definition set_sem (s : mbox_sem) (n : Z) (mb : sys_mbox) : sys_mbox :=
  let '(SysMbox f l ms ne nf mx ws) := mb in
  match s with
  | NotEmpty => SysMbox f l ms (Some n) nf mx ws
  | NotFull => SysMbox f l ms ne (Some n) mx ws
  | Mutex => SysMbox f l ms ne nf (Some n) ws
  end.

(** ** The accesses *)

(** [sys_arch_sem_wait(&s, 0)] on a semaphore of the mailbox, once it can
    complete. *)
Definition sem_wait (s : mbox_sem) : M sys_mbox unit :=
  o ← gets (get_sem s);
  lwip_assert (bool_decide (is_Some o));;
  n ← deref o;
  match bsem_take n with
  | Some n' => modify (set_sem s n')
  | None => stop Blocked
  end.

(** [sys_sem_signal(&s)]. *)
Definition sem_signal (s : mbox_sem) : M sys_mbox unit :=
  o ← gets (get_sem s);
  lwip_assert (bool_decide (is_Some o));;
  n ← deref o;
  modify (set_sem s (bsem_give n)).

(** [(mbox->last + 1) >= (mbox->first + SYS_MBOX_SIZE)], in [int]. *)
Definition mbox_full : M sys_mbox bool :=
  l ← gets last;
  f ← gets first;
  require (int_ok (l + 1));;
  require (int_ok (f + SYS_MBOX_SIZE));;
  mret (l + 1 >=? f + SYS_MBOX_SIZE).

(** [mbox->first == mbox->last]. *)
Definition mbox_empty : M sys_mbox bool :=
  f ← gets first;
  l ← gets last;
  mret (f =? l).

(** The index of [mbox->msgs[i % SYS_MBOX_SIZE]]: C's remainder has the sign
    of [i], and a negative index is out of bounds. *)
Definition slot (i : Z) : M sys_mbox nat :=
  let r := Z.rem i SYS_MBOX_SIZE in
  require (0 <=? r);;
  mret (Z.to_nat r).

Definition set_msgs (ms : list (option Msg)) (mb : sys_mbox) : sys_mbox :=
  let '(SysMbox f l _ ne nf mx ws) := mb in SysMbox f l ms ne nf mx ws.

Definition set_first (f : Z) (mb : sys_mbox) : sys_mbox :=
  let '(SysMbox _ l ms ne nf mx ws) := mb in SysMbox f l ms ne nf mx ws.

Definition set_last (l : Z) (mb : sys_mbox) : sys_mbox :=
  let '(SysMbox f _ ms ne nf mx ws) := mb in SysMbox f l ms ne nf mx ws.

Definition set_wait_send (ws : Z) (mb : sys_mbox) : sys_mbox :=
  let '(SysMbox f l ms ne nf mx _) := mb in SysMbox f l ms ne nf mx ws.

(** Storing the message: [mbox->msgs[...] = msg], the [first] flag, and
    [mbox->last++]. *)
Definition mbox_put (msg : Msg) : M sys_mbox bool :=
  l ← gets last;
  i ← slot l;
  ms ← gets msgs;
  modify (set_msgs (<[i := Some msg]> ms));;
  f ← gets first;
  let first := l =? f in
  require (int_ok (l + 1));;
  modify (set_last (l + 1));;
  mret first.

(** Taking the message out: [*msg = mbox->msgs[...]] unless [msg] is [NULL]
    ([want] false), and [mbox->first++]. *)
Definition mbox_get (want : bool) : M sys_mbox (option Msg) :=
  f ← gets first;
  m ← (if want then
         i ← slot f;
         ms ← gets msgs;
         m ← deref (mjoin (ms !! i));
         mret (Some m)
       else mret None);
  require (int_ok (f + 1));;
  modify (set_first (f + 1));;
  mret m.

(** [mbox->wait_send++] and [mbox->wait_send--]. *)
Definition wait_send_add (d : Z) : M sys_mbox unit :=
  ws ← gets wait_send;
  require (int_ok (ws + d));;
  modify (set_wait_send (ws + d)).

(** ** Creation and destruction *)

(** [sys_mbox_new]: [mbox_m] is what [malloc] returned for the mailbox, and
    [e_m], [f_m], [x_m] for the three semaphores, in the order they are
    made. *)
Definition sys_mbox_new (mbox_m e_m f_m x_m : option ptr)
  : err_t * option sys_mbox :=
  match mbox_m with
  | None => (ERR_MEM, None)
  | Some _ =>
      let sem_of (m : option ptr) (count : Z) : option Z :=
        (fun ps => c ps.2) <$> sys_sem_new_internal m count in
      (ERR_OK, Some (SysMbox 0 0 (replicate (Z.to_nat SYS_MBOX_SIZE) None)
                       (sem_of e_m 0) (sem_of f_m 0) (sem_of x_m 1) 0))
  end.

(** [sys_mbox_free(mb)] for a [*mb] that is not [NULL]: the mutex is taken
    and the four objects are freed. *)
Definition sys_mbox_free (mb : sys_mbox) : outcome (option sys_mbox) :=
  match sem_wait Mutex mb with
  | Ok (_, mb') =>
      match not_empty mb', not_full mb', mutex mb' with
      | Some _, Some _, Some _ => Ok None
      | _, _, _ => Fault UB
      end
  | Fault x => Fault x
  end.

(** ** The functions that do not wait *)

Definition sys_mbox_trypost (msg : Msg) : M sys_mbox err_t :=
  sem_wait Mutex;;
  full ← mbox_full;
  if (full : bool) then
    sem_signal Mutex;;
    mret ERR_MEM
  else
    first ← mbox_put msg;
    (if (first : bool) then sem_signal NotEmpty else mret tt);;
    sem_signal Mutex;;
    mret ERR_OK.

Definition sys_mbox_trypost_fromisr (msg : Msg) : M sys_mbox err_t :=
  sys_mbox_trypost msg.

(** [None] is the result [SYS_MBOX_EMPTY], [Some m] the result 0 with [m] in
    [*msg]. *)
Definition sys_arch_mbox_tryfetch (want : bool)
  : M sys_mbox (option (option Msg)) :=
  sem_wait Mutex;;
  empty ← mbox_empty;
  if (empty : bool) then
    sem_signal Mutex;;
    mret None
  else
    m ← mbox_get want;
    ws ← gets wait_send;
    (if negb (ws =? 0) then sem_signal NotFull else mret tt);;
    sem_signal Mutex;;
    mret (Some m).

(** ** Representation *)

(** The mailbox holds the queue [q]. *)
Record mbox_repr (mb : sys_mbox) (q : list Msg) : Prop := MboxRepr {
  repr_size : length (msgs mb) = Z.to_nat SYS_MBOX_SIZE;
  repr_first : 0 <= first mb;
  repr_last : last mb = first mb + Z.of_nat (length q);
  repr_capacity : Z.of_nat (length q) < SYS_MBOX_SIZE;
  repr_slots : forall i m, q !! i = Some m ->
    msgs mb !! Z.to_nat ((first mb + Z.of_nat i) mod SYS_MBOX_SIZE)
      = Some (Some m)
}.

(** The counters are far enough from [INT_MAX] for one more post. *)
Definition counters_ok (mb : sys_mbox) : Prop :=
  last mb + 1 <= INT_MAX /\ first mb + SYS_MBOX_SIZE <= INT_MAX.

(** The queue is in the ring, whatever the other fields are. *)
Lemma mbox_repr_ring mb mb' q :
  mbox_repr mb q -> first mb' = first mb -> last mb' = last mb ->
  msgs mb' = msgs mb -> mbox_repr mb' q.
Proof. intros [] Hf Hl Hm. split; by rewrite ?Hf, ?Hl, ?Hm. Qed.

(** [set_sem] and [set_wait_send] do not touch the ring. *)
Lemma mbox_repr_set_sem mb q s n :
  mbox_repr mb q -> mbox_repr (set_sem s n mb) q.
Proof. intros R. by destruct s, mb; apply (mbox_repr_ring _ _ _ R). Qed.

Lemma mbox_repr_set_wait_send mb q n :
  mbox_repr mb q -> mbox_repr (set_wait_send n mb) q.
Proof. intros R. by destruct mb; apply (mbox_repr_ring _ _ _ R). Qed.

Lemma get_set_sem s n mb : get_sem s (set_sem s n mb) = Some n.
Proof. by destruct mb, s. Qed.

Lemma get_set_sem_ne s s' n mb :
  s <> s' -> get_sem s (set_sem s' n mb) = get_sem s mb.
Proof. by destruct mb, s, s'. Qed.

Lemma set_sem_id s n mb : get_sem s mb = Some n -> set_sem s n mb = mb.
Proof. by destruct mb, s; cbn; intros ->. Qed.

Lemma set_set_sem s n n' mb : set_sem s n (set_sem s n' mb) = set_sem s n mb.
Proof. by destruct mb, s. Qed.

(** ** What each access does *)

Lemma sem_wait_run s n n' mb :
  get_sem s mb = Some n -> bsem_take n = Some n' ->
  sem_wait s mb = Ok (tt, set_sem s n' mb).
Proof.
  intros Hn Hn'. unfold sem_wait, mbind, M_bind, gets. rewrite Hn.
  unfold deref, mret, M_ret, modify. cbn.
  by rewrite Hn'.
Qed.

Lemma wp_sem_wait s n n' mb (Q : unit -> sys_mbox -> Prop) :
  get_sem s mb = Some n -> bsem_take n = Some n' ->
  Q tt (set_sem s n' mb) -> wp (sem_wait s) mb Q.
Proof.
  intros Hn Hn' HQ. unfold wpf. by rewrite (sem_wait_run s n n').
Qed.

Lemma wp_sem_signal s n mb (Q : unit -> sys_mbox -> Prop) :
  get_sem s mb = Some n -> Q tt (set_sem s 1 mb) -> wp (sem_signal s) mb Q.
Proof.
  intros Hn HQ. unfold sem_signal. wp_step. wp_step. rewrite Hn. by wp_auto.
Qed.

Lemma wp_sem_signal_if (b : bool) s n mb (Q : unit -> sys_mbox -> Prop) :
  get_sem s mb = Some n -> Q tt (if b then set_sem s 1 mb else mb) ->
  wp (if b then sem_signal s else mret tt) mb Q.
Proof. intros Hn HQ. destruct b; [by eapply wp_sem_signal|by wp_auto]. Qed.

Lemma wp_mbox_full mb q (Q : bool -> sys_mbox -> Prop) :
  mbox_repr mb q -> counters_ok mb ->
  Q (bool_decide (Z.of_nat (length q) = SYS_MBOX_SIZE - 1)) mb ->
  wp mbox_full mb Q.
Proof.
  intros [] [? ?] HQ. unfold mbox_full, SYS_MBOX_SIZE, INT_MAX in *. wp_auto.
  - apply int_ok_true. unfold INT_MIN, INT_MAX. lia.
  - apply int_ok_true. unfold INT_MIN, INT_MAX. lia.
  - case_bool_decide; [replace (_ >=? _) with true|replace (_ >=? _) with false];
      try done; symmetry; lia.
Qed.

Lemma wp_mbox_empty mb q (Q : bool -> sys_mbox -> Prop) :
  mbox_repr mb q -> Q (bool_decide (q = [])) mb -> wp mbox_empty mb Q.
Proof.
  intros [] HQ. unfold mbox_empty. wp_auto.
  replace (first mb =? last mb) with (bool_decide (q = [])); [done|].
  case_bool_decide as Hq; symmetry.
  - subst q. apply Z.eqb_eq. cbn in *. lia.
  - apply Z.eqb_neq. destruct q; [done|]. cbn in *. lia.
Qed.

Lemma wp_slot i mb (Q : nat -> sys_mbox -> Prop) :
  0 <= i -> Q (Z.to_nat (i mod SYS_MBOX_SIZE)) mb -> wp (slot i) mb Q.
Proof.
  intros Hi HQ. unfold slot. rewrite Z.rem_mod_nonneg by (unfold SYS_MBOX_SIZE; lia).
  wp_auto; [|done]. by apply Z.leb_le, Z.mod_pos_bound.
Qed.

Lemma slot_lt i :
  (Z.to_nat (i mod SYS_MBOX_SIZE) < Z.to_nat SYS_MBOX_SIZE)%nat.
Proof. unfold SYS_MBOX_SIZE. pose proof (Z.mod_pos_bound i 128). lia. Qed.

(** Two places of the ring less than its size apart are different slots. *)
Lemma slot_inj f i j :
  0 <= f -> 0 <= i < SYS_MBOX_SIZE -> 0 <= j < SYS_MBOX_SIZE ->
  Z.to_nat ((f + i) mod SYS_MBOX_SIZE) = Z.to_nat ((f + j) mod SYS_MBOX_SIZE) ->
  i = j.
Proof.
  intros ? Hi Hj Hij. unfold SYS_MBOX_SIZE in *.
  apply Z2Nat.inj in Hij; [|apply Z.mod_pos_bound; lia..].
  pose proof (Z.div_mod (f + i) 128). pose proof (Z.div_mod (f + j) 128).
  assert (i - j = 128 * ((f + i) / 128 - (f + j) / 128)) by lia. lia.
Qed.

(** Two mailboxes that differ in the ring only. *)
Definition same_control (mb mb' : sys_mbox) : Prop :=
  not_empty mb' = not_empty mb /\ not_full mb' = not_full mb /\
  mutex mb' = mutex mb /\ wait_send mb' = wait_send mb.

Lemma same_control_get_sem mb mb' s :
  same_control mb mb' -> get_sem s mb' = get_sem s mb.
Proof. intros (? & ? & ? & ?). by destruct s. Qed.

(** The ring after a message was stored. *)
Lemma mbox_repr_put mb q msg :
  mbox_repr mb q -> Z.of_nat (length q) < SYS_MBOX_SIZE - 1 ->
  mbox_repr (set_last (last mb + 1)
    (set_msgs (<[Z.to_nat (last mb mod SYS_MBOX_SIZE) := Some msg]> (msgs mb)) mb))
    (q ++ [msg]).
Proof.
  intros [Hs Hf Hl Hc Hslots] Hroom. destruct mb as [f l ms ne nf mx ws]. cbn in *.
  subst l. split; cbn.
  - by rewrite length_insert.
  - done.
  - rewrite length_app. cbn. lia.
  - rewrite length_app. cbn. lia.
  - intros i m [Hi|[Hi Hm]]%lookup_app_Some.
    + rewrite list_lookup_insert_ne; [by apply Hslots|].
      apply lookup_lt_Some in Hi as Hlt. intros Heq.
      apply slot_inj in Heq; lia.
    + apply list_lookup_singleton_Some in Hm as [Hi0 ->].
      assert (i = length q) as -> by lia.
      apply list_lookup_insert_eq. rewrite Hs. apply slot_lt.
Qed.

Lemma wp_mbox_put mb q msg (Q : bool -> sys_mbox -> Prop) :
  mbox_repr mb q -> Z.of_nat (length q) < SYS_MBOX_SIZE - 1 ->
  last mb + 1 <= INT_MAX ->
  (forall mb', mbox_repr mb' (q ++ [msg]) -> same_control mb mb' ->
    first mb' = first mb -> last mb' = last mb + 1 ->
    Q (bool_decide (q = [])) mb') ->
  wp (mbox_put msg) mb Q.
Proof.
  intros R Hroom Hint HQ. pose proof (mbox_repr_put mb q msg R Hroom) as R'.
  unfold mbox_put. wp_auto. apply wp_slot; [destruct R; lia|]. wp_auto.
  { apply int_ok_true. destruct R. unfold INT_MIN, INT_MAX in *. lia. }
  replace (last mb =? first _) with (bool_decide (q = [])).
  - apply HQ; try done; by destruct mb.
  - destruct R as [_ _ Hl _ _]. destruct mb; cbn in *. subst.
    case_bool_decide as Hq; symmetry; [apply Z.eqb_eq|apply Z.eqb_neq];
      destruct q; cbn in *; congruence || lia.
Qed.

(** The ring after the oldest message was taken out. *)
Lemma mbox_repr_get mb m q :
  mbox_repr mb (m :: q) -> mbox_repr (set_first (first mb + 1) mb) q.
Proof.
  intros [Hs Hf Hl Hc Hslots]. destruct mb as [f l ms ne nf mx ws]. cbn in *.
  split; cbn; try done; try lia. intros i m' Hi.
  replace (f + 1 + Z.of_nat i) with (f + Z.of_nat (S i)) by lia.
  by apply Hslots.
Qed.

Lemma wp_mbox_get mb m q (want : bool) (Q : option Msg -> sys_mbox -> Prop) :
  mbox_repr mb (m :: q) -> first mb + 1 <= INT_MAX ->
  (forall mb', mbox_repr mb' q -> same_control mb mb' ->
    first mb' = first mb + 1 -> last mb' = last mb ->
    Q (if want then Some m else None) mb') ->
  wp (mbox_get want) mb Q.
Proof.
  intros R Hint HQ. pose proof (mbox_repr_get mb m q R) as R'.
  pose proof R as [Hs Hf Hl Hc Hslots]. unfold mbox_get.
  assert (Hok : int_ok (first mb + 1) = true).
  { apply int_ok_true. unfold INT_MIN, INT_MAX in *. lia. }
  assert (HQ' : Q (if want then Some m else None) (set_first (first mb + 1) mb)).
  { apply HQ; try done; by destruct mb. }
  wp_auto. destruct want; wp_auto; try done.
  apply wp_slot; [done|]. wp_auto.
  - pose proof (Hslots 0%nat m eq_refl) as H0. rewrite Z.add_0_r in H0.
    by rewrite H0.
  - done.
Qed.

(** ** The functions that do not wait, on a represented queue *)

(** A mailbox nobody is working on: its mutex is free. *)
Record mbox_idle (mb : sys_mbox) (q : list Msg) : Prop := MboxIdle {
  idle_repr : mbox_repr mb q;
  idle_mutex : mutex mb = Some 1;
  idle_not_empty : is_Some (not_empty mb);
  idle_not_full : is_Some (not_full mb)
}.

(** The abstract queue: at most [SYS_MBOX_SIZE - 1] messages. *)
Definition queue_trypost (msg : Msg) (q : list Msg) : err_t * list Msg :=
  if decide (Z.of_nat (length q) = SYS_MBOX_SIZE - 1) then (ERR_MEM, q)
  else (ERR_OK, q ++ [msg]).

Definition queue_tryfetch (want : bool) (q : list Msg)
  : option (option Msg) * list Msg :=
  match q with
  | [] => (None, [])
  | m :: q => (Some (if want then Some m else None), q)
  end.

Lemma wp_trypost mb q msg :
  mbox_idle mb q -> counters_ok mb ->
  wp (sys_mbox_trypost msg) mb (fun r mb' =>
    r = (queue_trypost msg q).1 /\ mbox_idle mb' (queue_trypost msg q).2 /\
    first mb' = first mb /\ last mb <= last mb' <= last mb + 1 /\
    wait_send mb' = wait_send mb /\
    not_empty mb' = (if bool_decide (q = []) then Some 1 else not_empty mb) /\
    not_full mb' = not_full mb).
Proof.
  intros [R Hmx [ne Hne] [nf Hnf]] Hct. unfold sys_mbox_trypost.
  wp_step. eapply (wp_sem_wait Mutex); [done..|].
  wp_step. eapply wp_mbox_full;
    [by apply mbox_repr_set_sem|by destruct mb|].
  unfold queue_trypost. case_bool_decide as Hq; case_decide; try done.
  - wp_step. eapply (wp_sem_signal Mutex); [apply (get_set_sem Mutex)|].
    wp_step. rewrite set_set_sem, (set_sem_id Mutex 1) by done. cbn.
    rewrite bool_decide_eq_false_2.
    + split_and!; try done; lia.
    + intros ->. done.
  - wp_step. eapply (wp_mbox_put _ q);
      [by apply mbox_repr_set_sem|destruct R; lia|destruct mb; apply Hct|].
    intros mb' R' (Hne' & Hnf' & Hmx' & Hws') Hf' Hl'.
    wp_step. eapply (wp_sem_signal_if _ NotEmpty ne).
    { cbn. rewrite Hne'. by destruct mb. }
    wp_step. eapply (wp_sem_signal Mutex 0).
    { destruct mb, mb'. by case_bool_decide. }
    wp_step. destruct mb, mb'. cbn in *. subst.
    case_bool_decide; cbn; split_and!; try done; try lia;
      (split; cbn; try by eexists); by apply (mbox_repr_ring _ _ _ R').
Qed.

Lemma wp_tryfetch mb q (want : bool) :
  mbox_idle mb q -> counters_ok mb ->
  wp (sys_arch_mbox_tryfetch want) mb (fun r mb' =>
    r = (queue_tryfetch want q).1 /\ mbox_idle mb' (queue_tryfetch want q).2 /\
    last mb' = last mb /\ first mb <= first mb' <= first mb + 1 /\
    wait_send mb' = wait_send mb /\
    not_empty mb' = not_empty mb /\
    not_full mb' =
      (if bool_decide (q <> [] /\ wait_send mb <> 0) then Some 1
       else not_full mb)).
Proof.
  intros [R Hmx [ne Hne] [nf Hnf]] [Hct _]. unfold sys_arch_mbox_tryfetch.
  wp_step. eapply (wp_sem_wait Mutex); [done..|].
  wp_step. eapply wp_mbox_empty; [by apply mbox_repr_set_sem|].
  destruct q as [|m q]; cbn.
  - wp_step. eapply (wp_sem_signal Mutex); [apply (get_set_sem Mutex)|].
    wp_step. rewrite set_set_sem, (set_sem_id Mutex 1) by done. cbn.
    split_and!; try done; lia.
  - wp_step. eapply (wp_mbox_get _ m q); [by apply mbox_repr_set_sem| |].
    { destruct R as [_ _ Hl _ _]. destruct mb; cbn in *. lia. }
    intros mb' R' (Hne' & Hnf' & Hmx' & Hws') Hf' Hl'.
    wp_step. wp_step.
    wp_step. eapply (wp_sem_signal_if _ NotFull nf).
    { cbn. rewrite Hnf'. by destruct mb. }
    wp_step. eapply (wp_sem_signal Mutex 0).
    { destruct mb, mb'. by case_match. }
    wp_step. destruct mb, mb'. cbn in *. subst.
    destruct (Z.eqb_spec wait_send0 0); cbn; case_bool_decide; cbn;
      split_and!; try done; try lia; try naive_solver;
      (split; cbn; try by eexists); by apply (mbox_repr_ring _ _ _ R').
Qed.

(** A fresh mailbox, all of whose semaphores could be made. *)
Lemma mbox_idle_new mb p e f x :
  sys_mbox_new (Some p) (Some e) (Some f) (Some x) = (ERR_OK, Some mb) ->
  mbox_idle mb [] /\ first mb = 0 /\ last mb = 0 /\ wait_send mb = 0 /\
  not_empty mb = Some 0 /\ not_full mb = Some 0.
Proof.
  intros [= <-]. cbn. split; [|done]. split; [split|done| |]; cbn;
    try done; by eexists.
Qed.
(** ** Sequences of operations *)

Inductive try_op : Type := OpPost (m : Msg) | OpFetch (want : bool).

Definition try_res : Type := err_t + option (option Msg).

Fixpoint run_mbox (ops : list try_op) : M sys_mbox (list try_res) :=
  match ops with
  | [] => mret []
  | OpPost m :: ops =>
      r ← sys_mbox_trypost m; rs ← run_mbox ops; mret (inl r :: rs)
  | OpFetch want :: ops =>
      r ← sys_arch_mbox_tryfetch want; rs ← run_mbox ops; mret (inr r :: rs)
  end.

(** The same operations on the abstract queue. *)
Fixpoint run_queue (ops : list try_op) (q : list Msg)
  : list try_res * list Msg :=
  match ops with
  | [] => ([], q)
  | OpPost m :: ops =>
      let '(r, q) := queue_trypost m q in
      let '(rs, q) := run_queue ops q in (inl r :: rs, q)
  | OpFetch want :: ops =>
      let '(r, q) := queue_tryfetch want q in
      let '(rs, q) := run_queue ops q in (inr r :: rs, q)
  end.

Lemma wp_run_mbox ops mb q :
  mbox_idle mb q ->
  last mb + Z.of_nat (length ops) + SYS_MBOX_SIZE <= INT_MAX ->
  wp (run_mbox ops) mb (fun rs mb' =>
    rs = (run_queue ops q).1 /\ mbox_idle mb' (run_queue ops q).2 /\
    last mb' <= last mb + Z.of_nat (length ops)).
Proof.
  revert mb q. induction ops as [|[m|want] ops IH]; intros mb q I Hb;
    cbn [run_mbox run_queue length] in *.
  - wp_auto. split_and!; try done. lia.
  - pose proof (repr_first _ _ (idle_repr _ _ I)).
    pose proof (repr_last _ _ (idle_repr _ _ I)).
    wp_step. eapply wp_mono; [apply (wp_trypost mb q m I)|].
    { unfold counters_ok, SYS_MBOX_SIZE in *. lia. }
    intros r mb1 (-> & I1 & _ & Hl1 & _). destruct (queue_trypost m q) as [r q1].
    wp_step. eapply wp_mono; [apply (IH mb1 q1 I1); lia|].
    intros rs mb2 (-> & I2 & Hl2). apply wp_ret.
    destruct (run_queue ops q1). split_and!; try done. lia.
  - pose proof (repr_first _ _ (idle_repr _ _ I)).
    pose proof (repr_last _ _ (idle_repr _ _ I)).
    wp_step. eapply wp_mono; [apply (wp_tryfetch mb q want I)|].
    { unfold counters_ok, SYS_MBOX_SIZE in *. lia. }
    intros r mb1 (-> & I1 & Hl1 & _). destruct (queue_tryfetch want q) as [r q1].
    wp_step. eapply wp_mono; [apply (IH mb1 q1 I1); lia|].
    intros rs mb2 (-> & I2 & Hl2). apply wp_ret.
    destruct (run_queue ops q1). split_and!; try done. lia.
Qed.

(** A post where [first + SYS_MBOX_SIZE] does not fit in an [int]. *)
Lemma trypost_overflow mb q msg :
  mbox_idle mb q -> INT_MAX < first mb + SYS_MBOX_SIZE ->
  sys_mbox_trypost msg mb = Fault UB.
Proof.
  intros [R Hmx _ _] Hov. unfold sys_mbox_trypost.
  erewrite bind_Ok by (by apply sem_wait_run with (n := 1) (n' := 0)).
  apply bind_Fault. unfold mbox_full.
  do 2 erewrite bind_Ok by reflexivity.
  destruct mb as [f l ms ne nf mx ws]. cbn [set_sem first last] in *.
  unfold require. destruct (int_ok (l + 1)); [|done].
  erewrite bind_Ok by reflexivity.
  destruct (int_ok (f + SYS_MBOX_SIZE)) eqn:E; [|done].
  apply int_ok_true in E. lia.
Qed.

(** A post and a fetch, [n] times. *)
Definition rounds (msg : Msg) (n : nat) : list try_op :=
  mjoin (replicate n [OpPost msg; OpFetch true]).

Lemma wp_rounds msg n mb :
  mbox_idle mb [] -> first mb + Z.of_nat n + SYS_MBOX_SIZE <= INT_MAX + 1 ->
  wp (run_mbox (rounds msg n)) mb (fun _ mb' =>
    mbox_idle mb' [] /\ first mb' = first mb + Z.of_nat n).
Proof.
  revert mb. induction n as [|n IH]; intros mb I Hb.
  { apply wp_ret. split; [done|lia]. }
  change (rounds msg (S n)) with (OpPost msg :: OpFetch true :: rounds msg n).
  pose proof (repr_last _ _ (idle_repr _ _ I)) as Hl.
  pose proof (repr_first _ _ (idle_repr _ _ I)) as Hf. cbn [length] in Hl.
  cbn [run_mbox]. wp_step. eapply wp_mono; [apply (wp_trypost mb [] msg I)|].
  { unfold counters_ok, SYS_MBOX_SIZE in *. lia. }
  intros r mb1 (-> & I1 & Hf1 & Hl1 & _). wp_step. wp_step.
  pose proof (repr_last _ _ (idle_repr _ _ I1)) as Hlast1.
  change (last mb1 = first mb1 + 1) in Hlast1.
  eapply wp_mono; [apply (wp_tryfetch mb1 [msg] true I1)|].
  { unfold counters_ok, SYS_MBOX_SIZE in *. lia. }
  intros r mb2 (-> & I2 & Hl2 & Hf2 & _). cbn in I2.
  pose proof (repr_last _ _ (idle_repr _ _ I2)) as Hlast2. cbn in Hlast2.
  wp_step. eapply wp_mono; [apply (IH mb2 I2); lia|].
  intros rs mb3 [I3 Hf3]. do 2 apply wp_ret. split; [done|lia].
Qed.

(** ** Properties *)

(** C25: until its counters get near [INT_MAX], the mailbox is a FIFO queue of
    capacity [SYS_MBOX_SIZE - 1]: any sequence of posts and fetches that do
    not wait, of any length that keeps [last + SYS_MBOX_SIZE] within an
    [int], runs without fault and returns exactly what the same sequence
    returns on the abstract queue, full and empty results included. *)
Theorem mbox_refines_queue (ops : list try_op) (mb : sys_mbox) (q : list Msg) :
  mbox_idle mb q ->
  last mb + Z.of_nat (length ops) + SYS_MBOX_SIZE <= INT_MAX ->
  exists mb',
    run_mbox ops mb = Ok ((run_queue ops q).1, mb') /\
    mbox_idle mb' (run_queue ops q).2.
Proof.
  intros I Hb. destruct (proj1 (wp_Ok _ _ _) (wp_run_mbox ops mb q I Hb))
    as (rs & mb' & Hrun & -> & I' & _). eauto.
Qed.

(** the counters of a mailbox are never reset: after 2^31 - 128 posts,
    each followed by a fetch, a new mailbox is empty and the next post is
    undefined behaviour (the sum [first + SYS_MBOX_SIZE] overflows [int]). *)
Theorem mbox_counters_overflow (msg msg' : Msg) (mb : sys_mbox)
    (p e f x : ptr) (n : nat) :
  sys_mbox_new (Some p) (Some e) (Some f) (Some x) = (ERR_OK, Some mb) ->
  Z.of_nat n = 2 ^ 31 - SYS_MBOX_SIZE ->
  exists rs mb',
    run_mbox (rounds msg n) mb = Ok (rs, mb') /\
    mbox_idle mb' [] /\
    sys_mbox_trypost msg' mb' = Fault UB.
Proof.
  intros Hnew Hn. apply mbox_idle_new in Hnew as (I & Hf & _).
  destruct (proj1 (wp_Ok _ _ _) (wp_rounds msg n mb I ltac:(unfold INT_MAX; lia)))
    as (rs & mb' & Hrun & I' & Hf').
  exists rs, mb'. split_and!; try done.
  eapply trypost_overflow; [done|]. unfold INT_MAX. lia.
Qed.

(** [sys_mbox_new] reports success when a semaphore of the mailbox could
    not be allocated: with the mutex missing, the first post fails the
    assertion of [sys_arch_sem_wait] and the program aborts. *)
Theorem mbox_new_ignores_failure (msg : Msg) (p : ptr) (e f : option ptr) :
  exists mb, sys_mbox_new (Some p) e f None = (ERR_OK, Some mb) /\
    sys_mbox_trypost msg mb = Fault AssertFail.
Proof. eexists. split; [done|]. reflexivity. Qed.
End mbox.
Arguments sys_mbox : clear implicits.
Arguments try_op : clear implicits.

(** A new mailbox of numbers, with all its semaphores. *)
Definition demo_mbox : sys_mbox nat :=
  default (SysMbox 0 0 [] None None None 0)
    (sys_mbox_new (Some 1%positive) (Some 2%positive) (Some 3%positive)
       (Some 4%positive)).2.

Lemma demo_mbox_idle : mbox_idle demo_mbox [].
Proof.
  apply (mbox_idle_new demo_mbox 1%positive 2%positive 3%positive 4%positive).
  reflexivity.
Qed.

(** Posts until the mailbox is full, one too many, then two fetches. *)
Lemma mbox_refines_queue_witness :
  let ops := map OpPost (seq 0 128) ++ [OpFetch true; OpFetch false] in
  exists mb', run_mbox ops demo_mbox =
    Ok (replicate 127 (inl ERR_OK) ++
        [inl ERR_MEM; inr (Some (Some 0%nat)); inr (Some None)], mb') /\
    mbox_idle mb' (seq 2 125).
Proof.
  apply (mbox_refines_queue
    (map OpPost (seq 0 128) ++ [OpFetch true; OpFetch false]) demo_mbox []).
  - apply demo_mbox_idle.
  - vm_compute. congruence.
Defined.

Lemma mbox_counters_overflow_witness :
  exists rs mb',
    run_mbox (rounds 7%nat (Z.to_nat (2 ^ 31 - 128))) demo_mbox = Ok (rs, mb') /\
    mbox_idle mb' [] /\ sys_mbox_trypost 8%nat mb' = Fault UB.
Proof.
  apply (mbox_counters_overflow 7%nat 8%nat demo_mbox
           1%positive 2%positive 3%positive 4%positive).
  - reflexivity.
  - unfold SYS_MBOX_SIZE. rewrite Z2Nat.id; [reflexivity|vm_compute; congruence].
Defined.
