(* ===== verification/MboxConc.v ===== *)
(** * Mailboxes shared by threads (src/src/sys.c)

    The four functions that post to and fetch from a mailbox, as threads
    interleaved at every semaphore operation, whatever the scheduler does.
    The code of a thread between two semaphore operations is made of the
    accesses of [Mbox], run one at a time.  Proved: the accesses are mutually
    exclusive, and until the counters get near [INT_MAX] messages come out in the
    order they went in, none is lost or duplicated, the ring is never overrun, and
    posters and a single fetcher never deadlock; a second fetcher can be left asleep beside a message. *)

From S2P Require Import Prelude Sem Mbox.
Local Open Scope Z_scope.

Section conc.
Context {Msg : Type} (SYS_ARCH_TIMEOUT : Z).
(** Which threads call [sys_arch_mbox_fetch]. *)
Context (may_fetch : nat -> bool).
Abbreviation mbox := (sys_mbox Msg).

(** ** The code of the functions, one access at a time *)

(** A call: [sys_mbox_trypost(mb, m)], [sys_mbox_post(mb, m)],
    [sys_arch_mbox_tryfetch(mb, msg)] and [sys_arch_mbox_fetch(mb, msg,
    timeout)], with [want] false for a [NULL] [msg]. *)
Inductive mbox_op : Type :=
| TryPost (m : Msg)
| Post (m : Msg)
| TryFetch (want : bool)
| Fetch (want : bool) (timeout : Z).

(** What a call returns: an [err_t], nothing, [SYS_MBOX_EMPTY],
    [SYS_ARCH_TIMEOUT], or the time waited and the message in [*msg]. *)
Inductive mbox_res : Type :=
| ResErr (e : err_t)
| ResVoid
| ResEmpty
| ResTimeout
| ResGot (tn : Z) (m : option Msg).

(** Where a thread is. *)
Inductive mbox_pc : Type :=
| MIdle                              (* outside *)
| MLock (o : mbox_op)                (* before taking the mutex *)
| MTest (o : mbox_op) (tn : Z)       (* at the test for full or empty *)
| MIncWait (m : Msg)                 (* before wait_send++ *)
| MUnlockWait (o : mbox_op)          (* before releasing, to wait *)
| MBlock (o : mbox_op)               (* waiting on not_full or not_empty *)
| MRelock (o : mbox_op) (tn : Z)     (* before taking the mutex again *)
| MDecWait (m : Msg)                 (* before wait_send-- *)
| MPut (m : Msg) (r : mbox_res)      (* before storing the message *)
| MSigNotEmpty (r : mbox_res)        (* before signalling not_empty *)
| MGet (want : bool) (tn : Z)        (* before taking the message out *)
| MTestWait (r : mbox_res)           (* at if (mbox->wait_send) *)
| MSigNotFull (r : mbox_res)         (* before signalling not_full *)
| MUnlock (r : mbox_res)             (* before releasing, to return *)
| MDone (r : mbox_res)               (* returned *)
| MCrash (x : fault).                (* stopped *)

(** The places between taking and releasing the mutex. *)
Definition mholding (p : mbox_pc) : bool :=
  match p with
  | MTest _ _ | MIncWait _ | MUnlockWait _ | MDecWait _ | MPut _ _
  | MSigNotEmpty _ | MGet _ _ | MTestWait _ | MSigNotFull _ | MUnlock _ => true
  | _ => false
  end.

(** The scheduler: a call, a step of the code (where [r] is the time the wait
    for a message took, if the step is one), the end of a wait for a message
    by its timeout, a return. *)
Inductive mbox_choice : Type :=
| MCall (o : mbox_op)
| MRun (r : Z)
| MExpire
| MReturn.

(** Run the access [m], and go on at [k] of its result; [None] where the
    thread has to wait. *)
Definition run {A} (m : M mbox A) (k : A -> mbox_pc) (mb : mbox)
  : option (mbox_pc * mbox) :=
  match m mb with
  | Ok (a, mb') => Some (k a, mb')
  | Fault Blocked => None
  | Fault x => Some (MCrash x, mb)
  end.

(** After the wait of [sys_arch_mbox_fetch] for a message took [tn]. *)
Definition fetch_woken (o : mbox_op) (timeout tn : Z) : mbox_pc :=
  if negb (timeout =? 0) then
    if tn =? SYS_ARCH_TIMEOUT then MDone ResTimeout else MRelock o tn
  else MRelock o 0.

Definition mbox_run (r : Z) (p : mbox_pc) (mb : mbox)
  : option (mbox_pc * mbox) :=
  match p with
  | MLock o => run (sem_wait Mutex) (fun _ => MTest o 0) mb
  | MTest (TryPost m) _ =>
      run mbox_full (fun full : bool =>
        if full then MUnlock (ResErr ERR_MEM) else MPut m (ResErr ERR_OK)) mb
  | MTest (Post m) _ =>
      run mbox_full (fun full : bool =>
        if full then MIncWait m else MPut m ResVoid) mb
  | MTest (TryFetch want) _ =>
      run mbox_empty (fun empty : bool =>
        if empty then MUnlock ResEmpty else MGet want 0) mb
  | MTest (Fetch want timeout) tn =>
      run mbox_empty (fun empty : bool =>
        if empty then MUnlockWait (Fetch want timeout) else MGet want tn) mb
  | MIncWait m => run (wait_send_add 1) (fun _ => MUnlockWait (Post m)) mb
  | MUnlockWait o => run (sem_signal Mutex) (fun _ => MBlock o) mb
  | MBlock (Post m) => run (sem_wait NotFull) (fun _ => MRelock (Post m) 0) mb
  | MBlock (Fetch want timeout) =>
      run (sem_wait NotEmpty)
        (fun _ => fetch_woken (Fetch want timeout) timeout r) mb
  | MRelock (Post m) _ => run (sem_wait Mutex) (fun _ => MDecWait m) mb
  | MRelock o tn => run (sem_wait Mutex) (fun _ => MTest o tn) mb
  | MDecWait m => run (wait_send_add (-1)) (fun _ => MTest (Post m) 0) mb
  | MPut m r =>
      run (mbox_put m) (fun first : bool =>
        if first then MSigNotEmpty r else MUnlock r) mb
  | MSigNotEmpty r => run (sem_signal NotEmpty) (fun _ => MUnlock r) mb
  | MGet want tn =>
      run (mbox_get want) (fun m => MTestWait (ResGot tn m)) mb
  | MTestWait r =>
      run (gets wait_send) (fun ws =>
        if negb (ws =? 0) then MSigNotFull r else MUnlock r) mb
  | MSigNotFull r => run (sem_signal NotFull) (fun _ => MUnlock r) mb
  | MUnlock r => run (sem_signal Mutex) (fun _ => MDone r) mb
  | _ => None
  end.

Definition call_ok (t : nat) (o : mbox_op) : bool :=
  match o with Fetch _ _ => may_fetch t | _ => true end.

(** One step of thread [t]. *)
Definition mbox_next (t : nat) (ch : mbox_choice) (p : mbox_pc) (mb : mbox)
  : option (mbox_pc * mbox) :=
  match ch, p with
  | MCall o, MIdle => if call_ok t o then Some (MLock o, mb) else None
  | MRun r, _ => mbox_run r p mb
  | MExpire, MBlock (Fetch _ timeout) =>
      if timeout =? 0 then None else Some (MDone ResTimeout, mb)
  | MReturn, MDone _ => Some (MIdle, mb)
  | _, _ => None
  end.

(** The mailbox, the threads, and the history: the messages stored, and what
    each taken-out message was delivered as, both in order. *)
Record mbox_sys : Type := MboxSys {
  box : mbox;
  threads : list mbox_pc;
  posted : list Msg;
  fetched : list (option Msg)
}.

Definition log_post (p : mbox_pc) (l : list Msg) : list Msg :=
  match p with MPut m _ => l ++ [m] | _ => l end.

Definition log_fetch (p p' : mbox_pc) (l : list (option Msg))
  : list (option Msg) :=
  match p, p' with
  | MGet _ _, MTestWait (ResGot _ m) => l ++ [m]
  | _, _ => l
  end.

Definition mbox_step1 (t : nat) (ch : mbox_choice) (st : mbox_sys)
  : option mbox_sys :=
  p ← threads st !! t;
  '(p', mb') ← mbox_next t ch p (box st);
  Some (MboxSys mb' (<[t := p']> (threads st))
          (log_post p (posted st)) (log_fetch p p' (fetched st))).

Definition mbox_sys_step (st st' : mbox_sys) : Prop :=
  exists t ch, mbox_step1 t ch st = Some st'.

Definition mbox_init (mb : mbox) (n : nat) : mbox_sys :=
  MboxSys mb (replicate n MIdle) [] [].

(** The states of [n] threads that share a new mailbox. *)
Definition mbox_reachable (n : nat) (st : mbox_sys) : Prop :=
  exists mb p e f x,
    sys_mbox_new (Some p) (Some e) (Some f) (Some x) = (ERR_OK, Some mb) /\
    rtc mbox_sys_step (mbox_init mb n) st.

(** ** Invariant *)

(** The threads counted in [wait_send]. *)
Definition waiting (p : mbox_pc) : bool :=
  match p with
  | MUnlockWait (Post _) | MBlock (Post _) | MRelock (Post _) _ | MDecWait _ =>
      true
  | _ => false
  end.

(** What is true of the queue at each place. *)
Definition pc_ok (q : list Msg) (p : mbox_pc) : Prop :=
  match p with
  | MPut _ _ => Z.of_nat (length q) < SYS_MBOX_SIZE - 1
  | MIncWait _ => Z.of_nat (length q) = SYS_MBOX_SIZE - 1
  | MGet _ _ => q <> []
  | MCrash _ => False
  | _ => True
  end.

Definition binary (o : option Z) : Prop := o = Some 0 \/ o = Some 1.

(** A message taken out was delivered, unless the caller passed [NULL]. *)
Definition delivered (o : option Msg) (m : Msg) : Prop :=
  o = None \/ o = Some m.

(** The messages stored are the ones taken out, then the queue. *)
Definition history_ok (q : list Msg) (st : mbox_sys) : Prop :=
  exists out, posted st = out ++ q /\ Forall2 delivered (fetched st) out.

Record conc_inv (n : nat) (q : list Msg) (st : mbox_sys) : Prop := ConcInv {
  ci_length : length (threads st) = n;
  ci_mutex : mutex (box st) =
    Some (1 - Z.of_nat (count_if mholding (threads st)));
  ci_excl : (count_if mholding (threads st) <= 1)%nat;
  ci_repr : mbox_repr (box st) q;
  ci_hist : history_ok q st;
  ci_first : first (box st) = Z.of_nat (length (fetched st));
  ci_ne : binary (not_empty (box st));
  ci_nf : binary (not_full (box st));
  ci_wait : wait_send (box st) = Z.of_nat (count_if waiting (threads st));
  ci_pc : forall t p, threads st !! t = Some p -> pc_ok q p
}.

(** The bounds within which the counters stay in range. *)
Definition within_bounds (n : nat) (st : mbox_sys) : Prop :=
  Z.of_nat n <= INT_MAX /\
  Z.of_nat (length (posted st)) + SYS_MBOX_SIZE <= INT_MAX.

Lemma run_wp {A} (m : M mbox A) (k : A -> mbox_pc) mb p' mb' Q :
  wp m mb Q -> run m k mb = Some (p', mb') ->
  exists a, p' = k a /\ Q a mb'.
Proof.
  unfold wpf, run. destruct (m mb) as [[a mb0]|x]; [|done].
  intros HQ [= <- <-]. eauto.
Qed.

Lemma run_sem_wait s (k : unit -> mbox_pc) n mb p' mb' :
  get_sem s mb = Some n -> run (sem_wait s) k mb = Some (p', mb') ->
  0 < n /\ p' = k tt /\ mb' = set_sem s (n - 1) mb.
Proof.
  intros Hn. unfold run. destruct (bsem_take n) as [n'|] eqn:Ht.
  - rewrite (sem_wait_run s n n') by done. intros [= <- <-].
    unfold bsem_take in Ht. destruct (Z.leb_spec n 0); [done|].
    by injection Ht as <-.
  - unfold sem_wait, mbind, M_bind, gets. rewrite Hn.
    unfold deref, mret, M_ret. by rewrite Ht.
Qed.

Lemma run_sem_signal s (k : unit -> mbox_pc) n mb p' mb' :
  get_sem s mb = Some n -> run (sem_signal s) k mb = Some (p', mb') ->
  p' = k tt /\ mb' = set_sem s 1 mb.
Proof.
  intros Hn Hrun.
  apply (run_wp _ _ _ _ _ (fun _ mb0 => mb0 = set_sem s 1 mb)) in Hrun
    as ([] & -> & ->); [done|].
  by eapply wp_sem_signal.
Qed.

Lemma run_wait_send_add d (k : unit -> mbox_pc) mb p' mb' :
  INT_MIN <= wait_send mb + d <= INT_MAX ->
  run (wait_send_add d) k mb = Some (p', mb') ->
  p' = k tt /\ mb' = set_wait_send (wait_send mb + d) mb.
Proof.
  intros Hb Hrun.
  apply (run_wp _ _ _ _ _ (fun _ mb0 => mb0 = set_wait_send (wait_send mb + d) mb))
    in Hrun as ([] & -> & ->); [done|].
  unfold wait_send_add. wp_auto; [by apply int_ok_true|done].
Qed.

Lemma pc_ok_free q q' p : mholding p = false -> pc_ok q p -> pc_ok q' p.
Proof. by destruct p. Qed.

(** The queue and its history are the same; the step is about the semaphores
    and the places of the threads. *)
Definition ring_same (mb mb' : mbox) : Prop :=
  first mb' = first mb /\ last mb' = last mb /\ msgs mb' = msgs mb.

(** A step that leaves the ring alone. *)
Lemma conc_inv_ring_same n q st t p p' mb' :
  conc_inv n q st -> threads st !! t = Some p -> ring_same (box st) mb' ->
  mutex mb' = Some (1 - Z.of_nat (count_if mholding (<[t := p']> (threads st)))) ->
  (count_if mholding (<[t := p']> (threads st)) <= 1)%nat ->
  binary (not_empty mb') -> binary (not_full mb') ->
  wait_send mb' = Z.of_nat (count_if waiting (<[t := p']> (threads st))) ->
  pc_ok q p' ->
  conc_inv n q (MboxSys mb' (<[t := p']> (threads st)) (posted st) (fetched st)).
Proof.
  intros [] Hp (Hf & Hl & Hm) Hmx Hex Hne Hnf Hw Hok. split; cbn; try done.
  - by rewrite length_insert.
  - by apply (mbox_repr_ring (box st)).
  - by rewrite Hf.
  - intros u r Hu. destruct (decide (t = u)) as [<-|Hneq].
    + rewrite list_lookup_insert_eq in Hu by (by eapply lookup_lt_Some).
      by injection Hu as <-.
    + rewrite list_lookup_insert_ne in Hu by done. by apply (ci_pc0 u).
Qed.

(** A step that changes the ring, by a thread inside. *)
Lemma conc_inv_ring n q q' st t p p' mb' post fetch :
  conc_inv n q st -> threads st !! t = Some p ->
  mholding p = true -> mholding p' = true ->
  waiting p = false -> waiting p' = false ->
  same_control (box st) mb' -> mbox_repr mb' q' ->
  history_ok q' (MboxSys mb' (<[t := p']> (threads st)) post fetch) ->
  first mb' = Z.of_nat (length fetch) -> pc_ok q' p' ->
  conc_inv n q' (MboxSys mb' (<[t := p']> (threads st)) post fetch).
Proof.
  intros [] Hp Hh Hh' Hw Hw' (Hne & Hnf & Hmx & Hws) R Hhist Hf Hok.
  pose proof (count_if_insert mholding _ _ _ p' Hp) as Hc.
  pose proof (count_if_insert waiting _ _ _ p' Hp) as Hcw.
  rewrite Hh, Hh' in Hc. rewrite Hw, Hw' in Hcw.
  split; cbn; try done; try lia.
  - by rewrite length_insert.
  - rewrite Hmx, ci_mutex0. do 2 f_equal. lia.
  - by rewrite Hne.
  - by rewrite Hnf.
  - intros u r Hu. destruct (decide (t = u)) as [<-|Hneq].
    + rewrite list_lookup_insert_eq in Hu by (by eapply lookup_lt_Some).
      by injection Hu as <-.
    + rewrite list_lookup_insert_ne in Hu by done.
      apply (pc_ok_free q); [|by apply (ci_pc0 u)].
      destruct (mholding r) eqn:Hr; [|done].
      by pose proof (count_if_unique _ _ _ _ _ _ ci_excl0 Hp Hh Hu Hr).
Qed.

(** ** Who is waiting, and who will wake it up *)

Definition in_fetch (p : mbox_pc) : bool :=
  match p with
  | MLock (Fetch _ _) | MTest (Fetch _ _) _ | MUnlockWait (Fetch _ _)
  | MBlock (Fetch _ _) | MRelock (Fetch _ _) _ => true
  | _ => false
  end.

(** A fetcher that saw an empty mailbox and waits for a message. *)
Definition fetch_waiting (p : mbox_pc) : bool :=
  match p with
  | MUnlockWait (Fetch _ _) | MBlock (Fetch _ _) => true
  | _ => false
  end.

(** A poster that saw a full mailbox and waits for room. *)
Definition post_waiting (p : mbox_pc) : bool :=
  match p with
  | MUnlockWait (Post _) | MBlock (Post _) => true
  | _ => false
  end.

Definition signals_not_empty (p : mbox_pc) : bool :=
  match p with MSigNotEmpty _ => true | _ => false end.

(** A thread that will store a message or wake up a poster. *)
Definition frees_poster (p : mbox_pc) : bool :=
  match p with
  | MTestWait _ | MSigNotFull _ | MRelock (Post _) _ | MDecWait _
  | MTest (Post _) _ | MPut _ _ | MIncWait _ => true
  | _ => false
  end.

Record live_inv (q : list Msg) (st : mbox_sys) : Prop := LiveInv {
  li_fetch : forall t p, threads st !! t = Some p -> in_fetch p = true ->
    may_fetch t = true;
  li_ne : (0 < count_if fetch_waiting (threads st))%nat ->
    q = [] \/ not_empty (box st) = Some 1 \/
    (0 < count_if signals_not_empty (threads st))%nat;
  li_nf : (0 < count_if post_waiting (threads st))%nat ->
    q <> [] \/ not_full (box st) = Some 1 \/
    (0 < count_if frees_poster (threads st))%nat
}.

(** At most one thread fetches. *)
Definition single_fetcher : Prop :=
  forall t u, may_fetch t = true -> may_fetch u = true -> t = u.

Lemma live_one_fetcher q st :
  single_fetcher -> live_inv q st ->
  (count_if fetch_waiting (threads st) <= 1)%nat.
Proof.
  intros Hs [Hf _ _]. apply count_if_le_1. intros t p u r Hp Hw Hr Hw'.
  apply Hs; [apply (Hf t p)|apply (Hf u r)]; try done.
  - by destruct p as [| | | |[]|[]| | | | | | | | | |].
  - by destruct r as [| | | |[]|[]| | | | | | | | | |].
Qed.

Lemma post_waiting_count l :
  (count_if post_waiting l <= count_if waiting l)%nat.
Proof. apply count_if_mono. by intros [| | | |[]|[]| | | | | | | | | |]. Qed.

(** The fetchers after thread [t] went on within its call. *)
Lemma live_fetch_step q st t p p' :
  live_inv q st -> threads st !! t = Some p ->
  (in_fetch p' = true -> may_fetch t = true \/ in_fetch p = true) ->
  forall u r, <[t := p']> (threads st) !! u = Some r -> in_fetch r = true ->
    may_fetch u = true.
Proof.
  intros [Hf _ _] Hp Himp u r Hu Hr. destruct (decide (t = u)) as [<-|Hne].
  - rewrite list_lookup_insert_eq in Hu by (by eapply lookup_lt_Some).
    injection Hu as <-. destruct (Himp Hr) as [|]; [done|by apply (Hf t p)].
  - rewrite list_lookup_insert_ne in Hu by done. by apply (Hf u r).
Qed.

(** The bookkeeping of a step that leaves the ring alone: the counts before
    and after, and the fields of the mailbox. *)
Ltac control_conc I Hp :=
  match goal with
  | |- conc_inv ?n ?q (MboxSys ?mb' (<[?t := ?p']> (threads ?st)) _ _) =>
      pose proof (count_if_insert mholding _ _ _ p' Hp) as Hcm;
      pose proof (count_if_insert waiting _ _ _ p' Hp) as Hcw;
      cbn in Hcm, Hcw;
      pose proof (ci_mutex _ _ _ I); pose proof (ci_excl _ _ _ I);
      pose proof (ci_ne _ _ _ I); pose proof (ci_nf _ _ _ I);
      pose proof (ci_wait _ _ _ I); pose proof (ci_pc _ _ _ I t _ Hp);
      apply (conc_inv_ring_same n q st t _ p' mb' I Hp);
      unfold ring_same, binary in *;
      destruct (box st); cbn in *; try done; try tauto; try lia; try congruence;
      try (f_equal; lia); try (etrans; [eassumption|f_equal; lia])
  end.

(** One of the two halves of [live_inv]: nobody waits any more, or there is
    a reason not to, or there was one and it is still there. *)
Ltac live_half L :=
  let Hpos := fresh "Hpos" in
  intros Hpos;
  first
    [ exfalso; lia
    | left; solve [done | intros ?; subst; unfold SYS_MBOX_SIZE in *; done]
    | right; left; done
    | right; right; lia
    | destruct L as [L|[L|L]];
      [lia|left; exact L|right; left; congruence|right; right; lia] ].

Ltac control_live I Hp :=
  match goal with
  | |- single_fetcher -> live_inv ?q ?st ->
       live_inv _ (MboxSys ?mb' (<[?t := ?p']> (threads ?st)) _ _) =>
      let Hs := fresh in let L := fresh in
      intros Hs L;
      pose proof (count_if_insert fetch_waiting _ _ _ p' Hp) as Hcf;
      pose proof (count_if_insert post_waiting _ _ _ p' Hp) as Hcp;
      pose proof (count_if_insert signals_not_empty _ _ _ p' Hp) as Hcs;
      pose proof (count_if_insert frees_poster _ _ _ p' Hp) as Hca;
      cbn in Hcf, Hcp, Hcs, Hca;
      pose proof (live_one_fetcher q st Hs L);
      pose proof (post_waiting_count (threads st));
      pose proof (ci_wait _ _ _ I); pose proof (ci_pc _ _ _ I t _ Hp);
      pose proof (ci_ne _ _ _ I); pose proof (ci_nf _ _ _ I);
      let Lne := fresh "Lne" in let Lnf := fresh "Lnf" in
      pose proof (li_ne _ _ L) as Lne; pose proof (li_nf _ _ L) as Lnf;
      split; cbn [threads box];
      [ apply (live_fetch_step q st t _ _ L Hp); cbn; tauto
      | destruct (box st); cbn in *; live_half Lne
      | destruct (box st); cbn in *; live_half Lnf ]
  end.

Ltac control_step I Hp := split; [control_conc I Hp|control_live I Hp].

Lemma conc_inv_last n q st :
  conc_inv n q st -> last (box st) = Z.of_nat (length (posted st)).
Proof.
  intros I. destruct (ci_hist _ _ _ I) as (out & -> & Hout).
  rewrite (repr_last _ _ (ci_repr _ _ _ I)), (ci_first _ _ _ I).
  rewrite (Forall2_length _ _ _ Hout), length_app. lia.
Qed.

Lemma conc_inv_counters n q st :
  conc_inv n q st -> within_bounds n st -> counters_ok (box st).
Proof.
  intros I [_ Hb]. pose proof (conc_inv_last n q st I).
  pose proof (repr_last _ _ (ci_repr _ _ _ I)).
  split; unfold SYS_MBOX_SIZE in *; lia.
Qed.

(** The test of [sys_mbox_trypost] and [sys_mbox_post], and that of the two
    fetches. *)
Lemma run_mbox_full n q st (k : bool -> mbox_pc) p' mb' :
  conc_inv n q st -> within_bounds n st ->
  run mbox_full k (box st) = Some (p', mb') ->
  p' = k (bool_decide (Z.of_nat (length q) = SYS_MBOX_SIZE - 1)) /\ mb' = box st.
Proof.
  intros I Hb Hrun.
  apply (run_wp _ _ _ _ _ (fun a mb0 =>
    a = bool_decide (Z.of_nat (length q) = SYS_MBOX_SIZE - 1) /\ mb0 = box st))
    in Hrun as (a & -> & -> & ->); [done|].
  eapply wp_mbox_full; [apply I|by eapply conc_inv_counters|done].
Qed.

Lemma run_mbox_empty n q st (k : bool -> mbox_pc) p' mb' :
  conc_inv n q st -> run mbox_empty k (box st) = Some (p', mb') ->
  p' = k (bool_decide (q = [])) /\ mb' = box st.
Proof.
  intros I Hrun.
  apply (run_wp _ _ _ _ _ (fun a mb0 => a = bool_decide (q = []) /\ mb0 = box st))
    in Hrun as (a & -> & -> & ->); [done|].
  by eapply wp_mbox_empty; [apply I|].
Qed.

(** [wait_send] counts waiting threads, so it stays in range. *)
Lemma wait_send_inc_ok n q st t p p' :
  conc_inv n q st -> within_bounds n st -> threads st !! t = Some p ->
  waiting p = false -> waiting p' = true ->
  INT_MIN <= wait_send (box st) + 1 <= INT_MAX.
Proof.
  intros I [Hn _] Hp Hw Hw'.
  pose proof (count_if_insert waiting _ _ _ p' Hp) as Hc.
  pose proof (count_if_length waiting (<[t := p']> (threads st))).
  rewrite length_insert, (ci_length _ _ _ I) in *. rewrite Hw, Hw' in Hc.
  pose proof (ci_wait _ _ _ I). unfold INT_MIN. cbn in Hc. lia.
Qed.

Lemma wait_send_dec_ok n q st t p :
  conc_inv n q st -> within_bounds n st -> threads st !! t = Some p ->
  waiting p = true -> INT_MIN <= wait_send (box st) + -1 <= INT_MAX.
Proof.
  intros I [Hn _] Hp Hw. pose proof (count_if_pos waiting _ _ _ Hp Hw).
  pose proof (count_if_length waiting (threads st)).
  pose proof (ci_wait _ _ _ I). pose proof (ci_length _ _ _ I).
  unfold INT_MIN. lia.
Qed.

(** A step that takes the mutex, and one that tests the ring. *)
Ltac wait_mutex Hmx I Hp Hrun :=
  apply (run_sem_wait Mutex _ _ _ _ _ Hmx) in Hrun as (? & -> & ->);
  control_step I Hp.

Ltac test_ring lem I Hp Hrun :=
  apply lem in Hrun as [-> ->]; [|done..]; case_bool_decide; control_step I Hp.

(** Every step of the code that is not one of the two ring accesses. *)
Lemma control_run n q st t r p p' mb' :
  conc_inv n q st -> within_bounds n st -> threads st !! t = Some p ->
  mbox_run r p (box st) = Some (p', mb') ->
  match p with MPut _ _ | MGet _ _ => False | _ => True end ->
  let st' := MboxSys mb' (<[t := p']> (threads st)) (posted st) (fetched st) in
  conc_inv n q st' /\ (single_fetcher -> live_inv q st -> live_inv q st').
Proof.
  cbn zeta. intros I Hb Hp Hrun Hring.
  pose proof (ci_mutex _ _ _ I) as Hmx.
  pose proof (repr_capacity _ _ (ci_repr _ _ _ I)) as Hcap.
  pose proof (ci_ne _ _ _ I) as Hne. pose proof (ci_nf _ _ _ I) as Hnf.
  destruct p as [|o|[m|m|w|w to] tn|m|o|[m|m|w|w to]|[m|m|w|w to] tn|m|m r0|r0
                 |w tn|r0|r0|r0|r0|x]; cbn in Hrun; try done.
  - wait_mutex Hmx I Hp Hrun.
  - test_ring (run_mbox_full n q) I Hp Hrun.
  - test_ring (run_mbox_full n q) I Hp Hrun.
  - test_ring (run_mbox_empty n q) I Hp Hrun.
  - test_ring (run_mbox_empty n q) I Hp Hrun.
  - apply run_wait_send_add in Hrun as [-> ->].
    + control_step I Hp.
    + by eapply (wait_send_inc_ok n q st t _ (MUnlockWait (Post m))).
  - apply (run_sem_signal Mutex _ _ _ _ _ Hmx) in Hrun as (-> & ->).
    destruct o; control_step I Hp.
  - destruct Hnf as [Hnf|Hnf];
      apply (run_sem_wait NotFull _ _ _ _ _ Hnf) in Hrun as (Hpos & -> & ->);
      [done|]. control_step I Hp.
  - destruct Hne as [Hne|Hne];
      apply (run_sem_wait NotEmpty _ _ _ _ _ Hne) in Hrun as (Hpos & -> & ->);
      [done|]. unfold fetch_woken. repeat case_match; control_step I Hp.
  - wait_mutex Hmx I Hp Hrun.
  - wait_mutex Hmx I Hp Hrun.
  - wait_mutex Hmx I Hp Hrun.
  - wait_mutex Hmx I Hp Hrun.
  - apply run_wait_send_add in Hrun as [-> ->].
    + control_step I Hp.
    + by eapply wait_send_dec_ok.
  - destruct Hne as [Hne|Hne];
      apply (run_sem_signal NotEmpty _ _ _ _ _ Hne) in Hrun as (-> & ->);
      control_step I Hp.
  - cbn in Hrun. injection Hrun as <- <-.
    destruct (Z.eqb_spec (wait_send (box st)) 0) as [E|E]; control_step I Hp.
  - destruct Hnf as [Hnf|Hnf];
      apply (run_sem_signal NotFull _ _ _ _ _ Hnf) in Hrun as (-> & ->);
      control_step I Hp.
  - apply (run_sem_signal Mutex _ _ _ _ _ Hmx) in Hrun as (-> & ->).
    control_step I Hp.
Qed.

(** Storing a message. *)
Lemma put_run n q st t r m res p' mb' :
  conc_inv n q st -> within_bounds n st ->
  threads st !! t = Some (MPut m res) ->
  mbox_run r (MPut m res) (box st) = Some (p', mb') ->
  p' = (if bool_decide (q = []) then MSigNotEmpty res else MUnlock res) /\
  same_control (box st) mb' /\
  conc_inv n (q ++ [m])
    (MboxSys mb' (<[t := p']> (threads st)) (posted st ++ [m]) (fetched st)).
Proof.
  intros I Hb Hp Hrun. pose proof (ci_pc _ _ _ I t _ Hp) as Hroom. cbn in Hroom.
  pose proof (conc_inv_counters n q st I Hb) as [Hl _].
  apply (run_wp _ _ _ _ _ (fun a mb0 => a = bool_decide (q = []) /\
    mbox_repr mb0 (q ++ [m]) /\ same_control (box st) mb0 /\
    first mb0 = first (box st))) in Hrun as (a & -> & -> & R & Hsame & Hf).
  - split; [done|]. split; [done|].
    apply (conc_inv_ring n q _ st t _ _ _ _ _ I Hp); try done;
      try (by case_bool_decide).
    + destruct (ci_hist _ _ _ I) as (out & Hpost & Hout). exists out. cbn.
      by rewrite Hpost, app_assoc.
    + by rewrite Hf, (ci_first _ _ _ I).
  - eapply wp_mbox_put; [apply I|done..|]. intros mb0 R Hsame Hf _. by split_and!.
Qed.

(** The signal after a store reaches a waiting fetcher: the first message
    after the mailbox was empty is announced, and the announcement of an
    earlier one is still there, since only this thread holds the mutex. *)
Lemma put_live n q st t m res mb' post fetch :
  conc_inv n q st -> live_inv q st ->
  threads st !! t = Some (MPut m res) -> same_control (box st) mb' ->
  let p' := if bool_decide (q = []) then MSigNotEmpty res else MUnlock res in
  live_inv (q ++ [m]) (MboxSys mb' (<[t := p']> (threads st)) post fetch).
Proof.
  cbn zeta. intros I L Hp (Hne & Hnf & _).
  set (p' := if bool_decide (q = []) then MSigNotEmpty res else MUnlock res).
  pose proof (count_if_insert fetch_waiting _ _ _ p' Hp) as Hcf.
  pose proof (count_if_insert signals_not_empty _ _ _ p' Hp) as Hcs.
  assert (Hsig : count_if signals_not_empty (threads st) = 0%nat).
  { destruct (decide (0 < count_if signals_not_empty (threads st))%nat)
      as [(u & p & Hu & Hs)%count_if_pos_inv|]; [|lia].
    assert (t = u) as <-.
    { apply (count_if_unique mholding _ _ _ _ _ (ci_excl _ _ _ I) Hp eq_refl Hu).
      by destruct p. }
    rewrite Hp in Hu. by injection Hu as <-. }
  split; cbn [threads box].
  - apply (live_fetch_step q st t _ _ L Hp). subst p'. by case_bool_decide.
  - intros Hpos. right. rewrite Hne. subst p'. case_bool_decide as Hq; cbn in *.
    + right. lia.
    + left. destruct (li_ne _ _ L) as [|[|]]; [lia|done|done|lia].
  - intros _. left. by destruct q.
Qed.

(** Taking a message out. *)
Lemma get_run n q st t r want tn p' mb' :
  conc_inv n q st -> within_bounds n st ->
  threads st !! t = Some (MGet want tn) ->
  mbox_run r (MGet want tn) (box st) = Some (p', mb') ->
  exists m q', q = m :: q' /\
  p' = MTestWait (ResGot tn (if want then Some m else None)) /\
  same_control (box st) mb' /\
  conc_inv n q'
    (MboxSys mb' (<[t := p']> (threads st)) (posted st)
       (fetched st ++ [if want then Some m else None])).
Proof.
  intros I Hb Hp Hrun. pose proof (ci_pc _ _ _ I t _ Hp) as Hq. cbn in Hq.
  destruct q as [|m q]; [done|]. exists m, q. split; [done|].
  pose proof (conc_inv_counters n _ st I Hb) as [_ Hf0].
  apply (run_wp _ _ _ _ _ (fun a mb0 => a = (if want then Some m else None) /\
    mbox_repr mb0 q /\ same_control (box st) mb0 /\
    first mb0 = first (box st) + 1)) in Hrun as (a & -> & -> & R & Hsame & Hf).
  - split; [done|]. split; [done|].
    apply (conc_inv_ring n (m :: q) _ st t _ _ _ _ _ I Hp); try done.
    + destruct (ci_hist _ _ _ I) as (out & Hpost & Hout).
      exists (out ++ [m]). cbn. rewrite Hpost, <- app_assoc. split; [done|].
      apply Forall2_app; [done|]. constructor; [|constructor].
      destruct want; [by right|by left].
    + rewrite Hf, (ci_first _ _ _ I), length_app. cbn. lia.
  - eapply wp_mbox_get; [apply I|unfold SYS_MBOX_SIZE in *; lia|].
    intros mb0 R Hsame Hf _. by split_and!.
Qed.

Lemma get_live n m q st t want tn res mb' post fetch :
  conc_inv n (m :: q) st -> live_inv (m :: q) st ->
  threads st !! t = Some (MGet want tn) -> same_control (box st) mb' ->
  live_inv q (MboxSys mb' (<[t := MTestWait res]> (threads st)) post fetch).
Proof.
  intros I L Hp (Hne & Hnf & _).
  pose proof (count_if_insert fetch_waiting _ _ _ (MTestWait res) Hp) as Hcf.
  pose proof (count_if_insert signals_not_empty _ _ _ (MTestWait res) Hp) as Hcs.
  pose proof (count_if_insert frees_poster _ _ _ (MTestWait res) Hp) as Hca.
  cbn in Hcf, Hcs, Hca. split; cbn [threads box].
  - by apply (live_fetch_step (m :: q) st t _ _ L Hp).
  - intros Hpos. rewrite Hne.
    destruct (li_ne _ _ L) as [|[|]]; [lia|done|auto|right; right; lia].
  - intros _. right. right. lia.
Qed.

Lemma conc_inv_step n q st st' :
  conc_inv n q st -> within_bounds n st -> mbox_sys_step st st' ->
  exists q', conc_inv n q' st' /\
    (single_fetcher -> live_inv q st -> live_inv q' st').
Proof.
  intros I Hb (t & ch & Hstep). unfold mbox_step1 in Hstep.
  destruct (threads st !! t) as [p|] eqn:Hp; [|done]. cbn in Hstep.
  destruct (mbox_next t ch p (box st)) as [[p' mb']|] eqn:Hn; [|done].
  cbn in Hstep. injection Hstep as <-.
  destruct ch as [o|r| |].
  - destruct p; try discriminate Hn. cbn in Hn.
    destruct (call_ok t o) eqn:Hok; [|done].
    injection Hn as <- <-. exists q.
    split; [control_conc I Hp|]. intros Hs L.
    pose proof (li_ne _ _ L) as Lne. pose proof (li_nf _ _ L) as Lnf.
    pose proof (count_if_insert fetch_waiting _ _ _ (MLock o) Hp) as Hcf.
    pose proof (count_if_insert post_waiting _ _ _ (MLock o) Hp) as Hcp.
    pose proof (count_if_insert signals_not_empty _ _ _ (MLock o) Hp) as Hcs.
    pose proof (count_if_insert frees_poster _ _ _ (MLock o) Hp) as Hca.
    cbn in Hcf, Hcp, Hcs, Hca. split; cbn [threads box].
    + apply (live_fetch_step q st t _ _ L Hp). left. by destruct o.
    + live_half Lne.
    + live_half Lnf.
  - destruct p; try (exists q; by eapply (control_run n q st t r)).
    + destruct (put_run n q st t r _ _ _ _ I Hb Hp Hn) as (-> & Hsame & I').
      exists (q ++ [m]). split; [done|]. intros _ L. by eapply put_live.
    + destruct (get_run n q st t r _ _ _ _ I Hb Hp Hn)
        as (m & q' & -> & -> & Hsame & I').
      exists q'. split; [done|]. intros _ L. by eapply get_live.
  - destruct p as [| | | | |[]| | | | | | | | | |]; try discriminate Hn.
    cbn in Hn. case_match; [done|].
    injection Hn as <- <-. exists q. control_step I Hp.
  - destruct p; try discriminate Hn. injection Hn as <- <-. exists q.
    control_step I Hp.
Qed.

Lemma conc_inv_init mb p e f x n :
  sys_mbox_new (Some p) (Some e) (Some f) (Some x) = (ERR_OK, Some mb) ->
  conc_inv n [] (mbox_init mb n) /\ live_inv [] (mbox_init mb n).
Proof.
  intros Hnew. apply mbox_idle_new in Hnew as ([R Hmx _ _] & Hf & _ & Hw & Hne & Hnf).
  split; split; cbn;
    rewrite ?(count_if_replicate mholding), ?(count_if_replicate waiting),
      ?(count_if_replicate fetch_waiting), ?(count_if_replicate post_waiting)
      by done; try done.
  - apply length_replicate.
  - lia.
  - by exists [].
  - by left.
  - by left.
  - intros t q [-> _]%lookup_replicate. done.
  - intros t q [-> _]%lookup_replicate. done.
  - lia.
  - lia.
Qed.

Lemma posted_grows st st' :
  mbox_sys_step st st' -> (length (posted st) <= length (posted st'))%nat.
Proof.
  intros (t & ch & Hstep). unfold mbox_step1 in Hstep.
  destruct (threads st !! t) as [p|]; [|done]. cbn in Hstep.
  destruct (mbox_next t ch p (box st)) as [[p' mb']|]; [|done].
  cbn in Hstep. injection Hstep as <-. cbn.
  destruct p; cbn; rewrite ?length_app; lia.
Qed.

Lemma conc_inv_reachable n st :
  mbox_reachable n st -> within_bounds n st ->
  exists q, conc_inv n q st /\ (single_fetcher -> live_inv q st).
Proof.
  intros (mb & p & e & f & x & Hnew & Hr).
  apply conc_inv_init with (n := n) in Hnew as [I0 L0].
  revert Hr. generalize dependent (mbox_init mb n).
  assert (forall st0 q0, conc_inv n q0 st0 -> (single_fetcher -> live_inv q0 st0) ->
    rtc mbox_sys_step st0 st -> within_bounds n st ->
    exists q, conc_inv n q st /\ (single_fetcher -> live_inv q st)) as Hgen.
  { intros st0 q0 I L Hr. revert q0 I L.
    induction Hr as [st1|st1 st2 st3 Hstep Hr IH]; intros q0 I L Hb; [by eauto|].
    assert (within_bounds n st1) as Hb1.
    { destruct Hb as [Hn Hb]. split; [done|].
      assert (length (posted st2) <= length (posted st3))%nat.
      { clear -Hr. induction Hr as [|? ? ? Hs _ IH]; [done|].
        apply posted_grows in Hs. lia. }
      apply posted_grows in Hstep. lia. }
    destruct (conc_inv_step n q0 st1 st2 I Hb1 Hstep) as (q1 & I1 & L1).
    apply (IH q1); auto. }
  intros st0 I0 L0 Hr Hb. by apply (Hgen st0 []).
Qed.

(** ** Progress *)

(** No thread in the code of the four functions can go on. *)
Definition stuck (st : mbox_sys) : Prop :=
  forall t p r, threads st !! t = Some p -> mbox_run r p (box st) = None.

Lemma run_progress {A} (m : M mbox A) (k : A -> mbox_pc) mb Q :
  wp m mb Q -> run m k mb <> None.
Proof. unfold wpf, run. by destruct (m mb) as [[a mb']|]. Qed.

Lemma binary_some o : binary o -> exists v, o = Some v.
Proof. intros [->| ->]; eauto. Qed.

(** The thread that holds the mutex can always go on. *)
Lemma holder_progress n q st t p :
  conc_inv n q st -> within_bounds n st ->
  threads st !! t = Some p -> mholding p = true ->
  mbox_run 0 p (box st) <> None.
Proof.
  intros I Hb Hp Hh.
  pose proof (ci_mutex _ _ _ I) as Hmx. pose proof (ci_repr _ _ _ I) as R.
  pose proof (conc_inv_counters n q st I Hb) as Hct.
  destruct (binary_some _ (ci_ne _ _ _ I)) as [ne Hne].
  destruct (binary_some _ (ci_nf _ _ _ I)) as [nf Hnf].
  pose proof (ci_pc _ _ _ I t p Hp) as Hok.
  destruct p as [|o|[m|m|w|w to] tn|m|o|o|o tn|m|m r0|r0|w tn|r0|r0|r0|r0|x];
    try discriminate Hh; cbn [mbox_run].
  1-2: by apply (run_progress _ _ _ (fun _ _ => True)), (wp_mbox_full _ q _ R Hct).
  1-2: by apply (run_progress _ _ _ (fun _ _ => True)), (wp_mbox_empty _ q _ R).
  all: try (by eapply run_progress, (wp_sem_signal Mutex _ _ (fun _ _ => True))).
  - unfold run, wait_send_add, mbind, M_bind, gets, require.
    by destruct (int_ok _).
  - unfold run, wait_send_add, mbind, M_bind, gets, require.
    by destruct (int_ok _).
  - eapply run_progress, (wp_mbox_put _ q _ (fun _ _ => True) R); try done.
    apply Hct.
  - by eapply run_progress, (wp_sem_signal NotEmpty _ _ (fun _ _ => True)).
  - destruct q as [|m q]; [done|].
    eapply run_progress, (wp_mbox_get _ m q _ (fun _ _ => True) R); try done.
    destruct Hct. unfold SYS_MBOX_SIZE in *. lia.
  - done.
  - by eapply run_progress, (wp_sem_signal NotFull _ _ (fun _ _ => True)).
Qed.

Lemma stuck_mutex_free n q st :
  conc_inv n q st -> within_bounds n st -> stuck st ->
  mutex (box st) = Some 1 /\ count_if mholding (threads st) = 0%nat.
Proof.
  intros I Hb Hs.
  assert (count_if mholding (threads st) = 0%nat) as H0.
  { destruct (decide (0 < count_if mholding (threads st))%nat)
      as [(t & p & Hp & Hh)%count_if_pos_inv|]; [|lia].
    exfalso. eapply (holder_progress n q st t p); try done. by apply (Hs t). }
  split; [|done]. rewrite (ci_mutex _ _ _ I), H0. done.
Qed.

Lemma stuck_places n q st t p :
  conc_inv n q st -> within_bounds n st -> stuck st ->
  threads st !! t = Some p ->
  match p with
  | MIdle | MDone _ => True
  | MBlock (Post _) => not_full (box st) = Some 0
  | MBlock (Fetch _ _) => not_empty (box st) = Some 0
  | MBlock _ => True
  | _ => False
  end.
Proof.
  intros I Hb Hs Hp. destruct (stuck_mutex_free n q st I Hb Hs) as [Hmx H0].
  pose proof (Hs t p 0 Hp) as Hrun. pose proof (ci_pc _ _ _ I t p Hp) as Hok.
  destruct (mholding p) eqn:Hh.
  { pose proof (count_if_pos mholding _ _ _ Hp Hh). lia. }
  destruct p as [|o|[]|m|o|[m|m|w|w to]|[m|m|w|w to] tn|m|m r0|r0|w tn|r0|r0|r0
                |r0|x]; try done.
  all: try (exfalso; eapply run_progress; [|exact Hrun];
            by eapply (wp_sem_wait Mutex _ _ _ (fun _ _ => True))).
  - destruct (ci_nf _ _ _ I) as [|Hnf]; [done|].
    exfalso. eapply run_progress; [|exact Hrun].
    by eapply (wp_sem_wait NotFull _ _ _ (fun _ _ => True)).
  - destruct (ci_ne _ _ _ I) as [|Hne]; [done|].
    exfalso. eapply run_progress; [|exact Hrun].
    by eapply (wp_sem_wait NotEmpty _ _ _ (fun _ _ => True)).
Qed.

(** ** Properties *)

(** at most one thread at a time is between taking and releasing the
    mutex of the mailbox, in any interleaving of any number of posts and
    fetches. *)
Theorem mbox_mutual_exclusion (n : nat) (st : mbox_sys) (t u : nat)
    (p r : mbox_pc) :
  mbox_reachable n st -> within_bounds n st ->
  threads st !! t = Some p -> mholding p = true ->
  threads st !! u = Some r -> mholding r = true ->
  t = u.
Proof.
  intros Hr Hb Hp Hh Hu Hh'.
  destruct (conc_inv_reachable n st Hr Hb) as (q & I & _).
  by eapply count_if_unique; [apply I|..].
Qed.



(** ** Schedules *)

Fixpoint mbox_exec (sched : list (nat * mbox_choice)) (st : mbox_sys)
  : option mbox_sys :=
  match sched with
  | [] => Some st
  | (t, ch) :: sched => mbox_step1 t ch st ≫= mbox_exec sched
  end.

Lemma mbox_exec_sound sched st st' :
  mbox_exec sched st = Some st' -> rtc mbox_sys_step st st'.
Proof.
  revert st. induction sched as [|[t ch] sched IH]; cbn; intros st.
  - by intros [= ->].
  - destruct (mbox_step1 t ch st) as [st1|] eqn:E; [|done]. cbn. intros H.
    eapply rtc_l; [by exists t, ch|by apply IH].
Qed.
End conc.
Arguments mbox_op : clear implicits.
Arguments mbox_res : clear implicits.
Arguments mbox_pc : clear implicits.
Arguments mbox_choice : clear implicits.
Arguments mbox_sys : clear implicits.

(** ** Concrete runs

    Messages are numbers; [SYS_ARCH_TIMEOUT] is lwIP's value. *)
Definition demo_run (may_fetch : nat -> bool) (n : nat)
    (sched : list (nat * mbox_choice nat)) : mbox_sys nat :=
  default (mbox_init demo_mbox n)
    (mbox_exec 4294967295 may_fetch sched (mbox_init demo_mbox n)).

Lemma demo_run_reachable may_fetch n sched :
  mbox_exec 4294967295 may_fetch sched (mbox_init demo_mbox n) <> None ->
  mbox_reachable 4294967295 may_fetch n (demo_run may_fetch n sched).
Proof.
  intros Hex. unfold demo_run.
  destruct (mbox_exec _ _ _ _) as [st|] eqn:E; [|done].
  exists demo_mbox, 1%positive, 2%positive, 3%positive, 4%positive.
  split; [reflexivity|]. by apply mbox_exec_sound in E.
Qed.

Definition steps (t k : nat) : list (nat * mbox_choice nat) :=
  replicate k (t, MRun 0).

(** Thread [t] fetches until it waits; thread [t] posts [m] and returns. *)
Definition fetch_waits (t : nat) : list (nat * mbox_choice nat) :=
  (t, MCall (Fetch true 0)) :: steps t 3.

Definition posts (t m k : nat) : list (nat * mbox_choice nat) :=
  (t, MCall (Post m)) :: steps t k ++ [(t, MReturn)].

(** Threads 0 and 1 wait for a message; thread 2 posts 10 and 11; thread 0
    wakes up and gets 10. *)
Definition two_fetchers : list (nat * mbox_choice nat) :=
  fetch_waits 0 ++ fetch_waits 1 ++ posts 2 10 5 ++ posts 2 11 4 ++ steps 0 6.

(** with two threads in [sys_arch_mbox_fetch] a wake-up can be lost: there
    is a reachable state where one of them has its message, everyone else is
    outside, and the other still waits, with no timeout, for a message that is
    in the mailbox. *)
Theorem mbox_two_fetchers_lose_wakeup :
  exists st : mbox_sys nat,
    mbox_reachable 4294967295 (fun _ => true) 3 st /\
    stuck 4294967295 st /\
    threads st !! 0%nat = Some (MDone (ResGot 0 (Some 10%nat))) /\
    threads st !! 1%nat = Some (MBlock (Fetch true 0)) /\
    threads st !! 2%nat = Some MIdle /\
    posted st = [10; 11]%nat /\ fetched st = [Some 10%nat].
Proof.
  exists (demo_run (fun _ => true) 3 two_fetchers). split_and!.
  - apply demo_run_reachable. by vm_compute.
  - intros [|[|[|t]]] p r Hp; vm_compute in Hp; simplify_eq; reflexivity.
  - by vm_compute.
  - by vm_compute.
  - by vm_compute.
  - by vm_compute.
  - by vm_compute.
Qed.

Lemma mbox_mutual_exclusion_witness :
  let st := demo_run (fun _ => true) 2
    ([(0%nat, MCall (TryPost 5%nat)); (1%nat, MCall (TryFetch true))] ++ steps 0 1) in
  threads st !! 0%nat = Some (MTest (TryPost 5%nat) 0) /\ 0%nat = 0%nat.
Proof.
  intros st. split; [by vm_compute|].
  apply (mbox_mutual_exclusion 4294967295 (fun _ => true) 2 st 0 0
    (MTest (TryPost 5%nat) 0) (MTest (TryPost 5%nat) 0));
    [apply demo_run_reachable; by vm_compute|..]; by vm_compute.
Defined.


(** Thread 1 fills the mailbox and waits for room. *)
Definition poster_waits : list (nat * mbox_choice nat) :=
  posts 1 0 5 ++ mjoin (replicate 126 (posts 1 7 4)) ++
  (1%nat, MCall (Post 8%nat)) :: steps 1 4.

