(* ===== verification/Protect.v ===== *)
(** * Critical sections (src/src/sys.c)

    [sys_arch_protect] and [sys_arch_unprotect]: a recursive lock made of a
    pthread mutex, the identity of its holder and a count, all read and
    written by interleaved threads, the holder's identity also without the
    mutex.  Proved: mutual exclusion, and that the lock is held from the
    outermost protect to the matching unprotect. *)

From S2P Require Import Prelude.
Local Open Scope Z_scope.

Section protect.
(** [pthread_self()] of each thread. *)
Context (self : nat -> Z).

(** [lwprot_thread], [lwprot_count], and the holder of [lwprot_mutex]. *)
Record lwprot : Type := Lwprot {
  lwprot_thread : Z;
  lwprot_count : Z;
  lwprot_mutex : option nat
}.

Definition NO_THREAD : Z := 57005. (* (pthread_t)0xDEAD *)

(** Where a thread is.  [d] is the number of its calls to [sys_arch_protect]
    not yet undone by a call to [sys_arch_unprotect]: the model's own
    bookkeeping, which the code does not read. *)
Inductive prot_pc : Type :=
| POut (d : nat)             (* between calls *)
| PCheck (d : nat)           (* protect: if (lwprot_thread != pthread_self()) *)
| PLock (d : nat)            (* before pthread_mutex_lock *)
| PSetThread (d : nat)       (* before lwprot_thread = pthread_self() *)
| PSetCount (d : nat)        (* before lwprot_count = 1 *)
| PInc (d : nat)             (* before lwprot_count++ *)
| UCheck (d : nat)           (* unprotect: if (lwprot_thread == ...) *)
| UDec (d : nat)             (* before lwprot_count-- *)
| UTest (d : nat)            (* at if (lwprot_count == 0) *)
| UClear (d : nat)           (* before lwprot_thread = 0xDEAD *)
| UUnlock (d : nat).         (* before pthread_mutex_unlock *)

Inductive prot_choice : Type := Protect | Unprotect | PRun.

(** One step of thread [t]; [None] if it cannot take it, or if the count
    overflows. *)
Definition prot_next (t : nat) (ch : prot_choice) (p : prot_pc) (s : lwprot)
  : option (prot_pc * lwprot) :=
  let '(Lwprot th n mx) := s in
  match ch, p with
  | Protect, POut d => Some (PCheck d, s)
  | Unprotect, POut d => Some (UCheck d, s)
  | PRun, PCheck d =>
      Some (if negb (th =? self t) then PLock d else PInc d, s)
  | PRun, PLock d =>
      match mx with
      | None => Some (PSetThread d, Lwprot th n (Some t))
      | Some _ => None
      end
  | PRun, PSetThread d => Some (PSetCount d, Lwprot (self t) n mx)
  | PRun, PSetCount d => Some (POut (S d), Lwprot th 1 mx)
  | PRun, PInc d =>
      if int_ok (n + 1) then Some (POut (S d), Lwprot th (n + 1) mx) else None
  | PRun, UCheck d => Some (if th =? self t then UDec d else POut d, s)
  | PRun, UDec d => Some (UTest d, Lwprot th (n - 1) mx)
  | PRun, UTest d => Some (if n =? 0 then UClear d else POut (pred d), s)
  | PRun, UClear d => Some (UUnlock d, Lwprot NO_THREAD n mx)
  | PRun, UUnlock d => Some (POut (pred d), Lwprot th n None)
  | _, _ => None
  end.

Record prot_sys : Type := ProtSys { prot : lwprot; prots : list prot_pc }.

Definition prot_step (st st' : prot_sys) : Prop :=
  exists t ch p p' s',
    prots st !! t = Some p /\ prot_next t ch p (prot st) = Some (p', s') /\
    st' = ProtSys s' (<[t := p']> (prots st)).

Definition prot_init (n : nat) : prot_sys :=
  ProtSys (Lwprot NO_THREAD 0 None) (replicate n (POut 0)).

Definition prot_reachable (n : nat) : prot_sys -> Prop :=
  rtc prot_step (prot_init n).

(** ** Invariant *)

(** The places where a thread holds the mutex. *)
Definition protected (p : prot_pc) : bool :=
  match p with
  | POut d | PCheck d | UCheck d => negb (Nat.eqb d 0)
  | PLock _ => false
  | _ => true
  end.

(** What the holder of the mutex knows at [p]. *)
Definition holder_at (t : nat) (s : lwprot) (p : prot_pc) : Prop :=
  match p with
  | POut d | PCheck d | PInc d | UCheck d | UDec d =>
      lwprot_thread s = self t /\ lwprot_count s = Z.of_nat d /\ (0 < d)%nat
  | PLock _ => False
  | PSetThread d => lwprot_thread s = NO_THREAD /\ d = 0%nat
  | PSetCount d => lwprot_thread s = self t /\ d = 0%nat
  | UTest d =>
      lwprot_thread s = self t /\ lwprot_count s + 1 = Z.of_nat d /\
      (0 < d)%nat
  | UClear d => lwprot_thread s = self t /\ d = 1%nat
  | UUnlock d => lwprot_thread s = NO_THREAD /\ d = 1%nat
  end.

(** The places of the threads that do not hold it. *)
Definition outside_ok (p : prot_pc) : Prop :=
  match p with
  | POut d | PCheck d | PLock d | UCheck d => d = 0%nat
  | _ => False
  end.

Record prot_inv (st : prot_sys) : Prop := ProtInv {
  pi_lock : lock_inv protected (prots st) (lwprot_mutex (prot st));
  pi_holder : forall t p, lwprot_mutex (prot st) = Some t ->
    prots st !! t = Some p -> holder_at t (prot st) p;
  pi_free : lwprot_mutex (prot st) = None ->
    lwprot_thread (prot st) = NO_THREAD;
  pi_outside : forall t p, prots st !! t = Some p ->
    lwprot_mutex (prot st) <> Some t -> outside_ok p
}.

(** What the code relies on: thread identities differ, and none is the
    sentinel. *)
Definition identities_ok : Prop :=
  (forall t u, self t = self u -> t = u) /\ forall t, self t <> NO_THREAD.

Lemma prot_inv_init n : prot_inv (prot_init n).
Proof.
  split; cbn; try done.
  - by apply lock_inv_init.
  - intros t p [-> _]%lookup_replicate _. done.
Qed.

(** A step of a thread that does not hold the mutex and does not take it. *)
Lemma prot_inv_outside st t p p' :
  prot_inv st -> prots st !! t = Some p ->
  protected p = false -> protected p' = false -> outside_ok p' ->
  prot_inv (ProtSys (prot st) (<[t := p']> (prots st))).
Proof.
  intros [IL IH IF IO] Hp Hh Hh' Hok.
  pose proof (lock_inv_not_holder _ _ _ _ _ IL Hp Hh) as Hno.
  split; cbn; [|intros u r Hu|done|intros u r].
  - eapply lock_inv_step; [done..|]. by rewrite Hh, Hh'.
  - rewrite list_lookup_insert_ne by congruence. by apply IH.
  - destruct (decide (t = u)) as [<-|Hne].
    + rewrite list_lookup_insert_eq by (by eapply lookup_lt_Some).
      by intros [= <-].
    + rewrite list_lookup_insert_ne by done. apply IO.
Qed.

(** A step that ends with [t] holding the mutex. *)
Lemma prot_inv_held st t p p' s' :
  prot_inv st -> prots st !! t = Some p ->
  (protected p = true \/ lwprot_mutex (prot st) = None) ->
  lwprot_mutex s' = Some t -> protected p' = true -> holder_at t s' p' ->
  prot_inv (ProtSys s' (<[t := p']> (prots st))).
Proof.
  intros [IL IH IF IO] Hp Hor Ho Hh' Hok.
  assert (Hother : forall u, t <> u -> lwprot_mutex (prot st) <> Some u).
  { intros u Hne Hu. destruct Hor as [Hh|]; [|congruence].
    pose proof (lock_inv_holder _ _ _ _ _ IL Hp Hh). congruence. }
  split; cbn; [|intros u r Hu|congruence|intros u r].
  - eapply lock_inv_step; [done..|]. rewrite Hh'.
    destruct (protected p) eqn:Hh; [|by destruct Hor].
    rewrite Ho. symmetry. by eapply lock_inv_holder.
  - rewrite Ho in Hu. injection Hu as <-.
    rewrite list_lookup_insert_eq by (by eapply lookup_lt_Some).
    by intros [= <-].
  - destruct (decide (t = u)) as [<-|Hne]; [by rewrite Ho|].
    rewrite list_lookup_insert_ne by done. intros Hr _.
    by apply (IO u r Hr), Hother.
Qed.

(** The step that gives the mutex back. *)
Lemma prot_inv_released st t p n :
  prot_inv st -> prots st !! t = Some p -> protected p = true ->
  prot_inv (ProtSys (Lwprot NO_THREAD n None) (<[t := POut 0]> (prots st))).
Proof.
  intros [IL IH IF IO] Hp Hh.
  pose proof (lock_inv_holder _ _ _ _ _ IL Hp Hh) as Ho.
  split; cbn; [|done|done|intros u r].
  - eapply lock_inv_step; [done..|]. by rewrite Hh.
  - destruct (decide (t = u)) as [<-|Hne].
    + rewrite list_lookup_insert_eq by (by eapply lookup_lt_Some).
      by intros [= <-].
    + rewrite list_lookup_insert_ne by done. intros Hr _.
      apply (IO u r Hr). congruence.
Qed.

(** What a thread outside can do: stay outside, or take the free mutex. *)
Lemma prot_next_outside t ch p s p' s' :
  prot_next t ch p s = Some (p', s') ->
  protected p = false -> outside_ok p -> lwprot_thread s <> self t ->
  (s' = s /\ protected p' = false /\ outside_ok p') \/
  (lwprot_mutex s = None /\ p' = PSetThread 0 /\
   s' = Lwprot (lwprot_thread s) (lwprot_count s) (Some t)).
Proof.
  destruct s as [th n mx]. cbn. intros Hn Hp Ho Hne.
  destruct ch, p; cbn in *; try done; subst; try done;
    rewrite ?(proj2 (Z.eqb_neq th (self t)) Hne) in Hn; cbn in Hn;
    [injection Hn as <- <-; by left..|destruct mx; [done|]|];
    injection Hn as <- <-; by (left + right).
Qed.

(** What the holder can do: keep the mutex, or give it back at the end of
    the outermost call. *)
Lemma prot_next_held t ch p s p' s' :
  prot_next t ch p s = Some (p', s') ->
  protected p = true -> holder_at t s p -> lwprot_mutex s = Some t ->
  (lwprot_mutex s' = Some t /\ protected p' = true /\ holder_at t s' p') \/
  (p' = POut 0 /\ exists n, s' = Lwprot NO_THREAD n None).
Proof.
  destruct s as [th n mx]. cbn. intros Hn Hp Hat ->.
  destruct ch, p as [[|d]|[|d]|d|d|d|d|[|d]|d|d|d|d]; cbn in *; try done;
    destruct_and?; simplify_eq/=; rewrite ?Z.eqb_refl in *; cbn;
    simplify_eq/=; try (left; by eauto with lia); try (right; by eauto).
  - case_match; simplify_eq/=. left. split_and!; try done; lia.
  - left. destruct (Z.eqb_spec n 0); cbn; split_and!; try done; try lia.
    apply negb_true_iff, Nat.eqb_neq. lia.
Qed.

(** A thread that does not hold the mutex never reads its own identity. *)
Lemma prot_inv_not_self st t p :
  identities_ok -> prot_inv st -> prots st !! t = Some p ->
  protected p = false -> lwprot_thread (prot st) <> self t.
Proof.
  intros [Hinj Hne] I Hp Hf Heq.
  destruct (lwprot_mutex (prot st)) as [u|] eqn:Ho.
  - destruct (lock_in _ _ _ (pi_lock _ I) u) as [r Hr]; [done|].
    pose proof (pi_holder _ I u r Ho Hr) as Hr'.
    assert (t <> u) as Htu
      by (intros ->; by apply (lock_inv_not_holder _ _ _ _ _ (pi_lock _ I) Hp)).
    destruct r; cbn in Hr'; destruct_and?; try done;
      try (apply Htu, Hinj; congruence); by apply (Hne t); congruence.
  - pose proof (pi_free _ I Ho). apply (Hne t). congruence.
Qed.

Lemma prot_inv_step st st' :
  identities_ok -> prot_inv st -> prot_step st st' -> prot_inv st'.
Proof.
  intros Hid I (t & ch & p & p' & s' & Hp & Hn & ->).
  destruct (protected p) eqn:Hh.
  - pose proof (lock_inv_holder _ _ _ t p (pi_lock _ I) Hp Hh) as Ho.
    pose proof (pi_holder _ I t p Ho Hp) as Hat.
    destruct (prot_next_held _ _ _ _ _ _ Hn Hh Hat Ho)
      as [(?&?&?)|(->&n&->)].
    + eapply prot_inv_held; eauto.
    + by eapply prot_inv_released.
  - pose proof (prot_inv_not_self _ _ _ Hid I Hp Hh) as Hne.
    pose proof (pi_outside _ I t p Hp
                  (lock_inv_not_holder _ _ _ _ _ (pi_lock _ I) Hp Hh)) as Hout.
    destruct (prot_next_outside _ _ _ _ _ _ Hn Hh Hout Hne)
      as [(->&?&?)|(Hfree&->&->)].
    + by eapply prot_inv_outside.
    + eapply prot_inv_held; eauto. cbn. by rewrite (pi_free _ I Hfree).
Qed.

Lemma prot_reachable_inv n st :
  identities_ok -> prot_reachable n st -> prot_inv st.
Proof.
  intros Hid Hr. eapply (rtc_invariant prot_step); [|exact Hr|].
  - intros. by eapply prot_inv_step.
  - apply prot_inv_init.
Qed.

(** ** Properties *)

(** The lock excludes: two threads that are both inside a protected
    region, that is, each has called [sys_arch_protect] more often than
    [sys_arch_unprotect] or is past the lock inside one of the calls, are the
    same thread. *)
Theorem protect_mutual_exclusion n st t p u q :
  identities_ok -> prot_reachable n st ->
  prots st !! t = Some p -> protected p = true ->
  prots st !! u = Some q -> protected q = true -> t = u.
Proof.
  intros Hid Hr. eapply lock_inv_unique, pi_lock, prot_reachable_inv; eauto.
Qed.

(** The lock is recursive: between calls a thread that has made [d] more
    calls to [sys_arch_protect] than effective ones to [sys_arch_unprotect]
    holds the mutex exactly when [d] is positive, and then [lwprot_thread] is
    its identity and [lwprot_count] is [d]; so the lock is released by the
    outermost [sys_arch_unprotect] and by no other. *)
Theorem protect_recursion n st t d :
  identities_ok -> prot_reachable n st -> prots st !! t = Some (POut d) ->
  ((0 < d)%nat <-> lwprot_mutex (prot st) = Some t) /\
  ((0 < d)%nat -> lwprot_thread (prot st) = self t /\
                  lwprot_count (prot st) = Z.of_nat d).
Proof.
  intros Hid Hr Hp. pose proof (prot_reachable_inv _ _ Hid Hr) as I.
  pose proof (lock_iff _ _ _ (pi_lock _ I) t _ Hp) as Hiff. cbn in Hiff.
  rewrite negb_true_iff, Nat.eqb_neq in Hiff.
  split; [rewrite <- Hiff; lia|].
  intros Hd. assert (lwprot_mutex (prot st) = Some t) as Ho by (apply Hiff; lia).
  pose proof (pi_holder _ I t _ Ho Hp) as Hat. cbn in Hat. tauto.
Qed.

End protect.

(** ** Witnesses *)

(** Run a schedule. *)
Fixpoint prot_exec (self : nat -> Z) (l : list (nat * prot_choice))
    (st : prot_sys) : option prot_sys :=
  match l with
  | [] => Some st
  | (t, ch) :: l =>
      p ← prots st !! t;
      '(p', s') ← prot_next self t ch p (prot st);
      prot_exec self l (ProtSys s' (<[t := p']> (prots st)))
  end.

Lemma prot_exec_reachable self l st st' :
  prot_exec self l st = Some st' -> rtc (prot_step self) st st'.
Proof.
  revert st. induction l as [|[t ch] l IH]; intros st; cbn.
  - intros [= ->]. apply rtc_refl.
  - intros H. destruct (prots st !! t) as [p|] eqn:Hp; [|done]. cbn in H.
    destruct (prot_next self t ch p (prot st)) as [[p' s']|] eqn:Hn; [|done].
    cbn in H. eapply rtc_l; [|by apply IH].
    by exists t, ch, p, p', s'.
Qed.

(** Identities as the hypotheses ask. *)
Definition ids (t : nat) : Z := - Z.of_nat t.

Lemma ids_ok : identities_ok ids.
Proof. split; unfold ids, NO_THREAD; intros; lia. Qed.

(** Thread 0 protects twice; thread 1 blocks at the mutex. *)
Definition prot_demo : list (nat * prot_choice) :=
  [(0%nat, Protect); (0%nat, PRun); (0%nat, PRun); (1%nat, Protect);
   (0%nat, PRun); (1%nat, PRun); (0%nat, PRun);
   (0%nat, Protect); (0%nat, PRun); (0%nat, PRun)].

Definition prot_demo_end : prot_sys :=
  ProtSys (Lwprot (ids 0) 2 (Some 0%nat)) [POut 2; PLock 0].

Lemma prot_demo_reachable : prot_reachable ids 2 prot_demo_end.
Proof. by apply (prot_exec_reachable ids prot_demo). Qed.

Lemma protect_mutual_exclusion_witness :
  (protected (POut 2) = true /\ protected (PLock 0) = false) /\ 0%nat = 0%nat.
Proof.
  split; [by split|].
  apply (protect_mutual_exclusion ids 2 prot_demo_end _ (POut 2) _ (POut 2)).
  - apply ids_ok.
  - apply prot_demo_reachable.
  - reflexivity.
  - reflexivity.
  - reflexivity.
  - reflexivity.
Defined.

Lemma protect_recursion_witness :
  ((0 < 2)%nat <-> lwprot_mutex (prot prot_demo_end) = Some 0%nat) /\
  ((0 < 2)%nat -> lwprot_thread (prot prot_demo_end) = ids 0 /\
                  lwprot_count (prot prot_demo_end) = 2).
Proof.
  apply (protect_recursion ids 2 prot_demo_end 0%nat 2).
  - apply ids_ok.
  - apply prot_demo_reachable.
  - reflexivity.
Defined.
