(* ===== verification/Threads.v ===== *)
(** * Threads and the core lock (src/src/sys.c)

    Creating threads with [sys_thread_new] and the list of created threads;
    the mutexes; and the lock of the lwIP core with its record of the holder,
    as a machine of interleaved threads.  Proved: what a created thread is and
    how creation fails, and that the check of the core lock is exact. *)

From S2P Require Import Prelude.
Local Open Scope Z_scope.

(** ** Creating threads *)

(** [struct sys_thread], [next] being the rest of the list. *)
Record sys_thread : Type := SysThread {
  thread_addr : ptr;
  thread_pthread : Z
}.

(** The list [threads], whether the list's mutex is held, and the data of the
    threads that were started: function and argument. *)
Record thread_sys : Type := ThreadSys {
  threads : list sys_thread;
  threads_mutex : bool;
  started : list (Z * option ptr)
}.

(** The C library: [malloc], and [pthread_create], which returns an error code
    and, on success only, the new thread's identity. *)
Class Pthreads : Type := {
  malloc : M thread_sys (option ptr);
  pthread_create : Z -> option ptr -> M thread_sys (Z * option Z)
}.

Section threads.
Context `{!Pthreads}.

(** Whether the build is for Linux. *)
Context (lwip_unix_linux : bool).

Definition pthread_mutex (b : bool) : M thread_sys unit :=
  held ← gets threads_mutex;
  require (negb (Bool.eqb held b));;
  modify (fun s => ThreadSys (threads s) b (started s)).

Definition introduce_thread (id : Z) : M thread_sys (option ptr) :=
  thread ← malloc;
  match thread with
  | Some a =>
      pthread_mutex true;;
      modify (fun s => ThreadSys (SysThread a id :: threads s) (threads_mutex s)
                         (started s));;
      pthread_mutex false
  | None => mret tt
  end;;
  mret thread.

(** The new thread runs [thread_wrapper], which calls the function with its
    argument; [thread_data] is written through an unchecked pointer, and on
    Linux [tmp] is read before [code] is looked at. *)
Definition sys_thread_new (function : Z) (arg : option ptr) : M thread_sys ptr :=
  thread_data ← malloc;
  _ ← deref thread_data;
  '(code, tmp) ← pthread_create function arg;
  (if lwip_unix_linux then _ ← deref tmp; mret tt else mret tt);;
  st ← (if code =? 0 then id ← deref tmp; introduce_thread id else mret None);
  match st with
  | None => stop Aborted
  | Some st => mret st
  end.

(** [struct thread_wrapper_data], on the heap, and the function that the new
    thread runs: [call] is what the function given does, which may end. *)
Record thread_wrapper_data : Type := ThreadWrapperData {
  td_function : Z;
  td_arg : option ptr
}.

Definition thread_wrapper (call : Z -> option ptr -> M (gmap ptr thread_wrapper_data) unit)
    (arg : ptr) : M (gmap ptr thread_wrapper_data) (option ptr) :=
  thread_data ← gets (fun h => h !! arg);
  d ← deref thread_data;
  call (td_function d) (td_arg d);;
  freed ← gets (fun h => h !! arg);
  _ ← deref freed;
  modify (delete arg);;
  mret None.

(** It calls the function once, with the argument given, and when that returns it
    frees its data, and nothing else, provided that the function left them
    alone. *)
Lemma thread_wrapper_run call a d h u h' :
  h !! a = Some d -> call (td_function d) (td_arg d) h = Ok (u, h') -> h' !! a = Some d ->
  thread_wrapper call a h = Ok (None, delete a h').
Proof.
  intros Hd Hc Hd'. unfold thread_wrapper. erewrite bind_Ok by done. rewrite Hd.
  erewrite bind_Ok by done. erewrite bind_Ok by exact Hc. erewrite bind_Ok by done.
  by rewrite Hd'.
Qed.

(** What [malloc] and [pthread_create] may do. *)
Class PthreadsLaws : Type := {
  malloc_law s : exists o s', malloc s = Ok (o, s') /\
    threads s' = threads s /\ threads_mutex s' = threads_mutex s /\
    started s' = started s;
  create_law f a s : exists code tmp s',
    pthread_create f a s = Ok ((code, tmp), s') /\
    threads s' = threads s /\ threads_mutex s' = threads_mutex s /\
    (code = 0 -> is_Some tmp /\ started s' = started s ++ [(f, a)]) /\
    (code <> 0 -> tmp = None /\ started s' = started s)
}.

Lemma introduce_thread_spec `{!PthreadsLaws} id s :
  threads_mutex s = false ->
  wp (introduce_thread id) s (fun o s' =>
    threads_mutex s' = false /\ started s' = started s /\
    threads s' = match o with
                 | Some a => SysThread a id :: threads s
                 | None => threads s
                 end).
Proof.
  intros Hm. unfold introduce_thread.
  destruct (malloc_law s) as (o & s1 & H1 & Ht & Hmx & Hst).
  apply wp_bind, wp_Ok. exists o, s1. split; [done|].
  destruct o as [a|]; apply wp_bind.
  - unfold pthread_mutex. wp_auto; [by rewrite Hmx, Hm|]. cbn.
    by rewrite Ht, Hst.
  - apply wp_ret, wp_ret. by rewrite Hmx, Ht, Hst.
Qed.

(** [sys_thread_new] returns only if the thread was started, exactly once
    and with the given function and argument, and then the thread is at the
    head of the list of threads; every failure ends the program instead: a
    failed allocation of the thread's data is written through, a failed
    [pthread_create] aborts except on Linux, where its uninitialised result is
    read first, and without memory for the list entry the program aborts with
    the thread already running. *)
Theorem sys_thread_new_correct `{!PthreadsLaws} f a s :
  threads_mutex s = false ->
  match sys_thread_new f a s with
  | Ok (st, s') => exists id, threads s' = SysThread st id :: threads s /\
      started s' = started s ++ [(f, a)] /\ threads_mutex s' = false
  | Fault x => x = UB \/ x = Aborted
  end.
Proof.
  intros Hm. unfold sys_thread_new.
  destruct (malloc_law s) as (td & s1 & H1 & Ht1 & Hm1 & Hst1).
  erewrite bind_Ok by done. destruct td as [td|]; [|by left].
  erewrite bind_Ok by done.
  destruct (create_law f a s1) as (code & tmp & s2 & H2 & Ht2 & Hm2 & Hok & Hfail).
  erewrite bind_Ok by done. cbn beta iota.
  destruct (Z.eqb_spec code 0) as [->|Hc].
  - destruct (Hok eq_refl) as [[id ->] Hst2].
    erewrite bind_Ok by (by destruct lwip_unix_linux).
    pose proof (introduce_thread_spec id s2 ltac:(congruence)) as Hi.
    apply wp_Ok in Hi as (o & s3 & H3 & Hm3 & Hst3 & Ht3).
    erewrite bind_Ok by (by erewrite bind_Ok by done).
    destruct o as [st|]; [|by right]. exists id.
    split_and!; [by rewrite Ht3, Ht2, Ht1|by rewrite Hst3, Hst2, Hst1|done].
  - destruct (Hfail Hc) as [-> _]. destruct lwip_unix_linux; [by left|].
    erewrite bind_Ok by done. erewrite bind_Ok by done. by right.
Qed.

End threads.

(** ** The core lock

    [sys_lock_tcpip_core] and [sys_unlock_tcpip_core] with the mutexes of
    [sys_mutex_lock] and [sys_mutex_unlock], step by step. *)
Section core.
(** [pthread_self()] of each thread. *)
Context (self : nat -> Z).

Record core : Type := Core {
  lock_tcpip_core : option nat;              (* the mutex's holder *)
  lwip_core_lock_holder_thread_id : Z;
  lwip_tcpip_thread_id : Z
}.

Inductive core_pc : Type :=
| CoreOut                   (* outside *)
| CoreLock                  (* sys_lock_tcpip_core: before sys_mutex_lock *)
| CoreSet                   (* before the assignment of pthread_self() *)
| CoreIn                    (* inside *)
| CoreClear                 (* sys_unlock_tcpip_core: before the assignment of 0 *)
| CoreUnlock.               (* before sys_mutex_unlock *)

#[local] Instance core_pc_eq_dec : EqDecision core_pc.
Proof. solve_decision. Defined.

Inductive core_choice : Type := LockCore | UnlockCore | MarkThread | CoreRun.

Definition core_next (t : nat) (ch : core_choice) (p : core_pc) (s : core)
  : option (core_pc * core) :=
  let '(Core mx h th) := s in
  match ch, p with
  | LockCore, CoreOut => Some (CoreLock, s)
  | UnlockCore, CoreIn => Some (CoreClear, s)
  | MarkThread, (CoreOut | CoreIn) => Some (p, Core mx h (self t))
  | CoreRun, CoreLock =>
      match mx with
      | None => Some (CoreSet, Core (Some t) h th)
      | Some _ => None
      end
  | CoreRun, CoreSet => Some (CoreIn, Core mx (self t) th)
  | CoreRun, CoreClear => Some (CoreUnlock, Core mx 0 th)
  | CoreRun, CoreUnlock => Some (CoreOut, Core None h th)
  | _, _ => None
  end.

(** [sys_check_core_locking], called by thread [t]. *)
Definition sys_check_core_locking (t : nat) : M core unit :=
  id ← gets lwip_tcpip_thread_id;
  if id =? 0 then mret tt
  else
    h ← gets lwip_core_lock_holder_thread_id;
    lwip_assert (self t =? h).

Record core_sys : Type := CoreSys { core_st : core; cores : list core_pc }.

Definition core_step (st st' : core_sys) : Prop :=
  exists t ch p p' s',
    cores st !! t = Some p /\ core_next t ch p (core_st st) = Some (p', s') /\
    st' = CoreSys s' (<[t := p']> (cores st)).

Definition core_init (n : nat) : core_sys :=
  CoreSys (Core None 0 0) (replicate n CoreOut).

Definition core_reachable (n : nat) : core_sys -> Prop :=
  rtc core_step (core_init n).

Definition core_holding (p : core_pc) : bool :=
  match p with
  | CoreOut | CoreLock => false
  | CoreSet | CoreIn | CoreClear | CoreUnlock => true
  end.

(** The recorded holder: the thread inside, or 0. *)
Definition holder_recorded (t : nat) (p : core_pc) (h : Z) : Prop :=
  match p with
  | CoreIn | CoreClear => h = self t
  | _ => h = 0
  end.

Record core_inv (st : core_sys) : Prop := CoreInv {
  ci_lock : lock_inv core_holding (cores st) (lock_tcpip_core (core_st st));
  ci_free : lock_tcpip_core (core_st st) = None ->
    lwip_core_lock_holder_thread_id (core_st st) = 0;
  ci_held : forall t p, lock_tcpip_core (core_st st) = Some t ->
    cores st !! t = Some p ->
    holder_recorded t p (lwip_core_lock_holder_thread_id (core_st st))
}.

Lemma core_inv_init n : core_inv (core_init n).
Proof. split; cbn; [by apply lock_inv_init|done|done]. Qed.

(** The record after thread [t] moved to [p']. *)
Lemma held_insert (ps : list core_pc) t p' (mx' : option nat) h' :
  (t < length ps)%nat -> (mx' = Some t -> holder_recorded t p' h') ->
  (forall u q, u <> t -> mx' = Some u -> ps !! u = Some q ->
     holder_recorded u q h') ->
  forall u q, mx' = Some u -> <[t := p']> ps !! u = Some q ->
    holder_recorded u q h'.
Proof.
  intros Hlt Ht Hu u q Hmx. destruct (decide (u = t)) as [->|Hne].
  - rewrite list_lookup_insert_eq by done. intros [= <-]. by apply Ht.
  - rewrite list_lookup_insert_ne by done. by apply Hu.
Qed.

Lemma core_inv_step st st' : core_inv st -> core_step st st' -> core_inv st'.
Proof.
  intros [IL IF IH] (t & ch & p & p' & s' & Hp & Hn & ->).
  pose proof (lock_inv_holder _ _ _ _ _ IL Hp) as Hho.
  pose proof (lock_inv_not_holder _ _ _ _ _ IL Hp) as Hno.
  assert (Hlt : (t < length (cores st))%nat) by (by eapply lookup_lt_Some).
  destruct (core_st st) as [mx h th] eqn:Es; cbn in *.
  assert (Hhr : core_holding p = true -> holder_recorded t p h)
    by (intros E; apply IH; [by apply Hho|done]).
  destruct ch, p; cbn in *; try discriminate Hn; try injection Hn as <- <-.
  all: try (destruct mx as [u|]; [discriminate Hn|injection Hn as <- <-]).
  all: split; cbn; [eapply lock_inv_step; [done..|]; cbn; by eauto| |
                    apply held_insert; [done| |]].
  all: try done; try (by rewrite Hho by done).
  all: try (by intros Hmx; rewrite Hho in Hmx by done).
  all: try (by intros Hmx; destruct (Hno eq_refl Hmx)).
  all: try (by intros u q Hne Hmx; rewrite Hho in Hmx by done; congruence).
  all: try (by intros u q Hne Hmx; apply IH).
  all: try (intros _; cbn; auto; done).
  all: try (intros u q Hne Hmx; congruence).
Qed.

Lemma core_reachable_inv n st : core_reachable n st -> core_inv st.
Proof.
  intros Hr. eapply (rtc_invariant core_step); [|exact Hr|apply core_inv_init].
  intros. by eapply core_inv_step.
Qed.

(** The check of the core lock is exact: in every interleaving of threads
    that lock and unlock the core, once the tcpip thread is marked, the
    assertion in [sys_check_core_locking] holds for a thread inside the locked
    region and fails for every thread that is not. *)
Theorem core_lock_check_exact n st t p :
  (forall t u, self t = self u -> t = u) -> (forall t, self t <> 0) ->
  core_reachable n st -> cores st !! t = Some p -> (p = CoreOut \/ p = CoreIn) ->
  lwip_tcpip_thread_id (core_st st) <> 0 ->
  sys_check_core_locking t (core_st st) =
    if decide (p = CoreIn) then Ok (tt, core_st st) else Fault AssertFail.
Proof.
  intros Hinj H0 Hr Hp Hpc Hid. pose proof (core_reachable_inv _ _ Hr) as [IL IF IH].
  assert (Hh : lwip_core_lock_holder_thread_id (core_st st) = self t <-> p = CoreIn).
  { destruct (lock_tcpip_core (core_st st)) as [u|] eqn:Hmx.
    - destruct (lock_in _ _ _ IL u eq_refl) as [q Hq].
      pose proof (IH u q eq_refl Hq) as Hrec. split.
      + intros Heq. rewrite Heq in Hrec.
        destruct q; cbn in Hrec; try (by destruct (H0 t));
          apply Hinj in Hrec; subst u; rewrite Hp in Hq; destruct Hpc; congruence.
      + intros ->. pose proof (lock_inv_holder _ _ _ _ _ IL Hp eq_refl) as Hu.
        injection Hu as ->. rewrite Hp in Hq. by injection Hq as <-.
    - rewrite IF by done. split; [intros Heq; by destruct (H0 t)|].
      intros ->. pose proof (lock_inv_holder _ _ _ _ _ IL Hp eq_refl). done. }
  unfold sys_check_core_locking. erewrite bind_Ok by done.
  rewrite (proj2 (Z.eqb_neq _ _) Hid). erewrite bind_Ok by done.
  unfold lwip_assert. case_decide as Hin.
  - by rewrite (proj2 Hh Hin), Z.eqb_refl.
  - rewrite (proj2 (Z.eqb_neq _ _)); [done|]. intros Heq. by apply Hin, Hh.
Qed.

End core.

(** ** Witnesses *)

(** Calls that succeed. *)
Definition pthreads_ok : Pthreads := {|
  malloc := fun s => Ok (Some 7%positive, s);
  pthread_create := fun f a s =>
    Ok ((0, Some 42), ThreadSys (threads s) (threads_mutex s)
                        (started s ++ [(f, a)]))
|}.

Lemma pthreads_ok_laws : @PthreadsLaws pthreads_ok.
Proof.
  split.
  - intros s. by exists (Some 7%positive), s.
  - intros f a s. eexists 0, (Some 42), _. split; [reflexivity|].
    split_and!; done.
Qed.

Definition no_threads : thread_sys := ThreadSys [] false [].

Lemma sys_thread_new_correct_witness :
  match @sys_thread_new pthreads_ok true 3 None no_threads with
  | Ok (st, s') => exists id, threads s' = SysThread st id :: threads no_threads /\
      started s' = started no_threads ++ [(3, None)] /\ threads_mutex s' = false
  | Fault x => x = UB \/ x = Aborted
  end.
Proof.
  apply (@sys_thread_new_correct pthreads_ok true pthreads_ok_laws 3 None no_threads).
  reflexivity.
Defined.

Definition core_ids (t : nat) : Z := Z.of_nat t + 1.

(** Thread 0 marks itself and locks the core; thread 1 stays outside. *)
Definition core_demo_end : core_sys :=
  CoreSys (Core (Some 0%nat) 1 1) [CoreIn; CoreOut].

Lemma core_demo_reachable : core_reachable core_ids 2 core_demo_end.
Proof.
  eapply rtc_l; [by exists 0%nat, MarkThread, CoreOut; eexists _, _|]. cbn.
  eapply rtc_l; [by exists 0%nat, LockCore, CoreOut; eexists _, _|]. cbn.
  eapply rtc_l; [by exists 0%nat, CoreRun, CoreLock; eexists _, _|]. cbn.
  eapply rtc_l; [by exists 0%nat, CoreRun, CoreSet; eexists _, _|]. cbn.
  apply rtc_refl.
Qed.

Lemma core_lock_check_exact_witness :
  sys_check_core_locking core_ids 1 (core_st core_demo_end) = Fault AssertFail.
Proof.
  apply (core_lock_check_exact core_ids 2 core_demo_end 1 CoreOut).
  - unfold core_ids. lia.
  - unfold core_ids. lia.
  - apply core_demo_reachable.
  - reflexivity.
  - by left.
  - cbn. lia.
Defined.
