(* ===== verification/Objects.v ===== *)
(** * Life of semaphores and mutexes (src/src/sys.c, src/src/arch/sys_arch.h)

    A [sys_sem_t] or [sys_mutex_t] is a variable that holds the address of an
    object on the heap.  Creating and freeing the objects, the macros that test
    and clear the variables, and the operations on a mutex, run alone.  Proved:
    what creating and freeing do to the heap, the variable and the statistics,
    and that a variable still counts as valid after its object was freed, so
    that freeing it again is a use after free unless it was cleared. *)

From S2P Require Import Prelude Sem.
Local Open Scope Z_scope.

(** The semaphores and the mutexes by address, each mutex with whether it is
    locked, and the statistic [sem.used]. *)
Record os : Type := Os {
  sems : gmap ptr sys_sem;
  mutexes : gmap ptr bool;
  sem_used : Z
}.

Definition with_sems (x : gmap ptr sys_sem) (s : os) : os :=
  Os x (mutexes s) (sem_used s).
Definition with_mutexes (x : gmap ptr bool) (s : os) : os :=
  Os (sems s) x (sem_used s).
Definition with_used (x : Z) (s : os) : os := Os (sems s) (mutexes s) x.

(** ** The macros

    The argument is a pointer to a variable: [None] is [NULL], and
    [Some v] points to a variable of value [v]. *)
Definition sys_sem_valid (sem : option (option ptr)) : bool :=
  match sem with
  | Some (Some _) => true
  | _ => false
  end.
Definition sys_sem_valid_val (sem : option ptr) : bool :=
  match sem with Some _ => true | None => false end.
Definition sys_sem_set_invalid (sem : option (option ptr)) : option (option ptr) :=
  match sem with Some _ => Some None | None => None end.
Definition sys_sem_set_invalid_val (sem : option ptr) : option ptr := None.

Definition sys_mutex_valid := sys_sem_valid.
Definition sys_mutex_set_invalid := sys_sem_set_invalid.
Definition sys_mbox_valid := sys_sem_valid.
Definition sys_mbox_valid_val := sys_sem_valid_val.
Definition sys_mbox_set_invalid := sys_sem_set_invalid.
Definition sys_mbox_set_invalid_val := sys_sem_set_invalid_val.

(** ** Semaphores *)

(** [sys_sem_new] on the heap, where [malloc] returns [m]: the error code and
    the new value of [*sem]. *)
Definition sem_create (m : option ptr) (count : Z) : M os (err_t * option ptr) := fun s =>
  let '(err, r, used) := sys_sem_new m count (sem_used s) in
  let s := with_used used s in
  match r with
  | Some (p, x) => Ok ((err, Some p), with_sems (<[p := x]> (sems s)) s)
  | None => Ok ((err, None), s)
  end.

(** [pthread_cond_destroy] is undefined when threads wait, and
    [pthread_mutex_destroy] when the mutex is locked. *)
Definition sys_sem_free_internal (sem : ptr) : M os unit :=
  h ← gets sems;
  x ← deref (h !! sem);
  require (bool_decide (sleepers x = ∅));;
  require (bool_decide (owner x = None));;
  modify (fun s => with_sems (delete sem (sems s)) s).

Definition sys_sem_free (sem : option (option ptr)) : M os unit :=
  match sem with
  | Some (Some p) =>
      modify (fun s => with_used (sem_used s - 1) s);;
      sys_sem_free_internal p
  | _ => mret tt
  end.

(** ** Mutexes *)

(** The error code, and the value of [*mutex], which was [old]. *)
Definition sys_mutex_new (m old : option ptr) : M os (err_t * option ptr) :=
  match m with
  | Some mtx =>
      modify (fun s => with_mutexes (<[mtx := false]> (mutexes s)) s);;
      mret (ERR_OK, Some mtx)
  | None => mret (ERR_MEM, old)
  end.

(** The members of [*mutex], which must be an object. *)
Definition mutex_get (mutex : option ptr) : M os (ptr * bool) :=
  p ← deref mutex;
  h ← gets mutexes;
  b ← deref (h !! p);
  mret (p, b).

Definition sys_mutex_lock (mutex : option ptr) : M os unit :=
  '(p, locked) ← mutex_get mutex;
  if locked : bool then stop Blocked
  else modify (fun s => with_mutexes (<[p := true]> (mutexes s)) s).

Definition sys_mutex_unlock (mutex : option ptr) : M os unit :=
  '(p, locked) ← mutex_get mutex;
  require locked;;
  modify (fun s => with_mutexes (<[p := false]> (mutexes s)) s).

Definition sys_mutex_free (mutex : option ptr) : M os unit :=
  '(p, locked) ← mutex_get mutex;
  require (negb locked);;
  modify (fun s => with_mutexes (delete p (mutexes s)) s).

(** ** The rest of the port *)

Definition sys_init : M os unit := mret tt.

(** [rand] returns [r]. *)
Definition lwip_port_rand (r : Z) : Z := u32 r.

(** [lwip_unix_keypressed]: a [select] on the standard input that does not wait;
    its arguments are the number of descriptors, those that are read, and the
    timeout. *)
Definition lwip_unix_keypressed (select : Z -> list Z -> Z * Z -> Z) : Z :=
  select 1 [0] (0, 0).

(** ** Lemmas *)

Lemma sys_sem_free_run p x s :
  sems s !! p = Some x -> sleepers x = ∅ -> owner x = None ->
  sys_sem_free (Some (Some p)) s =
    Ok (tt, Os (delete p (sems s)) (mutexes s) (sem_used s - 1)).
Proof.
  intros Hp Hs Ho. unfold sys_sem_free, sys_sem_free_internal.
  erewrite bind_Ok by done. erewrite bind_Ok by done. cbn [sems with_used]. rewrite Hp.
  erewrite bind_Ok by done.
  erewrite bind_Ok by (by rewrite bool_decide_true by done).
  by erewrite bind_Ok by (by rewrite bool_decide_true by done).
Qed.

Lemma sys_sem_free_dead p s :
  sems s !! p = None -> sys_sem_free (Some (Some p)) s = Fault UB.
Proof.
  intros Hp. unfold sys_sem_free, sys_sem_free_internal.
  erewrite bind_Ok by done. erewrite bind_Ok by done. cbn [sems with_used]. rewrite Hp.
  by apply bind_Fault.
Qed.

Lemma mutex_get_run p b s :
  mutexes s !! p = Some b -> mutex_get (Some p) s = Ok ((p, b), s).
Proof.
  intros Hp. unfold mutex_get. erewrite bind_Ok by done. erewrite bind_Ok by done.
  rewrite Hp. by erewrite bind_Ok by done.
Qed.

Lemma mutex_get_dead p s :
  mutexes s !! p = None -> mutex_get (Some p) s = Fault UB.
Proof.
  intros Hp. unfold mutex_get. erewrite bind_Ok by done. erewrite bind_Ok by done.
  rewrite Hp. by apply bind_Fault.
Qed.

(** ** Properties *)

(** A semaphore that was created, if there is memory, is a valid variable
    with the count modulo 2^8 and nobody waiting, and freeing it brings heap and
    statistics back to what they were.  The variable still counts as valid then:
    freeing it again touches freed memory, unless [sys_sem_set_invalid] was
    called, after which it does nothing.  Without memory the statistic [used]
    is increased all the same, and freeing the variable never takes that
    back. *)
Theorem sys_sem_lifecycle m count s :
  (forall p, m = Some p -> sems s !! p = None) ->
  match m with
  | Some p => exists s1,
      sem_create m count s = Ok ((ERR_OK, Some p), s1) /\
      sys_sem_valid (Some (Some p)) = true /\
      sems s1 !! p = Some (SysSem (u8 count) None ∅) /\
      sys_sem_free (Some (Some p)) s1 = Ok (tt, s) /\
      sys_sem_free (Some (Some p)) s = Fault UB /\
      sys_sem_free (sys_sem_set_invalid (Some (Some p))) s = Ok (tt, s)
  | None =>
      sem_create m count s = Ok ((ERR_MEM, None), with_used (sem_used s + 1) s) /\
      sys_sem_valid (Some None) = false /\
      sys_sem_free (Some None) (with_used (sem_used s + 1) s) =
        Ok (tt, with_used (sem_used s + 1) s)
  end.
Proof.
  intros Hm. destruct m as [p|]; [|done]. specialize (Hm p eq_refl).
  eexists. split_and!; [done|done|apply lookup_insert_eq| | |done].
  - erewrite sys_sem_free_run; [|apply lookup_insert_eq|done|done]. cbn.
    rewrite delete_insert_id by done. destruct s as [h x u]. cbn. do 3 f_equal. lia.
  - by apply sys_sem_free_dead.
Qed.

(** A mutex that was created is free; it can be locked once, and a second
    lock by the same thread waits for ever; unlocking brings it back, and
    unlocking it when it is free, or freeing it while it is locked, is
    undefined.  Freeing it brings the heap back to what it was, but leaves the
    variable: every operation on it is then a use after free.  Without memory
    the variable keeps its old value. *)
Theorem sys_mutex_lifecycle p old s :
  mutexes s !! p = None ->
  sys_mutex_new None old s = Ok ((ERR_MEM, old), s) /\
  exists s1 s2,
    sys_mutex_new (Some p) old s = Ok ((ERR_OK, Some p), s1) /\
    sys_mutex_lock (Some p) s1 = Ok (tt, s2) /\
    sys_mutex_lock (Some p) s2 = Fault Blocked /\
    sys_mutex_unlock (Some p) s2 = Ok (tt, s1) /\
    sys_mutex_unlock (Some p) s1 = Fault UB /\
    sys_mutex_free (Some p) s2 = Fault UB /\
    sys_mutex_free (Some p) s1 = Ok (tt, s) /\
    sys_mutex_valid (Some (Some p)) = true /\
    sys_mutex_lock (Some p) s = Fault UB /\
    sys_mutex_unlock (Some p) s = Fault UB /\
    sys_mutex_free (Some p) s = Fault UB.
Proof.
  intros Hp. split; [done|].
  set (s1 := with_mutexes (<[p := false]> (mutexes s)) s).
  set (s2 := with_mutexes (<[p := true]> (mutexes s)) s).
  assert (H1 : mutex_get (Some p) s1 = Ok ((p, false), s1))
    by apply mutex_get_run, lookup_insert_eq.
  assert (H2 : mutex_get (Some p) s2 = Ok ((p, true), s2))
    by apply mutex_get_run, lookup_insert_eq.
  pose proof (mutex_get_dead p s Hp) as H0.
  exists s1, s2. unfold sys_mutex_lock, sys_mutex_unlock, sys_mutex_free.
  split_and!; try done; try (by erewrite bind_Ok by done); try (by apply bind_Fault).
  - erewrite bind_Ok by done. cbn. unfold modify, s1, s2, with_mutexes. cbn.
    by rewrite insert_insert_eq.
  - erewrite bind_Ok by done. cbn. erewrite bind_Ok by done.
    unfold modify, s1, s2, with_mutexes. cbn. by rewrite insert_insert_eq.
  - erewrite bind_Ok by done. cbn. erewrite bind_Ok by done.
    unfold modify, s1, with_mutexes. cbn. rewrite delete_insert_id by done. by destruct s.
Qed.

Lemma sys_sem_lifecycle_witness :
  exists s1, sem_create (Some 3%positive) 257 (Os ∅ ∅ 4) = Ok ((ERR_OK, Some 3%positive), s1) /\
    sys_sem_free (Some (Some 3%positive)) s1 = Ok (tt, Os ∅ ∅ 4).
Proof.
  destruct (sys_sem_lifecycle (Some 3%positive) 257 (Os ∅ ∅ 4)) as (s1 & H1 & _ & _ & H2 & _).
  - intros p _. reflexivity.
  - exists s1. split; [exact H1|exact H2].
Defined.

Lemma sys_mutex_lifecycle_witness :
  exists s1 s2, sys_mutex_new (Some 3%positive) None (Os ∅ ∅ 4) =
      Ok ((ERR_OK, Some 3%positive), s1) /\
    sys_mutex_lock (Some 3%positive) s1 = Ok (tt, s2) /\
    sys_mutex_lock (Some 3%positive) s2 = Fault Blocked.
Proof.
  destruct (sys_mutex_lifecycle 3 None (Os ∅ ∅ 4) (lookup_empty _)) as (_ & s1 & s2 & H1 & H2 & H3 & _).
  exists s1, s2. split; [exact H1|]. split; [exact H2|exact H3].
Defined.
