(* ===== verification/Lwip.v ===== *)
(** * The lwIP interface

    The program is a layer above lwIP, whose sources are not part of the
    repository.  This file is the interface between the two: the class [Lwip]
    lists the lwIP operations that src/src/tcp.c calls on memory blocks, packet
    buffers and TCP control blocks; the class [LwipLaws] states their
    documented behaviour over a [view] of the stack's state.  Every component
    above is proved against the class; [LwipRef.v] has an instance. *)

From S2P Require Import Prelude.

(** ** The view *)

(** The callbacks that src/src/tcp.c registers with lwIP; a slot that holds
    [NULL] is [None]. *)
Inductive tcp_fn : Type :=
| Fn_cs_tcp_raw_recv
| Fn_cs_tcp_send
| Fn_cs_tcp_raw_error
| Fn_cs_tcp_raw_poll
| Fn_cs_tcp_raw_accept.

(** [struct tcp_pcb]: the callback argument, the callback slots, and the bytes
    that [tcp_write] has accepted for the peer since the connection began. *)
Record tcb : Type := Tcb {
  t_arg : option ptr;
  t_recv : option tcp_fn;
  t_sent : option tcp_fn;
  t_err : option tcp_fn;
  t_poll : option tcp_fn;
  t_accept : option tcp_fn;
  t_stream : bytes
}.

(** The slots of a control block that no callback was set on. *)
Definition tcb_new : tcb := Tcb None None None None None None [].

Definition set_arg (a : option ptr) (t : tcb) : tcb :=
  Tcb a (t_recv t) (t_sent t) (t_err t) (t_poll t) (t_accept t) (t_stream t).
Definition set_recv (f : option tcp_fn) (t : tcb) : tcb :=
  Tcb (t_arg t) f (t_sent t) (t_err t) (t_poll t) (t_accept t) (t_stream t).
Definition set_sent (f : option tcp_fn) (t : tcb) : tcb :=
  Tcb (t_arg t) (t_recv t) f (t_err t) (t_poll t) (t_accept t) (t_stream t).
Definition set_err (f : option tcp_fn) (t : tcb) : tcb :=
  Tcb (t_arg t) (t_recv t) (t_sent t) f (t_poll t) (t_accept t) (t_stream t).
Definition set_poll (f : option tcp_fn) (t : tcb) : tcb :=
  Tcb (t_arg t) (t_recv t) (t_sent t) (t_err t) f (t_accept t) (t_stream t).
Definition set_accept (f : option tcp_fn) (t : tcb) : tcb :=
  Tcb (t_arg t) (t_recv t) (t_sent t) (t_err t) (t_poll t) f (t_stream t).
Definition add_stream (bs : bytes) (t : tcb) : tcb :=
  Tcb (t_arg t) (t_recv t) (t_sent t) (t_err t) (t_poll t) (t_accept t)
    (t_stream t ++ bs).

(** [struct pbuf]: reference count, [next], and the [len] bytes at
    [payload]. *)
Record pnode : Type := Pnode {
  pn_ref : nat;
  pn_next : option ptr;
  pn_data : bytes
}.

(** [ip_addr_t]: an IPv4 address or the four words of an IPv6 address; a word
    holds the bytes in network order, that is, its low byte is the first byte
    of the address on a little-endian machine. *)
Inductive ip_addr : Type :=
| IPv4 (addr : Z)
| IPv6 (addr0 addr1 addr2 addr3 : Z).

#[export] Instance ip_addr_eq_dec : EqDecision ip_addr.
Proof. solve_decision. Defined.

(** A UDP datagram handed to lwIP for transmission. *)
Record datagram : Type := Datagram {
  d_src : ip_addr;
  d_sport : Z;
  d_dst : ip_addr;
  d_dport : Z;
  d_netif : option ptr;
  d_data : bytes
}.

Record lwview : Type := View {
  pbufs : gmap ptr pnode;      (* the allocated packet buffers *)
  tcps : gmap ptr tcb;         (* the allocated TCP control blocks *)
  blocks : gset ptr;           (* the blocks of mem_malloc not freed yet *)
  outbox : list datagram       (* the datagrams sent *)
}.

Definition with_pbufs (m : gmap ptr pnode) (v : lwview) : lwview :=
  View m (tcps v) (blocks v) (outbox v).
Definition with_tcps (m : gmap ptr tcb) (v : lwview) : lwview :=
  View (pbufs v) m (blocks v) (outbox v).
Definition with_blocks (b : gset ptr) (v : lwview) : lwview :=
  View (pbufs v) (tcps v) b (outbox v).
Definition with_outbox (l : list datagram) (v : lwview) : lwview :=
  View (pbufs v) (tcps v) (blocks v) l.

(** ** Chains of packet buffers *)

(** A chain is the list of its buffers, each with its bytes. *)
Abbreviation cells := (list (ptr * bytes)) (only parsing).

Definition chain_head (cs : cells) : option ptr := fst <$> head cs.

(** The bytes of a chain. *)
Definition chain_data (cs : cells) : bytes := concat (snd <$> cs).
Arguments chain_data : simpl never.

(** [cs] is in [m], and the only reference to each buffer is its
    predecessor's, or for the first that of the chain's owner. *)
Fixpoint chain (m : gmap ptr pnode) (cs : cells) : Prop :=
  match cs with
  | [] => True
  | (p, b) :: cs => m !! p = Some (Pnode 1 (chain_head cs) b) /\ chain m cs
  end.

(** A chain without repetition, as its owner knows it. *)
Definition owned (m : gmap ptr pnode) (cs : cells) : Prop :=
  chain m cs /\ NoDup (cs.*1).

(** [m] without the buffers of [cs]. *)
Definition without (m : gmap ptr pnode) (cs : cells) : gmap ptr pnode :=
  foldr delete m (cs.*1).

Arguments without : simpl never.

(** What [pbuf_free] documents: the count of the first buffer goes down by
    one; a buffer whose count reaches zero is deallocated, and then the same
    happens to its successor. *)
Inductive pfree : gmap ptr pnode -> ptr -> gmap ptr pnode -> Prop :=
| pfree_shared m p k o b :
    m !! p = Some (Pnode (S (S k)) o b) ->
    pfree m p (<[p := Pnode (S k) o b]> m)
| pfree_last m p b :
    m !! p = Some (Pnode 1 None b) -> pfree m p (delete p m)
| pfree_next m p q b m' :
    m !! p = Some (Pnode 1 (Some q) b) -> pfree (delete p m) q m' ->
    pfree m p m'.

(** ** Operations *)

Class Lwip (S : Type) : Type := {
  mem_malloc : M S (option ptr);
  mem_free : ptr -> M S unit;
  pbuf_len : ptr -> M S Z;               (* p->len *)
  pbuf_tot_len : ptr -> M S Z;           (* p->tot_len *)
  pbuf_next : ptr -> M S (option ptr);   (* p->next *)
  pbuf_payload : ptr -> M S bytes;       (* the len bytes at p->payload *)
  pbuf_ref : ptr -> M S unit;
  pbuf_free : ptr -> M S Z;
  pbuf_cat : ptr -> ptr -> M S unit;
  pbuf_alloc : Z -> M S (option ptr);    (* PBUF_RAW, length, PBUF_POOL *)
  pbuf_take : ptr -> bytes -> Z -> M S err_t;
  pbuf_copy_partial : ptr -> Z -> Z -> M S bytes;
  tcp_arg : ptr -> option ptr -> M S unit;
  tcp_recv : ptr -> option tcp_fn -> M S unit;
  tcp_sent : ptr -> option tcp_fn -> M S unit;
  tcp_err : ptr -> option tcp_fn -> M S unit;
  tcp_poll : ptr -> option tcp_fn -> Z -> M S unit;
  tcp_sndbuf : ptr -> M S Z;
  tcp_write : ptr -> bytes -> Z -> M S err_t;
  tcp_output : ptr -> M S err_t;
  tcp_recved : ptr -> Z -> M S unit;
  tcp_setprio : ptr -> Z -> M S unit;
  tcp_close : ptr -> M S err_t;
  tcp_abort : ptr -> M S unit;
  tcp_new_ip_type : M S (option ptr);
  tcp_bind : ptr -> Z -> M S err_t;      (* IP_ANY_TYPE *)
  tcp_listen : ptr -> M S (option ptr);
  tcp_accept : option ptr -> tcp_fn -> M S unit;
  tcp_free : ptr -> M S unit
}.

(** ** Laws

    Where a law speaks of a live control block, a live buffer or an allocated
    block, nothing is promised about any other.  The one exception is
    [tcp_arg_dead]: a control block that is no longer allocated may not be
    written. *)
Class LwipLaws (S : Type) `{Lwip S} : Type := {
  view : S -> lwview;

  mem_malloc_law s :
    wp mem_malloc s (fun r s' =>
      match r with
      | None => view s' = view s
      | Some a => (a ∉ blocks (view s)) /\
          view s' = with_blocks ({[ a ]} ∪ blocks (view s)) (view s)
      end);
  mem_free_law s a :
    a ∈ blocks (view s) ->
    wp (mem_free a) s (fun _ s' =>
      view s' = with_blocks (blocks (view s) ∖ {[ a ]}) (view s));

  pbuf_len_law s p n :
    pbufs (view s) !! p = Some n ->
    pbuf_len p s = Ok (Z.of_nat (length (pn_data n)), s);
  pbuf_tot_len_law s p cs :
    owned (pbufs (view s)) cs -> chain_head cs = Some p ->
    pbuf_tot_len p s = Ok (Z.of_nat (length (chain_data cs)), s);
  pbuf_next_law s p n :
    pbufs (view s) !! p = Some n -> pbuf_next p s = Ok (pn_next n, s);
  pbuf_payload_law s p n :
    pbufs (view s) !! p = Some n -> pbuf_payload p s = Ok (pn_data n, s);
  pbuf_ref_law s p k o b :
    pbufs (view s) !! p = Some (Pnode k o b) ->
    wp (pbuf_ref p) s (fun _ s' =>
      view s' = with_pbufs (<[p := Pnode (k + 1) o b]> (pbufs (view s)))
                  (view s));
  pbuf_free_law s p m :
    pfree (pbufs (view s)) p m ->
    wp (pbuf_free p) s (fun _ s' => view s' = with_pbufs m (view s));
  pbuf_cat_law s h t hs k o b' :
    owned (pbufs (view s)) hs -> chain_head hs = Some h ->
    (fst <$> last hs) = Some k ->
    pbufs (view s) !! k = Some (Pnode 1 o b') ->
    wp (pbuf_cat h t) s (fun _ s' =>
      view s' = with_pbufs (<[k := Pnode 1 (Some t) b']> (pbufs (view s)))
                  (view s));
  pbuf_alloc_law s len :
    (0 <= len)%Z ->
    wp (pbuf_alloc len) s (fun r s' =>
      match r with
      | None => view s' = view s
      | Some p => exists cs m,
          view s' = with_pbufs m (view s) /\
          owned m cs /\ chain_head cs = Some p /\
          Z.of_nat (length (chain_data cs)) = len /\
          (length cs <= Datatypes.S (Z.to_nat len))%nat /\
          (forall q, q ∈ (cs.*1) -> pbufs (view s) !! q = None) /\
          (forall q, q ∉ (cs.*1) -> m !! q = pbufs (view s) !! q)
      end);
  pbuf_take_law s p cs buf len :
    owned (pbufs (view s)) cs -> chain_head cs = Some p ->
    (0 <= len)%Z -> (len <= Z.of_nat (length (chain_data cs)))%Z ->
    (len <= Z.of_nat (length buf))%Z ->
    wp (pbuf_take p buf len) s (fun r s' => r = ERR_OK /\ exists cs' m,
      view s' = with_pbufs m (view s) /\ owned m cs' /\
      (cs'.*1) = (cs.*1) /\ (length <$> cs'.*2) = (length <$> cs.*2) /\
      chain_data cs' = take (Z.to_nat len) buf ++
                       drop (Z.to_nat len) (chain_data cs) /\
      (forall q, q ∉ (cs.*1) -> m !! q = pbufs (view s) !! q));
  pbuf_copy_partial_law s p cs len :
    owned (pbufs (view s)) cs -> chain_head cs = Some p ->
    len = Z.of_nat (length (chain_data cs)) ->
    pbuf_copy_partial p len 0 s = Ok (chain_data cs, s);

  tcp_arg_law s pcb t a :
    tcps (view s) !! pcb = Some t ->
    wp (tcp_arg pcb a) s (fun _ s' =>
      view s' = with_tcps (<[pcb := set_arg a t]> (tcps (view s))) (view s));
  tcp_arg_dead s pcb a :
    tcps (view s) !! pcb = None -> tcp_arg pcb a s = Fault UB;
  tcp_recv_law s pcb t f :
    tcps (view s) !! pcb = Some t ->
    wp (tcp_recv pcb f) s (fun _ s' =>
      view s' = with_tcps (<[pcb := set_recv f t]> (tcps (view s))) (view s));
  tcp_sent_law s pcb t f :
    tcps (view s) !! pcb = Some t ->
    wp (tcp_sent pcb f) s (fun _ s' =>
      view s' = with_tcps (<[pcb := set_sent f t]> (tcps (view s))) (view s));
  tcp_err_law s pcb t f :
    tcps (view s) !! pcb = Some t ->
    wp (tcp_err pcb f) s (fun _ s' =>
      view s' = with_tcps (<[pcb := set_err f t]> (tcps (view s))) (view s));
  tcp_poll_law s pcb t f n :
    tcps (view s) !! pcb = Some t ->
    wp (tcp_poll pcb f n) s (fun _ s' =>
      view s' = with_tcps (<[pcb := set_poll f t]> (tcps (view s))) (view s));
  tcp_sndbuf_law s pcb t :
    tcps (view s) !! pcb = Some t ->
    exists n, tcp_sndbuf pcb s = Ok (n, s) /\ (0 <= n < 2 ^ 16)%Z;
  tcp_write_law s pcb t bs :
    tcps (view s) !! pcb = Some t ->
    wp (tcp_write pcb bs 1) s (fun e s' =>
      view s' = if decide (e = ERR_OK)
                then with_tcps (<[pcb := add_stream bs t]> (tcps (view s)))
                       (view s)
                else view s);
  tcp_output_law s pcb t :
    tcps (view s) !! pcb = Some t ->
    wp (tcp_output pcb) s (fun _ s' => view s' = view s);
  tcp_recved_law s pcb t n :
    tcps (view s) !! pcb = Some t ->
    wp (tcp_recved pcb n) s (fun _ s' => view s' = view s);
  tcp_setprio_law s pcb t n :
    tcps (view s) !! pcb = Some t ->
    wp (tcp_setprio pcb n) s (fun _ s' => view s' = view s);
  tcp_close_law s pcb t :
    tcps (view s) !! pcb = Some t ->
    wp (tcp_close pcb) s (fun e s' =>
      view s' = if decide (e = ERR_OK)
                then with_tcps (delete pcb (tcps (view s))) (view s)
                else view s);
  tcp_new_law s :
    wp tcp_new_ip_type s (fun r s' =>
      match r with
      | None => view s' = view s
      | Some pcb => tcps (view s) !! pcb = None /\
          view s' = with_tcps (<[pcb := tcb_new]> (tcps (view s))) (view s)
      end);
  tcp_bind_law s pcb t port :
    tcps (view s) !! pcb = Some t ->
    wp (tcp_bind pcb port) s (fun _ s' => view s' = view s);
  tcp_listen_law s pcb t :
    tcps (view s) !! pcb = Some t ->
    wp (tcp_listen pcb) s (fun r s' =>
      match r with
      | None => view s' = view s
      | Some l =>
          (l = pcb \/ tcps (view s) !! l = None) /\
          view s' = with_tcps
            (<[l := set_arg (t_arg t) tcb_new]> (delete pcb (tcps (view s))))
            (view s)
      end);
  tcp_accept_law s o f :
    match o with
    | None => wp (tcp_accept o f) s (fun _ s' => view s' = view s)
    | Some pcb => forall t, tcps (view s) !! pcb = Some t ->
        wp (tcp_accept o f) s (fun _ s' =>
          view s' = with_tcps (<[pcb := set_accept (Some f) t]>
                                 (tcps (view s))) (view s))
    end;
  tcp_free_law s pcb t :
    tcps (view s) !! pcb = Some t ->
    wp (tcp_free pcb) s (fun _ s' =>
      view s' = with_tcps (delete pcb (tcps (view s))) (view s))
}.

(** ** UDP

    The fields of [struct udp_pcb] that src/src/udp.c reads and writes itself;
    lwIP is passed the structure as it is at the call. *)
Record udp_pcb : Type := UdpPcb {
  local_ip : ip_addr;
  local_port : Z;
  netif_idx : Z;
  mcast_ifindex : Z;
  mcast_ip4 : Z
}.

Class LwipUdp (S : Type) : Type := {
  udp_new_ip_type : M S (option (ptr * udp_pcb));
  udp_bind : ptr -> Z -> M S err_t;                 (* IP_ANY_TYPE *)
  udp_recv : ptr -> ptr -> M S unit;                (* cs_udp_raw_recv, arg *)
  udp_remove : ptr -> M S unit;
  udp_sendto_if_src :
    udp_pcb -> ptr -> ip_addr -> Z -> option ptr -> ip_addr -> M S err_t;
  netif_get_by_index : S -> Z -> option ptr;
  ip_route : S -> ip_addr -> ip_addr -> option ptr;
  ip4_route_src : S -> Z -> Z -> option ptr;
  ip_addr_ismulticast : ip_addr -> bool
}.

(** [udp_sendto_if_src] sends the bytes of the chain from the source address
    it is given and the control block's port, and does not keep the chain. *)
Class LwipUdpLaws (S : Type) `{LwipLaws S, LwipUdp S} : Type := {
  udp_sendto_law s u p cs addr port nif src :
    owned (pbufs (view s)) cs -> chain_head cs = Some p ->
    wp (udp_sendto_if_src u p addr port nif src) s (fun e s' =>
      view s' =
        if decide (e = ERR_OK)
        then with_outbox (outbox (view s) ++
               [Datagram src (local_port u) addr port nif (chain_data cs)])
               (view s)
        else view s);
  udp_new_law s : wp udp_new_ip_type s (fun _ s' => view s' = view s);
  udp_bind_law s u port : wp (udp_bind u port) s (fun _ s' => view s' = view s);
  udp_recv_law s u a : wp (udp_recv u a) s (fun _ s' => view s' = view s);
  udp_remove_law s u : wp (udp_remove u) s (fun _ s' => view s' = view s)
}.

(** ** Lemmas on chains *)

Lemma chain_head_app cs cs' :
  chain_head (cs ++ cs') = match cs with [] => chain_head cs' | _ => chain_head cs end.
Proof. by destruct cs. Qed.

Lemma chain_data_app cs cs' :
  chain_data (cs ++ cs') = chain_data cs ++ chain_data cs'.
Proof. unfold chain_data. by rewrite fmap_app, concat_app. Qed.

Lemma chain_data_cons p b cs : chain_data ((p, b) :: cs) = b ++ chain_data cs.
Proof. done. Qed.

Lemma chain_agree m m' cs :
  (forall q, q ∈ (cs.*1) -> m' !! q = m !! q) -> chain m cs -> chain m' cs.
Proof.
  induction cs as [|[p b] cs IH]; cbn; [done|]. intros Hm [Hp Hc]. split.
  - rewrite Hm by set_solver. done.
  - apply IH; [|done]. intros q Hq. apply Hm. set_solver.
Qed.

Lemma owned_agree m m' cs :
  (forall q, q ∈ (cs.*1) -> m' !! q = m !! q) -> owned m cs -> owned m' cs.
Proof. intros Hm [Hc Hd]. split; [by eapply chain_agree|done]. Qed.

Lemma owned_cons m p b cs :
  owned m ((p, b) :: cs) <->
  m !! p = Some (Pnode 1 (chain_head cs) b) /\ (p ∉ (cs.*1)) /\ owned m cs.
Proof. unfold owned. cbn. rewrite NoDup_cons. tauto. Qed.

Lemma owned_nil m : owned m [].
Proof. split; [done|]. apply NoDup_nil_2. Qed.

Lemma chain_live m cs p : chain m cs -> p ∈ (cs.*1) -> is_Some (m !! p).
Proof.
  induction cs as [|[q b] cs IH]; cbn; [set_solver|].
  intros [Hq Hc] [->|Hp]%elem_of_cons; eauto.
Qed.

Lemma owned_size m cs : owned m cs -> (length cs <= size m)%nat.
Proof.
  intros [Hc Hd]. rewrite <- (length_fmap fst), <- size_dom.
  rewrite <- (size_list_to_set (C := gset ptr)) by done.
  apply subseteq_size. intros p Hp. apply elem_of_list_to_set in Hp.
  apply elem_of_dom. by eapply chain_live.
Qed.

Lemma without_lookup m cs q :
  without m cs !! q = if decide (q ∈ (cs.*1)) then None else m !! q.
Proof.
  unfold without. induction cs as [|[p b] cs IH]; cbn; [done|].
  destruct (decide (p = q)) as [->|Hne].
  - rewrite lookup_delete_eq. by rewrite decide_True by set_solver.
  - rewrite lookup_delete_ne by done. rewrite IH.
    apply decide_ext. set_solver.
Qed.

Lemma without_nil m : without m [] = m.
Proof. done. Qed.

Lemma without_app m cs cs' : without (without m cs) cs' = without m (cs ++ cs').
Proof.
  apply map_eq. intros q. rewrite !without_lookup, fmap_app.
  repeat case_decide; done || set_solver.
Qed.

(** Linking a chain after another, as [pbuf_cat] does. *)
Lemma owned_last m cs p b :
  owned m cs -> last cs = Some (p, b) -> m !! p = Some (Pnode 1 None b).
Proof.
  induction cs as [|[q b'] cs IH]; [done|]. rewrite owned_cons.
  intros (Hq & _ & Ho). destruct cs as [|c cs].
  - by intros [= -> ->].
  - intros Hl. by apply IH.
Qed.

Lemma owned_cat m cs ds p k b :
  owned m cs -> owned m ds -> (forall q, q ∈ (cs.*1) -> q ∉ (ds.*1)) ->
  chain_head ds = Some p -> last cs = Some (k, b) ->
  owned (<[k := Pnode 1 (Some p) b]> m) (cs ++ ds).
Proof.
  intros Hcs Hds Hdis Hh. revert m Hcs Hds Hdis.
  induction cs as [|[q b'] cs IH]; intros m Hcs Hds Hdis; [done|].
  rewrite owned_cons in Hcs. destruct Hcs as (Hq & Hni & Hcs).
  destruct cs as [|c cs].
  - intros [= -> ->]. cbn. apply owned_cons. split_and!.
    + by rewrite lookup_insert_eq, Hh.
    + apply Hdis. set_solver.
    + eapply owned_agree; [|done]. intros x Hx.
      rewrite lookup_insert_ne; [done|]. intros ->. eapply Hdis; [|done]. set_solver.
  - intros Hl. cbn [app]. apply owned_cons.
    assert (Hk : k ∈ ((c :: cs).*1)).
    { change k with ((k, b).1). apply list_elem_of_fmap_2.
      by apply last_Some_elem_of. }
    split_and!.
    + rewrite lookup_insert_ne by set_solver. rewrite Hq. by destruct c.
    + change (c :: cs ++ ds) with ((c :: cs) ++ ds). rewrite fmap_app.
      intros [|Hin]%elem_of_app; [done|]. eapply Hdis; [|done]. set_solver.
    + apply IH; [done..| |done]. intros x Hx. apply Hdis. set_solver.
Qed.

(** Taking the first buffer of a chain and giving back the rest, which
    src/src/tcp.c does with [pbuf_ref] on the second buffer and [pbuf_free]
    on the first. *)
Lemma pfree_first m p b cs :
  owned m ((p, b) :: cs) ->
  match chain_head cs with
  | None => pfree m p (without m [(p, b)])
  | Some q => exists o b', m !! q = Some (Pnode 1 o b') /\
      pfree (<[q := Pnode 2 o b']> m) p (without m [(p, b)])
  end.
Proof.
  rewrite owned_cons. intros (Hp & Hni & Ho).
  destruct cs as [|[q b'] cs]; cbn in *.
  - by apply (pfree_last _ _ b).
  - apply owned_cons in Ho as (Hq & _ & _).
    exists (chain_head cs), b'. split; [done|].
    assert (p <> q) as Hne by set_solver.
    eapply pfree_next; [by rewrite lookup_insert_ne by congruence|].
    change (without m [(p, b)]) with (delete p m).
    assert (delete p m = <[q := Pnode 1 (chain_head cs) b']>
              (delete p (<[q := Pnode 2 (chain_head cs) b']> m))) as ->.
    { apply map_eq. intros r. destruct (decide (r = q)) as [->|].
      - rewrite lookup_insert_eq, lookup_delete_ne by done. done.
      - rewrite lookup_insert_ne by done.
        destruct (decide (r = p)) as [->|]; [by rewrite !lookup_delete_eq|].
        by rewrite !lookup_delete_ne, lookup_insert_ne by done. }
    apply pfree_shared.
    by rewrite lookup_delete_ne, lookup_insert_eq.
Qed.

(** Freeing the whole chain. *)
Lemma pfree_chain m p b cs :
  owned m ((p, b) :: cs) -> pfree m p (without m ((p, b) :: cs)).
Proof.
  revert m p b. induction cs as [|[q b'] cs IH]; intros m p b;
    rewrite owned_cons; cbn; intros (Hp & Hni & Ho).
  - by apply (pfree_last _ _ b).
  - assert (without m ((p, b) :: (q, b') :: cs)
            = without (delete p m) ((q, b') :: cs)) as ->.
    { change (delete p m) with (without m [(p, b)]).
      by rewrite without_app. }
    eapply pfree_next; [done|]. apply IH.
    eapply owned_agree; [|done]. intros r Hr.
    rewrite lookup_delete_ne; [done|set_solver].
Qed.
