(* ===== verification/Cs.v ===== *)
(** * The data of the layer (src/src/cs.h, src/src/tcp.h)

    The connection state of src/src/tcp.c, the table of application callbacks,
    the fields of lwIP's [struct netif] and [struct udp_pcb] that the program
    reads and writes itself, and the state of a whole program.  Functions of
    the application take and return the whole state, because they call back
    into the layer. *)

From S2P Require Import Prelude Lwip.

(** [enum cs_tcp_raw_states]. *)
Inductive cs_tcp_raw_states : Type :=
| ES_NONE
| ES_ACCEPTED
| ES_RECEIVED
| ES_CLOSING.

#[export] Instance cs_tcp_raw_states_eq_dec : EqDecision cs_tcp_raw_states.
Proof. solve_decision. Defined.

(** [struct cs_tcp_raw_state].  The member [tpcb], which nothing reads or
    writes, is left out. *)
Record cs_tcp_raw_state : Type := EsState {
  es_state : cs_tcp_raw_states;
  es_retries : Z;
  es_pcb : ptr;
  es_p : option ptr;
  es_callback : ptr
}.

Definition es_set_state (x : cs_tcp_raw_states) (r : cs_tcp_raw_state) :=
  EsState x (es_retries r) (es_pcb r) (es_p r) (es_callback r).
Definition es_set_retries (n : Z) (r : cs_tcp_raw_state) :=
  EsState (es_state r) n (es_pcb r) (es_p r) (es_callback r).
Definition es_set_p (p : option ptr) (r : cs_tcp_raw_state) :=
  EsState (es_state r) (es_retries r) (es_pcb r) p (es_callback r).

(** The functions that the program stores in a [struct netif]. *)
Inductive netif_fn : Type :=
| Fn_etharp_output
| Fn_ethip6_output
| Fn_cs_low_level_output.

(** [struct netif]: the fields that src/src/cs.c uses.  [n_state] is the
    callback table given to [netif_add]. *)
Record netif : Type := Netif {
  n_state : option ptr;
  n_name : Z * Z;
  n_hwaddr : list Z;
  n_hwaddr_len : Z;
  n_flags : Z;
  n_output : option netif_fn;
  n_output_ip6 : option netif_fn;
  n_linkoutput : option netif_fn;
  n_mtu : Z;
  n_ifinoctets : Z;
  n_ifindiscards : Z;
  n_ifoutoctets : Z;
  n_ifoutdiscards : Z
}.

(** The state of a program: lwIP's own, the live [cs_tcp_raw_state]s, the
    UDP control blocks, the network interfaces, the counter
    [lwip_stats.link.recv], and the application's state. *)
Record world (S A : Type) : Type := World {
  lw : S;
  es_heap : gmap ptr cs_tcp_raw_state;
  udps : gmap ptr udp_pcb;
  netifs : gmap ptr netif;
  link_recv : Z;
  app : A
}.
Arguments World {S A}.
Arguments lw {S A}.
Arguments es_heap {S A}.
Arguments udps {S A}.
Arguments netifs {S A}.
Arguments link_recv {S A}.
Arguments app {S A}.

Section world.
Context {S A : Type}.
Implicit Types w : world S A.

Definition with_lw (s : S) w : world S A :=
  World s (es_heap w) (udps w) (netifs w) (link_recv w) (app w).
Definition with_es (h : gmap ptr cs_tcp_raw_state) w : world S A :=
  World (lw w) h (udps w) (netifs w) (link_recv w) (app w).
Definition with_udps (u : gmap ptr udp_pcb) w : world S A :=
  World (lw w) (es_heap w) u (netifs w) (link_recv w) (app w).
Definition with_netifs (n : gmap ptr netif) w : world S A :=
  World (lw w) (es_heap w) (udps w) n (link_recv w) (app w).
Definition with_link_recv (n : Z) w : world S A :=
  World (lw w) (es_heap w) (udps w) (netifs w) n (app w).
Definition with_app (a : A) w : world S A :=
  World (lw w) (es_heap w) (udps w) (netifs w) (link_recv w) a.

(** A call into lwIP. *)
Definition lift {X} (m : M S X) : M (world S A) X := fun w =>
  match m (lw w) with
  | Ok (x, s) => Ok (x, with_lw s w)
  | Fault f => Fault f
  end.

#[local] Arguments lift : simpl never.

Lemma wp_lift {F X} (m : M S X) w (Q : X -> world S A -> Prop) :
  wpf F m (lw w) (fun x s => Q x (with_lw s w)) -> wpf F (lift m) w Q.
Proof. unfold wpf, lift. by destruct (m (lw w)) as [[x s]|]. Qed.

Lemma wp_lift_eq {F X} (m : M S X) w x (Q : X -> world S A -> Prop) :
  m (lw w) = Ok (x, lw w) -> Q x w -> wpf F (lift m) w Q.
Proof. intros Hm HQ. unfold wpf, lift. rewrite Hm. by destruct w. Qed.

(** [cs] is a fresh chain that starts with [p] and holds [data]; it is all
    that [v'] has more than [v]. *)
Record filled (v v' : lwview) (p : ptr) (data : bytes) (cs : cells) : Prop :=
  Filled {
    fl_view : v' = with_pbufs (pbufs v') v;
    fl_owned : owned (pbufs v') cs;
    fl_head : chain_head cs = Some p;
    fl_data : chain_data cs = data;
    fl_length : (length cs <= Datatypes.S (length data))%nat;
    fl_fresh : forall q, q ∈ (cs.*1) -> pbufs v !! q = None;
    fl_without : without (pbufs v') cs = pbufs v
  }.

Lemma fl_same v v' p data cs q :
  filled v v' p data cs -> q ∉ (cs.*1) -> pbufs v' !! q = pbufs v !! q.
Proof.
  intros Hf Hq. rewrite <- (fl_without _ _ _ _ _ Hf), without_lookup.
  by rewrite decide_False.
Qed.

(** A buffer is allocated and filled with the first [len] bytes of [buf]. *)
Lemma wp_alloc_take {F} `{!Lwip S, !LwipLaws S} {X} buf len w none
    (some : ptr -> M (world S A) X) (Q : X -> world S A -> Prop) :
  (0 <= len)%Z -> (len <= Z.of_nat (length buf))%Z ->
  (forall s, view s = view (lw w) -> wpf F none (with_lw s w) Q) ->
  (forall p cs s,
     filled (view (lw w)) (view s) p (take (Z.to_nat len) buf) cs ->
     wpf F (some p) (with_lw s w) Q) ->
  wpf F (o ← lift (pbuf_alloc len);
      match o with
      | None => none
      | Some p => _ ← lift (pbuf_take p buf len); some p
      end) w Q.
Proof.
  intros Hn Hbuf HN HS. apply wp_bind, wp_lift.
  eapply wp_mono; [by apply pbuf_alloc_law|]. cbn. intros [p|] s1; [|apply HN].
  intros (cs & m & Hs1 & Ho & Hhd & Hlen & Hcells & Hfresh & Hsame).
  apply wp_bind, wp_lift. cbn.
  eapply wp_mono; [eapply (pbuf_take_law _ p cs); rewrite ?Hs1; cbn; auto; lia|].
  cbn. intros _ s2 (_ & cs' & m' & Hs2 & Ho' & Hptrs & _ & Hdata & Hsame').
  rewrite Hs1 in Hs2, Hsame'. cbn in Hs2, Hsame'.
  rewrite (drop_ge (chain_data cs)), app_nil_r in Hdata by lia.
  apply (HS p cs'). rewrite Hs2. split; cbn; try done.
  - destruct cs as [|[]], cs' as [|[]]; cbn in *; congruence.
  - rewrite <- (length_fmap fst cs'), Hptrs, length_fmap, length_take. lia.
  - by rewrite Hptrs.
  - apply map_eq. intros x. rewrite without_lookup, Hptrs.
    case_decide as Hin; [by rewrite Hfresh|by rewrite Hsame', Hsame].
Qed.

(** Reading and writing a [cs_tcp_raw_state] through a pointer. *)
Definition es_get (e : ptr) : M (world S A) cs_tcp_raw_state :=
  h ← gets es_heap; deref (h !! e).

Definition es_put (e : ptr) (r : cs_tcp_raw_state) : M (world S A) unit :=
  modify (fun w => with_es (<[e := r]> (es_heap w)) w).

(** [es->field = v]. *)
Definition es_set (e : ptr) (f : cs_tcp_raw_state -> cs_tcp_raw_state)
    : M (world S A) unit :=
  r ← es_get e; es_put e (f r).

Lemma es_get_run e r w : es_heap w !! e = Some r -> es_get e w = Ok (r, w).
Proof. intros He. unfold es_get, mbind, M_bind, gets. by rewrite He. Qed.

Lemma es_set_run e f r w :
  es_heap w !! e = Some r ->
  es_set e f w = Ok (tt, with_es (<[e := f r]> (es_heap w)) w).
Proof.
  intros He. unfold es_set. erewrite bind_Ok by (by apply es_get_run). done.
Qed.

Lemma wp_es_get {F} e r w (Q : cs_tcp_raw_state -> world S A -> Prop) :
  es_heap w !! e = Some r -> Q r w -> wpf F (es_get e) w Q.
Proof. intros He HQ. unfold es_get. wp_auto. done. Qed.

Lemma wp_es_set {F} e f r w (Q : unit -> world S A -> Prop) :
  es_heap w !! e = Some r ->
  Q tt (with_es (<[e := f r]> (es_heap w)) w) -> wpf F (es_set e f) w Q.
Proof.
  intros He HQ. unfold es_set. wp_auto. eapply wp_es_get; [done|]. done.
Qed.

End world.
Arguments lift {S A X} m w : simpl never.

(** [cs_callback].  A member that was never assigned is [None]: calling it is
    undefined.  [input] takes the value of [*readlen] and returns its new
    value with the packet. *)
Record cs_callback (S A : Type) : Type := CsCallback {
  cb_state : option ptr;
  cb_netif : option ptr;
  cb_tcp_accept :
    option (option ptr -> ptr -> ptr -> M (world S A) err_t);
  cb_tcp_recv :
    option (option ptr -> ptr -> ptr -> ptr -> M (world S A) err_t);
  cb_tcp_send_done :
    option (option ptr -> ptr -> ptr -> M (world S A) unit);
  cb_tcp_close :
    option (option ptr -> ptr -> ptr -> M (world S A) unit);
  cb_udp_recv :
    option (option ptr -> ptr -> ptr -> ip_addr -> Z -> M (world S A) err_t);
  cb_output :
    option (option ptr -> ptr -> bytes -> Z -> M (world S A) Z);
  cb_input :
    option (option ptr -> ptr -> Z -> M (world S A) (option ptr * Z));
  cb_init :
    option (option ptr -> ptr -> M (world S A) unit)
}.
Arguments CsCallback {S A}.
Arguments cb_state {S A}.
Arguments cb_netif {S A}.
Arguments cb_tcp_accept {S A}.
Arguments cb_tcp_recv {S A}.
Arguments cb_tcp_send_done {S A}.
Arguments cb_tcp_close {S A}.
Arguments cb_udp_recv {S A}.
Arguments cb_output {S A}.
Arguments cb_input {S A}.
Arguments cb_init {S A}.
