(* ===== verification/Tcp.v ===== *)
(** * TCP connections (src/src/tcp.c): the operations

    Every function of src/src/tcp.c, in the order of the file, as a run over
    the state of the program.  Pointers to the state of a connection are
    followed through [es_heap], so a use after [mem_free] is a fault, and
    calls into lwIP go through the class [Lwip]. *)

From S2P Require Import Prelude Lwip Cs.
Local Open Scope Z_scope.

(** [u16_t] parameters of the called functions convert their argument. *)
Definition TCP_WRITE_FLAG_COPY : Z := 1.
Definition TCP_PRIO_MIN : Z := 1.
(** [sizeof(struct cs_tcp_raw_state)] is not modelled: [mem_malloc] either
    has room for it or not. *)

Section tcp.
Context {S A : Type} `{!Lwip S}.

(** The callback tables, by address.  They are filled before [cs_init] runs
    and only read afterwards. *)
Context (backs : ptr -> option (cs_callback S A)).

(** Bound on the iterations of the loop of [cs_tcp_raw_send] in the model;
    a chain with fewer buffers is sent without reaching it. *)
Context (fuel : nat).

Abbreviation C := (M (world S A)).

(** Calls through the callback table [es->callback]. *)
Definition callback_of (r : cs_tcp_raw_state) : C (cs_callback S A) :=
  deref (backs (es_callback r)).

Definition cs_tcp_raw_free (es : option ptr) : C unit :=
  match es with
  | Some e =>
      r ← es_get e;
      match es_p r with
      | Some p => _ ← lift (pbuf_free p); mret tt
      | None => mret tt
      end;;
      lift (mem_free e);;
      modify (fun w => with_es (delete e (es_heap w)) w)
  | None => mret tt
  end.

Definition cs_tcp_raw_close (tpcb es : ptr) : C unit :=
  lift (tcp_arg tpcb None);;
  lift (tcp_sent tpcb None);;
  lift (tcp_recv tpcb None);;
  lift (tcp_err tpcb None);;
  lift (tcp_poll tpcb None 0);;
  r ← es_get es;
  cb ← callback_of r;
  tcp_close_h ← deref (cb_tcp_close cb);
  tcp_close_h (cb_state cb) tpcb es;;
  cs_tcp_raw_free (Some es);;
  _ ← lift (tcp_close tpcb);
  mret tt.

(** The loop of [cs_tcp_raw_send]; [wr_err] is the variable of that name. *)
Fixpoint send_loop (n : nat) (wr_err : err_t) (tpcb es : ptr) : C unit :=
  match n with
  | O => stop OutOfFuel
  | Datatypes.S n =>
      if decide (wr_err = ERR_OK) then
        r ← es_get es;
        match es_p r with
        | None => mret tt
        | Some p =>
            len ← lift (pbuf_len p);
            sndbuf ← lift (tcp_sndbuf tpcb);
            if len <=? sndbuf then
              payload ← lift (pbuf_payload p);
              wr_err ← lift (tcp_write tpcb (take (Z.to_nat len) payload)
                               TCP_WRITE_FLAG_COPY);
              if decide (wr_err = ERR_OK) then
                next ← lift (pbuf_next p);
                es_set es (es_set_p next);;
                match next with
                | Some q => lift (pbuf_ref q)
                | None => mret tt
                end;;
                _ ← lift (pbuf_free p);
                send_loop n wr_err tpcb es
              else if decide (wr_err = ERR_MEM) then
                es_set es (es_set_p (Some p));;
                send_loop n wr_err tpcb es
              else
                send_loop n wr_err tpcb es
            else mret tt
        end
      else mret tt
  end.

Definition cs_tcp_raw_send (tpcb es : ptr) : C unit :=
  send_loop fuel ERR_OK tpcb es;;
  _ ← lift (tcp_output tpcb);
  mret tt.

Definition cs_tcp_raw_error (arg : option ptr) (err : err_t) : C unit :=
  lwip_assert (bool_decide (is_Some arg));;
  es ← deref arg;
  r ← es_get es;
  cs_tcp_raw_close (es_pcb r) es.

Definition cs_tcp_raw_poll (arg : option ptr) (tpcb : ptr) : C err_t :=
  lwip_assert (bool_decide (is_Some arg));;
  match arg with
  | Some es =>
      r ← es_get es;
      match es_p r with
      | Some _ => cs_tcp_raw_send tpcb es
      | None =>
          if decide (es_state r = ES_CLOSING)
          then cs_tcp_raw_close tpcb es
          else mret tt
      end;;
      mret ERR_OK
  | None =>
      lift (tcp_abort tpcb);;
      mret ERR_ABRT
  end.

Definition cs_tcp_send (arg : option ptr) (tpcb : ptr) (len : Z) : C err_t :=
  lwip_assert (bool_decide (is_Some arg));;
  es ← deref arg;
  es_set es (es_set_retries 0);;
  r ← es_get es;
  match es_p r with
  | Some _ =>
      lift (tcp_sent tpcb (Some Fn_cs_tcp_send));;
      cs_tcp_raw_send tpcb es
  | None =>
      cb ← callback_of r;
      tcp_send_done ← deref (cb_tcp_send_done cb);
      tcp_send_done (cb_state cb) tpcb es;;
      r ← es_get es;
      if decide (es_state r = ES_CLOSING)
      then cs_tcp_raw_close tpcb es
      else mret tt
  end;;
  mret ERR_OK.

(** [es->callback->tcp_recv(es->callback->state, tpcb, p, es)]. *)
Definition call_tcp_recv (tpcb p es : ptr) : C err_t :=
  r ← es_get es;
  cb ← callback_of r;
  tcp_recv_h ← deref (cb_tcp_recv cb);
  tcp_recv_h (cb_state cb) tpcb p es.

Definition cs_tcp_raw_recv (arg : option ptr) (tpcb : ptr) (p : option ptr)
    (err : err_t) : C err_t :=
  lwip_assert (bool_decide (is_Some arg));;
  es ← deref arg;
  match p with
  | None =>
      es_set es (es_set_state ES_CLOSING);;
      cs_tcp_raw_close tpcb es;;
      mret ERR_OK
  | Some p' =>
      if decide (err <> ERR_OK) then
        lwip_assert (bool_decide (p = None));;
        mret err
      else
        r ← es_get es;
        if decide (es_state r = ES_ACCEPTED) then
          es_set es (es_set_state ES_RECEIVED);;
          call_tcp_recv tpcb p' es
        else if decide (es_state r = ES_RECEIVED) then
          call_tcp_recv tpcb p' es
        else
          tot_len ← lift (pbuf_tot_len p');
          lift (tcp_recved tpcb tot_len);;
          _ ← lift (pbuf_free p');
          mret ERR_OK
  end.

Definition cs_tcp_raw_accept (arg newpcb : option ptr) (err : err_t)
    : C err_t :=
  match decide (err <> ERR_OK), newpcb, arg with
  | right _, Some newpcb, Some back =>
      lift (tcp_setprio newpcb TCP_PRIO_MIN);;
      o ← lift mem_malloc;
      match o with
      | Some es =>
          es_put es (EsState ES_ACCEPTED 0 newpcb None back);;
          lift (tcp_arg newpcb (Some es));;
          lift (tcp_recv newpcb (Some Fn_cs_tcp_raw_recv));;
          lift (tcp_err newpcb (Some Fn_cs_tcp_raw_error));;
          lift (tcp_poll newpcb (Some Fn_cs_tcp_raw_poll) 1);;
          lift (tcp_sent newpcb (Some Fn_cs_tcp_send));;
          cb ← deref (backs back);
          tcp_accept_h ← deref (cb_tcp_accept cb);
          _ ← tcp_accept_h (cb_state cb) newpcb es;
          mret ERR_OK
      | None => mret ERR_MEM
      end
  | _, _, _ => mret ERR_VAL
  end.

Definition cs_tcp_raw_init (callback : ptr) : C (option ptr) :=
  npcb ← lift tcp_new_ip_type;
  match npcb with
  | Some npcb =>
      lift (tcp_arg npcb (Some callback));;
      err ← lift (tcp_bind npcb 7);
      if decide (err = ERR_OK) then
        npcb ← lift (tcp_listen npcb);
        lift (tcp_accept npcb Fn_cs_tcp_raw_accept);;
        mret npcb
      else
        lift (tcp_free npcb);;
        mret None
  | None => mret None
  end.

(** [buf_len] is an [int] of the caller; [pbuf_alloc] and [pbuf_take] take a
    [u16_t]. *)
Definition cs_tcp_char_send (tpcb state : ptr) (buf : bytes) (buf_len : Z)
    : C Z :=
  r ← es_get state;
  match es_p r with
  | Some _ => mret 100
  | None =>
      o ← lift (pbuf_alloc (u16 buf_len));
      match o with
      | None => mret 1
      | Some p =>
          _ ← lift (pbuf_take p buf (u16 buf_len));
          r ← es_get state;
          match es_p r with
          | None =>
              es_set state (es_set_p (Some p));;
              cs_tcp_raw_send tpcb state
          | Some ptr => lift (pbuf_cat ptr p)
          end;;
          mret 0
      end
  end.

End tcp.
