(* ===== verification/TcpSend.v ===== *)
(** * Sending (src/src/tcp.c): [cs_tcp_raw_send] and [cs_tcp_char_send]

    What the loop of [cs_tcp_raw_send] does to the queue of a connection, to
    the stream of its control block and to the packet buffers; that it ends;
    and the outcomes of [cs_tcp_char_send]. *)

From S2P Require Import Prelude Lwip Cs Tcp.
Local Open Scope Z_scope.

Section send.
Context {S A : Type} `{!Lwip S, !LwipLaws S}.
Implicit Types (w : world S A) (cs : cells).

Abbreviation vw w := (view (lw w)).

(** lwIP, in the state [s], does not take the next buffer of a queue: it has
    less room than the buffer has bytes, or [tcp_write] fails. *)
Definition refuses (s : S) (tpcb : ptr) (b : bytes) : Prop :=
  (exists n s', tcp_sndbuf tpcb s = Ok (n, s') /\ n < Z.of_nat (length b)) \/
  (exists e s', tcp_write tpcb b TCP_WRITE_FLAG_COPY s = Ok (e, s') /\
                e <> ERR_OK).

(** The result of a send: a prefix [sent] of the queue [sent ++ rest] went to
    the stream of [tpcb], in order, and its buffers were freed; the rest is
    still the queue, with the same buffers; nothing else changed; and if
    anything is left lwIP refused its first buffer. *)
Definition send_post (tpcb es : ptr) (r : cs_tcp_raw_state) (t : tcb) cs w w'
    : Prop :=
  exists sent rest s',
    cs = sent ++ rest /\
    w' = with_es (<[es := es_set_p (chain_head rest) r]> (es_heap w))
           (with_lw s' w) /\
    view s' = View (without (pbufs (vw w)) sent)
                (<[tpcb := add_stream (chain_data sent) t]> (tcps (vw w)))
                (blocks (vw w)) (outbox (vw w)) /\
    owned (pbufs (view s')) rest /\
    match rest with
    | [] => True
    | (_, b) :: _ => exists s1, view s1 = view s' /\ refuses s1 tpcb b
    end.

(** One turn of the loop that succeeds: the queue [(p, b) :: cs] loses its
    first buffer. *)
Lemma chop_spec es r p b cs w (Q : unit -> world S A -> Prop) k :
  owned (pbufs (vw w)) ((p, b) :: cs) ->
  es_heap w !! es = Some r ->
  (forall s', view s' = with_pbufs (without (pbufs (vw w)) [(p, b)]) (vw w) ->
     wp k (with_es (<[es := es_set_p (chain_head cs) r]> (es_heap w))
             (with_lw s' w)) Q) ->
  wp (next ← lift (pbuf_next p);
      es_set es (es_set_p next);;
      match next with
      | Some q => lift (pbuf_ref q)
      | None => mret tt
      end;;
      _ ← lift (pbuf_free p);
      k) w Q.
Proof.
  intros Ho He Hk. pose proof (pfree_first _ _ _ _ Ho) as Hf.
  apply owned_cons in Ho as (Hp & _ & Ho).
  apply wp_bind. eapply wp_lift_eq; [by eapply pbuf_next_law|]. cbn.
  apply wp_bind. eapply wp_es_set; [done|].
  apply wp_bind. destruct (chain_head cs) as [q|] eqn:Hq.
  - destruct Hf as (o & b' & Hq' & Hf). apply wp_lift. cbn.
    eapply wp_mono; [by eapply pbuf_ref_law|]. cbn. intros _ s1 Hs1.
    apply wp_bind, wp_lift. cbn.
    eapply wp_mono; [apply pbuf_free_law; rewrite Hs1; cbn; exact Hf|].
    cbn. intros _ s2 Hs2. apply Hk. by rewrite Hs2, Hs1.
  - apply wp_ret. apply wp_bind, wp_lift. cbn.
    eapply wp_mono; [apply pbuf_free_law; exact Hf|].
    cbn. intros _ s2 Hs2. by apply Hk.
Qed.

Lemma add_stream_nil t : add_stream [] t = t.
Proof. destruct t. unfold add_stream. cbn. by rewrite app_nil_r. Qed.

Lemma with_view_id (v : lwview) : View (pbufs v) (tcps v) (blocks v) (outbox v) = v.
Proof. by destruct v. Qed.

Lemma send_post_nothing tpcb es r t cs w s' :
  es_p r = chain_head cs -> owned (pbufs (vw w)) cs ->
  es_heap w !! es = Some r -> tcps (vw w) !! tpcb = Some t ->
  view s' = vw w ->
  (forall p b cs', cs = (p, b) :: cs' ->
     exists s1, view s1 = vw w /\ refuses s1 tpcb b) ->
  send_post tpcb es r t cs w (with_lw s' w).
Proof.
  intros Hp Ho He Ht Hs Hr. exists [], cs, s'. split_and!; [done| | | |].
  - rewrite <- Hp. destruct r; cbn in *.
    rewrite insert_id by done. by destruct w.
  - change (chain_data []) with ([] : bytes).
    rewrite add_stream_nil, (insert_id (tcps _)) by done.
    by rewrite without_nil, with_view_id.
  - by rewrite Hs.
  - destruct cs as [|[p b] cs']; [done|]. rewrite Hs. by eapply Hr.
Qed.

(** The first buffer [(p, b)] of the queue has been sent and freed. *)
Definition turned (tpcb es : ptr) (r : cs_tcp_raw_state) (t : tcb) (p : ptr)
    (b : bytes) cs w w1 : Prop :=
  exists s',
    w1 = with_es (<[es := es_set_p (chain_head cs) r]> (es_heap w))
           (with_lw s' w) /\
    view s' = View (without (pbufs (vw w)) [(p, b)])
                (<[tpcb := add_stream b t]> (tcps (vw w)))
                (blocks (vw w)) (outbox (vw w)).

(** It can be sent from again. *)
Lemma turned_ready tpcb es r t p b cs w w1 :
  owned (pbufs (vw w)) ((p, b) :: cs) -> turned tpcb es r t p b cs w w1 ->
  owned (pbufs (vw w1)) cs /\
  es_heap w1 !! es = Some (es_set_p (chain_head cs) r) /\
  tcps (vw w1) !! tpcb = Some (add_stream b t).
Proof.
  intros (_ & Hni & Ho)%owned_cons (s' & -> & Hs). cbn. rewrite Hs. cbn.
  rewrite !lookup_insert_eq. split_and!; [|done..].
  eapply owned_agree; [|done]. intros q Hq. rewrite without_lookup. cbn.
  rewrite decide_False; [done|set_solver].
Qed.

Lemma send_post_cons tpcb es r t p b cs w w1 w' :
  turned tpcb es r t p b cs w w1 ->
  send_post tpcb es (es_set_p (chain_head cs) r) (add_stream b t) cs w1 w' ->
  send_post tpcb es r t ((p, b) :: cs) w w'.
Proof.
  intros (s1 & -> & Hs1) (sent & rest & s' & -> & -> & Hs' & Hor & Hr).
  exists ((p, b) :: sent), rest, s'. split_and!; try done.
  - cbn. by rewrite insert_insert_eq.
  - rewrite Hs'. cbn. rewrite Hs1. cbn. rewrite insert_insert_eq, without_app.
    rewrite chain_data_cons. unfold add_stream. cbn. by rewrite app_assoc.
Qed.

(** One turn of the loop when lwIP has room for the first buffer. *)
Lemma send_turn_spec n tpcb es r t p b cs sb w (Q : unit -> world S A -> Prop) :
  (0 < n)%nat -> es_p r = Some p -> owned (pbufs (vw w)) ((p, b) :: cs) ->
  es_heap w !! es = Some r -> tcps (vw w) !! tpcb = Some t ->
  tcp_sndbuf tpcb (lw w) = Ok (sb, lw w) -> Z.of_nat (length b) <= sb ->
  (forall e s1, tcp_write tpcb b TCP_WRITE_FLAG_COPY (lw w) = Ok (e, s1) ->
     if decide (e = ERR_OK)
     then forall w1, turned tpcb es r t p b cs w w1 ->
            wp (send_loop n ERR_OK tpcb es) w1 Q
     else view s1 = vw w -> Q tt (with_lw s1 w)) ->
  wp (send_loop (Datatypes.S n) ERR_OK tpcb es) w Q.
Proof.
  intros Hn Hp Ho He Ht Hsb Hle HQ. cbn [send_loop].
  pose proof Ho as (Hpn & _ & _)%owned_cons.
  rewrite decide_True by done. apply wp_bind. eapply wp_es_get; [done|]. rewrite Hp.
  apply wp_bind. eapply wp_lift_eq; [by eapply pbuf_len_law|]. cbn [pn_data].
  apply wp_bind. eapply wp_lift_eq; [done|]. rewrite (proj2 (Z.leb_le _ _) Hle).
  apply wp_bind. eapply wp_lift_eq; [by eapply pbuf_payload_law|].
  cbn [pn_data]. rewrite Nat2Z.id, firstn_all. apply wp_bind, wp_lift.
  destruct (proj1 (wp_Ok _ _ _) (tcp_write_law _ _ _ b Ht)) as (e & s1 & Hw & Hs1).
  specialize (HQ _ _ Hw). apply wp_Ok. exists e, s1. split; [done|].
  destruct (decide (e = ERR_OK)) as [->|Hne].
  - eapply (chop_spec es r p b cs (with_lw s1 w)); cbn [with_lw lw es_heap].
    + by rewrite Hs1.
    + done.
    + intros s2 Hs2. rewrite Hs1 in Hs2. apply HQ. by exists s2.
  - destruct n as [|n]; [lia|].
    destruct (decide (e = ERR_MEM)).
    + apply wp_bind. eapply wp_es_set; [done|]. cbn [send_loop].
      rewrite decide_False by done. apply wp_ret.
      assert (<[es := es_set_p (Some p) r]> (es_heap (with_lw s1 w))
              = es_heap (with_lw s1 w)) as ->.
      { apply insert_id. cbn. rewrite He. by destruct r; cbn in Hp; subst. }
      by apply HQ.
    + cbn [send_loop]. rewrite decide_False by done. by apply wp_ret, HQ.
Qed.

Lemma send_loop_spec n tpcb es r t cs w :
  (length cs < n)%nat ->
  es_p r = chain_head cs -> owned (pbufs (vw w)) cs ->
  es_heap w !! es = Some r -> tcps (vw w) !! tpcb = Some t ->
  wp (send_loop n ERR_OK tpcb es) w (fun _ w' => send_post tpcb es r t cs w w').
Proof.
  revert cs r t w. induction n as [|n IH]; intros cs r t w Hn Hp Ho He Ht; [lia|].
  assert (Hself : with_lw (lw w) w = w) by (by destruct w).
  destruct cs as [|[p b] cs].
  { cbn [send_loop]. rewrite decide_True by done. apply wp_bind.
    eapply wp_es_get; [done|]. rewrite Hp. apply wp_ret.
    rewrite <- Hself at 2. by apply send_post_nothing. }
  destruct (tcp_sndbuf_law _ _ _ Ht) as (sb & Hsb & _).
  destruct (Z.leb_spec (Z.of_nat (length b)) sb) as [Hle|Hgt].
  - cbn in Hn. eapply (send_turn_spec n tpcb es r t p b cs sb); [lia|done..|].
    intros e s1 Hw. case_decide as Hd.
    + intros w1 H1. destruct (turned_ready _ _ _ _ _ _ _ _ _ Ho H1) as (? & ? & ?).
      eapply wp_mono; [eapply (IH cs (es_set_p (chain_head cs) r)); [lia|done..]|].
      cbn beta. intros _ w'. by apply send_post_cons.
    + intros Hs1. apply send_post_nothing; try done.
      intros ? ? ? [= -> -> ->]. exists (lw w). split; [done|]. right. eauto.
  - cbn [send_loop]. pose proof Ho as (Hpn & _ & _)%owned_cons.
    rewrite decide_True by done. apply wp_bind. eapply wp_es_get; [done|].
    rewrite Hp. cbn [chain_head fmap option_fmap option_map head fst].
    apply wp_bind. eapply wp_lift_eq; [by eapply pbuf_len_law|]. cbn [pn_data].
    apply wp_bind. eapply wp_lift_eq; [done|].
    rewrite (proj2 (Z.leb_gt _ _) Hgt). apply wp_ret.
    rewrite <- Hself at 2. apply send_post_nothing; try done.
    intros ? ? ? [= -> -> ->]. exists (lw w). split; [done|]. left. eauto.
Qed.

Lemma cs_tcp_raw_send_spec fuel tpcb es r t cs w :
  (length cs < fuel)%nat ->
  es_p r = chain_head cs -> owned (pbufs (vw w)) cs ->
  es_heap w !! es = Some r -> tcps (vw w) !! tpcb = Some t ->
  wp (cs_tcp_raw_send fuel tpcb es) w
    (fun _ w' => send_post tpcb es r t cs w w').
Proof.
  intros. unfold cs_tcp_raw_send. apply wp_bind.
  eapply wp_mono; [by eapply send_loop_spec|].
  intros _ w' (sent & rest & s' & -> & -> & Hs' & Ho & Hr).
  apply wp_bind, wp_lift. cbn. eapply wp_mono.
  { eapply tcp_output_law. rewrite Hs'. cbn. by rewrite lookup_insert_eq. }
  cbn. intros _ s2 Hs2. exists sent, rest, s2. rewrite Hs2. done.
Qed.

(** ** [cs_tcp_char_send] *)

(** A connection that still has a queue refuses new data. *)
Lemma cs_tcp_char_send_pending fuel tpcb es r p buf n w :
  es_heap w !! es = Some r -> es_p r = Some p ->
  cs_tcp_char_send fuel tpcb es buf n w = Ok (100, w).
Proof.
  intros He Hp. unfold cs_tcp_char_send, es_get.
  erewrite bind_Ok by (erewrite bind_Ok by done; cbn; by rewrite He).
  cbn. by rewrite Hp.
Qed.

(** What a [cs_tcp_char_send] that returned 0 did: of the first [u16 n] bytes
    of [buf] a prefix went to the stream, the rest is in fresh buffers that
    are now the queue, and every other buffer is as it was. *)
Definition char_send_post (tpcb es : ptr) (r : cs_tcp_raw_state) (t : tcb)
    (data : bytes) w w' : Prop :=
  exists sent rest s',
    sent ++ chain_data rest = data /\
    w' = with_es (<[es := es_set_p (chain_head rest) r]> (es_heap w))
           (with_lw s' w) /\
    tcps (view s') = <[tpcb := add_stream sent t]> (tcps (vw w)) /\
    blocks (view s') = blocks (vw w) /\ outbox (view s') = outbox (vw w) /\
    owned (pbufs (view s')) rest /\
    (forall q, q ∈ (rest.*1) -> pbufs (vw w) !! q = None) /\
    (forall q, q ∉ (rest.*1) -> pbufs (view s') !! q = pbufs (vw w) !! q).

Lemma cs_tcp_char_send_spec fuel tpcb es r t buf n w :
  (Datatypes.S (Z.to_nat (u16 n)) < fuel)%nat ->
  u16 n <= Z.of_nat (length buf) ->
  es_heap w !! es = Some r -> es_p r = None ->
  tcps (vw w) !! tpcb = Some t ->
  wp (cs_tcp_char_send fuel tpcb es buf n) w (fun res w' =>
    (res = 1 /\ exists s', w' = with_lw s' w /\ view s' = vw w) \/
    (res = 0 /\ char_send_post tpcb es r t (take (Z.to_nat (u16 n)) buf) w w')).
Proof.
  intros Hfuel Hbuf He Hp Ht. unfold cs_tcp_char_send.
  pose proof (wrap_u_range 16 n ltac:(lia)) as Hn.
  apply wp_bind. eapply wp_es_get; [done|]. rewrite Hp.
  apply wp_alloc_take; [lia|done|intros s1 Hs1; apply wp_ret; left; eauto|].
  intros p cs s2 Hf. apply wp_bind. eapply wp_es_get; [done|]. rewrite Hp.
  apply wp_bind, wp_bind. eapply wp_es_set; [done|].
  pose proof (fl_length _ _ _ _ _ Hf) as Hlen. rewrite length_take in Hlen.
  eapply wp_mono.
  { eapply (cs_tcp_raw_send_spec fuel tpcb es (es_set_p (Some p) r) t cs); cbn.
    - lia.
    - by rewrite (fl_head _ _ _ _ _ Hf).
    - apply Hf.
    - by rewrite lookup_insert_eq.
    - by rewrite (fl_view _ _ _ _ _ Hf). }
  intros _ w' (sent & rest & s' & Hcs & -> & Hs' & Hor & _).
  apply wp_ret. right. split; [done|]. cbn in Hs', Hor |- *.
  rewrite (fl_view _ _ _ _ _ Hf) in Hs'. cbn in Hs'.
  exists (chain_data sent), rest, s'. split_and!.
  - by rewrite <- chain_data_app, <- Hcs, (fl_data _ _ _ _ _ Hf).
  - unfold with_es. cbn. by rewrite insert_insert_eq.
  - by rewrite Hs'.
  - by rewrite Hs'.
  - by rewrite Hs'.
  - done.
  - intros q Hq. apply (fl_fresh _ _ _ _ _ Hf). rewrite Hcs, fmap_app. set_solver.
  - intros q Hq. rewrite Hs', <- (fl_without _ _ _ _ _ Hf). cbn.
    rewrite !without_lookup, Hcs, fmap_app. repeat case_decide; set_solver.
Qed.

(** More turns do not change a result. *)
Lemma send_loop_more n k err tpcb es w x :
  send_loop n err tpcb es w = Ok x -> send_loop (n + k) err tpcb es w = Ok x.
Proof.
  revert err w. induction n as [|n IH]; intros err w; [done|]. cbn [send_loop Nat.add].
  case_decide; [|done]. unfold mbind, M_bind.
  destruct (es_get es w) as [[r w0]|]; [|done]. destruct (es_p r) as [p|]; [|done].
  destruct (lift (pbuf_len p) w0) as [[len w1]|]; [|done].
  destruct (lift (tcp_sndbuf tpcb) w1) as [[sb w2]|]; [|done].
  destruct (len <=? sb)%Z; [|done].
  destruct (lift (pbuf_payload p) w2) as [[bs w3]|]; [|done].
  destruct (lift (tcp_write tpcb _ _) w3) as [[e w4]|]; [|done].
  case_decide.
  - destruct (lift (pbuf_next p) w4) as [[nx w5]|]; [|done].
    destruct (es_set es _ w5) as [[[] w6]|]; [|done].
    destruct (match nx with Some q => lift (pbuf_ref q) | None => mret tt end w6)
      as [[[] w7]|]; [|done].
    destruct (lift (pbuf_free p) w7) as [[z w8]|]; [|done]. apply IH.
  - case_decide; [|apply IH]. destruct (es_set es _ w4) as [[[] w5]|]; [|done]. apply IH.
Qed.

(** ** Properties *)

(** C14: [cs_tcp_raw_send] on a connection whose queue is the chain [cs] ends
    without fault, when the loop has more turns than the chain has buffers;
    it appends the bytes of a prefix of the chain to the stream of the control
    block, in order and each buffer's bytes completely, frees exactly the
    buffers of that prefix, and leaves the rest as the queue; nothing else
    changes, and if a buffer is left over then lwIP had no room for it or
    [tcp_write] failed. *)
Theorem cs_tcp_raw_send_correct fuel tpcb es r t cs w :
  (length cs < fuel)%nat ->
  es_p r = chain_head cs -> owned (pbufs (vw w)) cs ->
  es_heap w !! es = Some r -> tcps (vw w) !! tpcb = Some t ->
  exists w' sent rest s',
    cs_tcp_raw_send fuel tpcb es w = Ok (tt, w') /\ cs = sent ++ rest /\
    w' = with_es (<[es := es_set_p (chain_head rest) r]> (es_heap w))
           (with_lw s' w) /\
    view s' = View (without (pbufs (vw w)) sent)
                (<[tpcb := add_stream (chain_data sent) t]> (tcps (vw w)))
                (blocks (vw w)) (outbox (vw w)) /\
    owned (pbufs (view s')) rest /\
    match rest with
    | [] => True
    | (_, b) :: _ => exists s1, view s1 = view s' /\ refuses s1 tpcb b
    end.
Proof.
  intros Hf Hp Ho He Ht.
  destruct (proj1 (wp_Ok _ _ _) (cs_tcp_raw_send_spec _ _ _ _ _ _ _ Hf Hp Ho He Ht))
    as ([] & w' & Hrun & sent & rest & s' & Hpost).
  by exists w', sent, rest, s'.
Qed.

(** C38: [cs_tcp_raw_send] terminates: there is one result that every bound on the
    turns of its loop gives which exceeds the number of buffers in the queue,
    so the loop of the code, which has no bound, ends with it. *)
Theorem cs_tcp_raw_send_terminates tpcb es r t cs w :
  es_p r = chain_head cs -> owned (pbufs (vw w)) cs ->
  es_heap w !! es = Some r -> tcps (vw w) !! tpcb = Some t ->
  exists w', forall fuel, (length cs < fuel)%nat ->
    cs_tcp_raw_send fuel tpcb es w = Ok (tt, w').
Proof.
  intros Hp Ho He Ht. set (n := Datatypes.S (length cs)).
  destruct (proj1 (wp_Ok _ _ _) (cs_tcp_raw_send_spec n _ _ _ _ _ _
    (Nat.lt_succ_diag_r _) Hp Ho He Ht)) as ([] & w' & Hrun & _).
  exists w'. intros fuel Hf. rewrite <- Hrun. unfold cs_tcp_raw_send, mbind, M_bind in *.
  destruct (send_loop n ERR_OK tpcb es w) as [[[] w1]|] eqn:Hl; [|done].
  replace fuel with (n + (fuel - n))%nat by (unfold n; lia).
  by rewrite (send_loop_more _ _ _ _ _ _ _ Hl).
Qed.

(** C29: [cs_tcp_char_send] never runs into a fault and has three outcomes: it
    returns 100 and changes nothing if the connection still has a queue; it
    returns 1 and changes nothing but lwIP's own state if no buffer could be
    allocated; or it returns 0, and then the first [buf_len mod 2^16] bytes
    of [buf], not the first [buf_len], are partly on the stream and for the
    rest in fresh buffers that are the new queue, in order. *)
Theorem cs_tcp_char_send_correct fuel tpcb es r t buf buf_len w :
  (Datatypes.S (Z.to_nat (u16 buf_len)) < fuel)%nat ->
  u16 buf_len <= Z.of_nat (length buf) ->
  es_heap w !! es = Some r -> tcps (vw w) !! tpcb = Some t ->
  exists res w', cs_tcp_char_send fuel tpcb es buf buf_len w = Ok (res, w') /\
    match es_p r with
    | Some _ => res = 100 /\ w' = w
    | None =>
        (res = 1 /\ exists s', w' = with_lw s' w /\ view s' = vw w) \/
        (res = 0 /\
         char_send_post tpcb es r t (take (Z.to_nat (u16 buf_len)) buf) w w')
    end.
Proof.
  intros Hf Hb He Ht. destruct (es_p r) as [p|] eqn:Hp.
  - exists 100, w. split; [|done]. by eapply cs_tcp_char_send_pending.
  - by apply wp_Ok, cs_tcp_char_send_spec.
Qed.

End send.
