(* ===== verification/LwipRef.v ===== *)
(** * An instance of the lwIP interface

    A small executable stack that satisfies [LwipLaws], so that the
    hypotheses of the theorems about the layer are known to be satisfiable
    and the theorems can be applied to concrete runs.  It is not a model of
    lwIP's implementation. *)

From S2P Require Import Prelude Lwip.
Local Open Scope Z_scope.

(** The view, and how the stack answers: whether memory is exhausted, the
    room in the send buffers, the results of [tcp_write] when there is room,
    of [tcp_close] and of [tcp_bind], and whether [tcp_listen] finds
    memory. *)
Record ref : Type := Ref {
  r_view : lwview;
  r_oom : bool;
  r_sndbuf : Z;
  r_write : err_t;
  r_close : err_t;
  r_bind : err_t;
  r_listen_oom : bool
}.

Definition set_view (v : lwview) (s : ref) : ref :=
  Ref v (r_oom s) (r_sndbuf s) (r_write s) (r_close s) (r_bind s)
    (r_listen_oom s).
Definition set_sndbuf (n : Z) (s : ref) : ref :=
  Ref (r_view s) (r_oom s) n (r_write s) (r_close s) (r_bind s)
    (r_listen_oom s).

(** Run [f] on the node or control block at [p]; there must be one. *)
Definition at_pbuf {A} (p : ptr) (f : pnode -> ref -> A * ref) : M ref A :=
  fun s => match pbufs (r_view s) !! p with
           | Some n => Ok (f n s)
           | None => Fault UB
           end.
Definition at_tcb {A} (p : ptr) (f : tcb -> ref -> A * ref) : M ref A :=
  fun s => match tcps (r_view s) !! p with
           | Some t => Ok (f t s)
           | None => Fault UB
           end.

Definition upd_tcb (p : ptr) (g : tcb -> tcb) : M ref unit :=
  at_tcb p (fun t s =>
    (tt, set_view (with_tcps (<[p := g t]> (tcps (r_view s))) (r_view s)) s)).

Definition del_tcb (p : ptr) (s : ref) : ref :=
  set_view (with_tcps (delete p (tcps (r_view s))) (r_view s)) s.

(** Loops over a chain; the number of buffers is fuel enough. *)
Fixpoint ref_free (n : nat) (m : gmap ptr pnode) (p : ptr)
    : option (gmap ptr pnode) :=
  match n with
  | O => None
  | S n =>
      match m !! p with
      | Some (Pnode 1 None _) => Some (delete p m)
      | Some (Pnode 1 (Some q) _) => ref_free n (delete p m) q
      | Some (Pnode (S (S k)) o b) => Some (<[p := Pnode (S k) o b]> m)
      | _ => None
      end
  end.

Fixpoint ref_data (n : nat) (m : gmap ptr pnode) (p : ptr) : bytes :=
  match n, m !! p with
  | S n, Some (Pnode _ o b) =>
      b ++ match o with Some q => ref_data n m q | None => [] end
  | _, _ => []
  end.

Fixpoint ref_cat (n : nat) (m : gmap ptr pnode) (p t : ptr) : gmap ptr pnode :=
  match n, m !! p with
  | S n, Some (Pnode k (Some q) _) => ref_cat n m q t
  | S n, Some (Pnode k None b) => <[p := Pnode k (Some t) b]> m
  | _, _ => m
  end.

(** Overwrite the first bytes of the buffers from [p] on with [d]. *)
Fixpoint ref_fill (n : nat) (m : gmap ptr pnode) (p : ptr) (d : bytes)
    : gmap ptr pnode :=
  match n, m !! p with
  | S n, Some (Pnode k o b) =>
      let m' := <[p := Pnode k o (take (length b) d ++ drop (length d) b)]> m in
      match o with
      | Some q => ref_fill n m' q (drop (length b) d)
      | None => m'
      end
  | _, _ => m
  end.

Definition all_pbufs (s : ref) : nat := S (size (pbufs (r_view s))).
Arguments all_pbufs : simpl never.
Definition put_pbufs (m : gmap ptr pnode) (s : ref) : ref :=
  set_view (with_pbufs m (r_view s)) s.

#[export] Instance lwip_ref : Lwip ref := {
  mem_malloc := fun s =>
    if r_oom s then Ok (None, s) else
    let a := fresh (blocks (r_view s)) in
    Ok (Some a,
        set_view (with_blocks ({[ a ]} ∪ blocks (r_view s)) (r_view s)) s);
  mem_free := fun a s =>
    Ok (tt, set_view (with_blocks (blocks (r_view s) ∖ {[ a ]}) (r_view s)) s);
  pbuf_len := fun p => at_pbuf p (fun n s => (Z.of_nat (length (pn_data n)), s));
  pbuf_tot_len := fun p s =>
    Ok (Z.of_nat (length (ref_data (all_pbufs s) (pbufs (r_view s)) p)), s);
  pbuf_next := fun p => at_pbuf p (fun n s => (pn_next n, s));
  pbuf_payload := fun p => at_pbuf p (fun n s => (pn_data n, s));
  pbuf_ref := fun p => at_pbuf p (fun n s =>
    (tt, put_pbufs (<[p := Pnode (pn_ref n + 1) (pn_next n) (pn_data n)]>
                      (pbufs (r_view s))) s));
  pbuf_free := fun p s =>
    match ref_free (all_pbufs s) (pbufs (r_view s)) p with
    | Some m => Ok (Z.of_nat (size (pbufs (r_view s))) - Z.of_nat (size m),
                    put_pbufs m s)
    | None => Fault UB
    end;
  pbuf_cat := fun h t s =>
    Ok (tt, put_pbufs (ref_cat (all_pbufs s) (pbufs (r_view s)) h t) s);
  pbuf_alloc := fun len s =>
    if r_oom s then Ok (None, s) else
    let p := fresh (dom (pbufs (r_view s))) in
    Ok (Some p, put_pbufs (<[p := Pnode 1 None (replicate (Z.to_nat len) 0)]>
                             (pbufs (r_view s))) s);
  pbuf_take := fun p buf len s =>
    Ok (ERR_OK, put_pbufs (ref_fill (all_pbufs s) (pbufs (r_view s)) p
                             (take (Z.to_nat len) buf)) s);
  pbuf_copy_partial := fun p len off s =>
    Ok (take (Z.to_nat len) (drop (Z.to_nat off)
          (ref_data (all_pbufs s) (pbufs (r_view s)) p)), s);
  tcp_arg := fun p a => upd_tcb p (set_arg a);
  tcp_recv := fun p f => upd_tcb p (set_recv f);
  tcp_sent := fun p f => upd_tcb p (set_sent f);
  tcp_err := fun p f => upd_tcb p (set_err f);
  tcp_poll := fun p f _ => upd_tcb p (set_poll f);
  tcp_sndbuf := fun p => at_tcb p (fun _ s => (u16 (r_sndbuf s), s));
  tcp_write := fun p bs _ => at_tcb p (fun t s =>
    if decide (Z.of_nat (length bs) <= u16 (r_sndbuf s)) then
      if decide (r_write s = ERR_OK) then
        (ERR_OK,
         set_sndbuf (u16 (r_sndbuf s) - Z.of_nat (length bs))
           (set_view (with_tcps (<[p := add_stream bs t]> (tcps (r_view s)))
                        (r_view s)) s))
      else (r_write s, s)
    else (ERR_MEM, s));
  tcp_output := fun p => at_tcb p (fun _ s => (ERR_OK, s));
  tcp_recved := fun p _ => at_tcb p (fun _ s => (tt, s));
  tcp_setprio := fun p _ => at_tcb p (fun _ s => (tt, s));
  tcp_close := fun p => at_tcb p (fun _ s =>
    (r_close s, if decide (r_close s = ERR_OK) then del_tcb p s else s));
  tcp_abort := fun p => at_tcb p (fun _ s => (tt, del_tcb p s));
  tcp_new_ip_type := fun s =>
    if r_oom s then Ok (None, s) else
    let p := fresh (dom (tcps (r_view s))) in
    Ok (Some p, set_view (with_tcps (<[p := tcb_new]> (tcps (r_view s)))
                            (r_view s)) s);
  tcp_bind := fun p _ => at_tcb p (fun _ s => (r_bind s, s));
  tcp_listen := fun p => at_tcb p (fun t s =>
    if r_listen_oom s then (None, s) else
    (Some p, set_view
       (with_tcps (<[p := set_arg (t_arg t) tcb_new]>
                     (delete p (tcps (r_view s)))) (r_view s)) s));
  tcp_accept := fun o f =>
    match o with
    | None => mret tt
    | Some p => upd_tcb p (set_accept (Some f))
    end;
  tcp_free := fun p => at_tcb p (fun _ s => (tt, del_tcb p s))
}.

(** ** The loops are right on owned chains *)

Lemma ref_free_spec m p m' n :
  pfree m p m' -> (size m < n)%nat -> ref_free n m p = Some m'.
Proof.
  intros Hf. revert n. induction Hf as [m p k o b Hp|m p b Hp|m p q b m' Hp Hf IH];
    intros [|n] Hn; try lia; cbn; rewrite Hp; try done.
  apply IH. rewrite map_size_delete, Hp. cbn.
  pose proof (map_size_ne_0_lookup_2 m p (mk_is_Some _ _ Hp)). lia.
Qed.

Lemma ref_data_spec m p cs n :
  owned m cs -> chain_head cs = Some p -> (length cs <= n)%nat ->
  ref_data n m p = chain_data cs.
Proof.
  revert p cs. induction n as [|n IH]; intros p [|[q b] cs] Ho Hh Hn; cbn in *;
    try lia; try done.
  injection Hh as ->. apply owned_cons in Ho as (Hp & _ & Ho).
  rewrite Hp, chain_data_cons. f_equal. destruct (chain_head cs) as [r|] eqn:Hr.
  - apply IH; [done..|lia].
  - by destruct cs.
Qed.

Lemma ref_cat_spec m p t cs k o b n :
  owned m cs -> chain_head cs = Some p -> (fst <$> last cs) = Some k ->
  m !! k = Some (Pnode 1 o b) -> (length cs <= n)%nat ->
  ref_cat n m p t = <[k := Pnode 1 (Some t) b]> m.
Proof.
  revert p cs. induction n as [|n IH]; intros p [|[q b'] cs] Ho Hh Hl Hk Hn;
    cbn in Hh, Hn |- *; try lia; try done.
  injection Hh as ->. apply owned_cons in Ho as (Hp & _ & Ho). rewrite Hp.
  destruct cs as [|[q b''] cs].
  - cbn in *. injection Hl as ->. rewrite Hk in Hp. congruence.
  - cbn [chain_head fmap option_fmap option_map head fst].
    eapply IH; [done|done|done|done|cbn in *; lia].
Qed.

Lemma ref_fill_spec m p cs d n :
  owned m cs -> chain_head cs = Some p -> (length cs <= n)%nat ->
  (length d <= length (chain_data cs))%nat ->
  exists cs', owned (ref_fill n m p d) cs' /\ cs'.*1 = cs.*1 /\
    (length <$> cs'.*2) = (length <$> cs.*2) /\
    chain_data cs' = d ++ drop (length d) (chain_data cs) /\
    (forall q, q ∉ (cs.*1) -> ref_fill n m p d !! q = m !! q).
Proof.
  revert m p cs d. induction n as [|n IH]; intros m p [|[q b] cs] d Ho Hh Hn Hd;
    cbn in Hh, Hn |- *; try lia; try done.
  injection Hh as ->. pose proof Ho as (Hp & Hni & Ho')%owned_cons.
  rewrite Hp. set (b' := take (length b) d ++ drop (length d) b).
  set (m' := <[p := _]> m). rewrite chain_data_cons in Hd |- *.
  rewrite length_app in Hd.
  assert (Hb' : length b' = length b).
  { unfold b'. rewrite length_app, length_take, length_drop. lia. }
  assert (Hbb : forall y : bytes,
    b' ++ (drop (length b) d ++ drop (length d - length b) y)
    = d ++ drop (length d) (b ++ y)).
  { intros y. rewrite drop_app. unfold b'.
    destruct (decide (length b <= length d)%nat).
    - rewrite (drop_ge b), app_nil_r by lia. by rewrite app_assoc, take_drop.
    - rewrite (drop_ge d), take_ge by lia. by rewrite <- app_assoc. }
  destruct (chain_head cs) as [r|] eqn:Hr.
  - destruct (IH m' r cs (drop (length b) d)) as (cs' & Ho1 & Hp1 & Hl1 & Hd1 & Hs1);
      [|done|lia|rewrite length_drop; lia|].
    { eapply owned_agree; [|done]. intros q Hq. unfold m'.
      rewrite lookup_insert_ne; [done|set_solver]. }
    exists ((p, b') :: cs'). split_and!.
    + apply owned_cons. rewrite Hp1. split_and!; [|done|done].
      rewrite Hs1 by done. unfold m'. rewrite lookup_insert_eq.
      f_equal. f_equal. destruct cs as [|[]], cs' as [|[]]; cbn in *; congruence.
    + cbn. by rewrite Hp1.
    + cbn. by rewrite Hl1, Hb'.
    + rewrite chain_data_cons, Hd1, length_drop. apply Hbb.
    + intros q Hq. cbn in Hq. rewrite Hs1 by set_solver. unfold m'.
      rewrite lookup_insert_ne; [done|set_solver].
  - destruct cs as [|]; [|done]. exists [(p, b')]. split_and!.
    + apply owned_cons. split_and!; [|set_solver|apply owned_nil].
      unfold m'. by rewrite lookup_insert_eq.
    + done.
    + cbn. by rewrite Hb'.
    + change (chain_data []) with ([] : bytes) in *.
      rewrite chain_data_cons. change (chain_data []) with ([] : bytes).
      rewrite <- (Hbb []). cbn in Hd. by rewrite (drop_ge d), drop_nil by lia.
    + intros q Hq. unfold m'. rewrite lookup_insert_ne; [done|set_solver].
Qed.

(** ** The laws *)

Lemma set_view_same s : set_view (r_view s) s = s.
Proof. by destruct s. Qed.

Lemma wp_at_tcb {X} s p t (f : tcb -> ref -> X * ref) (Q : X -> ref -> Prop) :
  tcps (r_view s) !! p = Some t -> Q (f t s).1 (f t s).2 ->
  wp (at_tcb p f) s Q.
Proof. intros Hp HQ. unfold wpf, at_tcb. rewrite Hp. by destruct (f t s). Qed.

Lemma at_pbuf_eq {X} s p n (f : pnode -> ref -> X * ref) :
  pbufs (r_view s) !! p = Some n -> at_pbuf p f s = Ok (f n s).
Proof. intros Hp. unfold at_pbuf. by rewrite Hp. Qed.

#[export] Instance lwip_ref_laws : LwipLaws ref.
Proof.
  refine {| view := r_view |}.
  - intros s. unfold wpf; cbn. destruct (r_oom s); [done|]. split; [|done].
    apply is_fresh.
  - done.
  - intros s p n Hp. cbn. by rewrite (at_pbuf_eq _ _ _ _ Hp).
  - intros s p cs Ho Hh. cbn. do 4 f_equal. eapply ref_data_spec; [done..|].
    unfold all_pbufs. pose proof (owned_size _ _ Ho). lia.
  - intros s p n Hp. cbn. by rewrite (at_pbuf_eq _ _ _ _ Hp).
  - intros s p n Hp. cbn. by rewrite (at_pbuf_eq _ _ _ _ Hp).
  - intros s p k o b Hp. unfold wpf. cbn. by rewrite (at_pbuf_eq _ _ _ _ Hp).
  - intros s p m Hf. unfold wpf. cbn.
    rewrite (ref_free_spec _ _ _ _ Hf); [done|]. unfold all_pbufs. lia.
  - intros s h t hs k o b' Ho Hh Hl Hk. unfold wpf. cbn.
    rewrite (ref_cat_spec _ h t hs k o b'); try done.
    unfold all_pbufs. pose proof (owned_size _ _ Ho). lia.
  - intros s len Hlen. unfold wpf. cbn. destruct (r_oom s); [done|].
    set (p := fresh _). assert (Hp : pbufs (r_view s) !! p = None).
    { apply not_elem_of_dom. apply is_fresh. }
    exists [(p, replicate (Z.to_nat len) 0)], (<[p := Pnode 1 None
      (replicate (Z.to_nat len) 0)]> (pbufs (r_view s))).
    split_and!; try done.
    + apply owned_cons. split_and!; [|set_solver|apply owned_nil].
      by rewrite lookup_insert_eq.
    + unfold chain_data. cbn. rewrite app_nil_r, length_replicate. lia.
    + cbn. lia.
    + intros q Hq. cbn in Hq. apply list_elem_of_singleton in Hq. by subst.
    + intros q Hq. cbn in Hq. rewrite lookup_insert_ne; [done|set_solver].
  - intros s p cs buf len Ho Hh H0 Hlen Hbuf. unfold wpf. cbn. split; [done|].
    destruct (ref_fill_spec _ p cs (take (Z.to_nat len) buf) (all_pbufs s) Ho Hh)
      as (cs' & Ho' & Hp & Hl & Hd & Hs).
    + unfold all_pbufs. pose proof (owned_size _ _ Ho). lia.
    + rewrite length_take. lia.
    + eexists cs', _. split_and!; [done..| |done].
      rewrite Hd, length_take. do 2 f_equal. lia.
  - intros s p cs len Ho Hh ->. cbn. rewrite drop_0, Nat2Z.id.
    rewrite (ref_data_spec _ p cs); [by rewrite firstn_all|done..|].
    unfold all_pbufs. pose proof (owned_size _ _ Ho). lia.
  - intros s pcb t a Ht. by eapply wp_at_tcb.
  - intros s pcb a Hd. cbn. unfold upd_tcb, at_tcb. by rewrite Hd.
  - intros s pcb t a Ht. by eapply wp_at_tcb.
  - intros s pcb t a Ht. by eapply wp_at_tcb.
  - intros s pcb t a Ht. by eapply wp_at_tcb.
  - intros s pcb t a n Ht. by eapply wp_at_tcb.
  - intros s pcb t Ht. exists (u16 (r_sndbuf s)). cbn. unfold at_tcb.
    rewrite Ht. split; [done|]. by apply wrap_u_range.
  - intros s pcb t bs Ht. eapply wp_at_tcb; [done|]. cbn.
    case_decide; [|done]. by repeat (case_decide; try done).
  - intros s pcb t Ht. by eapply wp_at_tcb.
  - intros s pcb t n Ht. by eapply wp_at_tcb.
  - intros s pcb t n Ht. by eapply wp_at_tcb.
  - intros s pcb t Ht. eapply wp_at_tcb; [done|]. cbn. by case_decide.
  - intros s. unfold wpf. cbn. destruct (r_oom s); [done|]. split; [|done].
    apply not_elem_of_dom. apply is_fresh.
  - intros s pcb t port Ht. by eapply wp_at_tcb.
  - intros s pcb t Ht. eapply wp_at_tcb; [done|]. cbn.
    destruct (r_listen_oom s); [done|]. split; [by left|done].
  - intros s [pcb|] f; [|done]. intros t Ht. by eapply wp_at_tcb.
  - intros s pcb t Ht. by eapply wp_at_tcb.
Defined.

Lemma ref_write_ok s p t bs n :
  tcps (r_view s) !! p = Some t -> r_write s = ERR_OK ->
  Z.of_nat (length bs) <= u16 (r_sndbuf s) ->
  exists s', tcp_write p bs n s = Ok (ERR_OK, s').
Proof.
  intros Ht Hw Hlen. eexists. cbn. unfold at_tcb.
  by rewrite Ht, decide_True, decide_True by done.
Qed.
