(* ===== verification/Config.v ===== *)
(** * The configuration (src/src/lwipopts.h)

    The options that decide which parts of the layer and of lwIP are compiled
    and how large lwIP's pools and buffers are.  Proved: the features and
    sizes satisfy what lwIP requires of them, and a queue of pool buffers
    always makes progress when the send buffer is empty. *)

From S2P Require Import Prelude Lwip Cs Tcp TcpSend.
Local Open Scope Z_scope.

(** Features; 1 is on. *)
Definition LWIP_IPV4 : Z := 1.
Definition LWIP_IPV6 : Z := 1.
Definition NO_SYS : Z := 1.
Definition LWIP_SOCKET : Z := Z.b2z (NO_SYS =? 0).
Definition LWIP_NETCONN : Z := Z.b2z (NO_SYS =? 0).
Definition LWIP_NETIF_API : Z := Z.b2z (NO_SYS =? 0).
Definition LWIP_IGMP : Z := LWIP_IPV4.
Definition LWIP_ICMP : Z := LWIP_IPV4.
Definition LWIP_UDP : Z := 1.
Definition LWIP_SNMP : Z := LWIP_UDP.
Definition MIB2_STATS : Z := LWIP_SNMP.
Definition LWIP_DNS : Z := LWIP_UDP.
Definition LWIP_MDNS_RESPONDER : Z := LWIP_UDP.
Definition LWIP_NUM_NETIF_CLIENT_DATA : Z := LWIP_MDNS_RESPONDER.
Definition LWIP_HAVE_LOOPIF : Z := 1.
Definition LWIP_NETIF_LOOPBACK : Z := 1.
Definition LWIP_LOOPBACK_MAX_PBUFS : Z := 10.
Definition LWIP_COMPAT_SOCKETS : Z := 1.
Definition LWIP_SO_RCVTIMEO : Z := 1.
Definition LWIP_SO_RCVBUF : Z := 1.
Definition LWIP_TCPIP_CORE_LOCKING : Z := 1.
Definition LWIP_NETIF_LINK_CALLBACK : Z := 1.
Definition LWIP_NETIF_STATUS_CALLBACK : Z := 1.
Definition LWIP_NETIF_EXT_STATUS_CALLBACK : Z := 1.
Definition SYS_LIGHTWEIGHT_PROT : Z := Z.b2z (NO_SYS =? 0).
Definition LWIP_TCP : Z := 1.
Definition LWIP_ALTCP : Z := LWIP_TCP.
Definition LWIP_ARP : Z := 1.
Definition LWIP_DHCP : Z := LWIP_UDP.
Definition DHCP_DOES_ARP_CHECK : Z := LWIP_DHCP.
Definition LWIP_AUTOIP : Z := LWIP_DHCP.
Definition LWIP_DHCP_AUTOIP_COOP : Z :=
  Z.b2z (negb (LWIP_DHCP =? 0) && negb (LWIP_AUTOIP =? 0)).
Definition LWIP_UDPLITE : Z := LWIP_UDP.
Definition LWIP_RAW : Z := 1.
Definition LWIP_NETBIOS_RESPOND_NAME_QUERY : Z := 1.
Definition PPP_SUPPORT : Z := 0.

(** Statistics. *)
Definition LWIP_STATS : Z := 1.
Definition LWIP_STATS_DISPLAY : Z := 1.
Definition LINK_STATS : Z := 1.
Definition IP_STATS : Z := 1.
Definition ICMP_STATS : Z := 1.
Definition IGMP_STATS : Z := 1.
Definition IPFRAG_STATS : Z := 1.
Definition UDP_STATS : Z := 1.
Definition TCP_STATS : Z := 1.
Definition MEM_STATS : Z := 1.
Definition MEMP_STATS : Z := 1.
Definition PBUF_STATS : Z := 1.
Definition SYS_STATS : Z := 1.

(** Memory and packet buffers. *)
Definition MEM_ALIGNMENT : Z := 4.
Definition MEM_SIZE : Z := 10240.
Definition MEMP_NUM_PBUF : Z := 16.
Definition MEMP_NUM_RAW_PCB : Z := 3.
Definition MEMP_NUM_UDP_PCB : Z := 4.
Definition MEMP_NUM_TCP_PCB : Z := 5.
Definition MEMP_NUM_TCP_PCB_LISTEN : Z := 8.
Definition MEMP_NUM_TCP_SEG : Z := 16.
Definition MEMP_NUM_SYS_TIMEOUT : Z := 17.
Definition MEMP_NUM_NETBUF : Z := 2.
Definition MEMP_NUM_NETCONN : Z := 10.
Definition MEMP_NUM_TCPIP_MSG_API : Z := 16.
Definition MEMP_NUM_TCPIP_MSG_INPKT : Z := 16.
Definition PBUF_POOL_SIZE : Z := 120.
Definition PBUF_POOL_BUFSIZE : Z := 256.

(** TCP. *)
Definition TCP_TTL : Z := 255.
Definition TCP_LISTEN_BACKLOG : Z := 1.
Definition TCP_QUEUE_OOSEQ : Z := 1.
Definition TCP_MSS : Z := 1024.
Definition TCP_SND_BUF : Z := 2048.
Definition TCP_SND_QUEUELEN : Z := (4 * TCP_SND_BUF) / TCP_MSS.
Definition TCP_SNDLOWAT : Z := TCP_SND_BUF / 2.
Definition TCP_WND : Z := 20 * 1024.
Definition TCP_MAXRTX : Z := 12.
Definition TCP_SYNMAXRTX : Z := 4.

(** IP and the protocols on it. *)
Definition ARP_TABLE_SIZE : Z := 10.
Definition ARP_QUEUEING : Z := 1.
Definition IP_FORWARD : Z := 1.
Definition IP_REASSEMBLY : Z := 1.
Definition IP_REASS_MAX_PBUFS : Z :=
  10 * ((1500 + PBUF_POOL_BUFSIZE - 1) / PBUF_POOL_BUFSIZE).
Definition MEMP_NUM_REASSDATA : Z := IP_REASS_MAX_PBUFS.
Definition IP_FRAG : Z := 1.
Definition IPV6_FRAG_COPYHEADER : Z := 1.
Definition ICMP_TTL : Z := 255.
Definition UDP_TTL : Z := 255.

(** What lwIP's documentation requires of the features: the sequential interfaces and the
    lightweight protection need an operating system layer; the protocols above
    UDP need UDP, and above IPv4 need that; mDNS needs a slot in every
    interface and IGMP; address conflict detection needs ARP; statistics that
    are on are compiled; retransmissions fit lwIP's table of 13 intervals;
    and the pool of timeouts has one for each protocol that uses them. *)
Definition implies (a b : Z) : bool := (a =? 0) || negb (b =? 0).

Definition features_sane : bool :=
  forallb (fun x => implies x (Z.b2z (NO_SYS =? 0)))
    [LWIP_SOCKET; LWIP_NETCONN; LWIP_NETIF_API; SYS_LIGHTWEIGHT_PROT] &&
  forallb (fun x => implies x LWIP_UDP)
    [LWIP_SNMP; LWIP_DNS; LWIP_MDNS_RESPONDER; LWIP_DHCP; LWIP_UDPLITE] &&
  forallb (fun x => implies x LWIP_IPV4) [LWIP_IGMP; LWIP_ICMP; LWIP_ARP] &&
  implies LWIP_SNMP MIB2_STATS && implies LWIP_ALTCP LWIP_TCP &&
  implies LWIP_MDNS_RESPONDER LWIP_IGMP &&
  implies LWIP_MDNS_RESPONDER LWIP_NUM_NETIF_CLIENT_DATA &&
  forallb (fun x => implies x LWIP_ARP) [DHCP_DOES_ARP_CHECK; LWIP_AUTOIP; ARP_QUEUEING] &&
  implies LWIP_DHCP_AUTOIP_COOP LWIP_DHCP && implies LWIP_DHCP_AUTOIP_COOP LWIP_AUTOIP &&
  implies LWIP_HAVE_LOOPIF LWIP_NETIF_LOOPBACK &&
  forallb (fun x => implies x LWIP_STATS)
    [LWIP_STATS_DISPLAY; LINK_STATS; IP_STATS; ICMP_STATS; IGMP_STATS; IPFRAG_STATS;
     UDP_STATS; TCP_STATS; MEM_STATS; MEMP_STATS; PBUF_STATS; SYS_STATS; MIB2_STATS] &&
  (TCP_MAXRTX <=? 12) && (TCP_SYNMAXRTX <=? 12) &&
  (MEMP_NUM_REASSDATA <=? IP_REASS_MAX_PBUFS) &&
  (LWIP_TCP + IP_REASSEMBLY + LWIP_ARP + 2 * LWIP_DHCP + LWIP_AUTOIP + LWIP_IGMP +
   LWIP_DNS + LWIP_IPV6 * 4 + PPP_SUPPORT <=? MEMP_NUM_SYS_TIMEOUT) &&
  forallb (fun t => (0 <? t) && (t <? 2 ^ 8)) [TCP_TTL; UDP_TTL; ICMP_TTL].

(** What it requires of all options: consistent features, room for two segments
    to send, twice as many buffers, a low-water mark below the send buffer,
    enough segments for a full send queue, a receive window of at least one
    segment that fits its 16-bit type, fragments kept for reassembly that leave
    buffers in the pool, and a pool that holds a full receive window even when
    each buffer loses [hdr] bytes to headers and alignment. *)
Definition options_sane (hdr : Z) : bool :=
  features_sane &&
  (2 * TCP_MSS <=? TCP_SND_BUF) &&
  (2 * (TCP_SND_BUF / TCP_MSS) <=? TCP_SND_QUEUELEN) &&
  (TCP_SNDLOWAT <? TCP_SND_BUF) &&
  (TCP_SND_QUEUELEN <=? MEMP_NUM_TCP_SEG) &&
  (TCP_MSS <=? TCP_WND) && (TCP_WND <? 2 ^ 16) &&
  (IP_REASS_MAX_PBUFS <? PBUF_POOL_SIZE) &&
  (TCP_WND <=? PBUF_POOL_SIZE * (PBUF_POOL_BUFSIZE - hdr)).

(** The configured features are consistent and the sizes satisfy lwIP's
    requirements on them, with up to 85 bytes of each pool buffer taken by
    headers, and with 86 the pool is too small for the receive window. *)
Theorem options_requirements hdr :
  0 <= hdr -> options_sane hdr = true <-> hdr <= 85.
Proof.
  intros Hh. change (options_sane hdr) with
    (TCP_WND <=? PBUF_POOL_SIZE * (PBUF_POOL_BUFSIZE - hdr)).
  rewrite Z.leb_le.
  change TCP_WND with 20480. change PBUF_POOL_SIZE with 120.
  change PBUF_POOL_BUFSIZE with 256. lia.
Qed.

Section progress.
Context {S A : Type} `{!Lwip S, !LwipLaws S}.
Implicit Types (w : world S A) (cs : cells).
Abbreviation vw w := (view (lw w)).

(** A queue of buffers from the pool cannot get stuck: when lwIP has its
    whole send buffer free and takes data that fits, [cs_tcp_raw_send] sends at
    least the first buffer, because a pool buffer is never larger than the
    send buffer. *)
Theorem pool_queue_progress fuel tpcb es r t p b cs w :
  (length ((p, b) :: cs) < fuel)%nat ->
  es_p r = Some p -> owned (pbufs (vw w)) ((p, b) :: cs) ->
  es_heap w !! es = Some r -> tcps (vw w) !! tpcb = Some t ->
  Z.of_nat (length b) <= PBUF_POOL_BUFSIZE ->
  tcp_sndbuf tpcb (lw w) = Ok (TCP_SND_BUF, lw w) ->
  (forall bs, Z.of_nat (length bs) <= TCP_SND_BUF -> exists s',
     tcp_write tpcb bs TCP_WRITE_FLAG_COPY (lw w) = Ok (ERR_OK, s')) ->
  exists w' t' rest, cs_tcp_raw_send fuel tpcb es w = Ok (tt, w') /\
    tcps (vw w') !! tpcb = Some t' /\ t_stream t' = t_stream t ++ b ++ rest.
Proof.
  intros Hf Hp Ho He Ht Hb Hsnd Hwr.
  assert (Hfits : Z.of_nat (length b) <= TCP_SND_BUF).
  { change TCP_SND_BUF with 2048. change PBUF_POOL_BUFSIZE with 256 in Hb. lia. }
  destruct (Hwr _ Hfits) as [s1 Hs1].
  cut (wp (cs_tcp_raw_send fuel tpcb es) w (fun _ w' => exists t' rest,
    tcps (vw w') !! tpcb = Some t' /\ t_stream t' = t_stream t ++ b ++ rest)).
  { intros ([] & w' & Hrun & t' & rest & Hrest)%wp_Ok. by exists w', t', rest. }
  unfold cs_tcp_raw_send. apply wp_bind.
  destruct fuel as [|n]; cbn in Hf; [lia|]. eapply wp_mono.
  { eapply (send_turn_spec n tpcb es r t p b cs _ _ (fun _ w' => exists w1,
      turned tpcb es r t p b cs w w1 /\
      send_post tpcb es (es_set_p (chain_head cs) r) (add_stream b t) cs w1 w'));
      [lia|done..|].
    rewrite Hs1. intros e s2 [= <- <-]. rewrite decide_True by done. intros w1 H1.
    destruct (turned_ready _ _ _ _ _ _ _ _ _ Ho H1) as (? & ? & ?).
    eapply wp_mono; [eapply (send_loop_spec n tpcb es (es_set_p (chain_head cs) r) _ cs);
      [lia|done..]|]. cbn beta. eauto. }
  cbn beta. intros _ w' (w1 & (s2 & -> & Hs2) & sent & rest & s' & _ & -> & Hs' & _).
  apply wp_bind, wp_lift. cbn. eapply wp_mono.
  { eapply tcp_output_law. rewrite Hs'. cbn. by rewrite lookup_insert_eq. }
  cbn. intros _ s3 Hs3. apply wp_ret. cbn. rewrite Hs3, Hs'. cbn.
  eexists _, (chain_data sent). rewrite lookup_insert_eq. split; [done|].
  cbn. by rewrite app_assoc.
Qed.

End progress.
