(* ===== verification/TcpConn.v ===== *)
(** * Connections (src/src/tcp.c): the invariant

    The invariant that ties the live [cs_tcp_raw_state]s to lwIP's control
    blocks, what the application's callbacks promise to the layer
    ([AppOk]), and that every function lwIP calls runs without fault and
    keeps the invariant.  The error callback is the exception, and is
    treated at the end. *)

From S2P Require Import Prelude Lwip Cs Tcp TcpSend.

Section conn.
Context {S A : Type} `{!Lwip S, !LwipLaws S}.
Context (backs : ptr -> option (cs_callback S A)) (fuel : nat).
Implicit Types (w : world S A) (cs : cells).

Abbreviation vw w := (view (lw w)).

(** [cs] is what [r] has queued. *)
Definition queue w (r : cs_tcp_raw_state) (cs : cells) : Prop :=
  owned (pbufs (vw w)) cs /\ es_p r = chain_head cs.

(** The slots of a control block that belongs to the connection [e]. *)
Definition wired (e : ptr) (t : tcb) : Prop :=
  t_arg t = Some e /\ t_recv t = Some Fn_cs_tcp_raw_recv /\
  t_sent t = Some Fn_cs_tcp_send /\ t_err t = Some Fn_cs_tcp_raw_error /\
  t_poll t = Some Fn_cs_tcp_raw_poll /\ t_accept t = None.

(** A live connection. *)
Definition conn w (e : ptr) (r : cs_tcp_raw_state) : Prop :=
  (es_state r = ES_ACCEPTED \/ es_state r = ES_RECEIVED) /\
  e ∈ blocks (vw w) /\ is_Some (backs (es_callback r)) /\
  (exists t, tcps (vw w) !! es_pcb r = Some t /\ wired e t) /\
  exists cs, queue w r cs.

(** The slots of a control block that belongs to no connection: a listener,
    or one that was closed or never set up. *)
Definition idle_slots (t : tcb) : Prop :=
  t_recv t = None /\ t_sent t = None /\ t_err t = None /\ t_poll t = None /\
  match t_accept t with
  | None => True
  | Some f => f = Fn_cs_tcp_raw_accept /\
              exists b, t_arg t = Some b /\ is_Some (backs b)
  end.

Record inv w : Prop := Inv {
  inv_conn : forall e r, es_heap w !! e = Some r -> conn w e r;
  inv_disj : forall e1 e2 r1 r2 cs1 cs2, e1 <> e2 ->
    es_heap w !! e1 = Some r1 -> es_heap w !! e2 = Some r2 ->
    queue w r1 cs1 -> queue w r2 cs2 -> (cs1.*1) ## (cs2.*1);
  inv_tcps : forall pcb t, tcps (vw w) !! pcb = Some t ->
    idle_slots t \/
    exists e r, es_heap w !! e = Some r /\ es_pcb r = pcb /\ wired e t
}.

(** [cs] is in nobody's queue. *)
Definition unqueued w cs : Prop :=
  forall e r cs', es_heap w !! e = Some r -> queue w r cs' ->
    (cs.*1) ## (cs'.*1).

Definition enough_fuel w : Prop := (size (pbufs (vw w)) < fuel)%nat.

(** ** What the application promises *)

Record callbacks_ok (F : fault -> Prop) (b : cs_callback S A) : Prop := CallbacksOk {
  ok_accept : exists h, cb_tcp_accept b = Some h /\
    forall w pcb e r,
      inv w -> enough_fuel w -> es_heap w !! e = Some r -> es_pcb r = pcb ->
      wpf F (h (cb_state b) pcb e) w (fun _ w' => inv w');
  ok_recv : exists h, cb_tcp_recv b = Some h /\
    forall w pcb p e r cs,
      inv w -> enough_fuel w -> es_heap w !! e = Some r -> es_pcb r = pcb ->
      owned (pbufs (vw w)) cs -> chain_head cs = Some p -> unqueued w cs ->
      wpf F (h (cb_state b) pcb p e) w (fun _ w' => inv w');
  ok_send_done : exists h, cb_tcp_send_done b = Some h /\
    forall w pcb e r,
      inv w -> enough_fuel w -> es_heap w !! e = Some r -> es_pcb r = pcb ->
      es_p r = None ->
      wpf F (h (cb_state b) pcb e) w (fun _ w' =>
        inv w' /\ exists r', es_heap w' !! e = Some r' /\ es_pcb r' = pcb);
  ok_close : exists h, cb_tcp_close b = Some h /\
    forall w pcb e, wpf F (h (cb_state b) pcb e) w (fun _ w' =>
      exists a, w' = with_app a w)
}.

Class AppOk (F : fault -> Prop) : Prop :=
  app_ok : forall p b, backs p = Some b -> callbacks_ok F b.

(** ** The calls that lwIP makes

    lwIP calls the function in a slot of a control block with the block's
    argument.  [event_ok] is what holds when it does: the slot is set; a
    [recv] call comes with no error and either hands over a chain that lwIP
    received or, with [NULL], reports that the peer closed; an [accept] call
    comes with a fresh control block, or reports an error.  The call of the error slot
    is not among them, as no run goes on after it: on every connection it is
    undefined behaviour, which [cs_tcp_raw_error_use_after_free] shows. *)
Inductive event : Type :=
| EvSent (pcb : ptr) (len : Z)
| EvPoll (pcb : ptr)
| EvData (pcb p : ptr)
| EvFin (pcb : ptr)
| EvAccept (listener : ptr) (newpcb : option ptr) (err : err_t).

Definition event_pcb (ev : event) : ptr :=
  match ev with
  | EvSent pcb _ | EvPoll pcb | EvData pcb _ | EvFin pcb
  | EvAccept pcb _ _ => pcb
  end.

(** The slots do not hold anything else than these functions. *)
Definition dispatch (ev : event) (t : tcb) : M (world S A) err_t :=
  match ev with
  | EvSent pcb len => cs_tcp_send backs fuel (t_arg t) pcb len
  | EvPoll pcb => cs_tcp_raw_poll backs fuel (t_arg t) pcb
  | EvData pcb p => cs_tcp_raw_recv backs (t_arg t) pcb (Some p) ERR_OK
  | EvFin pcb => cs_tcp_raw_recv backs (t_arg t) pcb None ERR_OK
  | EvAccept _ newpcb err => cs_tcp_raw_accept backs (t_arg t) newpcb err
  end.

Definition event_ok w (ev : event) (t : tcb) : Prop :=
  tcps (vw w) !! event_pcb ev = Some t /\
  match ev with
  | EvSent _ _ => t_sent t = Some Fn_cs_tcp_send
  | EvPoll _ => t_poll t = Some Fn_cs_tcp_raw_poll
  | EvData _ p => t_recv t = Some Fn_cs_tcp_raw_recv /\
      exists cs, owned (pbufs (vw w)) cs /\ chain_head cs = Some p /\
                 unqueued w cs
  | EvFin _ => t_recv t = Some Fn_cs_tcp_raw_recv
  | EvAccept _ newpcb _ => t_accept t = Some Fn_cs_tcp_raw_accept /\
      match newpcb with
      | None => True
      | Some n => exists tn, tcps (vw w) !! n = Some tn /\
                             idle_slots tn /\ t_accept tn = None
      end
  end.

(** What lwIP does on its own between calls: it allocates and frees buffers
    that no connection has queued, blocks that are not the connections', and
    control blocks that belong to no connection. *)
Record env_step w w' : Prop := EnvStep {
  env_es : es_heap w' = es_heap w;
  env_blocks : forall e, is_Some (es_heap w !! e) -> e ∈ blocks (vw w) ->
    e ∈ blocks (vw w');
  env_pbufs : forall e r cs q, es_heap w !! e = Some r -> queue w r cs ->
    q ∈ (cs.*1) -> pbufs (vw w') !! q = pbufs (vw w) !! q;
  env_tcps : forall pcb t e, wired e t ->
    (tcps (vw w') !! pcb = Some t <-> tcps (vw w) !! pcb = Some t);
  env_idle : forall pcb t, tcps (vw w') !! pcb = Some t ->
    idle_slots t \/ exists e, wired e t
}.

(** A step of the whole: lwIP's own, a call from lwIP, or a call of
    [cs_tcp_char_send] by the application on a live connection. *)
Inductive tcp_step w : world S A -> Prop :=
| step_env w' : env_step w w' -> tcp_step w w'
| step_event ev t x w' :
    event_ok w ev t -> enough_fuel w -> dispatch ev t w = Ok (x, w') ->
    tcp_step w w'
| step_char_send e r buf len x w' :
    es_heap w !! e = Some r ->
    (Datatypes.S (Z.to_nat (u16 len)) < fuel)%nat ->
    (u16 len <= Z.of_nat (length buf))%Z ->
    cs_tcp_char_send fuel (es_pcb r) e buf len w = Ok (x, w') ->
    tcp_step w w'.

(** Before the first connection. *)
Definition tcp_init w : Prop :=
  es_heap w = ∅ /\ forall pcb t, tcps (vw w) !! pcb = Some t -> idle_slots t.

Definition tcp_reachable w : Prop :=
  exists w0, tcp_init w0 /\ rtc tcp_step w0 w.

(** ** Queues *)

Lemma chain_unique m cs cs' :
  chain m cs -> chain m cs' -> chain_head cs = chain_head cs' -> cs = cs'.
Proof.
  revert cs'. induction cs as [|[p b] cs IH]; intros [|[p' b'] cs']; cbn; try done.
  intros [Hp Hc] [Hp' Hc'] [= ->]. rewrite Hp in Hp'. injection Hp' as Hh ->.
  f_equal. by apply IH.
Qed.

Lemma queue_unique w r cs cs' : queue w r cs -> queue w r cs' -> cs = cs'.
Proof.
  intros [[Hc _] Hh] [[Hc' _] Hh']. eapply chain_unique; [done..|congruence].
Qed.

Lemma queue_agree w w' r cs :
  (forall q, q ∈ (cs.*1) -> pbufs (vw w') !! q = pbufs (vw w) !! q) ->
  queue w r cs -> queue w' r cs.
Proof. intros Hq [Ho Hh]. split; [by eapply owned_agree|done]. Qed.

Lemma queue_fuel w r cs : enough_fuel w -> queue w r cs -> (length cs < fuel)%nat.
Proof. intros Hf [Ho _]. apply owned_size in Ho. unfold enough_fuel in Hf. lia. Qed.

(** ** The invariant after a change to one connection

    [w'] differs from [w] only in the connection [e], its control block [pcb]
    and buffers that no other connection has queued. *)
Record changes w w' (e pcb : ptr) : Prop := Changes {
  ch_es : forall e', e' <> e -> es_heap w' !! e' = es_heap w !! e';
  ch_tcps : forall pcb', pcb' <> pcb ->
    tcps (vw w') !! pcb' = tcps (vw w) !! pcb';
  ch_blocks : forall e', e' <> e -> e' ∈ blocks (vw w) -> e' ∈ blocks (vw w');
  ch_own : forall r, es_heap w !! e = Some r -> es_pcb r = pcb;
  ch_pcb : forall e' r, e' <> e -> es_heap w !! e' = Some r -> es_pcb r <> pcb;
  ch_pbufs : forall e' r cs q, e' <> e -> es_heap w !! e' = Some r ->
    queue w r cs -> q ∈ (cs.*1) -> pbufs (vw w') !! q = pbufs (vw w) !! q
}.

Lemma changes_queue w w' e pcb e' r cs :
  inv w -> changes w w' e pcb -> e' <> e -> es_heap w' !! e' = Some r ->
  queue w' r cs -> es_heap w !! e' = Some r /\ queue w r cs.
Proof.
  intros I Ch Hne Hr Hq. rewrite (ch_es _ _ _ _ Ch _ Hne) in Hr.
  split; [done|]. destruct (inv_conn _ I _ _ Hr) as (_ & _ & _ & _ & cs0 & Hq0).
  assert (queue w' r cs0) as Hq0'.
  { eapply queue_agree; [|done]. intros q Hin. by eapply (ch_pbufs _ _ _ _ Ch). }
  by rewrite (queue_unique _ _ _ _ Hq Hq0').
Qed.

Lemma inv_change w w' e pcb :
  inv w -> changes w w' e pcb ->
  (forall r, es_heap w' !! e = Some r -> conn w' e r /\ es_pcb r = pcb /\
     forall cs, queue w' r cs ->
       forall e' r' cs', e' <> e -> es_heap w !! e' = Some r' ->
         queue w r' cs' -> (cs.*1) ## (cs'.*1)) ->
  (forall t, tcps (vw w') !! pcb = Some t ->
     idle_slots t \/ is_Some (es_heap w' !! e) /\ wired e t) ->
  inv w'.
Proof.
  intros I Ch He Ht. split.
  - intros e' r Hr. destruct (decide (e' = e)) as [->|Hne]; [by apply He|].
    pose proof Hr as Hr'. rewrite (ch_es _ _ _ _ Ch _ Hne) in Hr'.
    destruct (inv_conn _ I _ _ Hr') as (Hst & Hbl & Hb & (t & Hpcb & Hw) & cs & Hq).
    split_and!; [done|by eapply (ch_blocks _ _ _ _ Ch)|done| |].
    + exists t. rewrite (ch_tcps _ _ _ _ Ch); [done|].
      by eapply (ch_pcb _ _ _ _ Ch).
    + exists cs. eapply queue_agree; [|done]. intros q Hin.
      by eapply (ch_pbufs _ _ _ _ Ch).
  - intros e1 e2 r1 r2 cs1 cs2 Hne H1 H2 Hq1 Hq2.
    destruct (decide (e1 = e)) as [->|Hne1]; [|destruct (decide (e2 = e)) as [->|Hne2]].
    + destruct (changes_queue _ _ _ _ _ _ _ I Ch (not_eq_sym Hne) H2 Hq2).
      destruct (He _ H1) as (_ & _ & Hd). by eapply Hd.
    + destruct (changes_queue _ _ _ _ _ _ _ I Ch Hne H1 Hq1).
      destruct (He _ H2) as (_ & _ & Hd). intros q Hin1 Hin2.
      by eapply (Hd _ Hq2 e1).
    + destruct (changes_queue _ _ _ _ _ _ _ I Ch Hne1 H1 Hq1).
      destruct (changes_queue _ _ _ _ _ _ _ I Ch Hne2 H2 Hq2).
      by eapply (inv_disj _ I e1 e2).
  - intros pcb' t Hp. destruct (decide (pcb' = pcb)) as [->|Hne].
    + destruct (Ht _ Hp) as [|[[r Hr] Hw]]; [by left|]. right.
      exists e, r. split_and!; [done| |done]. by apply He.
    + rewrite (ch_tcps _ _ _ _ Ch) in Hp by done.
      destruct (inv_tcps _ I _ _ Hp) as [|(e' & r & Hr & Hpc & Hw)]; [by left|].
      right. exists e', r. split_and!; [|done|done].
      destruct (decide (e' = e)) as [->|Hne']; [|by rewrite (ch_es _ _ _ _ Ch)].
      pose proof (ch_own _ _ _ _ Ch _ Hr). congruence.
Qed.

Lemma changes_trans w1 w2 w3 e pcb :
  changes w1 w2 e pcb -> changes w2 w3 e pcb -> changes w1 w3 e pcb.
Proof.
  intros C1 C2. split; try apply C1.
  - intros e' Hne. by rewrite (ch_es _ _ _ _ C2), (ch_es _ _ _ _ C1).
  - intros pcb' Hne. by rewrite (ch_tcps _ _ _ _ C2), (ch_tcps _ _ _ _ C1).
  - intros e' Hne Hin. by apply (ch_blocks _ _ _ _ C2), (ch_blocks _ _ _ _ C1).
  - intros e' r cs q Hne Hr Hq Hin. pose proof (ch_pbufs _ _ _ _ C1 e' r cs) as H1.
    rewrite (ch_pbufs _ _ _ _ C2 e' r cs); [by apply H1|done| | |done].
    + by rewrite (ch_es _ _ _ _ C1).
    + eapply queue_agree; [|done]. intros q' Hin'. by apply H1.
Qed.

(** The frame conditions for a step that touches only [e], its control block
    and the buffers [cs] of its queue, or buffers that nobody has queued. *)
Lemma changes_own w w' e r cs :
  inv w -> es_heap w !! e = Some r -> queue w r cs ->
  (forall e', e' <> e -> es_heap w' !! e' = es_heap w !! e') ->
  (forall pcb', pcb' <> es_pcb r -> tcps (vw w') !! pcb' = tcps (vw w) !! pcb') ->
  (forall e', e' <> e -> e' ∈ blocks (vw w) -> e' ∈ blocks (vw w')) ->
  (forall q, q ∉ (cs.*1) -> pbufs (vw w') !! q = pbufs (vw w) !! q) ->
  changes w w' e (es_pcb r).
Proof.
  intros I Hr Hq Hes Htc Hbl Hpb. split; try done.
  - intros r' Hr'. congruence.
  - intros e' r' Hne Hr' Heq.
    destruct (inv_conn _ I _ _ Hr) as (_ & _ & _ & (t & Ht & Hw) & _).
    destruct (inv_conn _ I _ _ Hr') as (_ & _ & _ & (t' & Ht' & Hw') & _).
    rewrite Heq in Ht'. destruct Hw as [? _], Hw' as [? _]. congruence.
  - intros e' r' cs' q Hne Hr' Hq' Hin. apply Hpb. intros Hin'.
    by eapply (inv_disj _ I e' e).
Qed.

Lemma changes_same_view w e r s' :
  inv w -> es_heap w !! e = Some r -> view s' = vw w ->
  changes w (with_lw s' w) e (es_pcb r).
Proof.
  intros I Hr Hs'. destruct (inv_conn _ I _ _ Hr) as (_ & _ & _ & _ & cs & Hq).
  eapply changes_own; cbn; try rewrite Hs'; done.
Qed.

(** Assigning to the fields of a connection. *)
Lemma changes_put w e r r' :
  inv w -> es_heap w !! e = Some r ->
  changes w (with_es (<[e := r']> (es_heap w)) w) e (es_pcb r).
Proof.
  intros I Hr. destruct (inv_conn _ I _ _ Hr) as (_ & _ & _ & _ & cs & Hq).
  eapply changes_own; cbn; try done.
  intros e' Hne. by rewrite lookup_insert_ne.
Qed.

Lemma inv_es_put w e r r' cs :
  inv w -> es_heap w !! e = Some r ->
  es_pcb r' = es_pcb r -> es_callback r' = es_callback r ->
  (es_state r' = ES_ACCEPTED \/ es_state r' = ES_RECEIVED) ->
  queue w r' cs ->
  (forall e' r1 cs1, e' <> e -> es_heap w !! e' = Some r1 -> queue w r1 cs1 ->
     (cs.*1) ## (cs1.*1)) ->
  inv (with_es (<[e := r']> (es_heap w)) w).
Proof.
  intros I Hr Hpcb Hcb Hst Hq Hd.
  destruct (inv_conn _ I _ _ Hr) as (_ & Hbl & Hb & (t & Ht & Hw) & cs0 & Hq0).
  eapply (inv_change w _ e (es_pcb r)); [done|by eapply changes_put| |].
  - cbn. intros r1. rewrite lookup_insert_eq. intros [= <-]. split_and!.
    + split_and!; [done|done|by rewrite Hcb| |by exists cs].
      exists t. by rewrite Hpcb.
    + done.
    + intros cs2 Hq2. by rewrite (queue_unique w r' _ _ Hq2 Hq).
  - cbn. intros t' Ht'. right. rewrite lookup_insert_eq. split; [done|].
    congruence.
Qed.

Lemma queue_same_p w r r' cs : es_p r' = es_p r -> queue w r cs -> queue w r' cs.
Proof. intros Hp [Ho Hh]. split; [done|congruence]. Qed.

Lemma inv_es_fields w e r r' :
  inv w -> es_heap w !! e = Some r ->
  es_pcb r' = es_pcb r -> es_callback r' = es_callback r -> es_p r' = es_p r ->
  (es_state r' = ES_ACCEPTED \/ es_state r' = ES_RECEIVED) ->
  inv (with_es (<[e := r']> (es_heap w)) w).
Proof.
  intros I Hr Hpcb Hcb Hp Hst.
  destruct (inv_conn _ I _ _ Hr) as (_ & _ & _ & _ & cs & Hq).
  eapply (inv_es_put w e r r' cs); try done; [by eapply queue_same_p|].
  intros e' r1 cs1 Hne Hr1 Hq1. by eapply (inv_disj _ I e e').
Qed.

(** ** Sending *)

Lemma changes_send_post w w' e r t cs :
  inv w -> es_heap w !! e = Some r -> queue w r cs ->
  send_post (es_pcb r) e r t cs w w' -> changes w w' e (es_pcb r).
Proof.
  intros I Hr Hq (sent & rest & s' & -> & -> & Hs' & _).
  eapply changes_own; cbn; rewrite ?Hs'; cbn; try done.
  - intros e' Hne. by rewrite lookup_insert_ne.
  - intros pcb' Hne. by rewrite lookup_insert_ne.
  - intros q Hni. rewrite without_lookup, decide_False; [done|].
    rewrite fmap_app in Hni. set_solver.
Qed.

Lemma inv_send_post w w' e r t cs :
  inv w -> es_heap w !! e = Some r -> queue w r cs ->
  tcps (vw w) !! es_pcb r = Some t ->
  send_post (es_pcb r) e r t cs w w' -> inv w'.
Proof.
  intros I Hr Hq Ht Hpost. pose proof (changes_send_post _ _ _ _ _ _ I Hr Hq Hpost).
  destruct Hpost as (sent & rest & s' & -> & -> & Hs' & Ho & _).
  destruct (inv_conn _ I _ _ Hr) as (Hst & Hbl & Hb & (t' & Ht' & Hw) & _).
  rewrite Ht in Ht'. injection Ht' as <-.
  eapply (inv_change w _ e (es_pcb r)); [done|done| |]; cbn.
  - intros r1. rewrite lookup_insert_eq. intros [= <-]. split_and!.
    + split_and!; cbn; rewrite ?Hs'; cbn; try done.
      * exists (add_stream (chain_data sent) t).
        by rewrite lookup_insert_eq.
      * by exists rest.
    + done.
    + intros cs1 Hq1 e' r' cs' Hne Hr' Hq'.
      assert (cs1 = rest) as -> by (by eapply queue_unique).
      intros x Hx Hx'. eapply (inv_disj _ I e e' _ _ (sent ++ rest) cs');
        [done..| |done]. rewrite fmap_app. set_solver.
  - intros t'. rewrite Hs'. cbn. rewrite !lookup_insert_eq.
    intros [= <-]. right. done.
Qed.

Lemma inv_send w e r :
  inv w -> enough_fuel w -> es_heap w !! e = Some r ->
  wp (cs_tcp_raw_send fuel (es_pcb r) e) w (fun _ w' => inv w').
Proof.
  intros I Hf Hr.
  destruct (inv_conn _ I _ _ Hr) as (_ & _ & _ & (t & Ht & _) & cs & Hq).
  eapply wp_mono; [eapply (cs_tcp_raw_send_spec fuel _ _ r t cs)|].
  - by eapply queue_fuel.
  - apply Hq.
  - apply Hq.
  - done.
  - done.
  - cbn. intros _ w' Hp. by eapply inv_send_post.
Qed.

Lemma inv_char_send w e r buf len :
  inv w -> es_heap w !! e = Some r ->
  (Datatypes.S (Z.to_nat (u16 len)) < fuel)%nat ->
  (u16 len <= Z.of_nat (length buf))%Z ->
  wp (cs_tcp_char_send fuel (es_pcb r) e buf len) w (fun _ w' => inv w').
Proof.
  intros I Hr Hf Hb.
  destruct (inv_conn _ I _ _ Hr) as (Hst & Hbl & Hcb & (t & Ht & Hw) & cs & Hq).
  destruct (es_p r) as [p|] eqn:Hp.
  { unfold wpf. by rewrite (cs_tcp_char_send_pending fuel _ e r p). }
  eapply wp_mono; [by eapply cs_tcp_char_send_spec|]. cbn beta.
  intros _ w' [(_ & s' & -> & Hs')|(_ & sent & rest & s' & _ & -> & Htc & Hbk & _ &
    Ho & Hnew & Hold)].
  { split; unfold conn, queue; cbn; rewrite Hs'; apply I. }
  assert (cs = []) as ->.
  { destruct Hq as [_ Hh]. rewrite Hp in Hh. by destruct cs as [|[]]. }
  assert (Hlive : forall e' r' cs' q, es_heap w !! e' = Some r' ->
            queue w r' cs' -> q ∈ (cs'.*1) -> q ∉ (rest.*1)).
  { intros e' r' cs' q _ [[Hc _] _] Hin Hin'.
    destruct (chain_live _ _ _ Hc Hin) as [x Hx]. rewrite Hnew in Hx; done. }
  eapply (inv_change w _ e (es_pcb r)); [done|split| |]; cbn.
  - intros e' Hne. by rewrite lookup_insert_ne.
  - intros pcb' Hne. by rewrite Htc, lookup_insert_ne.
  - intros e' _. by rewrite Hbk.
  - intros r' Hr'. congruence.
  - intros e' r' Hne Hr' Heq.
    destruct (inv_conn _ I _ _ Hr') as (_ & _ & _ & (t' & Ht' & Hw') & _).
    rewrite Heq in Ht'. destruct Hw as [? _], Hw' as [? _]. congruence.
  - intros e' r' cs' q Hne Hr' Hq' Hin. apply Hold. by eapply Hlive.
  - intros r1. rewrite lookup_insert_eq. intros [= <-]. split_and!.
    + split_and!; cbn; try done; [by rewrite Hbk| |by exists rest].
      exists (add_stream sent t). by rewrite Htc, lookup_insert_eq.
    + done.
    + intros cs1 Hq1 e' r' cs' Hne Hr' Hq' q Hin Hin'.
      assert (cs1 = rest) as -> by (by eapply queue_unique).
      by eapply (Hlive e' r' cs' q).
  - intros t'. rewrite Htc, !lookup_insert_eq. intros [= <-]. by right.
Qed.

(** ** Closing *)

Definition cleared (t : tcb) : tcb :=
  Tcb None None None None None (t_accept t) (t_stream t).

(** What [cs_tcp_raw_close] leaves: the connection's state and queue are
    freed, whether or not its queue was empty; the control block is gone if
    [tcp_close] succeeded, and otherwise still there, without callbacks. *)
Definition close_post (pcb e : ptr) (t : tcb) cs w w' : Prop :=
  exists s s' a x,
    tcp_close pcb s = Ok (x, s') /\
    w' = with_app a (with_es (delete e (es_heap w)) (with_lw s' w)) /\
    view s' = View (without (pbufs (vw w)) cs)
                (if decide (x = ERR_OK) then delete pcb (tcps (vw w))
                 else <[pcb := cleared t]> (tcps (vw w)))
                (blocks (vw w) ∖ {[ e ]}) (outbox (vw w)).

Lemma cs_tcp_raw_free_spec w e r cs :
  es_heap w !! e = Some r -> queue w r cs -> e ∈ blocks (vw w) ->
  wp (cs_tcp_raw_free (Some e)) w (fun _ w' => exists s',
    w' = with_es (delete e (es_heap w)) (with_lw s' w) /\
    view s' = View (without (pbufs (vw w)) cs) (tcps (vw w))
                (blocks (vw w) ∖ {[ e ]}) (outbox (vw w))).
Proof.
  intros Hr [Ho Hp] Hbl. unfold cs_tcp_raw_free.
  apply wp_bind. eapply wp_es_get; [done|].
  assert (Hfree : wp (match es_p r with
      | Some p => _ ← lift (pbuf_free p); mret tt
      | None => mret tt
      end) w (fun _ w' => exists s', w' = with_lw s' w /\
        view s' = with_pbufs (without (pbufs (vw w)) cs) (vw w))).
  { rewrite Hp. destruct cs as [|[p b] cs];
      cbn [chain_head fmap option_fmap option_map head fst].
    - apply wp_ret. exists (lw w). rewrite without_nil. split; [by destruct w|].
      by destruct (vw w).
    - apply wp_bind, wp_lift. eapply wp_mono.
      { apply pbuf_free_law. by apply (pfree_chain _ _ b). }
      cbn beta. intros _ s1 Hs1. apply wp_ret. by exists s1. }
  apply wp_bind. eapply wp_mono; [exact Hfree|].
  cbn. intros _ w1 (s1 & -> & Hs1). apply wp_bind, wp_lift. cbn.
  eapply wp_mono; [apply mem_free_law; by rewrite Hs1|].
  cbn. intros _ s2 Hs2. rewrite Hs1 in Hs2. apply wp_modify. by exists s2.
Qed.

(** Clearing a slot of a control block. *)
Lemma wp_tcb_slot {F X} (m : M S X) (f : tcb -> tcb) w pcb t v
    (Q : X -> world S A -> Prop) :
  wp m (lw w) (fun _ s' =>
    view s' = with_tcps (<[pcb := f t]> (tcps (vw w))) (vw w)) ->
  vw w = with_tcps (<[pcb := t]> (tcps v)) v ->
  (forall x s', view s' = with_tcps (<[pcb := f t]> (tcps v)) v ->
     Q x (with_lw s' w)) ->
  wpf F (lift m) w Q.
Proof.
  intros Hm Hv HQ. apply wp_lift. eapply wp_mono; [exact Hm|].
  intros x s' Hs'. apply HQ. rewrite Hs', Hv. cbn. by rewrite insert_insert_eq.
Qed.

Lemma vw_insert w pcb t :
  tcps (vw w) !! pcb = Some t ->
  vw w = with_tcps (<[pcb := t]> (tcps (vw w))) (vw w).
Proof. intros Ht. rewrite insert_id by done. by destruct (vw w). Qed.

Lemma slot_live w pcb t v :
  vw w = with_tcps (<[pcb := t]> (tcps v)) v -> tcps (vw w) !! pcb = Some t.
Proof. intros ->. cbn. by rewrite lookup_insert_eq. Qed.

(** The five calls that clear the slots. *)
Lemma clear_slots_spec {F} w pcb t k (Q : unit -> world S A -> Prop) :
  tcps (vw w) !! pcb = Some t ->
  (forall s', view s' = with_tcps (<[pcb := cleared t]> (tcps (vw w))) (vw w) ->
     wpf F k (with_lw s' w) Q) ->
  wpf F (lift (tcp_arg pcb None);;
      lift (tcp_sent pcb None);;
      lift (tcp_recv pcb None);;
      lift (tcp_err pcb None);;
      lift (tcp_poll pcb None 0);;
      k) w Q.
Proof.
  intros Ht Hk. pose proof (vw_insert _ _ _ Ht) as Hv.
  apply wp_bind. eapply wp_tcb_slot; [by apply tcp_arg_law|done|].
  intros _ s1 H1.
  apply wp_bind. eapply wp_tcb_slot;
    [apply tcp_sent_law; by eapply slot_live|done|]. intros _ s2 H2.
  apply wp_bind. eapply wp_tcb_slot;
    [apply tcp_recv_law; by eapply slot_live|done|]. intros _ s3 H3.
  apply wp_bind. eapply wp_tcb_slot;
    [apply tcp_err_law; by eapply slot_live|done|]. intros _ s4 H4.
  apply wp_bind. eapply wp_tcb_slot;
    [apply tcp_poll_law; by eapply slot_live|done|]. intros _ s5 H5.
  by apply Hk.
Qed.

Lemma cs_tcp_raw_close_spec {F} w pcb e r t cs b h :
  es_heap w !! e = Some r -> queue w r cs -> e ∈ blocks (vw w) ->
  tcps (vw w) !! pcb = Some t ->
  backs (es_callback r) = Some b -> cb_tcp_close b = Some h ->
  (forall w, wpf F (h (cb_state b) pcb e) w (fun _ w' => exists a, w' = with_app a w)) ->
  wpf F (cs_tcp_raw_close backs pcb e) w (fun _ w' => close_post pcb e t cs w w').
Proof.
  intros Hr Hq Hbl Ht Hb Hh Hclose. unfold cs_tcp_raw_close.
  apply (clear_slots_spec w pcb t); [done|]. intros s1 H1.
  apply wp_bind. eapply wp_es_get; [done|].
  apply wp_bind. unfold callback_of. eapply wp_deref; [done|].
  apply wp_bind. eapply wp_deref; [done|].
  apply wp_bind. eapply wpf_mono; [apply Hclose|]. intros _ w2 (a & ->).
  apply wp_bind. eapply wp_mono.
  { apply (cs_tcp_raw_free_spec _ e r cs); cbn; [done| |by rewrite H1].
    destruct Hq as [Ho Hp]. split; [|done]. cbn. by rewrite H1. }
  cbn. intros _ w3 (s3 & -> & H3). rewrite H1 in H3. cbn in H3.
  pose proof (tcp_close_law s3 pcb (cleared t)) as Hlaw.
  rewrite H3 in Hlaw. cbn in Hlaw. rewrite lookup_insert_eq in Hlaw.
  apply wp_Ok in Hlaw as (x & s4 & Hx & H4); [|done].
  apply wp_bind, wp_lift. cbn. eapply wpf_Ok; [done|].
  apply wp_ret. exists s3, s4, a, x. split_and!; [done..|].
  rewrite H4. case_decide; [|done]. by rewrite delete_insert_eq.
Qed.

Lemma app_ok_close `{AppOk F} cb b :
  backs cb = Some b -> exists h, cb_tcp_close b = Some h /\
    forall w pcb e, wpf F (h (cb_state b) pcb e) w (fun _ w' => exists a, w' = with_app a w).
Proof. intros Hb. apply ok_close. by eapply app_ok. Qed.

Lemma changes_close_post w w' e r0 r t cs :
  inv w -> es_heap w !! e = Some r0 -> queue w r0 cs ->
  close_post (es_pcb r0) e t cs (with_es (<[e := r]> (es_heap w)) w) w' ->
  changes w w' e (es_pcb r0).
Proof.
  intros I Hr Hq (s & s' & a & x & _ & -> & Hs'). cbn in Hs'.
  eapply changes_own; cbn; rewrite ?Hs'; cbn; try done.
  - intros e' Hne. by rewrite lookup_delete_ne, lookup_insert_ne.
  - intros pcb' Hne. case_decide.
    + by rewrite lookup_delete_ne.
    + by rewrite lookup_insert_ne.
  - set_solver.
  - intros q Hni. by rewrite without_lookup, decide_False.
Qed.

(** Closing a connection of [w], whose own state may have been assigned to in
    between. *)
Lemma inv_close_post w w' e r0 r t cs :
  inv w -> es_heap w !! e = Some r0 -> queue w r0 cs ->
  tcps (vw w) !! es_pcb r0 = Some t -> wired e t ->
  close_post (es_pcb r0) e t cs (with_es (<[e := r]> (es_heap w)) w) w' ->
  inv w'.
Proof.
  intros I Hr Hq Ht Hwired Hpost.
  pose proof (changes_close_post _ _ _ _ _ _ _ I Hr Hq Hpost).
  destruct Hpost as (s & s' & a & x & _ & -> & Hs'). cbn in Hs'.
  eapply (inv_change w _ e (es_pcb r0)); [done|done| |]; cbn.
  - intros r1. by rewrite lookup_delete_eq.
  - intros t'. rewrite Hs'. cbn. case_decide.
    + by rewrite lookup_delete_eq.
    + rewrite lookup_insert_eq. intros [= <-]. left.
      destruct Hwired as (_ & _ & _ & _ & _ & Hacc).
      split_and!; cbn; [done..|]. by rewrite Hacc.
Qed.

Lemma inv_close `{AppOk F} w e r0 r :
  inv w -> es_heap w !! e = Some r0 ->
  es_callback r = es_callback r0 -> es_p r = es_p r0 ->
  wpf F (cs_tcp_raw_close backs (es_pcb r0) e)
    (with_es (<[e := r]> (es_heap w)) w) (fun _ w' => inv w').
Proof.
  intros I Hr Hcb Hp.
  destruct (inv_conn _ I _ _ Hr) as (_ & Hbl & (b & Hb) & (t & Ht & Hw) & cs & Hq).
  destruct (app_ok_close _ _ Hb) as (h & Hh & Hclose).
  eapply wpf_mono.
  - apply (cs_tcp_raw_close_spec _ _ e r t cs b h); cbn; try done.
    + by rewrite lookup_insert_eq.
    + eapply (queue_same_p _ r0); [done|]. apply Hq.
    + by rewrite Hcb.
  - cbn beta. intros _ w'. by apply (inv_close_post w w' e r0).
Qed.

(** ** The handlers *)

Lemma slots_conn w pcb t :
  inv w -> tcps (vw w) !! pcb = Some t -> ~ idle_slots t ->
  exists e r, es_heap w !! e = Some r /\ es_pcb r = pcb /\ t_arg t = Some e.
Proof.
  intros I Ht Hn. destruct (inv_tcps _ I _ _ Ht) as [|(e & r & Hr & Hp & Ha & _)];
    [done|]. by exists e, r.
Qed.

Lemma not_closing w e r : inv w -> es_heap w !! e = Some r -> es_state r <> ES_CLOSING.
Proof. intros I Hr. by destruct (inv_conn _ I _ _ Hr) as ([-> | ->] & _). Qed.

Lemma es_same_id w e r : es_heap w !! e = Some r ->
  with_es (<[e := r]> (es_heap w)) w = w.
Proof. intros Hr. rewrite insert_id by done. by destruct w. Qed.

Lemma poll_inv `{AppOk F} w e r :
  inv w -> enough_fuel w -> es_heap w !! e = Some r ->
  wpf F (cs_tcp_raw_poll backs fuel (Some e) (es_pcb r)) w (fun _ w' => inv w').
Proof.
  intros I Hf Hr. unfold cs_tcp_raw_poll. apply wp_bind, wp_assert; [done|].
  apply wp_bind. eapply wp_es_get; [done|]. apply wp_bind.
  destruct (es_p r) as [p|] eqn:Hp.
  - eapply wp_mono; [by apply inv_send|]. cbn. intros _ w' I'. by apply wp_ret.
  - rewrite decide_False by (by eapply not_closing). by apply wp_ret, wp_ret.
Qed.

(** Setting the slot that is set already. *)
Lemma tcp_sent_again {F} w e r (Q : unit -> world S A -> Prop) :
  inv w -> es_heap w !! e = Some r ->
  (forall s', view s' = vw w -> Q tt (with_lw s' w)) ->
  wpf F (lift (tcp_sent (es_pcb r) (Some Fn_cs_tcp_send))) w Q.
Proof.
  intros I Hr HQ. destruct (inv_conn _ I _ _ Hr) as (_ & _ & _ & (t & Ht & Hw) & _).
  apply wp_lift. eapply wp_mono; [by eapply tcp_sent_law|]. cbn beta.
  intros [] s' Hs'. apply HQ. rewrite Hs'.
  destruct Hw as (_ & _ & Hsent & _). rewrite insert_id; [by destruct (vw w)|].
  rewrite Ht. f_equal. destruct t; unfold set_sent; cbn in *. congruence.
Qed.

Lemma inv_same_view w s' : inv w -> view s' = vw w -> inv (with_lw s' w).
Proof.
  intros I Hs'.
  split; unfold conn, queue; cbn; rewrite Hs'; [apply I|apply I|apply I].
Qed.

Lemma sent_inv `{AppOk F} w e r n :
  inv w -> enough_fuel w -> es_heap w !! e = Some r ->
  wpf F (cs_tcp_send backs fuel (Some e) (es_pcb r) n) w (fun _ w' => inv w').
Proof.
  intros I Hf Hr. unfold cs_tcp_send.
  destruct (inv_conn _ I _ _ Hr) as (Hst & _ & (b & Hb) & _).
  apply wp_bind, wp_assert; [done|]. apply wp_bind. eapply wp_deref; [done|].
  apply wp_bind. eapply wp_es_set; [done|].
  pose proof (inv_es_fields w e r (es_set_retries 0 r) I Hr eq_refl eq_refl
                eq_refl Hst) as I1.
  set (w1 := with_es _ w) in *.
  assert (Hr1 : es_heap w1 !! e = Some (es_set_retries 0 r))
    by (cbn; by rewrite lookup_insert_eq).
  apply wp_bind. eapply wp_es_get; [done|]. cbn [es_p es_set_retries].
  apply wp_bind. destruct (es_p r) as [p|] eqn:Hp.
  - apply wp_bind. apply (tcp_sent_again w1 e _ _ I1 Hr1). intros s' Hs'.
    eapply wp_mono; [apply (inv_send _ e (es_set_retries 0 r))|].
    + by apply inv_same_view.
    + unfold enough_fuel. cbn. by rewrite Hs'.
    + done.
    + cbn beta. intros _ w' I'. by apply wp_ret.
  - apply wp_bind. unfold callback_of. eapply wp_deref; [done|].
    destruct (ok_send_done _ _ (app_ok _ _ Hb)) as (h & Hh & Hspec).
    apply wp_bind. eapply wp_deref; [done|].
    apply wp_bind. eapply wpf_mono; [by eapply Hspec|]. cbn beta.
    intros _ w2 (I2 & r2 & Hr2 & Hpcb2).
    apply wp_bind. eapply wp_es_get; [done|].
    rewrite decide_False by (by eapply not_closing). by apply wp_ret, wp_ret.
Qed.

Lemma fin_inv `{AppOk F} w e r :
  inv w -> es_heap w !! e = Some r ->
  wpf F (cs_tcp_raw_recv backs (Some e) (es_pcb r) None ERR_OK) w
    (fun x w' => x = ERR_OK /\ inv w').
Proof.
  intros I Hr. unfold cs_tcp_raw_recv.
  apply wp_bind, wp_assert; [done|]. apply wp_bind. eapply wp_deref; [done|].
  apply wp_bind. eapply wp_es_set; [done|]. apply wp_bind.
  eapply wpf_mono; [by apply (inv_close w e r)|].
  cbn beta. intros _ w' I'. by apply wp_ret.
Qed.

Lemma unqueued_put w e r r' cs :
  es_heap w !! e = Some r -> es_p r' = es_p r -> unqueued w cs ->
  unqueued (with_es (<[e := r']> (es_heap w)) w) cs.
Proof.
  intros Hr Hp Hun e1 r1 cs1. cbn. destruct (decide (e1 = e)) as [->|Hne].
  - rewrite lookup_insert_eq. intros [= <-] Hq. eapply (Hun e r); [done|].
    by eapply (queue_same_p w r').
  - rewrite lookup_insert_ne by done. apply Hun.
Qed.

Lemma call_recv_inv `{AppOk F} w e r p cs :
  inv w -> enough_fuel w -> es_heap w !! e = Some r ->
  owned (pbufs (vw w)) cs -> chain_head cs = Some p -> unqueued w cs ->
  wpf F (call_tcp_recv backs (es_pcb r) p e) w (fun _ w' => inv w').
Proof.
  intros I Hf Hr Ho Hh Hun. unfold call_tcp_recv.
  destruct (inv_conn _ I _ _ Hr) as (_ & _ & (b & Hb) & _).
  destruct (ok_recv _ _ (app_ok _ _ Hb)) as (h & Hcb & Hspec).
  apply wp_bind. eapply wp_es_get; [done|].
  apply wp_bind. unfold callback_of. eapply wp_deref; [done|].
  apply wp_bind. eapply wp_deref; [done|]. by eapply Hspec.
Qed.

Lemma data_inv `{AppOk F} w e r p cs :
  inv w -> enough_fuel w -> es_heap w !! e = Some r ->
  owned (pbufs (vw w)) cs -> chain_head cs = Some p -> unqueued w cs ->
  wpf F (cs_tcp_raw_recv backs (Some e) (es_pcb r) (Some p) ERR_OK) w
    (fun _ w' => inv w').
Proof.
  intros I Hf Hr Ho Hh Hun. unfold cs_tcp_raw_recv.
  apply wp_bind, wp_assert; [done|]. apply wp_bind. eapply wp_deref; [done|].
  rewrite decide_False by tauto. apply wp_bind. eapply wp_es_get; [done|].
  destruct (inv_conn _ I _ _ Hr) as ([Hst|Hst] & _); rewrite Hst.
  - rewrite decide_True by done. apply wp_bind. eapply wp_es_set; [done|].
    eapply (call_recv_inv _ e (es_set_state ES_RECEIVED r) p cs); try done.
    + apply (inv_es_fields w e r); try done. by right.
    + cbn. by rewrite lookup_insert_eq.
    + by eapply unqueued_put.
  - rewrite decide_False, decide_True by done. by eapply call_recv_inv.
Qed.

(** A packet on a live connection goes to the application. *)
Lemma raw_recv_run w e r p :
  inv w -> es_heap w !! e = Some r ->
  cs_tcp_raw_recv backs (Some e) (es_pcb r) (Some p) ERR_OK w =
    call_tcp_recv backs (es_pcb r) p e
      (with_es (<[e := es_set_state ES_RECEIVED r]> (es_heap w)) w).
Proof.
  intros I Hr. unfold cs_tcp_raw_recv. erewrite !bind_Ok by done.
  rewrite decide_False by tauto. erewrite bind_Ok by (by apply es_get_run).
  destruct (inv_conn _ I _ _ Hr) as ([Hst|Hst] & _); rewrite Hst.
  - rewrite decide_True by done. erewrite bind_Ok; [done|]. by apply es_set_run.
  - rewrite decide_False, decide_True by done. f_equal. rewrite insert_id.
    + by destruct w.
    + by destruct r; cbn in *; subst.
Qed.

(** The slots of a control block that [cs_tcp_raw_accept] set up. *)
Definition wire (e : ptr) (t : tcb) : tcb :=
  set_sent (Some Fn_cs_tcp_send) (set_poll (Some Fn_cs_tcp_raw_poll)
    (set_err (Some Fn_cs_tcp_raw_error)
      (set_recv (Some Fn_cs_tcp_raw_recv) (set_arg (Some e) t)))).

Lemma wire_slots_spec {F} w pcb e t k (Q : err_t -> world S A -> Prop) :
  tcps (vw w) !! pcb = Some t ->
  (forall s', view s' = with_tcps (<[pcb := wire e t]> (tcps (vw w))) (vw w) ->
     wpf F k (with_lw s' w) Q) ->
  wpf F (lift (tcp_arg pcb (Some e));;
      lift (tcp_recv pcb (Some Fn_cs_tcp_raw_recv));;
      lift (tcp_err pcb (Some Fn_cs_tcp_raw_error));;
      lift (tcp_poll pcb (Some Fn_cs_tcp_raw_poll) 1);;
      lift (tcp_sent pcb (Some Fn_cs_tcp_send));;
      k) w Q.
Proof.
  intros Ht Hk. pose proof (vw_insert _ _ _ Ht) as Hv.
  apply wp_bind. eapply wp_tcb_slot; [by apply tcp_arg_law|done|].
  intros _ s1 H1.
  apply wp_bind. eapply wp_tcb_slot;
    [apply tcp_recv_law; by eapply slot_live|done|]. intros _ s2 H2.
  apply wp_bind. eapply wp_tcb_slot;
    [apply tcp_err_law; by eapply slot_live|done|]. intros _ s3 H3.
  apply wp_bind. eapply wp_tcb_slot;
    [apply tcp_poll_law; by eapply slot_live|done|]. intros _ s4 H4.
  apply wp_bind. eapply wp_tcb_slot;
    [apply tcp_sent_law; by eapply slot_live|done|]. intros _ s5 H5.
  by apply Hk.
Qed.

(** The state in which [cs_tcp_raw_accept] calls the application. *)
Definition accepted (n e b : ptr) (t : tcb) w w' : Prop :=
  e ∉ blocks (vw w) /\
  exists s', w' = with_es (<[e := EsState ES_ACCEPTED 0 n None b]> (es_heap w))
                    (with_lw s' w) /\
    view s' = View (pbufs (vw w)) (<[n := wire e t]> (tcps (vw w)))
                ({[ e ]} ∪ blocks (vw w)) (outbox (vw w)).

Lemma changes_accepted w w' n e b t :
  inv w -> tcps (vw w) !! n = Some t -> idle_slots t -> accepted n e b t w w' ->
  es_heap w !! e = None /\ changes w w' e n.
Proof.
  intros I Ht Hidle (Hfresh & s' & -> & Hs').
  assert (Hnone : es_heap w !! e = None).
  { destruct (es_heap w !! e) as [r|] eqn:Hr; [|done].
    destruct (inv_conn _ I _ _ Hr) as (_ & Hbl & _). done. }
  split; [done|]. split; cbn; rewrite ?Hs'; cbn.
  - intros e' Hne. by rewrite lookup_insert_ne.
  - intros pcb' Hne. by rewrite lookup_insert_ne.
  - set_solver.
  - by rewrite Hnone.
  - intros e' r _ Hr Heq.
    destruct (inv_conn _ I _ _ Hr) as (_ & _ & _ & (t' & Ht' & Hw) & _).
    destruct Hw as (_ & Hrecv & _), Hidle as (Hno & _). congruence.
  - done.
Qed.

Lemma inv_accepted w w' n e b t :
  inv w -> tcps (vw w) !! n = Some t -> idle_slots t -> t_accept t = None ->
  is_Some (backs b) -> accepted n e b t w w' -> inv w'.
Proof.
  intros I Ht Hidle Hacc Hb Hpost.
  destruct (changes_accepted _ _ _ _ _ _ I Ht Hidle Hpost) as [_ Hch].
  destruct Hpost as (Hfresh & s' & -> & Hs').
  eapply (inv_change w _ e n); [done|done| |]; cbn; rewrite ?Hs'; cbn.
  - intros r. rewrite lookup_insert_eq. intros [= <-]. split_and!.
    + split_and!; cbn; rewrite ?Hs'; cbn; [by left|set_solver|done| |].
      * exists (wire e t). by rewrite lookup_insert_eq.
      * exists []. split; [apply owned_nil|done].
    + done.
    + intros cs [_ Hh]. destruct cs as [|[]]; [|done].
      intros e' r' cs' _ _ _ q Hq. set_solver.
  - intros t'. rewrite !lookup_insert_eq. intros [= <-]. by right.
Qed.

Lemma accept_inv `{AppOk F} w n b t :
  inv w -> enough_fuel w -> tcps (vw w) !! n = Some t ->
  idle_slots t -> t_accept t = None -> is_Some (backs b) ->
  wpf F (cs_tcp_raw_accept backs (Some b) (Some n) ERR_OK) w (fun x w' =>
    inv w' /\ (x = ERR_OK \/ x = ERR_MEM /\ es_heap w' = es_heap w)).
Proof.
  intros I Hf Ht Hidle Hacc [cb Hb]. unfold cs_tcp_raw_accept. cbn.
  apply wp_bind, wp_lift. eapply wp_mono; [by eapply tcp_setprio_law|].
  cbn. intros _ s1 H1. apply wp_bind, wp_lift. cbn.
  eapply wp_mono; [apply mem_malloc_law|]. rewrite H1. cbn.
  intros [e|] s2; [|intros H2; apply wp_ret; split;
    [by apply (inv_same_view w)|by right]].
  intros [Hfresh H2]. apply wp_bind, wp_modify. cbn.
  apply (wire_slots_spec _ n e t); [cbn; by rewrite H2|].
  cbn. rewrite H2. cbn. intros s3 H3.
  destruct (ok_accept _ _ (app_ok _ _ Hb)) as (h & Hh & Hspec).
  apply wp_bind. eapply wp_deref; [done|].
  apply wp_bind. eapply wp_deref; [done|].
  apply wp_bind. eapply wpf_mono.
  - eapply (Hspec _ n e).
    + eapply (inv_accepted w _ n e b t); try done. split; [done|].
      by exists s3.
    + unfold enough_fuel. cbn. by rewrite H3.
    + cbn. by rewrite lookup_insert_eq.
    + done.
  - cbn beta. intros _ w' I'. apply wp_ret. by split; [|left].
Qed.

(** Every call that lwIP makes runs without fault and keeps the
    invariant. *)
Lemma dispatch_inv `{AppOk F} w ev t :
  inv w -> enough_fuel w -> event_ok w ev t ->
  wpf F (dispatch ev t) w (fun _ w' => inv w').
Proof.
  intros I Hf [Ht Hev].
  assert (Hconn : ~ idle_slots t -> exists e r, es_heap w !! e = Some r /\
            es_pcb r = event_pcb ev /\ t_arg t = Some e)
    by (by apply slots_conn).
  destruct ev as [pcb n|pcb|pcb p|pcb|l n err]; cbn in *.
  - destruct Hconn as (e & r & Hr & <- & ->);
      [intros (_ & ? & _); congruence|]. by apply sent_inv.
  - destruct Hconn as (e & r & Hr & <- & ->);
      [intros (_ & _ & _ & ? & _); congruence|]. by apply poll_inv.
  - destruct Hev as [Hrecv (cs & Ho & Hh & Hun)].
    destruct Hconn as (e & r & Hr & <- & ->);
      [intros (? & _); congruence|]. by eapply data_inv.
  - destruct Hconn as (e & r & Hr & <- & ->);
      [intros (? & _); congruence|].
    eapply wpf_mono; [by apply fin_inv|]. by intros ? ? [].
  - destruct Hev as [Hacc Hn].
    destruct (inv_tcps _ I _ _ Ht) as [(_ & _ & _ & _ & Hl)|(e & r & _ & _ & Hw)];
      [|by destruct Hw as (_ & _ & _ & _ & _ & ?); congruence].
    rewrite Hacc in Hl. destruct Hl as (_ & b & -> & Hb).
    unfold cs_tcp_raw_accept. destruct (decide (err <> ERR_OK)) as [|Herr];
      [by apply wp_ret|].
    destruct n as [n|]; [|by apply wp_ret].
    destruct Hn as (tn & Htn & Hidle & Haccn).
    eapply wpf_mono; [by eapply (accept_inv w n b tn)|]. by intros ? ? [].
Qed.

Lemma inv_env w w' : inv w -> env_step w w' -> inv w'.
Proof.
  intros I [He Hbl Hpb Htc Hidle].
  assert (Hqueue : forall e r cs, es_heap w !! e = Some r -> queue w r cs ->
            queue w' r cs).
  { intros e r cs Hr Hq. eapply queue_agree; [|done]. intros q. by eapply Hpb. }
  assert (Hback : forall e r cs, es_heap w !! e = Some r -> queue w' r cs ->
            queue w r cs).
  { intros e r cs Hr Hq.
    destruct (inv_conn _ I _ _ Hr) as (_ & _ & _ & _ & cs0 & Hq0).
    by rewrite (queue_unique _ _ _ _ Hq (Hqueue _ _ _ Hr Hq0)). }
  split.
  - intros e r Hr. rewrite He in Hr.
    destruct (inv_conn _ I _ _ Hr) as (Hst & Hb & Hcb & (t & Ht & Hw) & cs & Hq).
    split_and!; [done|by apply Hbl|done| |eauto].
    exists t. split; [|done]. by eapply Htc.
  - intros e1 e2 r1 r2 cs1 cs2 Hne H1 H2 Hq1 Hq2. rewrite He in H1, H2.
    eapply (inv_disj _ I e1 e2); eauto.
  - intros pcb t Ht. destruct (Hidle _ _ Ht) as [|[e Hw]]; [by left|].
    apply (Htc _ _ _ Hw) in Ht. rewrite He. by apply (inv_tcps _ I).
Qed.

(** Freeing a chain that nobody has queued. *)
Lemma inv_free w s cs :
  inv w -> unqueued w cs ->
  view s = with_pbufs (without (pbufs (vw w)) cs) (vw w) -> inv (with_lw s w).
Proof.
  intros I Hun Hs. eapply inv_env; [exact I|]. split; cbn; rewrite ?Hs; cbn; try done.
  - intros e r cs' q Hr Hq Hin. rewrite without_lookup, decide_False; [done|].
    intros Hin'. by eapply (Hun e r cs').
  - intros pcb t Ht. destruct (inv_tcps _ I _ _ Ht) as [|(e & r & _ & _ & Hw)]; eauto.
Qed.

Lemma inv_app w a : inv w -> inv (with_app a w).
Proof. intros I. split; apply I. Qed.

Lemma reachable_inv `{AppOk F} w : tcp_reachable w -> inv w.
Proof.
  intros (w0 & [Hes Ht] & Hr). eapply (rtc_invariant tcp_step); [|exact Hr|].
  - intros w1 w2 I [w3 Henv|ev t x w3 Hev Hf Hd|e r buf len x w3 He Hf Hb Hd];
      [by eapply inv_env|..].
    + pose proof (dispatch_inv _ _ _ I Hf Hev) as Hwp.
      unfold wpf in Hwp. by rewrite Hd in Hwp.
    + pose proof (inv_char_send _ _ _ _ _ I He Hf Hb) as Hwp.
      unfold wpf in Hwp. by rewrite Hd in Hwp.
  - split.
    + intros e r. by rewrite Hes.
    + intros e1 e2 r1 r2 cs1 cs2 _. by rewrite Hes.
    + intros pcb t Hp. left. by eapply Ht.
Qed.

(** ** The error callback *)

(** lwIP calls it when the control block is already deallocated. *)
Lemma raw_error_faults w e r err :
  es_heap w !! e = Some r -> tcps (vw w) !! es_pcb r = None ->
  cs_tcp_raw_error backs (Some e) err w = Fault UB.
Proof.
  intros Hr Ht. unfold cs_tcp_raw_error, es_get.
  erewrite bind_Ok by done. erewrite bind_Ok by done.
  erewrite bind_Ok by (erewrite bind_Ok by done; by rewrite Hr).
  unfold cs_tcp_raw_close. apply bind_Fault. unfold lift.
  by rewrite tcp_arg_dead.
Qed.

(** ** Listening *)

(** The control block that [cs_tcp_raw_init] leaves listening. *)
Definition listener (b : ptr) : tcb :=
  set_accept (Some Fn_cs_tcp_raw_accept) (set_arg (Some b) tcb_new).

Lemma inv_add_idle w s p t :
  inv w -> tcps (vw w) !! p = None -> idle_slots t ->
  view s = with_tcps (<[p := t]> (tcps (vw w))) (vw w) -> inv (with_lw s w).
Proof.
  intros I Hp Hi Hs. eapply inv_env; [exact I|]. split; cbn; rewrite ?Hs; cbn.
  - done.
  - by intros.
  - by intros.
  - intros pcb t' e Hw. rewrite lookup_insert_Some. split; [|].
    + intros [[<- <-]|[_ Ht]]; [|done].
      destruct Hi as [Hi _], Hw as (_ & Hw & _). congruence.
    + intros Ht. right. split; [congruence|done].
  - intros pcb t' [[<- <-]|[_ Ht]]%lookup_insert_Some; [by left|].
    destruct (inv_tcps _ I _ _ Ht) as [|(e & r & _ & _ & Hw)]; eauto.
Qed.

(** What [cs_tcp_raw_init] does to the control blocks, and to nothing else. *)
Definition init_post b w (res : option ptr) w' : Prop :=
  exists s', w' = with_lw s' w /\ exists m, view s' = with_tcps m (vw w) /\
    match res with
    | Some l => tcps (vw w) !! l = None /\ m = <[l := listener b]> (tcps (vw w))
    | None => m = tcps (vw w) \/
        exists p, tcps (vw w) !! p = None /\
          m = <[p := set_arg (Some b) tcb_new]> (tcps (vw w))
    end.

(** The second half: the bound control block [p] is made a listener. *)
Lemma start_listening_spec w s b p :
  tcps (vw w) !! p = None ->
  view s = with_tcps (<[p := set_arg (Some b) tcb_new]> (tcps (vw w))) (vw w) ->
  wp (npcb ← lift (tcp_listen p); lift (tcp_accept npcb Fn_cs_tcp_raw_accept);;
      mret npcb) (with_lw s w) (init_post b w).
Proof.
  intros Hnew Hs. apply wp_bind, wp_lift. eapply wp_mono.
  { eapply (tcp_listen_law _ _ (set_arg (Some b) tcb_new)). cbn. rewrite Hs. cbn.
    by rewrite lookup_insert_eq. }
  cbn. rewrite Hs. cbn. intros [l|] s4.
  - intros [Hl H4]. rewrite delete_insert_eq, delete_id in H4 by done.
    assert (Hlnew : tcps (vw w) !! l = None).
    { destruct Hl as [->|Hl]; [done|]. by apply lookup_insert_None in Hl as [? _]. }
    apply wp_bind, wp_lift. eapply wp_mono.
    { eapply (tcp_accept_law s4 (Some l)). cbn. rewrite H4. cbn.
      by rewrite lookup_insert_eq. }
    cbn. intros _ s5 H5. apply wp_ret. exists s5. split; [done|]. eexists.
    split; [rewrite H5, H4; cbn; by rewrite insert_insert_eq|done].
  - intros H4. apply wp_bind, wp_lift. eapply wp_mono.
    { apply (tcp_accept_law s4 None). }
    cbn. intros _ s5 H5. apply wp_ret. exists s5. split; [done|]. eexists.
    split; [by rewrite H5, H4|]. right. by exists p.
Qed.

Lemma cs_tcp_raw_init_spec w b : wp (cs_tcp_raw_init b) w (init_post b w).
Proof.
  unfold cs_tcp_raw_init. apply wp_bind, wp_lift.
  eapply wp_mono; [apply tcp_new_law|]. cbn. intros [p|] s1.
  2: { intros H1. apply wp_ret. exists s1. split; [done|]. exists (tcps (vw w)).
       split; [by rewrite H1; destruct (vw w)|by left]. }
  intros [Hnew H1]. apply wp_bind, wp_lift. cbn.
  eapply wp_mono; [apply (tcp_arg_law _ _ tcb_new); rewrite H1; cbn;
    by rewrite lookup_insert_eq|].
  cbn. intros _ s2 H2. rewrite H1 in H2. cbn in H2. rewrite insert_insert_eq in H2.
  apply wp_bind, wp_lift. cbn. eapply wp_mono.
  { eapply (tcp_bind_law _ _ (set_arg (Some b) tcb_new)). rewrite H2. cbn.
    by rewrite lookup_insert_eq. }
  cbn. intros err s3 H3. rewrite H2 in H3. case_decide.
  - by apply (start_listening_spec w s3).
  - apply wp_bind, wp_lift. cbn. eapply wp_mono.
    { eapply (tcp_free_law _ _ (set_arg (Some b) tcb_new)).
      rewrite H3. cbn. by rewrite lookup_insert_eq. }
    rewrite H3. cbn. intros _ s4 H4. apply wp_ret. exists s4. split; [done|].
    exists (tcps (vw w)). split; [|by left].
    rewrite H4. cbn. by rewrite delete_insert_eq, delete_id.
Qed.

(** ** Properties *)

(** C2: In every state that lwIP's calls and its own steps can reach, every
    further call of an accept, receive, sent or poll callback runs to its end
    without an assertion failure and without touching freed memory, provided
    the application's callbacks keep their promises ([AppOk]); and afterwards
    every live connection state still belongs to a live control block that
    points back at it with all its callbacks, is in state ACCEPTED or
    RECEIVED, and owns its queue, which it shares with no other connection.
    The only faults are those that an application's callback stops with
    itself, [F]. *)
Theorem tcp_callbacks_safe `{AppOk F} w ev t :
  tcp_reachable w -> enough_fuel w -> event_ok w ev t ->
  (exists x w', dispatch ev t w = Ok (x, w') /\ inv w') \/
  (exists x, dispatch ev t w = Fault x /\ F x).
Proof.
  intros I%reachable_inv Hf Hev. pose proof (dispatch_inv _ _ _ I Hf Hev) as Hwp.
  unfold wpf in Hwp. destruct (dispatch ev t w) as [[x w']|x]; eauto 6.
Qed.


(** When the peer closes its side, the receive callback returns [ERR_OK]
    and the connection is gone at once: its state is freed together with every
    buffer of its queue, and none of the queued bytes is added to the
    stream. *)
Theorem tcp_fin_discards_queue `{!AppOk no_fault} w e r t cs :
  tcp_reachable w -> es_heap w !! e = Some r -> queue w r cs ->
  event_ok w (EvFin (es_pcb r)) t ->
  exists w', dispatch (EvFin (es_pcb r)) t w = Ok (ERR_OK, w') /\
    es_heap w' = delete e (es_heap w) /\
    pbufs (vw w') = without (pbufs (vw w)) cs /\
    (forall t', tcps (vw w') !! es_pcb r = Some t' -> t_stream t' = t_stream t).
Proof.
  intros Hreach Hr Hq [Ht _]. pose proof (reachable_inv _ Hreach) as I. cbn in Ht.
  destruct (inv_conn _ I _ _ Hr)
    as (_ & Hbl & (b & Hb) & (t' & Ht' & Ha & _) & _).
  rewrite Ht in Ht'. injection Ht' as <-.
  destruct (app_ok_close _ _ Hb) as (h & Hh & Hclose).
  cut (wp (dispatch (EvFin (es_pcb r)) t) w (fun x w' => x = ERR_OK /\
    es_heap w' = delete e (es_heap w) /\
    pbufs (vw w') = without (pbufs (vw w)) cs /\
    forall t', tcps (vw w') !! es_pcb r = Some t' -> t_stream t' = t_stream t)).
  { intros (x & w' & Hrun & -> & Hrest)%wp_Ok. by exists w'. }
  cbn. rewrite Ha. unfold cs_tcp_raw_recv.
  apply wp_bind, wp_assert; [done|]. apply wp_bind. eapply wp_deref; [done|].
  apply wp_bind. eapply wp_es_set; [done|]. apply wp_bind. eapply wp_mono.
  { apply (cs_tcp_raw_close_spec _ _ e (es_set_state ES_CLOSING r) t cs b h);
      cbn; try done. by rewrite lookup_insert_eq. }
  cbn beta. intros _ w' (s & s' & a & x & _ & -> & Hs'). apply wp_ret.
  cbn in *. rewrite Hs'. cbn. split_and!; [done| |done|].
  - by rewrite delete_insert_eq.
  - intros t'. case_decide; [by rewrite lookup_delete_eq|].
    rewrite lookup_insert_eq. intros [= <-]. done.
Qed.

(** Accepting a connection in a reachable state: with an error code or
    without a control block it is refused with [ERR_VAL] and nothing changes;
    otherwise it is refused with [ERR_MEM] when no memory is left, and else
    accepted with [ERR_OK], whatever the application's accept callback
    returns. *)
Theorem cs_tcp_raw_accept_correct `{!AppOk no_fault} w l n err t :
  tcp_reachable w -> enough_fuel w -> event_ok w (EvAccept l n err) t ->
  if decide (err <> ERR_OK \/ n = None)
  then dispatch (EvAccept l n err) t w = Ok (ERR_VAL, w)
  else exists x w', dispatch (EvAccept l n err) t w = Ok (x, w') /\ inv w' /\
         (x = ERR_OK \/ x = ERR_MEM /\ es_heap w' = es_heap w).
Proof.
  intros Hr Hf [Ht [Hacc Hn]]. pose proof (reachable_inv _ Hr) as I. cbn in *.
  destruct (inv_tcps _ I _ _ Ht) as [(_ & _ & _ & _ & Hl)|(e & r & _ & _ & Hw)];
    [|by destruct Hw as (_ & _ & _ & _ & _ & ?); congruence].
  rewrite Hacc in Hl. destruct Hl as (_ & b & -> & Hb). case_decide as Hd.
  - unfold cs_tcp_raw_accept. destruct (decide (err <> ERR_OK)); [done|].
    by destruct Hd as [| ->].
  - destruct n as [n|]; [|tauto]. destruct (decide (err = ERR_OK)) as [->|];
      [|tauto].
    destruct Hn as (tn & Htn & Hidle & Haccn).
    by apply wp_Ok, (accept_inv w n b tn).
Qed.

(** [cs_tcp_raw_init] changes nothing but lwIP's control blocks, keeps
    the invariant of the connections, and either returns a listening control
    block, the only one it adds, with the callback table as its argument and
    [cs_tcp_raw_accept] as its accept callback; or it returns [NULL], and then
    nothing is left allocated, except when [tcp_listen] found no memory: then
    the bound control block stays allocated and is lost. *)
Theorem cs_tcp_raw_init_correct w b :
  exists res s' m, cs_tcp_raw_init b w = Ok (res, with_lw s' w) /\
    view s' = with_tcps m (vw w) /\
    (is_Some (backs b) -> inv w -> inv (with_lw s' w)) /\
    match res with
    | Some l => tcps (vw w) !! l = None /\
        m = <[l := listener b]> (tcps (vw w))
    | None => m = tcps (vw w) \/
        exists p, tcps (vw w) !! p = None /\
          m = <[p := set_arg (Some b) tcb_new]> (tcps (vw w))
    end.
Proof.
  destruct (proj1 (wp_Ok _ _ _) (cs_tcp_raw_init_spec w b))
    as (res & w' & Hrun & s' & -> & m & Hv & Hm).
  exists res, s', m. split_and!; [done|done| |].
  - intros Hb I. destruct res as [l|].
    + destruct Hm as [Hl ->]. eapply inv_add_idle; [done..| |done].
      split_and!; try done. split; [done|]. by exists b.
    + destruct Hm as [->|(q & Hq & ->)].
      * by apply inv_same_view; [|rewrite Hv; destruct (vw w)].
      * by eapply inv_add_idle; [done..| |done].
  - done.
Qed.

(** C23: On every connection that a run can reach, lwIP would report a fatal
    error to [cs_tcp_raw_error], and it deallocates the control block before
    it does; the callback then writes to the freed block before it does
    anything else. *)
Theorem cs_tcp_raw_error_use_after_free `{AppOk F} w e r err s :
  tcp_reachable w -> es_heap w !! e = Some r ->
  view s = with_tcps (delete (es_pcb r) (tcps (vw w))) (vw w) ->
  exists t, tcps (vw w) !! es_pcb r = Some t /\
    t_err t = Some Fn_cs_tcp_raw_error /\
    cs_tcp_raw_error backs (t_arg t) err (with_lw s w) = Fault UB.
Proof.
  intros I%reachable_inv Hr Hs.
  destruct (inv_conn _ I _ _ Hr) as (_ & _ & _ & (t & Ht & Ha & _ & _ & He & _) & _).
  exists t. split_and!; [done|done|]. rewrite Ha. eapply raw_error_faults; [done|].
  cbn. rewrite Hs. cbn. by rewrite lookup_delete_eq.
Qed.

End conn.
