(* ===== verification/Udp.v ===== *)
(** * UDP (src/src/udp.c)

    Choosing the interface for a datagram, sending from a given source
    address, and the control block that the layer listens on.  Proved: which
    interface is chosen, and that a send leaves the control block and the
    buffers as they were. *)

From S2P Require Import Prelude Lwip Cs.
Local Open Scope Z_scope.

Definition NETIF_NO_INDEX : Z := 0.
Definition IP4_ADDR_BROADCAST : Z := 4294967295.

(** [ip_2_ip4]: the first word of the union. *)
Definition ip_2_ip4 (a : ip_addr) : Z :=
  match a with
  | IPv4 x => x
  | IPv6 x _ _ _ => x
  end.

Definition IP_IS_V4 (a : ip_addr) : bool :=
  match a with
  | IPv4 _ => true
  | IPv6 _ _ _ _ => false
  end.

Section udp.
Context {S A : Type} `{!Lwip S, !LwipUdp S}.

(** The option [LWIP_MULTICAST_TX_OPTIONS] of lwIP. *)
Context (mcast_tx : bool).

Abbreviation C := (M (world S A)).

Definition upcb_get (u : ptr) : C udp_pcb :=
  h ← gets udps; deref (h !! u).

Definition upcb_set (u : ptr) (f : udp_pcb -> udp_pcb) : C unit :=
  r ← upcb_get u; modify (fun w => with_udps (<[u := f r]> (udps w)) w).

Definition set_local_ip (a : ip_addr) (r : udp_pcb) : udp_pcb :=
  UdpPcb a (local_port r) (netif_idx r) (mcast_ifindex r) (mcast_ip4 r).
Definition set_local_port (n : Z) (r : udp_pcb) : udp_pcb :=
  UdpPcb (local_ip r) n (netif_idx r) (mcast_ifindex r) (mcast_ip4 r).

Definition cs_get_current_netif (pcb : ptr) (dst_ip : ip_addr) (dst_port : Z)
    : C (option ptr) :=
  r ← upcb_get pcb;
  s ← gets lw;
  if negb (netif_idx r =? NETIF_NO_INDEX) then
    mret (netif_get_by_index s (netif_idx r))
  else
    netif ←
      (if mcast_tx && ip_addr_ismulticast dst_ip then
         if negb (mcast_ifindex r =? NETIF_NO_INDEX) then
           mret (netif_get_by_index s (mcast_ifindex r))
         else if IP_IS_V4 dst_ip then
           if negb (mcast_ip4 r =? 0) &&
              negb (mcast_ip4 r =? IP4_ADDR_BROADCAST)
           then mret (ip4_route_src s (ip_2_ip4 (local_ip r)) (mcast_ip4 r))
           else mret None
         else mret None
       else mret None);
    match netif with
    | None => mret (ip_route s (local_ip r) dst_ip)
    | Some _ => mret netif
    end.

Definition cs_udp_sendto (upcb p : ptr) (addr : ip_addr) (port : Z) : C err_t :=
  netif ← cs_get_current_netif upcb addr port;
  r ← upcb_get upcb;
  lift (udp_sendto_if_src r p addr port netif (local_ip r)).

Definition cs_udp_char_sendto (upcb : ptr) (laddr : ip_addr) (lport : Z)
    (raddr : ip_addr) (rport : Z) (buf : bytes) (buf_len : Z) : C Z :=
  o ← lift (pbuf_alloc (u16 buf_len));
  match o with
  | None => mret 1
  | Some p =>
      _ ← lift (pbuf_take p buf (u16 buf_len));
      old ← upcb_get upcb;
      let old_addr := local_ip old in
      let old_port := local_port old in
      upcb_set upcb (set_local_ip laddr);;
      upcb_set upcb (set_local_port lport);;
      _ ← cs_udp_sendto upcb p raddr rport;
      upcb_set upcb (set_local_ip old_addr);;
      upcb_set upcb (set_local_port old_port);;
      _ ← lift (pbuf_free p);
      mret 0
  end.

(** The argument given to the application is the callback table itself. *)
Definition cs_udp_raw_recv (backs : ptr -> option (cs_callback S A))
    (arg : option ptr) (upcb : ptr) (p : option ptr) (addr : ip_addr) (port : Z)
    : C unit :=
  match p with
  | Some p =>
      back ← deref arg;
      cb ← deref (backs back);
      udp_recv_h ← deref (cb_udp_recv cb);
      _ ← udp_recv_h (Some back) upcb p addr port;
      mret tt
  | None => mret tt
  end.

Definition cs_udp_raw_init (back : ptr) : C (option ptr) :=
  o ← lift udp_new_ip_type;
  match o with
  | Some (npcb, r) =>
      modify (fun w => with_udps (<[npcb := r]> (udps w)) w);;
      err ← lift (udp_bind npcb 7);
      if decide (err = ERR_OK) then
        lift (udp_recv npcb back);;
        mret (Some npcb)
      else
        lift (udp_remove npcb);;
        modify (fun w => with_udps (delete npcb (udps w)) w);;
        mret None
  | None => mret None
  end.

(** ** Choosing an interface *)

Context `{!LwipLaws S, !LwipUdpLaws S}.
Implicit Types (w : world S A) (cs : cells).

Abbreviation vw w := (view (lw w)).

(** The interfaces to try, in order, for a control block not bound to one:
    for a multicast destination the one the control block names by index or
    else by address, then the routing table's. *)
Definition netif_candidates (s : S) (r : udp_pcb) (dst : ip_addr)
    : list (option ptr) :=
  (if mcast_tx && ip_addr_ismulticast dst then
     if decide (mcast_ifindex r <> NETIF_NO_INDEX)
     then [netif_get_by_index s (mcast_ifindex r)]
     else if decide (IP_IS_V4 dst = true /\ mcast_ip4 r <> 0 /\
                     mcast_ip4 r <> IP4_ADDR_BROADCAST)
     then [ip4_route_src s (ip_2_ip4 (local_ip r)) (mcast_ip4 r)]
     else []
   else []) ++ [ip_route s (local_ip r) dst].

(** The first that exists. *)
Fixpoint first_some {X} (l : list (option X)) : option X :=
  match l with
  | [] => None
  | Some x :: _ => Some x
  | None :: l => first_some l
  end.

Definition chosen_netif (s : S) (r : udp_pcb) (dst : ip_addr) : option ptr :=
  if decide (netif_idx r = NETIF_NO_INDEX)
  then first_some (netif_candidates s r dst)
  else netif_get_by_index s (netif_idx r).

Lemma first_some_2 {X} (a b : option X) :
  first_some ([a] ++ [b]) = match a with None => b | Some _ => a end.
Proof. by destruct a, b. Qed.

Lemma first_some_1 {X} (a : option X) : first_some ([] ++ [a]) = a.
Proof. by destruct a. Qed.

Lemma current_netif_spec w pcb r dst port :
  udps w !! pcb = Some r ->
  cs_get_current_netif pcb dst port w = Ok (chosen_netif (lw w) r dst, w).
Proof.
  intros Hr. unfold cs_get_current_netif, upcb_get.
  erewrite bind_Ok by (erewrite bind_Ok by done; by rewrite Hr).
  erewrite bind_Ok by done. unfold chosen_netif, netif_candidates.
  destruct (Z.eqb_spec (netif_idx r) NETIF_NO_INDEX) as [E|E]; cbn [negb];
    [rewrite (decide_True (P := _ = _)) by done|
     by rewrite (decide_False (P := _ = _)) by done].
  destruct (mcast_tx && ip_addr_ismulticast dst).
  - destruct (Z.eqb_spec (mcast_ifindex r) NETIF_NO_INDEX) as [E1|E1];
      cbn [negb]; [rewrite (decide_False (P := _ <> _)) by tauto|
                   rewrite (decide_True (P := _ <> _)) by done].
    + destruct (IP_IS_V4 dst).
      * destruct (Z.eqb_spec (mcast_ip4 r) 0) as [E2|E2];
          [|destruct (Z.eqb_spec (mcast_ip4 r) IP4_ADDR_BROADCAST) as [E3|E3]];
          cbn [negb andb];
          [rewrite decide_False by tauto|rewrite decide_False by tauto|
           rewrite decide_True by done];
          rewrite ?first_some_1, ?first_some_2; erewrite bind_Ok by done;
          [done..|by destruct (ip4_route_src _ _ _)].
      * rewrite decide_False by (by intros [? _]).
        erewrite bind_Ok by done. by rewrite first_some_1.
    + rewrite first_some_2. erewrite bind_Ok by done.
      by destruct (netif_get_by_index _ _).
  - erewrite bind_Ok by done. by rewrite first_some_1.
Qed.

(** ** Sending *)

Lemma upcb_get_spec w u r (Q : udp_pcb -> world S A -> Prop) :
  udps w !! u = Some r -> Q r w -> wp (upcb_get u) w Q.
Proof. intros Hr HQ. unfold upcb_get. wp_auto. done. Qed.

Lemma upcb_set_spec w u f r (Q : unit -> world S A -> Prop) :
  udps w !! u = Some r -> Q tt (with_udps (<[u := f r]> (udps w)) w) ->
  wp (upcb_set u f) w Q.
Proof.
  intros Hr HQ. unfold upcb_set. apply wp_bind. by eapply upcb_get_spec.
Qed.

(** The outcome of a send: the datagram is sent or not, and nothing else
    changes. *)
Definition sent_or_not (d : datagram) (v v' : lwview) : Prop :=
  v' = v \/ v' = with_outbox (outbox v ++ [d]) v.

Lemma cs_udp_sendto_spec w u r p cs addr port :
  udps w !! u = Some r -> owned (pbufs (vw w)) cs -> chain_head cs = Some p ->
  wp (cs_udp_sendto u p addr port) w (fun _ w' => exists s',
    w' = with_lw s' w /\
    sent_or_not (Datagram (local_ip r) (local_port r) addr port
                   (chosen_netif (lw w) r addr) (chain_data cs))
      (vw w) (view s')).
Proof.
  intros Hr Ho Hh. unfold cs_udp_sendto.
  apply wp_bind. apply wp_Ok. eexists _, w. split; [by apply current_netif_spec|].
  apply wp_bind. eapply upcb_get_spec; [done|]. apply wp_lift.
  eapply wp_mono; [by eapply udp_sendto_law|]. cbn. intros e s' Hs'.
  exists s'. split; [done|]. case_decide; [by right|by left].
Qed.

Lemma restored_local r a n :
  set_local_port (local_port r) (set_local_ip (local_ip r)
    (set_local_port n (set_local_ip a r))) = r.
Proof. by destruct r. Qed.

Lemma cs_udp_char_sendto_spec w u r laddr lport raddr rport buf n :
  u16 n <= Z.of_nat (length buf) -> udps w !! u = Some r ->
  wp (cs_udp_char_sendto u laddr lport raddr rport buf n) w (fun res w' =>
    exists s', w' = with_lw s' w /\
    ((res = 1 /\ view s' = vw w) \/
     (res = 0 /\ exists s nif,
        nif = chosen_netif s (set_local_port lport (set_local_ip laddr r)) raddr /\
        sent_or_not (Datagram laddr lport raddr rport nif
                       (take (Z.to_nat (u16 n)) buf)) (vw w) (view s')))).
Proof.
  intros Hbuf Hr. unfold cs_udp_char_sendto.
  pose proof (wrap_u_range 16 n ltac:(lia)) as Hn.
  apply wp_alloc_take; [lia|done|intros s1 Hs1; apply wp_ret; exists s1; by eauto|].
  intros p cs s2 Hf.
  apply wp_bind. eapply upcb_get_spec; [done|].
  apply wp_bind. eapply upcb_set_spec; [done|].
  apply wp_bind. eapply upcb_set_spec; [cbn; by rewrite lookup_insert_eq|].
  cbn. rewrite insert_insert_eq.
  apply wp_bind. eapply wp_mono.
  { eapply (cs_udp_sendto_spec _ u _ p cs); cbn;
      [by rewrite lookup_insert_eq|apply Hf|apply Hf]. }
  cbn. intros _ w3 (s3 & -> & Hs3). rewrite (fl_data _ _ _ _ _ Hf) in Hs3.
  apply wp_bind. eapply upcb_set_spec; [cbn; by rewrite lookup_insert_eq|].
  apply wp_bind. eapply upcb_set_spec; [cbn; by rewrite lookup_insert_eq|].
  cbn. rewrite !insert_insert_eq, restored_local, insert_id by done.
  assert (Hpb : pbufs (view s3) = pbufs (view s2)) by by destruct Hs3 as [-> | ->].
  pose proof (fl_without _ _ _ _ _ Hf) as Hfree. pose proof (fl_owned _ _ _ _ _ Hf) as Ho.
  pose proof (fl_head _ _ _ _ _ Hf) as Hhd.
  destruct cs as [|[q b] cs]; [done|]. injection Hhd as ->.
  apply wp_bind, wp_lift. cbn. eapply wp_mono.
  { apply pbuf_free_law. rewrite Hpb. by apply (pfree_chain _ _ b). }
  cbn beta. intros _ s4 Hs4. apply wp_ret.
  exists s4. split; [by destruct w|]. right. split; [done|].
  eexists _, _. split; [done|]. rewrite Hs4, Hfree. unfold sent_or_not.
  rewrite (fl_view _ _ _ _ _ Hf) in Hs3.
  destruct Hs3 as [-> | ->]; [left|right]; unfold with_pbufs, with_outbox;
    cbn; [by destruct (vw w)|done].
Qed.

(** ** Listening *)

(** [cs_udp_raw_init] changes the UDP control blocks and nothing else. *)
Definition udp_init_post w (res : option ptr) w' : Prop :=
  exists s m, w' = with_udps m (with_lw s w) /\ view s = vw w /\
    match res with
    | Some u => exists r, m = <[u := r]> (udps w)
    | None => m = udps w \/ exists u, m = delete u (udps w)
    end.

Lemma cs_udp_raw_init_spec w b : wp (cs_udp_raw_init b) w (udp_init_post w).
Proof.
  unfold cs_udp_raw_init. apply wp_bind, wp_lift. eapply wp_mono; [apply udp_new_law|].
  cbn beta. intros [[u r]|] s1 H1.
  - wp_auto. apply wp_lift. eapply wp_mono; [apply udp_bind_law|].
    cbn. intros err s2 H2. case_decide.
    + apply wp_bind, wp_lift. eapply wp_mono; [apply udp_recv_law|].
      cbn. intros _ s3 H3. apply wp_ret. exists s3, (<[u := r]> (udps w)).
      split; [done|]. split; [congruence|by exists r].
    + apply wp_bind, wp_lift. eapply wp_mono; [apply udp_remove_law|].
      cbn. intros _ s3 H3. wp_auto. exists s3, (delete u (udps w)).
      split; [unfold with_udps; cbn; by rewrite delete_insert_eq|].
      split; [congruence|]. right. by exists u.
  - apply wp_ret. exists s1, (udps w). split; [done|]. split; [done|by left].
Qed.

(** ** Properties *)

(** [cs_get_current_netif] changes nothing and returns, for a control
    block bound to an interface, exactly that interface, which may not exist;
    for any other the first interface that exists among, in order, the one
    chosen for multicast by index or else by address, and the one of the
    routing table. *)
Theorem cs_get_current_netif_correct w pcb r dst port :
  udps w !! pcb = Some r ->
  cs_get_current_netif pcb dst port w =
    Ok (if decide (netif_idx r = NETIF_NO_INDEX)
        then first_some (netif_candidates (lw w) r dst)
        else netif_get_by_index (lw w) (netif_idx r), w).
Proof. apply current_netif_spec. Qed.

(** [cs_udp_char_sendto] never runs into a fault.  It returns 1 when no
    buffer could be allocated; otherwise it returns 0, whether or not lwIP
    took the datagram, which has the given source and destination and the
    first [buf_len mod 2^16] bytes of [buf]; the interface is the one for the
    given source address.  The control block, and every buffer, are as they
    were. *)
Theorem cs_udp_char_sendto_correct w u r laddr lport raddr rport buf buf_len :
  u16 buf_len <= Z.of_nat (length buf) -> udps w !! u = Some r ->
  exists res s',
    cs_udp_char_sendto u laddr lport raddr rport buf buf_len w =
      Ok (res, with_lw s' w) /\
    ((res = 1 /\ view s' = vw w) \/
     (res = 0 /\ exists s,
        sent_or_not
          (Datagram laddr lport raddr rport
             (chosen_netif s (set_local_port lport (set_local_ip laddr r)) raddr)
             (take (Z.to_nat (u16 buf_len)) buf)) (vw w) (view s'))).
Proof.
  intros Hbuf Hr.
  destruct (proj1 (wp_Ok _ _ _)
    (cs_udp_char_sendto_spec w u r laddr lport raddr rport buf buf_len Hbuf Hr))
    as (res & w' & Hrun & s' & -> & Hres).
  exists res, s'. split; [done|].
  destruct Hres as [|(Hres & s & nif & -> & Hd)]; [by left|]. right. eauto.
Qed.

End udp.
