(* ===== verification/Netif.v ===== *)
(** * The network interface (src/src/cs.c)

    Handing packets from the application's device to lwIP and back, the set-up
    of the interface and of the whole stack ([cs_init]), and the access to the
    bytes of an address ([cs_ip_len], [cs_ip_get]). *)

From S2P Require Import Prelude Lwip Cs Tcp Udp.
Local Open Scope Z_scope.

(** lwIP's interface functions.  [netif_add] calls the function it is given
    with the new interface. *)
Class LwipNetif (W : Type) : Type := {
  lwip_init : M W unit;
  netif_add :
    ptr -> Z -> Z -> Z -> option ptr -> (ptr -> M W err_t) -> M W bool;
  netif_set_up : ptr -> M W unit;
  netif_set_link_up : ptr -> M W unit;
  netif_set_default : ptr -> M W unit;
  netif_poll_all : M W unit;
  netif_input : ptr -> ptr -> M W err_t;
  netif_ip4_gw : ptr -> M W Z;
  netif_ip4_netmask : ptr -> M W Z
}.

(** The values of lwIP's flags. *)
Definition NETIF_FLAG_BROADCAST : Z := 2.
Definition NETIF_FLAG_ETHARP : Z := 8.
Definition NETIF_FLAG_IGMP : Z := 32.

(** The size of the buffer [buf] of [cs_low_level_output]. *)
Definition MAX_PACKET : Z := 1518.

(** lwIP's [IP4_ADDR], by its documentation: the bytes in network order, so on a
    little-endian machine the first one in the low byte. *)
Definition IP4_ADDR (a b c d : Z) : Z := a + 2 ^ 8 * b + 2 ^ 16 * c + 2 ^ 24 * d.

Definition LWIP_PORT_INIT_IPADDR : Z := IP4_ADDR 192 168 100 200.
Definition LWIP_PORT_INIT_GW : Z := IP4_ADDR 192 168 100 1.
Definition LWIP_PORT_INIT_NETMASK : Z := IP4_ADDR 255 255 255 0.

(** ** Addresses *)

(** [lwip_htonl] on a little-endian machine. *)
Definition byte_of (x k : Z) : Z := (x / 2 ^ (8 * k)) mod 2 ^ 8.
Definition lwip_htonl (x : Z) : Z :=
  2 ^ 24 * byte_of x 0 + 2 ^ 16 * byte_of x 1 + 2 ^ 8 * byte_of x 2 + byte_of x 3.

Definition cs_ip_len (ipaddr : ip_addr) : Z :=
  match ipaddr with
  | IPv6 _ _ _ _ => 16
  | IPv4 _ => 4
  end.

Section cs_ip_get.
(** Whether the type [char] is signed. *)
Context (char_signed : bool).

(** [(char)x]. *)
Definition to_char (x : Z) : Z :=
  let b := u8 x in
  if char_signed && (128 <=? b) then b - 256 else b.

(** [(char)lwip_htonl(x) >> n]: the cast binds tighter than the shift.  The
    result is what is stored in one [char] of the buffer, as a byte. *)
Definition v6_byte (x n : Z) : Z := u8 (Z.shiftr (to_char (lwip_htonl x)) n).

Definition v6_word (x : Z) : bytes :=
  [v6_byte x 24; v6_byte x 16; v6_byte x 8; v6_byte x 0].

Definition cs_ip_get (ipaddr : ip_addr) : bytes :=
  match ipaddr with
  | IPv6 a0 a1 a2 a3 => v6_word a0 ++ v6_word a1 ++ v6_word a2 ++ v6_word a3
  | IPv4 a => [byte_of a 0; byte_of a 1; byte_of a 2; byte_of a 3]
  end.
End cs_ip_get.

(** ** The interface *)

(** [MIB2_STATS_NETIF_ADD] on a [u32_t] counter. *)
Definition mib2_ifinoctets (n : Z) (x : netif) : netif :=
  let '(Netif a b c d e f g h i io id oo od) := x in
  Netif a b c d e f g h i (u32 (io + n)) id oo od.
Definition mib2_ifindiscards (n : Z) (x : netif) : netif :=
  let '(Netif a b c d e f g h i io id oo od) := x in
  Netif a b c d e f g h i io (u32 (id + n)) oo od.
Definition mib2_ifoutoctets (n : Z) (x : netif) : netif :=
  let '(Netif a b c d e f g h i io id oo od) := x in
  Netif a b c d e f g h i io id (u32 (oo + n)) od.
Definition mib2_ifoutdiscards (n : Z) (x : netif) : netif :=
  let '(Netif a b c d e f g h i io id oo od) := x in
  Netif a b c d e f g h i io id oo (u32 (od + n)).

Section netif.
Context {S A : Type} `{!Lwip S, !LwipUdp S, !LwipNetif (world S A)}.
Context (backs : ptr -> option (cs_callback S A)).

Abbreviation C := (M (world S A)).

Definition netif_get (n : ptr) : C netif :=
  h ← gets netifs; deref (h !! n).

Definition netif_set (n : ptr) (f : netif -> netif) : C unit :=
  x ← netif_get n; modify (fun w => with_netifs (<[n := f x]> (netifs w)) w).

(** [netif->state], a callback table. *)
Definition back_of (n : ptr) : C (cs_callback S A) :=
  x ← netif_get n; b ← deref (n_state x); deref (backs b).

Definition cs_low_level_input (netif : ptr) : C (option ptr) :=
  back ← back_of netif;
  input ← deref (cb_input back);
  '(p, readlen) ← input (cb_state back) netif 0;
  netif_set netif (mib2_ifinoctets readlen);;
  match p with
  | None => netif_set netif (mib2_ifindiscards 1)
  | Some _ => mret tt
  end;;
  mret p.

(** [LINK_STATS_INC(link.recv)], a 16-bit counter. *)
Definition link_recv_inc : C unit :=
  modify (fun w => with_link_recv (u16 (link_recv w + 1)) w).

Definition cs_netif_input (netif : ptr) : C unit :=
  p ← cs_low_level_input netif;
  match p with
  | None => link_recv_inc
  | Some p =>
      err ← netif_input p netif;
      if decide (err <> ERR_OK)
      then _ ← lift (pbuf_free p); mret tt
      else mret tt
  end.

(** The copy into [buf] writes [tot_len] bytes: [require] is that they fit. *)
Definition cs_low_level_output (netif p : ptr) : C err_t :=
  x ← netif_get netif;
  tot_len ← lift (pbuf_tot_len p);
  if MAX_PACKET <? tot_len then
    netif_set netif (mib2_ifoutdiscards 1);;
    mret ERR_IF
  else
    require (tot_len <=? MAX_PACKET);;
    buf ← lift (pbuf_copy_partial p tot_len 0);
    b ← deref (n_state x);
    back ← deref (backs b);
    output ← deref (cb_output back);
    written ← output (cb_state back) netif buf tot_len;
    if written <? tot_len then
      netif_set netif (mib2_ifoutdiscards 1);;
      mret ERR_IF
    else
      netif_set netif (mib2_ifoutoctets (u32 written));;
      mret ERR_OK.

Definition cs_low_level_init (netif : ptr) : C unit :=
  netif_set netif (fun '(Netif a b _ _ _ f g h i io id oo od) =>
    Netif a b [2; 18; 52; 86; 120; 171] 6
      (Z.lor (Z.lor NETIF_FLAG_BROADCAST NETIF_FLAG_ETHARP) NETIF_FLAG_IGMP)
      f g h i io id oo od);;
  netif_set_link_up netif.

(** [IFNAME0] and [IFNAME1] are the characters t and p;
    [MIB2_INIT_NETIF] clears the counters. *)
Definition cs_netif_init (netif : ptr) : C err_t :=
  netif_set netif (fun '(Netif a _ c d e _ _ _ _ _ _ _ _) =>
    Netif a (116, 112) c d e (Some Fn_etharp_output) (Some Fn_ethip6_output)
      (Some Fn_cs_low_level_output) 1500 0 0 0 0);;
  cs_low_level_init netif;;
  mret ERR_OK.

(** [cs_lwip_app_platform_assert] prints and aborts: a failed assertion ends
    the run. *)
Definition cs_lwip_app_platform_assert : C unit := stop AssertFail.

Definition cs_init (back : ptr) : C Z :=
  lwip_init;;
  b ← deref (backs back);
  netif ← deref (cb_netif b);
  ok ← netif_add netif LWIP_PORT_INIT_IPADDR LWIP_PORT_INIT_NETMASK
         LWIP_PORT_INIT_GW (Some back) cs_netif_init;
  if negb ok then mret (-1)
  else
    init ← deref (cb_init b);
    init (cb_state b) netif;;
    netif_set_up netif;;
    netif_set_link_up netif;;
    netif_set_default netif;;
    _ ← cs_tcp_raw_init back;
    _ ← cs_udp_raw_init back;
    mret 0.

Definition cs_netif_proc (netif : ptr) : C unit :=
  cs_netif_input netif;;
  netif_poll_all.

(** ** Properties of the interface *)

Context `{!LwipLaws S}.
Implicit Types (w : world S A) (cs : cells).

Abbreviation vw w := (view (lw w)).

Definition upd_netif (n : ptr) (x : netif) w : world S A :=
  with_netifs (<[n := x]> (netifs w)) w.

Lemma netif_set_run n f x w :
  netifs w !! n = Some x -> netif_set n f w = Ok (tt, upd_netif n (f x) w).
Proof.
  intros Hx. unfold netif_set, netif_get.
  erewrite bind_Ok by (erewrite bind_Ok by done; by rewrite Hx). done.
Qed.

Lemma netif_get_run n x w : netifs w !! n = Some x -> netif_get n w = Ok (x, w).
Proof.
  intros Hx. unfold netif_get. erewrite bind_Ok by done. by rewrite Hx.
Qed.

Lemma back_of_run n x b cb w :
  netifs w !! n = Some x -> n_state x = Some b -> backs b = Some cb ->
  back_of n w = Ok (cb, w).
Proof.
  intros Hx Hb Hcb. unfold back_of. erewrite bind_Ok by (by apply netif_get_run).
  rewrite Hb. erewrite bind_Ok by done. by rewrite Hcb.
Qed.

Lemma lift_run {X} (m : M S X) w x :
  m (lw w) = Ok (x, lw w) -> lift m w = Ok (x, w).
Proof. intros Hm. unfold lift. rewrite Hm. by destruct w. Qed.

(** C39: [cs_low_level_output] never writes past the end of its 1518-byte
    buffer.  A longer packet is refused with [ERR_IF] and counted as
    discarded, without calling the application; any other packet is given to
    the application once, as exactly the bytes of its buffers in order, and
    the result is [ERR_OK] with the bytes counted if the application wrote at
    least the whole packet, and [ERR_IF] with a discard counted if not. *)
Theorem cs_low_level_output_correct n x b cb output p cs w :
  netifs w !! n = Some x -> n_state x = Some b -> backs b = Some cb ->
  cb_output cb = Some output ->
  owned (pbufs (vw w)) cs -> chain_head cs = Some p ->
  let len := Z.of_nat (length (chain_data cs)) in
  (MAX_PACKET < len ->
     cs_low_level_output n p w =
       Ok (ERR_IF, upd_netif n (mib2_ifoutdiscards 1 x) w)) /\
  (len <= MAX_PACKET -> forall written w' x',
     output (cb_state cb) n (chain_data cs) len w = Ok (written, w') ->
     netifs w' !! n = Some x' ->
     cs_low_level_output n p w =
       Ok (if written <? len
           then (ERR_IF, upd_netif n (mib2_ifoutdiscards 1 x') w')
           else (ERR_OK, upd_netif n (mib2_ifoutoctets (u32 written) x') w'))).
Proof.
  intros Hx Hb Hcb Hout Ho Hh len.
  assert (Hlen : lift (pbuf_tot_len p) w = Ok (len, w)).
  { apply lift_run. by eapply pbuf_tot_len_law. }
  unfold cs_low_level_output.
  erewrite bind_Ok by (by apply netif_get_run). erewrite bind_Ok by done.
  split.
  - intros Hlt%Z.ltb_lt. rewrite Hlt.
    erewrite bind_Ok by (by eapply netif_set_run). done.
  - intros Hle written w' x' Hrun Hx'.
    rewrite (proj2 (Z.ltb_ge _ _) Hle).
    erewrite bind_Ok by (by rewrite (proj2 (Z.leb_le _ _) Hle)).
    erewrite bind_Ok by (eapply lift_run; by eapply pbuf_copy_partial_law).
    rewrite Hb. erewrite bind_Ok by done. rewrite Hcb. erewrite bind_Ok by done.
    rewrite Hout. erewrite bind_Ok by done. erewrite bind_Ok by done.
    destruct (written <? len); erewrite bind_Ok by (by eapply netif_set_run);
      done.
Qed.

Lemma low_level_input_run n x b cb input w p readlen w1 x1 :
  netifs w !! n = Some x -> n_state x = Some b -> backs b = Some cb ->
  cb_input cb = Some input ->
  input (cb_state cb) n 0 w = Ok ((p, readlen), w1) ->
  netifs w1 !! n = Some x1 ->
  let x2 := mib2_ifinoctets readlen x1 in
  cs_low_level_input n w =
    match p with
    | None => Ok (None, upd_netif n (mib2_ifindiscards 1 x2) (upd_netif n x2 w1))
    | Some p => Ok (Some p, upd_netif n x2 w1)
    end.
Proof.
  intros Hx Hb Hcb Hinput Hrun Hx1 x2.
  unfold cs_low_level_input. erewrite bind_Ok by (by eapply back_of_run).
  rewrite Hinput. erewrite bind_Ok by done. erewrite bind_Ok by done. cbn beta iota.
  erewrite bind_Ok by (by eapply netif_set_run). destruct p; [done|].
  erewrite bind_Ok; [done|]. apply netif_set_run. cbn.
  by rewrite lookup_insert_eq.
Qed.

(** [cs_netif_input] owns the packet that the application hands in until
    lwIP accepts it: if lwIP returns [ERR_OK] the packet is lwIP's and the
    layer does not touch it again, and with any other result every buffer of
    it is freed.  If there is no packet nothing is passed on, and it is then,
    and only then, that the link counter of received packets goes up. *)
Theorem cs_netif_input_correct n x b cb input w p readlen w1 x1 :
  netifs w !! n = Some x -> n_state x = Some b -> backs b = Some cb ->
  cb_input cb = Some input ->
  input (cb_state cb) n 0 w = Ok ((p, readlen), w1) ->
  netifs w1 !! n = Some x1 ->
  let x2 := mib2_ifinoctets readlen x1 in
  match p with
  | None =>
      let w2 := upd_netif n (mib2_ifindiscards 1 x2) (upd_netif n x2 w1) in
      cs_netif_input n w =
        Ok (tt, with_link_recv (u16 (link_recv w1 + 1)) w2)
  | Some p => forall err w3,
      netif_input p n (upd_netif n x2 w1) = Ok (err, w3) ->
      if decide (err = ERR_OK) then cs_netif_input n w = Ok (tt, w3)
      else forall cs, owned (pbufs (vw w3)) cs -> chain_head cs = Some p ->
        exists s, cs_netif_input n w = Ok (tt, with_lw s w3) /\
          view s = with_pbufs (without (pbufs (vw w3)) cs) (vw w3)
  end.
Proof.
  intros Hx Hb Hcb Hinput Hrun Hx1 x2.
  pose proof (low_level_input_run n x b cb input w p readlen w1 x1
                Hx Hb Hcb Hinput Hrun Hx1) as Hlow. cbn zeta in Hlow. fold x2 in Hlow.
  destruct p as [p|].
  - intros err w3 Hin.
    assert (Heq : cs_netif_input n w =
      (if decide (err <> ERR_OK) then _ ← lift (pbuf_free p); mret tt
       else mret tt) w3).
    { unfold cs_netif_input. erewrite bind_Ok by done. cbn beta iota.
      by erewrite bind_Ok by done. }
    rewrite Heq. destruct (decide (err = ERR_OK)) as [He|He];
      [by rewrite decide_False by tauto|].
    intros cs Ho Hh. rewrite decide_True by done.
    destruct cs as [|[q bs] cs]; [done|]. injection Hh as ->.
    pose proof (pbuf_free_law _ _ _ (pfree_chain _ _ _ _ Ho)) as Hlaw.
    apply wp_Ok in Hlaw as (k & s & Hfree & Hs). exists s.
    erewrite bind_Ok by (unfold lift; by rewrite Hfree). done.
  - unfold cs_netif_input. by erewrite bind_Ok by done.
Qed.

End netif.

(** ** Properties of addresses *)

Lemma byte_of_range x k : 0 <= byte_of x k < 256.
Proof. unfold byte_of. by apply Z.mod_pos_bound. Qed.

Lemma u8_htonl x : u8 (lwip_htonl x) = byte_of x 3.
Proof.
  unfold lwip_htonl, wrap_u. pose proof (byte_of_range x 3).
  rewrite <- (Z.mod_small (byte_of x 3) (2 ^ 8)) at 2 by lia.
  rewrite <- (Z_mod_plus_full (byte_of x 3)
    (2 ^ 16 * byte_of x 0 + 2 ^ 8 * byte_of x 1 + byte_of x 2)).
  f_equal. lia.
Qed.

(** The sign of the last byte of a word. *)
Definition sign_byte (char_signed : bool) (x : Z) : Z :=
  if char_signed && (128 <=? byte_of x 3) then 255 else 0.

Lemma v6_byte_low sg x : v6_byte sg x 0 = byte_of x 3.
Proof.
  unfold v6_byte, to_char. rewrite Z.shiftr_0_r, u8_htonl.
  pose proof (byte_of_range x 3). unfold wrap_u.
  destruct (sg && _); [|by apply Z.mod_small].
  rewrite <- (Z_mod_plus_full _ 1). rewrite Z.mod_small; lia.
Qed.

Lemma v6_byte_high sg x n : 8 <= n -> v6_byte sg x n = sign_byte sg x.
Proof.
  intros Hn. unfold v6_byte, to_char, sign_byte. rewrite u8_htonl.
  pose proof (byte_of_range x 3). rewrite Z.shiftr_div_pow2 by lia.
  assert (2 ^ 8 <= 2 ^ n) by (apply Z.pow_le_mono_r; lia).
  destruct (sg && (128 <=? byte_of x 3)).
  - assert ((byte_of x 3 - 256) / 2 ^ n = -1) as ->.
    { symmetry. apply (Z.div_unique _ _ _ (byte_of x 3 - 256 + 2 ^ n)); lia. }
    done.
  - by rewrite Z.div_small by lia.
Qed.

Lemma v6_word_eq sg x :
  v6_word sg x = [sign_byte sg x; sign_byte sg x; sign_byte sg x; byte_of x 3].
Proof.
  unfold v6_word. by rewrite !v6_byte_high, v6_byte_low by lia.
Qed.

(** C40: For an IPv4 address [cs_ip_get] writes [cs_ip_len] bytes, which are
    the address's bytes in network order, and from which the address can be
    read back. *)
Theorem cs_ip_get_v4_roundtrip sg x :
  0 <= x < 2 ^ 32 ->
  exists a b c d, cs_ip_get sg (IPv4 x) = [a; b; c; d] /\
    Z.of_nat (length (cs_ip_get sg (IPv4 x))) = cs_ip_len (IPv4 x) /\
    (0 <= a < 256 /\ 0 <= b < 256 /\ 0 <= c < 256 /\ 0 <= d < 256) /\
    IP4_ADDR a b c d = x.
Proof.
  intros Hx. exists (byte_of x 0), (byte_of x 1), (byte_of x 2), (byte_of x 3).
  split_and!; try done; try apply byte_of_range.
  unfold IP4_ADDR, byte_of. cbn -[Z.modulo Z.div Z.mul].
  Z.to_euclidean_division_equations. lia.
Qed.

(** For an IPv6 address [cs_ip_get] writes [cs_ip_len] bytes, but of every
    word only the last byte is the address's: the other three are all 0, or
    all 255 where [char] is signed and the last byte is at least 128.  So two
    addresses that agree in the last byte of each word cannot be told
    apart. *)
Theorem cs_ip_get_v6_loses_bytes sg a0 a1 a2 a3 :
  cs_ip_get sg (IPv6 a0 a1 a2 a3) =
    concat (map (fun x => [sign_byte sg x; sign_byte sg x; sign_byte sg x;
                           byte_of x 3]) [a0; a1; a2; a3]) /\
  Z.of_nat (length (cs_ip_get sg (IPv6 a0 a1 a2 a3))) =
    cs_ip_len (IPv6 a0 a1 a2 a3) /\
  (forall b0 b1 b2 b3,
     map (fun x => byte_of x 3) [a0; a1; a2; a3] =
     map (fun x => byte_of x 3) [b0; b1; b2; b3] ->
     cs_ip_get sg (IPv6 a0 a1 a2 a3) = cs_ip_get sg (IPv6 b0 b1 b2 b3)).
Proof.
  unfold cs_ip_get. rewrite !v6_word_eq. split_and!; [done|done|].
  intros b0 b1 b2 b3 [= H0 H1 H2 H3]. rewrite !v6_word_eq.
  unfold sign_byte. by rewrite H0, H1, H2, H3.
Qed.
