(* ===== verification/Echo.v ===== *)
(** * The echo server (src/src/test.c)

    The callbacks of the test program, which sends back what it receives over
    TCP and UDP, its device functions and its main loop.  Proved: the
    callbacks keep what the layer asks of an application ([AppOk]), so the
    layer's theorems hold for this program; and the stream of every connection
    followed by its queue is always exactly what was received on it; what a
    read from the device delivers. *)

From S2P Require Import Prelude Lwip Cs Tcp TcpSend TcpConn Udp Netif.

(** The operating system calls of the program on its tap device. *)
Class TapOs (W : Type) : Type := {
  os_open : M W Z;                    (* open(DEVTAP, O_RDWR) *)
  os_tunsetiff : Z -> M W Z;          (* ioctl(tap_fd, TUNSETIFF, ..) *)
  os_system : list Z -> M W Z;        (* system: ifconfig, by its octets *)
  os_read : Z -> M W (Z * bytes);     (* read(tap_fd, buf, n) *)
  os_write : bytes -> Z -> M W Z      (* write(tap_fd, buf, n) *)
}.

Section echo.
Context {S A : Type} `{!Lwip S, !LwipUdp S, !LwipNetif (world S A)}.
Context `{!TapOs (world S A)}.
Context (fuel : nat) (mcast_tx : bool).

(** [main] leaves [back.state] uninitialised; the callbacks do not use it. *)
Context (back_state : option ptr).

Abbreviation C := (M (world S A)).

Definition cs_tcp_accept (arg : option ptr) (newpcb state : ptr) : C err_t :=
  mret ERR_OK.

Definition cs_tcp_recv (arg : option ptr) (tpcb p state : ptr) : C err_t :=
  r ← es_get state;
  match es_p r with
  | None =>
      es_set state (es_set_p (Some p));;
      cs_tcp_raw_send fuel tpcb state
  | Some ptr => lift (pbuf_cat ptr p)
  end;;
  mret ERR_OK.

Definition cs_tcp_send_done (arg : option ptr) (tpcb state : ptr) : C unit :=
  mret tt.

Definition cs_tcp_close (arg : option ptr) (tpcb state : ptr) : C unit :=
  mret tt.

Definition cs_udp_recv (arg : option ptr) (upcb p : ptr) (addr : ip_addr)
    (port : Z) : C err_t :=
  _ ← cs_udp_sendto mcast_tx upcb p addr port;
  _ ← lift (pbuf_free p);
  mret ERR_OK.

Definition cs_output (arg : option ptr) (netif : ptr) (buf : bytes) (len : Z)
    : C Z :=
  os_write buf len.

(** [*readlen] is set to 0 when nothing was read, and otherwise left as it
    was. *)
Definition cs_input (arg : option ptr) (netif : ptr) (readlen : Z)
    : C (option ptr * Z) :=
  '(len, buf) ← os_read 1518;
  if (len <? 1)%Z then mret (None, 0%Z)
  else
    p ← lift (pbuf_alloc (u16 len));
    match p with
    | Some p' => _ ← lift (pbuf_take p' buf (u16 len)); mret tt
    | None => mret tt
    end;;
    mret (p, readlen).

(** [cs_tap_init], the Linux build: open the device, name the interface, and
    configure it with the gateway's address and the netmask. *)
Definition cs_tap_init (arg : option ptr) (netif : ptr) : C unit :=
  tap_fd ← os_open;
  if (tap_fd =? -1)%Z then stop (Exited 1)
  else
    ret ← os_tunsetiff tap_fd;
    if (ret <? 0)%Z then stop (Exited 1)
    else
      netif_set_link_up netif;;
      gw ← netif_ip4_gw netif;
      mask ← netif_ip4_netmask netif;
      ret ← os_system
        [byte_of gw 0; byte_of gw 1; byte_of gw 2; byte_of gw 3;
         byte_of mask 0; byte_of mask 1; byte_of mask 2; byte_of mask 3];
      if (ret <? 0)%Z then stop (Exited 1) else mret tt.

(** The table that [main] fills; [netif] is its local variable. *)
Definition echo_back (netif : ptr) : cs_callback S A :=
  CsCallback back_state (Some netif) (Some cs_tcp_accept) (Some cs_tcp_recv)
    (Some cs_tcp_send_done) (Some cs_tcp_close) (Some cs_udp_recv)
    (Some cs_output) (Some cs_input) (Some cs_tap_init).

(** [main], the first [n] turns of its endless loop. *)
Fixpoint main_loop (backs : ptr -> option (cs_callback S A)) (n : nat)
    (netif : ptr) : C unit :=
  match n with
  | O => mret tt
  | Datatypes.S n => cs_netif_proc backs netif;; main_loop backs n netif
  end.

Definition main (backs : ptr -> option (cs_callback S A)) (n : nat)
    (back netif : ptr) : C unit :=
  _ ← cs_init backs back;
  main_loop backs n netif.

(** ** One connection

    The table is the one of [main], wherever it is. *)
Context `{!LwipLaws S}.
Context (backs : ptr -> option (cs_callback S A)).
Context (Hbacks : forall p b, backs p = Some b -> exists n, b = echo_back n).
Implicit Types (w : world S A) (cs : cells).

Abbreviation vw w := (view (lw w)).

(** Everything but the connection [e] is untouched, and the stream and queue
    of [e] together grew by [d]. *)
Definition echoed w w' (e : ptr) (r : cs_tcp_raw_state) (t : tcb) cs (d : bytes)
    : Prop :=
  changes w w' e (es_pcb r) /\
  exists r' t' cs',
    es_heap w' !! e = Some r' /\ es_pcb r' = es_pcb r /\
    tcps (vw w') !! es_pcb r = Some t' /\ queue w' r' cs' /\
    t_stream t' ++ chain_data cs' = t_stream t ++ chain_data cs ++ d.


Lemma echo_send w w1 e r r1 t cs cs1 :
  inv backs w -> es_heap w !! e = Some r -> changes w w1 e (es_pcb r) ->
  inv backs w1 -> enough_fuel fuel w1 ->
  es_heap w1 !! e = Some r1 -> es_pcb r1 = es_pcb r ->
  queue w1 r1 cs1 -> tcps (vw w1) !! es_pcb r = Some t ->
  wp (cs_tcp_raw_send fuel (es_pcb r) e) w1 (fun _ w' =>
    inv backs w' /\
    forall d, chain_data cs1 = chain_data cs ++ d -> echoed w w' e r t cs d).
Proof.
  intros I Hr Ch I1 Hf Hr1 Hpcb Hq1 Ht. rewrite <- Hpcb in Ht |- *.
  eapply wp_mono; [eapply (cs_tcp_raw_send_spec fuel _ _ r1 t cs1)|].
  - by eapply queue_fuel.
  - apply Hq1.
  - apply Hq1.
  - done.
  - done.
  - cbn beta. intros _ w' Hpost. split; [by eapply inv_send_post|].
    intros d Hd. pose proof (changes_send_post _ _ _ _ _ _ _ I1 Hr1 Hq1 Hpost) as Ch1.
    rewrite Hpcb in Ch1. split; [by eapply changes_trans|].
    destruct Hpost as (sent & rest & s' & -> & -> & Hs' & Ho & _).
    exists (es_set_p (chain_head rest) r1), (add_stream (chain_data sent) t), rest.
    cbn. rewrite Hs'. cbn. rewrite <- Hpcb. split_and!.
    + by rewrite lookup_insert_eq.
    + done.
    + by rewrite lookup_insert_eq.
    + by split.
    + rewrite <- app_assoc, <- chain_data_app, Hd. done.
Qed.

(** A chain that arrives while another is queued is linked after it. *)
Lemma echo_append w p p0 e r t cs ds :
  inv backs w -> es_heap w !! e = Some r -> es_p r = Some p0 ->
  queue w r cs -> tcps (vw w) !! es_pcb r = Some t ->
  owned (pbufs (vw w)) ds -> chain_head ds = Some p -> unqueued w ds ->
  wp (lift (pbuf_cat p0 p)) w (fun _ w' =>
    inv backs w' /\ echoed w w' e r t cs (chain_data ds)).
Proof.
  intros I Hr Hp0 Hq Ht Hods Hhds Hun.
  destruct (inv_conn _ _ I _ _ Hr) as (Hst & Hbl & Hcb & (t0 & Ht0 & Hw) & _).
  rewrite Ht in Ht0. injection Ht0 as <-.
  destruct Hq as [Hocs Hhcs]. rewrite Hp0 in Hhcs.
  destruct (last cs) as [[k b]|] eqn:Hl; [|by apply last_None in Hl; subst].
  pose proof (owned_last _ _ _ _ Hocs Hl) as Hk.
  assert (Hdis : forall q, q ∈ (cs.*1) -> q ∉ (ds.*1)).
  { intros q Hin Hin'. eapply (Hun e r cs); [done|by split; congruence|done..]. }
  apply wp_lift. eapply wp_mono.
  { eapply (pbuf_cat_law _ p0 p cs k); [done|done|by rewrite Hl|done]. }
  cbn beta. intros _ s1 Hs1.
  assert (Hq' : queue (with_lw s1 w) r (cs ++ ds)).
  { split; [cbn; rewrite Hs1; by apply owned_cat|].
    rewrite Hp0, chain_head_app. by destruct cs. }
  assert (Ch : changes w (with_lw s1 w) e (es_pcb r)).
  { eapply changes_own; cbn; try done; [by split; [exact Hocs|congruence]| | |];
      rewrite Hs1; cbn; try done.
    intros q Hni. rewrite lookup_insert_ne; [done|]. intros <-. apply Hni.
    change k with ((k, b).1). apply list_elem_of_fmap_2.
    by apply last_Some_elem_of. }
  split; [|split; [done|]].
  - eapply (inv_change _ w _ e (es_pcb r)); [done|done| |].
    + cbn. intros r1 Hr1. assert (r1 = r) as -> by congruence.
      split_and!; [|done|].
      * split_and!; cbn; rewrite ?Hs1; cbn; eauto.
      * intros cs1 Hq1. rewrite (queue_unique _ _ _ _ Hq1 Hq').
        intros e' r' cs' Hne Hr' Hq2 x. rewrite fmap_app.
        intros [Hx|Hx]%elem_of_app Hx'.
        -- eapply (inv_disj _ _ I e e' r r' cs cs');
             [done..|by split; congruence|done|done|done].
        -- by eapply (Hun e' r' cs').
    + cbn. rewrite Hs1. cbn. intros t' Ht'. right. split; [done|]. congruence.
  - exists r, t, (cs ++ ds). cbn. rewrite Hs1. cbn. split_and!; try done.
    by rewrite chain_data_app.
Qed.

Lemma cs_tcp_recv_spec w arg p e r t cs ds :
  inv backs w -> enough_fuel fuel w -> es_heap w !! e = Some r ->
  queue w r cs -> tcps (vw w) !! es_pcb r = Some t ->
  owned (pbufs (vw w)) ds -> chain_head ds = Some p -> unqueued w ds ->
  wp (cs_tcp_recv arg (es_pcb r) p e) w (fun x w' =>
    x = ERR_OK /\ inv backs w' /\ echoed w w' e r t cs (chain_data ds)).
Proof.
  intros I Hf Hr Hq Ht Hods Hhds Hun. unfold cs_tcp_recv.
  destruct (inv_conn _ _ I _ _ Hr) as (Hst & _).
  apply wp_bind. eapply wp_es_get; [done|]. apply wp_bind.
  destruct (es_p r) as [p0|] eqn:Hp0.
  - eapply wp_mono; [by eapply echo_append|].
    cbn beta. intros _ w' [I' He]. by apply wp_ret.
  - (* the chain becomes the queue *)
    assert (cs = []) as ->.
    { destruct Hq as [_ Hh]. rewrite Hp0 in Hh. by destruct cs as [|[]]. }
    apply wp_bind. eapply wp_es_set; [done|].
    eapply wp_mono.
    { eapply (echo_send w _ e r (es_set_p (Some p) r) t [] ds); try done.
      - by eapply changes_put.
      - eapply (inv_es_put _ w e r (es_set_p (Some p) r) ds); try done.
        intros e' r1 cs1 Hne Hr1 Hq1. by eapply Hun.
      - cbn. by rewrite lookup_insert_eq. }
    cbn beta. intros _ w' [I' He]. apply wp_ret. split_and!; [done|done|].
    by apply He.
Qed.

#[export] Instance echo_app_ok : AppOk backs fuel no_fault.
Proof.
  intros p b Hb. destruct (Hbacks _ _ Hb) as [n ->]. split; eexists; (split; [done|]).
  - intros. by apply wp_ret.
  - intros w pcb p0 e r ds I Hf Hr <- Ho Hh Hun.
    destruct (inv_conn _ _ I _ _ Hr) as (_ & _ & _ & (t & Ht & _) & cs & Hq).
    eapply wp_mono; [by eapply cs_tcp_recv_spec|]. cbn. tauto.
  - intros w pcb e r I Hf Hr Hp Hn. apply wp_ret. eauto.
  - intros w pcb e. apply wp_ret. exists (app w). by destruct w.
Qed.


(** ** Whole runs

    [g e] is what was received on the connection [e] so far. *)
Definition conserve w (g : ptr -> bytes) : Prop :=
  forall e r t cs, es_heap w !! e = Some r -> queue w r cs ->
    tcps (vw w) !! es_pcb r = Some t -> t_stream t ++ chain_data cs = g e.

(** What the event receives: a [recv] call with a chain brings its bytes to
    the connection that the control block's argument names; a connection that
    does not exist yet has received nothing. *)
Definition event_data w (ev : event) (d : bytes) : Prop :=
  match ev with
  | EvData _ p => exists cs, owned (pbufs (vw w)) cs /\ chain_head cs = Some p /\
                             unqueued w cs /\ d = chain_data cs
  | _ => d = []
  end.

Definition received w (t : tcb) (d : bytes) (g : ptr -> bytes) (e : ptr)
    : bytes :=
  match es_heap w !! e with
  | None => []
  | Some _ => if decide (t_arg t = Some e) then g e ++ d else g e
  end.

(** lwIP hands out control blocks with an empty stream. *)
Definition event_fresh w (ev : event) : Prop :=
  match ev with
  | EvAccept _ (Some n) _ =>
      forall tn, tcps (vw w) !! n = Some tn -> t_stream tn = []
  | _ => True
  end.

Inductive echo_run : world S A -> (ptr -> bytes) -> Prop :=
| run_init w : tcp_init backs w -> echo_run w (fun _ => [])
| run_env w g w' : echo_run w g -> env_step backs w w' -> echo_run w' g
| run_event w g ev t d x w' :
    echo_run w g -> event_ok backs w ev t -> enough_fuel fuel w -> event_fresh w ev ->
    event_data w ev d -> dispatch backs fuel ev t w = Ok (x, w') ->
    echo_run w' (received w t d g).

Lemma conserve_change w w' e pcb g g' :
  inv backs w -> conserve w g -> changes w w' e pcb ->
  (forall e', e' <> e -> is_Some (es_heap w !! e') -> g' e' = g e') ->
  (forall r t cs, es_heap w' !! e = Some r -> queue w' r cs ->
     tcps (vw w') !! es_pcb r = Some t -> t_stream t ++ chain_data cs = g' e) ->
  conserve w' g'.
Proof.
  intros I Hc Ch Hg He e' r t cs Hr Hq Ht.
  destruct (decide (e' = e)) as [->|Hne]; [by eapply He|].
  destruct (changes_queue backs _ _ _ _ _ _ _ I Ch Hne Hr Hq) as [Hr0 Hq0].
  rewrite (ch_tcps _ _ _ _ Ch) in Ht by (by eapply (ch_pcb _ _ _ _ Ch)).
  rewrite Hg by eauto. by eapply Hc.
Qed.

Lemma conserve_echoed w w' e r t cs d g :
  inv backs w -> conserve w g -> es_heap w !! e = Some r -> queue w r cs ->
  tcps (vw w) !! es_pcb r = Some t -> t_arg t = Some e ->
  echoed w w' e r t cs d -> conserve w' (received w t d g).
Proof.
  intros I Hc Hr Hq Ht Ha [Ch (r' & t' & cs' & Hr' & Hp' & Ht' & Hq' & Heq)].
  eapply conserve_change; [done|done|done| |].
  - intros e' Hne [r1 Hr1]. unfold received. rewrite Hr1, decide_False; [done|].
    congruence.
  - intros r1 t1 cs1 Hr1 Hq1 Ht1. assert (r1 = r') as -> by congruence.
    rewrite Hp' in Ht1. assert (t1 = t') as -> by congruence.
    rewrite (queue_unique _ _ _ _ Hq1 Hq'), Heq. unfold received.
    rewrite Hr, decide_True by done.
    rewrite <- (Hc _ _ _ _ Hr Hq Ht). by rewrite app_assoc.
Qed.

Lemma changes_refl w e r :
  inv backs w -> es_heap w !! e = Some r -> changes w w e (es_pcb r).
Proof.
  intros I Hr. pose proof (changes_put _ w e r r I Hr) as Ch.
  by rewrite (es_same_id w e r Hr) in Ch.
Qed.

Lemma echoed_refl w e r t cs :
  inv backs w -> es_heap w !! e = Some r -> queue w r cs ->
  tcps (vw w) !! es_pcb r = Some t -> echoed w w e r t cs [].
Proof.
  intros I Hr Hq Ht. split; [by eapply changes_refl|].
  exists r, t, cs. split_and!; try done. by rewrite app_nil_r.
Qed.

(** The callbacks for a live connection. *)
Lemma echo_poll w e r t cs :
  inv backs w -> enough_fuel fuel w -> es_heap w !! e = Some r ->
  queue w r cs -> tcps (vw w) !! es_pcb r = Some t ->
  wp (cs_tcp_raw_poll backs fuel (Some e) (es_pcb r)) w (fun _ w' =>
    inv backs w' /\ echoed w w' e r t cs []).
Proof.
  intros I Hf Hr Hq Ht. unfold cs_tcp_raw_poll. apply wp_bind, wp_assert; [done|].
  apply wp_bind. eapply wp_es_get; [done|]. apply wp_bind.
  destruct (es_p r) as [p|] eqn:Hp.
  - eapply wp_mono.
    { eapply (echo_send w w e r r t cs cs); try done. by eapply changes_refl. }
    cbn beta. intros _ w' [I' He]. apply wp_ret. split; [done|].
    apply He. by rewrite app_nil_r.
  - rewrite decide_False by (by eapply not_closing). apply wp_ret, wp_ret.
    split; [done|]. by apply echoed_refl.
Qed.

Lemma echo_sent w e r t cs n :
  inv backs w -> enough_fuel fuel w -> es_heap w !! e = Some r ->
  queue w r cs -> tcps (vw w) !! es_pcb r = Some t ->
  wp (cs_tcp_send backs fuel (Some e) (es_pcb r) n) w (fun _ w' =>
    inv backs w' /\ echoed w w' e r t cs []).
Proof.
  intros I Hf Hr Hq Ht. unfold cs_tcp_send.
  destruct (inv_conn _ _ I _ _ Hr) as (Hst & _ & (b & Hb) & _).
  apply wp_bind, wp_assert; [done|]. apply wp_bind. eapply wp_deref; [done|].
  apply wp_bind. eapply wp_es_set; [done|].
  pose proof (inv_es_fields _ w e r (es_set_retries 0 r) I Hr eq_refl eq_refl
                eq_refl Hst) as I1.
  pose proof (changes_put _ w e r (es_set_retries 0 r) I Hr) as Ch1.
  set (w1 := with_es _ w) in *.
  assert (Hr1 : es_heap w1 !! e = Some (es_set_retries 0 r))
    by (cbn; by rewrite lookup_insert_eq).
  apply wp_bind. eapply wp_es_get; [done|]. cbn [es_p es_set_retries].
  apply wp_bind. destruct (es_p r) as [p|] eqn:Hp.
  - apply wp_bind. eapply (tcp_sent_again backs w1 e _ _ I1 Hr1). intros s' Hs'.
    eapply wp_mono.
    { eapply (echo_send w _ e r (es_set_retries 0 r) t cs cs); try done.
      - eapply changes_trans; [exact Ch1|].
        by apply (changes_same_view backs w1 e (es_set_retries 0 r)).
      - by apply inv_same_view.
      - unfold enough_fuel. cbn. by rewrite Hs'.
      - eapply queue_agree; [|by eapply queue_same_p, Hq]. intros q _. cbn.
        by rewrite Hs'.
      - cbn. by rewrite Hs'. }
    cbn beta. intros _ w' [I' He]. apply wp_ret. split; [done|].
    apply He. by rewrite app_nil_r.
  - destruct (Hbacks _ _ Hb) as [n' ->].
    apply wp_bind. unfold callback_of. eapply wp_deref; [done|].
    apply wp_bind. eapply wp_deref; [done|].
    apply wp_bind, wp_ret. apply wp_bind. eapply wp_es_get; [done|].
    rewrite decide_False by (by eapply not_closing). apply wp_ret, wp_ret.
    split; [done|]. split; [done|]. exists (es_set_retries 0 r), t, cs.
    split_and!; try done. by rewrite app_nil_r.
Qed.

Lemma echo_data w e r t cs p ds :
  inv backs w -> enough_fuel fuel w -> es_heap w !! e = Some r ->
  queue w r cs -> tcps (vw w) !! es_pcb r = Some t ->
  owned (pbufs (vw w)) ds -> chain_head ds = Some p -> unqueued w ds ->
  wp (cs_tcp_raw_recv backs (Some e) (es_pcb r) (Some p) ERR_OK) w (fun _ w' =>
    inv backs w' /\ echoed w w' e r t cs (chain_data ds)).
Proof.
  intros I Hf Hr Hq Ht Ho Hh Hun. unfold cs_tcp_raw_recv.
  apply wp_bind, wp_assert; [done|]. apply wp_bind. eapply wp_deref; [done|].
  rewrite decide_False by tauto. apply wp_bind. eapply wp_es_get; [done|].
  assert (Hcall : forall w1 r1, inv backs w1 -> enough_fuel fuel w1 ->
    es_heap w1 !! e = Some r1 -> es_pcb r1 = es_pcb r -> queue w1 r1 cs ->
    tcps (vw w1) !! es_pcb r = Some t -> owned (pbufs (vw w1)) ds ->
    unqueued w1 ds -> changes w w1 e (es_pcb r) ->
    wp (call_tcp_recv backs (es_pcb r) p e) w1 (fun _ w' =>
      inv backs w' /\ echoed w w' e r t cs (chain_data ds))).
  { intros w1 r1 I1 Hf1 Hr1 Hp1 Hq1 Ht1 Ho1 Hun1 Ch. unfold call_tcp_recv.
    destruct (inv_conn _ _ I1 _ _ Hr1) as (_ & _ & (b & Hb) & _).
    destruct (Hbacks _ _ Hb) as [n' ->].
    apply wp_bind. eapply wp_es_get; [done|].
    apply wp_bind. unfold callback_of. eapply wp_deref; [done|].
    apply wp_bind. eapply wp_deref; [done|].
    rewrite <- Hp1 in Ht1, Ch |- *.
    eapply wp_mono; [by eapply cs_tcp_recv_spec|]. cbn beta.
    intros _ w' (_ & I' & Ch' & Hrest). split; [done|].
    unfold echoed. rewrite <- Hp1. split; [by eapply changes_trans|done]. }
  destruct (inv_conn _ _ I _ _ Hr) as ([Hst|Hst] & _); rewrite Hst.
  - rewrite decide_True by done. apply wp_bind. eapply wp_es_set; [done|].
    eapply (Hcall _ (es_set_state ES_RECEIVED r)); try done.
    + apply (inv_es_fields _ w e r); try done. by right.
    + cbn. by rewrite lookup_insert_eq.
    + by eapply unqueued_put.
    + by eapply changes_put.
  - rewrite decide_False, decide_True by done.
    eapply (Hcall w r); try done. by eapply changes_refl.
Qed.

Lemma echo_fin w e r :
  inv backs w -> es_heap w !! e = Some r ->
  wp (cs_tcp_raw_recv backs (Some e) (es_pcb r) None ERR_OK) w (fun _ w' =>
    inv backs w' /\ changes w w' e (es_pcb r) /\ es_heap w' !! e = None).
Proof.
  intros I Hr. unfold cs_tcp_raw_recv.
  destruct (inv_conn _ _ I _ _ Hr) as (_ & Hbl & (b & Hb) & (t & Ht & Hw) & cs & Hq).
  destruct (Hbacks _ _ Hb) as [n' ->].
  apply wp_bind, wp_assert; [done|]. apply wp_bind. eapply wp_deref; [done|].
  apply wp_bind. eapply wp_es_set; [done|]. apply wp_bind. eapply wp_mono.
  { eapply (cs_tcp_raw_close_spec _ _ _ e (es_set_state ES_CLOSING r) t cs);
      cbn; try done; [by rewrite lookup_insert_eq|].
    intros w1. apply wp_ret. exists (app w1). by destruct w1. }
  cbn beta. intros _ w' Hpost. apply wp_ret. split_and!.
  - by eapply inv_close_post.
  - by eapply changes_close_post.
  - destruct Hpost as (s & s' & a & x & _ & -> & _). cbn.
    by rewrite lookup_delete_eq.
Qed.

Lemma echo_accept w g b n t t0 :
  inv backs w -> enough_fuel fuel w -> conserve w g ->
  tcps (vw w) !! n = Some t -> idle_slots backs t -> t_accept t = None ->
  is_Some (backs b) -> t_stream t = [] ->
  wp (cs_tcp_raw_accept backs (Some b) (Some n) ERR_OK) w (fun _ w' =>
    inv backs w' /\ conserve w' (received w t0 [] g)).
Proof.
  intros I Hf Hc Ht Hidle Hacc [cb Hb] Hst. unfold cs_tcp_raw_accept. cbn.
  assert (Hg : forall e, is_Some (es_heap w !! e) -> received w t0 [] g e = g e).
  { intros e [r Hr]. unfold received. rewrite Hr. case_decide; [|done].
    by rewrite app_nil_r. }
  apply wp_bind, wp_lift. eapply wp_mono; [by eapply tcp_setprio_law|].
  cbn. intros _ s1 H1. apply wp_bind, wp_lift. cbn.
  eapply wp_mono; [apply mem_malloc_law|]. rewrite H1. cbn.
  intros [e|] s2.
  - intros [Hfresh H2]. apply wp_bind, wp_modify. cbn.
    apply (wire_slots_spec _ n e t); [cbn; by rewrite H2|].
    cbn. rewrite H2. cbn. intros s3 H3. destruct (Hbacks _ _ Hb) as [n' ->].
    apply wp_bind. eapply wp_deref; [done|].
    apply wp_bind. eapply wp_deref; [done|]. apply wp_bind, wp_ret, wp_ret.
    assert (Hpost : accepted n e b t w (with_es
      (<[e := EsState ES_ACCEPTED 0 n None b]> (es_heap w)) (with_lw s3 w))).
    { split; [done|]. by exists s3. }
    destruct (changes_accepted _ _ _ _ _ _ _ I Ht Hidle Hpost) as [Hnone Ch].
    split; [by eapply inv_accepted|].
    eapply conserve_change; [done|done|exact Ch| |].
    + intros e' _ Hs. by apply Hg.
    + cbn. intros r1 t1 cs1. rewrite lookup_insert_eq. intros [= <-] [_ Hh].
      cbn. rewrite H3. cbn. rewrite lookup_insert_eq. intros [= <-].
      destruct cs1 as [|[]]; [|done]. cbn. rewrite Hst. unfold received.
      by rewrite Hnone.
  - intros H2. apply wp_ret.
    split; [by apply (inv_same_view backs w)|].
    intros e r t1 cs Hr [Ho Hh] Ht1. cbn in *. rewrite H2 in Ho, Ht1.
    rewrite Hg by eauto. eapply Hc; [done|by split|done].
Qed.

(** Every call conserves. *)
Lemma dispatch_conserve w g ev t d :
  inv backs w -> enough_fuel fuel w -> conserve w g ->
  event_ok backs w ev t -> event_fresh w ev -> event_data w ev d ->
  wp (dispatch backs fuel ev t) w (fun _ w' =>
    inv backs w' /\ conserve w' (received w t d g)).
Proof.
  intros I Hf Hc [Ht Hev] Hfr Hd.
  assert (Hconn : ~ idle_slots backs t -> exists e r cs, es_heap w !! e = Some r /\
            es_pcb r = event_pcb ev /\ t_arg t = Some e /\ queue w r cs).
  { intros Hni. destruct (slots_conn _ _ _ _ I Ht Hni) as (e & r & Hr & Hp & Ha).
    destruct (inv_conn _ _ I _ _ Hr) as (_ & _ & _ & _ & cs & Hq).
    by exists e, r, cs. }
  assert (Hsame : conserve w (received w t [] g)).
  { intros e r t1 cs Hr Hq Ht1. rewrite (Hc _ _ _ _ Hr Hq Ht1).
    unfold received. rewrite Hr. case_decide; [by rewrite app_nil_r|done]. }
  destruct ev as [pcb n|pcb|pcb p|pcb|l n err]; cbn in *; try subst d.
  - destruct Hconn as (e & r & cs & Hr & <- & Ha & Hq);
      [intros (_ & ? & _); congruence|]. rewrite Ha.
    eapply wp_mono; [by eapply echo_sent|]. cbn beta. intros _ w' [I' He].
    split; [done|]. by eapply conserve_echoed.
  - destruct Hconn as (e & r & cs & Hr & <- & Ha & Hq);
      [intros (_ & _ & _ & ? & _); congruence|]. rewrite Ha.
    eapply wp_mono; [by eapply echo_poll|]. cbn beta. intros _ w' [I' He].
    split; [done|]. by eapply conserve_echoed.
  - destruct Hd as (ds & Ho & Hh & Hun & ->). destruct Hev as [Hrecv _].
    destruct Hconn as (e & r & cs & Hr & <- & Ha & Hq);
      [intros (? & _); congruence|]. rewrite Ha.
    eapply wp_mono; [by eapply echo_data|]. cbn beta. intros _ w' [I' He].
    split; [done|]. by eapply conserve_echoed.
  - destruct Hconn as (e & r & cs & Hr & <- & Ha & Hq);
      [intros (? & _); congruence|]. rewrite Ha.
    eapply wp_mono; [by eapply echo_fin|]. cbn beta. intros _ w' (I' & Ch & Hn).
    split; [done|]. apply (conserve_change w w' e (es_pcb r) g); [done..| |].
    + intros e' Hne [r' Hr']. unfold received. rewrite Hr'.
      rewrite decide_False; [done|congruence].
    + intros r' t' cs' Hr'. by rewrite Hn in Hr'.
  - destruct Hev as [Hacc Hn].
    destruct (inv_tcps _ _ I _ _ Ht) as [(_ & _ & _ & _ & Hl)|(e & r & _ & _ & Hw)];
      [|by destruct Hw as (_ & _ & _ & _ & _ & ?); congruence].
    rewrite Hacc in Hl. destruct Hl as (_ & b & -> & Hb).
    unfold cs_tcp_raw_accept. destruct (decide (err <> ERR_OK)) as [|Herr];
      [by apply wp_ret|].
    destruct n as [n|]; [|by apply wp_ret].
    destruct Hn as (tn & Htn & Hidle & Haccn).
    apply (echo_accept w g b n tn t); try done. by apply Hfr.
Qed.

Lemma conserve_env w w' g :
  inv backs w -> conserve w g -> env_step backs w w' -> conserve w' g.
Proof.
  intros I Hc [He Hbl Hpb Htc _] e r t cs Hr Hq Ht. rewrite He in Hr.
  destruct (inv_conn _ _ I _ _ Hr) as (_ & _ & _ & (t0 & Ht0 & Hw) & cs0 & Hq0).
  assert (Hq0' : queue w' r cs0).
  { eapply queue_agree; [|done]. intros q. by eapply Hpb. }
  rewrite (queue_unique _ _ _ _ Hq Hq0'). eapply Hc; [done|done|].
  apply (Htc _ _ _ Hw) in Ht0 as Ht0'. congruence.
Qed.

Lemma echo_run_inv w g : echo_run w g -> inv backs w /\ conserve w g.
Proof.
  induction 1 as [w [Hes Ht]|w g w' _ [I Hc] Henv|w g ev t d x w' _ [I Hc] Hev Hf Hfr Hd Hrun].
  - split.
    + split.
      * intros e r. by rewrite Hes.
      * intros e1 e2 r1 r2 cs1 cs2 _. by rewrite Hes.
      * intros pcb t Hp. left. by eapply Ht.
    + intros e r t cs. by rewrite Hes.
  - split; [by eapply inv_env|by eapply conserve_env].
  - pose proof (dispatch_conserve _ _ _ _ _ I Hf Hc Hev Hfr Hd) as Hwp.
    unfold wpf in Hwp. by rewrite Hrun in Hwp.
Qed.

(** ** Properties *)

(** C1: The TCP echo server echoes: in every run, for every connection that
    is still open, the bytes that lwIP accepted for sending on it followed by
    the bytes in its queue are exactly the bytes received on it, in order,
    with nothing lost, repeated or mixed up between connections. *)
Theorem echo_sends_what_it_received w g e r t :
  echo_run w g -> es_heap w !! e = Some r -> tcps (vw w) !! es_pcb r = Some t ->
  exists cs, queue w r cs /\ t_stream t ++ chain_data cs = g e.
Proof.
  intros [I Hc]%echo_run_inv Hr Ht.
  destruct (inv_conn _ _ I _ _ Hr) as (_ & _ & _ & _ & cs & Hq).
  exists cs. split; [done|]. by eapply Hc.
Qed.

(** A call from lwIP in a run of the echo server never faults, and the run
    goes on. *)
Theorem echo_run_progress w g ev t d :
  echo_run w g -> event_ok backs w ev t -> enough_fuel fuel w ->
  event_fresh w ev -> event_data w ev d ->
  exists x w', dispatch backs fuel ev t w = Ok (x, w') /\
    echo_run w' (received w t d g).
Proof.
  intros Hrun Hev Hf Hfr Hd. destruct (echo_run_inv _ _ Hrun) as [I Hc].
  destruct (proj1 (wp_Ok _ _ _) (dispatch_conserve _ _ _ _ _ I Hf Hc Hev Hfr Hd))
    as (x & w' & Hx & _).
  exists x, w'. split; [done|]. by eapply run_event.
Qed.

End echo.

Section echo_udp.
Context {S A : Type} `{!Lwip S, !LwipUdp S, !LwipLaws S, !LwipUdpLaws S}.
Context (mcast_tx : bool).
Implicit Types (w : world S A) (cs : cells).
Abbreviation vw w := (view (lw w)).

(** The UDP echo server answers every datagram with one that has the same
    bytes, from the address it was received on to its sender, unless lwIP
    refuses it; either way it frees every buffer of the datagram and changes
    nothing else. *)
Theorem cs_udp_recv_echoes w arg u r p cs addr port :
  udps w !! u = Some r -> owned (pbufs (vw w)) cs -> chain_head cs = Some p ->
  exists s', cs_udp_recv mcast_tx arg u p addr port w = Ok (ERR_OK, with_lw s' w) /\
    sent_or_not
      (Datagram (local_ip r) (local_port r) addr port
         (chosen_netif mcast_tx (lw w) r addr) (chain_data cs))
      (with_pbufs (without (pbufs (vw w)) cs) (vw w)) (view s').
Proof.
  intros Hr Ho Hh. cut (wp (cs_udp_recv mcast_tx arg u p addr port) w (fun x w' =>
    x = ERR_OK /\ exists s', w' = with_lw s' w /\ sent_or_not
      (Datagram (local_ip r) (local_port r) addr port
         (chosen_netif mcast_tx (lw w) r addr) (chain_data cs))
      (with_pbufs (without (pbufs (vw w)) cs) (vw w)) (view s'))).
  { intros (x & w' & Hrun & -> & s' & -> & Hs)%wp_Ok. by exists s'. }
  unfold cs_udp_recv. apply wp_bind.
  eapply wp_mono; [by eapply cs_udp_sendto_spec|]. cbn beta.
  intros _ w1 (s1 & -> & Hs1). destruct cs as [|[q b] cs]; [done|].
  injection Hh as ->. apply wp_bind, wp_lift. cbn. eapply wp_mono.
  { apply pbuf_free_law. apply (pfree_chain _ _ b).
    by destruct Hs1 as [-> | ->]. }
  cbn beta. intros _ s2 H2. apply wp_ret. split; [done|]. exists s2.
  split; [by destruct w|]. rewrite H2. unfold sent_or_not.
  by destruct Hs1 as [-> | ->]; [left|right].
Qed.

End echo_udp.

(** ** The device *)

Section echo_device.
Context {S A : Type} `{!Lwip S, !LwipLaws S, !LwipNetif (world S A)}.
Context `{!TapOs (world S A)}.
Context (backs : ptr -> option (cs_callback S A)).
Implicit Types (w : world S A) (cs : cells).
Abbreviation vw w := (view (lw w)).

Lemma cs_input_spec w arg n readlen len buf w1 (Q : option ptr * Z -> world S A -> Prop) :
  os_read 1518 w = Ok ((len, buf), w1) -> (len <= 1518)%Z ->
  ((1 <= len)%Z -> Z.of_nat (length buf) = len) ->
  ((len < 1)%Z -> Q (None, 0%Z) w1) ->
  (forall s, view s = vw w1 -> Q (None, readlen) (with_lw s w1)) ->
  (forall p cs s, (1 <= len)%Z -> filled (vw w1) (view s) p buf cs ->
     Q (Some p, readlen) (with_lw s w1)) ->
  wp (cs_input arg n readlen) w Q.
Proof.
  intros Hrd Hmax Hbuf H0 Hnone Hsome. unfold cs_input.
  apply wp_bind, wp_Ok. exists (len, buf), w1. split; [done|]. cbn beta iota.
  destruct (Z.ltb_spec len 1) as [Hlt|Hge]; [by apply wp_ret, H0|].
  specialize (Hbuf Hge). rewrite (wrap_u_small 16) by lia.
  unfold wpf at 1. rewrite use_then. apply wp_alloc_take; [lia|lia| |].
  - intros s Hs. by apply wp_ret, Hnone.
  - intros p cs s Hf. apply wp_ret. eapply Hsome; [done|].
    by rewrite firstn_all2 in Hf by lia.
Qed.

(** Reading from the device: when [read] returns [len] bytes,
    [cs_low_level_input] returns a fresh chain of buffers with exactly these
    bytes, in order; when it returns none, or an error, or lwIP has no buffer,
    there is no packet, a discard is counted, and nothing is left allocated.
    The counter of received octets never changes, because [cs_input] does not
    report the length. *)
Theorem cs_input_delivers n x b cb w len buf w1 x1 :
  netifs w !! n = Some x -> n_state x = Some b -> backs b = Some cb ->
  cb_input cb = Some cs_input ->
  os_read 1518 w = Ok ((len, buf), w1) -> (len <= 1518)%Z ->
  ((1 <= len)%Z -> Z.of_nat (length buf) = len) ->
  netifs w1 !! n = Some x1 ->
  exists p s x', cs_low_level_input backs n w = Ok (p, upd_netif n x' (with_lw s w1)) /\
    n_ifinoctets x' = wrap_u 32 (n_ifinoctets x1) /\
    match p with
    | Some p => (1 <= len)%Z /\ x' = mib2_ifinoctets 0 x1 /\
                exists cs, filled (vw w1) (view s) p buf cs
    | None => x' = mib2_ifindiscards 1 (mib2_ifinoctets 0 x1) /\
              view s = vw w1
    end.
Proof.
  intros Hx Hb Hcb Hin Hrd Hmax Hbuf Hx1.
  assert (Hself : with_lw (lw w1) w1 = w1) by by destruct w1.
  assert (Hoct : n_ifinoctets (mib2_ifinoctets 0 x1) = wrap_u 32 (n_ifinoctets x1))
    by (destruct x1; cbn; by rewrite Z.add_0_r).
  cut (wp (cs_input (cb_state cb) n 0) w (fun '(p, readlen) w' => readlen = 0%Z /\
    exists s, w' = with_lw s w1 /\
    match p with
    | Some p => (1 <= len)%Z /\ exists cs, filled (vw w1) (view s) p buf cs
    | None => view s = vw w1
    end)).
  - intros ([p readlen] & w' & Hrun & Hpost)%wp_Ok. cbn beta iota in Hpost.
    destruct Hpost as (-> & s & -> & Hp).
    pose proof (low_level_input_run backs n x b cb cs_input w p 0 _ x1
                  Hx Hb Hcb Hin Hrun Hx1) as Hlow.
    rewrite Hlow. destruct p as [p|].
    + exists (Some p), s, (mib2_ifinoctets 0 x1). tauto.
    + exists None, s, (mib2_ifindiscards 1 (mib2_ifinoctets 0 x1)).
      split_and!; [| |done|exact Hp].
      * unfold upd_netif, with_netifs. cbn. by rewrite insert_insert_eq.
      * by destruct x1.
  - eapply cs_input_spec; [done..| | |].
    + intros _. split; [done|]. by exists (lw w1).
    + intros s Hs. split; [done|]. by exists s.
    + intros p cs s Hlen Hf. split; [done|]. exists s. eauto.
Qed.

End echo_device.
