(* ===== verification/Bridge.v ===== *)
(** * The bridge to Go (src/lwipcs.c)

    The callbacks that pass lwIP's events on to the Go program, and the calls
    that the Go program makes, all of which go through the table [go_cs_]
    that the main program fills.  The functions exported by src/lwipcs.go are
    the class [GoExports], whose instance is in [GoBind].  Proved: what happens
    to a packet that Go refuses and what closing from Go leaves behind. *)

From S2P Require Import Prelude Lwip Cs Tcp TcpSend TcpConn Udp Netif.
Local Open Scope Z_scope.

(** The exported functions of src/lwipcs.go that the C side calls. *)
Class GoExports (W : Type) : Type := {
  go_tcp_accept_h : option ptr -> ptr -> ptr -> M W Z;
  go_tcp_recv_h : option ptr -> ptr -> ptr -> ptr -> M W Z;
  go_tcp_send_done_h : option ptr -> ptr -> ptr -> M W Z;
  go_tcp_close_h : option ptr -> ptr -> ptr -> M W Z;
  go_udp_recv_h : option ptr -> ptr -> ip_addr -> Z -> ptr -> M W Z;
  go_input_h : option ptr -> ptr -> Z -> M W (option ptr * Z)
}.

(** The address fields of lwIP's TCP control block. *)
Class LwipTcpAddr (S : Type) : Type := {
  tcp_local_ip : ptr -> M S ip_addr;
  tcp_local_port : ptr -> M S Z;
  tcp_remote_ip : ptr -> M S ip_addr;
  tcp_remote_port : ptr -> M S Z
}.

(** An [int] converted to [err_t], by the values of lwip/err.h. *)
Definition err_of_int (z : Z) : err_t :=
  let c := u8 z in
  if c =? 0 then ERR_OK
  else if c =? 255 then ERR_MEM       (* -1 *)
  else if c =? 250 then ERR_VAL       (* -6 *)
  else if c =? 244 then ERR_IF        (* -12 *)
  else if c =? 243 then ERR_ABRT      (* -13 *)
  else ERR_OTHER c.

Definition int_of_err (e : err_t) : Z :=
  match e with
  | ERR_OK => 0
  | ERR_MEM => -1
  | ERR_VAL => -6
  | ERR_IF => -12
  | ERR_ABRT => -13
  | ERR_OTHER c => c
  end.

(** [go_cs_callback]. *)
Record go_cs_callback (S A : Type) : Type := GoCsCallback {
  g_state : option ptr;
  g_netif : option ptr;
  g_tcp_recved : option (ptr -> Z -> M (world S A) unit);
  g_tcp_send : option (ptr -> ptr -> bytes -> Z -> M (world S A) Z);
  g_tcp_close : option (ptr -> M (world S A) err_t);
  g_udp_send :
    option (ptr -> ip_addr -> Z -> ip_addr -> Z -> bytes -> Z ->
            M (world S A) Z);
  g_ip_get : option (ip_addr -> bytes);
  g_pbuf_alloc : option (Z -> M (world S A) (option ptr));
  g_pbuf_take : option (ptr -> bytes -> Z -> M (world S A) err_t);
  g_pbuf_copy : option (ptr -> Z -> Z -> M (world S A) bytes);
  g_pbuf_free : option (ptr -> M (world S A) Z);
  g_netif_proc : option (ptr -> M (world S A) unit);
  g_input : option (option ptr -> Z -> M (world S A) (Z * bytes));
  g_output : option (option ptr -> bytes -> Z -> M (world S A) Z)
}.
Arguments GoCsCallback {S A}.
Arguments g_state {S A}.
Arguments g_netif {S A}.
Arguments g_tcp_recved {S A}.
Arguments g_tcp_send {S A}.
Arguments g_tcp_close {S A}.
Arguments g_udp_send {S A}.
Arguments g_ip_get {S A}.
Arguments g_pbuf_alloc {S A}.
Arguments g_pbuf_take {S A}.
Arguments g_pbuf_copy {S A}.
Arguments g_pbuf_free {S A}.
Arguments g_netif_proc {S A}.
Arguments g_input {S A}.
Arguments g_output {S A}.

(** The new value of the variable [go_cs_], which is [NULL] before. *)
Definition go_cs_init {S A} (back : go_cs_callback S A)
    : option (go_cs_callback S A) :=
  Some back.

Section bridge.
Context {S A : Type} `{!Lwip S, !LwipUdp S, !LwipTcpAddr S}.
Context `{!LwipNetif (world S A), !GoExports (world S A)}.

Abbreviation C := (M (world S A)).

(** The global variable [go_cs_], [NULL] until [go_cs_init]. *)
Context (go_cs_ : option (go_cs_callback S A)).

(** [go_cs_->member]. *)
Definition member {X} (f : go_cs_callback S A -> option X) : C X :=
  g ← deref go_cs_; deref (f g).

Definition go_cs_tcp_accept_h (arg : option ptr) (newpcb state : ptr) : C err_t :=
  ret ← go_tcp_accept_h arg newpcb state;
  mret (err_of_int ret).

Definition go_cs_tcp_recv_h (arg : option ptr) (tpcb p state : ptr) : C err_t :=
  ret ← go_tcp_recv_h arg tpcb state p;
  pbuf_free ← member g_pbuf_free;
  _ ← pbuf_free p;
  mret (err_of_int ret).

Definition go_cs_tcp_send_done_h (arg : option ptr) (tpcb state : ptr)
    : C unit :=
  _ ← go_tcp_send_done_h arg tpcb state; mret tt.

Definition go_cs_tcp_close_h (arg : option ptr) (tpcb state : ptr) : C unit :=
  _ ← go_tcp_close_h arg tpcb state; mret tt.

Definition go_cs_udp_recv_h (arg : option ptr) (upcb p : ptr) (addr : ip_addr)
    (port : Z) : C err_t :=
  ret ← go_udp_recv_h arg upcb addr port p;
  pbuf_free ← member g_pbuf_free;
  _ ← pbuf_free p;
  mret (err_of_int ret).

Definition go_cs_output_h (arg : option ptr) (netif : ptr) (buf : bytes)
    (len : Z) : C Z :=
  g ← deref go_cs_;
  output ← deref (g_output g);
  output (g_state g) buf len.

Definition go_cs_input_h (arg : option ptr) (netif : ptr) (readlen : Z)
    : C (option ptr * Z) :=
  go_input_h arg netif readlen.

(** Seven of the ten members are assigned. *)
Definition go_cs_init_handle (back : cs_callback S A) : cs_callback S A :=
  CsCallback (cb_state back) (cb_netif back)
    (Some go_cs_tcp_accept_h) (Some go_cs_tcp_recv_h)
    (Some go_cs_tcp_send_done_h) (Some go_cs_tcp_close_h)
    (Some go_cs_udp_recv_h) (Some go_cs_output_h) (Some go_cs_input_h)
    (cb_init back).

Definition go_cs_tcp_recved (tpcb : ptr) (len : Z) : C unit :=
  f ← member g_tcp_recved; f tpcb len.

Definition go_cs_tcp_send (tpcb state : ptr) (buf : bytes) (buf_len : Z) : C Z :=
  f ← member g_tcp_send; f tpcb state buf buf_len.

(** The state of the connection is not passed on. *)
Definition go_cs_tcp_close (tpcb state : ptr) : C Z :=
  f ← member g_tcp_close;
  err ← f tpcb;
  mret (int_of_err err).

Definition go_cs_udp_send (upcb : ptr) (laddr : ip_addr) (lport : Z)
    (raddr : ip_addr) (rport : Z) (buf : bytes) (buf_len : Z) : C Z :=
  f ← member g_udp_send; f upcb laddr lport raddr rport buf buf_len.

Definition go_cs_tcp_local_ip (tpcb : ptr) : C ip_addr := lift (tcp_local_ip tpcb).
Definition go_cs_tcp_local_port (tpcb : ptr) : C Z := lift (tcp_local_port tpcb).
Definition go_cs_tcp_remote_ip (tpcb : ptr) : C ip_addr := lift (tcp_remote_ip tpcb).
Definition go_cs_tcp_remote_port (tpcb : ptr) : C Z := lift (tcp_remote_port tpcb).

Definition go_cs_udp_local_ip (upcb : ptr) : C ip_addr :=
  r ← upcb_get upcb; mret (local_ip r).
Definition go_cs_udp_local_port (upcb : ptr) : C Z :=
  r ← upcb_get upcb; mret (local_port r).

Definition go_cs_ip_len (addr : ip_addr) : Z :=
  match addr with
  | IPv6 _ _ _ _ => 16
  | IPv4 _ => 4
  end.

Definition go_cs_ip_get (addr : ip_addr) : C bytes :=
  f ← member g_ip_get; mret (f addr).

Definition go_cs_pbuf_len (p : ptr) : C Z := lift (pbuf_tot_len p).

Definition go_cs_pbuf_alloc (len : Z) : C (option ptr) :=
  f ← member g_pbuf_alloc; f len.

Definition go_cs_pbuf_take (p : ptr) (buf : bytes) : C unit :=
  f ← member g_pbuf_take;
  tot_len ← lift (pbuf_tot_len p);
  _ ← f p buf tot_len;
  mret tt.

Definition go_cs_pbuf_copy (p : ptr) : C bytes :=
  f ← member g_pbuf_copy;
  tot_len ← lift (pbuf_tot_len p);
  f p tot_len 0.

Definition go_cs_pbuf_free (p : ptr) : C unit :=
  f ← member g_pbuf_free; _ ← f p; mret tt.

Definition go_cs_netif_get : C (option ptr) :=
  g ← deref go_cs_; mret (g_netif g).

Definition go_cs_netif_proc (netif : ptr) : C unit :=
  f ← member g_netif_proc; f netif.

Definition go_cs_input (buflen : Z) : C (Z * bytes) :=
  g ← deref go_cs_;
  input ← deref (g_input g);
  input (g_state g) buflen.

End bridge.

(** ** The table of the main programs

    What [main] of src/echo/test/test.c and src/csocks/pc/test/test.c puts
    into the table for Go: the layer's functions and lwIP's. *)
Section gback.
Context {S A : Type} `{!Lwip S, !LwipUdp S, !LwipNetif (world S A)}.
Context (backs : ptr -> option (cs_callback S A)) (fuel : nat).
Context (mcast_tx char_signed : bool).
Context (test_input : option ptr -> Z -> M (world S A) (Z * bytes)).
Context (test_output : option ptr -> bytes -> Z -> M (world S A) Z).

Definition gback (back netif : ptr) : go_cs_callback S A :=
  GoCsCallback (Some back) (Some netif)
    (Some (fun tpcb len => lift (tcp_recved tpcb len)))
    (Some (cs_tcp_char_send fuel))
    (Some (fun tpcb => lift (tcp_close tpcb)))
    (Some (cs_udp_char_sendto mcast_tx))
    (Some (cs_ip_get char_signed))
    (Some (fun len => lift (pbuf_alloc len)))
    (Some (fun p buf len => lift (pbuf_take p buf len)))
    (Some (fun p len off => lift (pbuf_copy_partial p len off)))
    (Some (fun p => lift (pbuf_free p)))
    (Some (cs_netif_proc backs))
    (Some test_input) (Some test_output).

Context `{!LwipLaws S, !GoExports (world S A)}.
Implicit Types (w : world S A) (cs : cells).
Abbreviation vw w := (view (lw w)).
Context (back netif : ptr).
Abbreviation go_cs_ := (Some (gback back netif)).

(** ** Properties *)

(** [go_cs_tcp_recv_h] frees the packet whatever the Go program answers;
    so when Go refuses it, which src/lwipcs.go does with 1 for a connection it
    has closed, the answer to lwIP is an error, on which lwIP keeps the
    packet to offer it again, although none of its buffers is allocated any
    more. *)
Theorem go_cs_tcp_recv_h_frees_refused arg tpcb p state cs ret w w1 :
  go_tcp_recv_h arg tpcb state p w = Ok (ret, w1) ->
  owned (pbufs (vw w1)) cs -> chain_head cs = Some p ->
  exists w', go_cs_tcp_recv_h go_cs_ arg tpcb p state w =
      Ok (err_of_int ret, w') /\
    (forall q, q ∈ (cs.*1) -> pbufs (vw w') !! q = None) /\
    (ret = 1 -> err_of_int ret <> ERR_OK).
Proof.
  intros Hgo Ho Hh. destruct cs as [|[q b] cs]; [done|]. injection Hh as ->.
  pose proof (pbuf_free_law _ _ _ (pfree_chain _ _ _ _ Ho)) as Hlaw.
  apply wp_Ok in Hlaw as (k & s & Hfree & Hs).
  exists (with_lw s w1). split_and!.
  - unfold go_cs_tcp_recv_h. erewrite bind_Ok by done.
    erewrite bind_Ok by done. erewrite bind_Ok by (unfold lift; by rewrite Hfree).
    done.
  - intros x Hx. cbn. rewrite Hs. cbn. by rewrite without_lookup, decide_True.
  - by intros ->.
Qed.

(** [go_cs_init_handle] leaves the member [init] as it finds it, and [cs_init]
    calls it as soon as lwIP has added the interface. *)
Lemma no_init_faults go b (c : cs_callback S A) n w w1 w2 :
  cb_init c = None -> cb_netif c = Some n ->
  backs b = Some (go_cs_init_handle go c) ->
  lwip_init w = Ok (tt, w1) ->
  netif_add n LWIP_PORT_INIT_IPADDR LWIP_PORT_INIT_NETMASK LWIP_PORT_INIT_GW
    (Some b) cs_netif_init w1 = Ok (true, w2) ->
  cs_init backs b w = Fault UB.
Proof.
  intros Hi Hn Hb H1 H2. unfold cs_init. erewrite bind_Ok by done.
  rewrite Hb. erewrite bind_Ok by done. cbn [cb_netif go_cs_init_handle].
  rewrite Hn. erewrite bind_Ok by done. erewrite bind_Ok by done.
  cbn [negb cb_init go_cs_init_handle]. rewrite Hi. by apply bind_Fault.
Qed.

(** Closing a connection from Go with [go_cs_tcp_close] is not
    [cs_tcp_raw_close]: it closes lwIP's control block and nothing else.  When
    that succeeds the connection's state is still allocated, with a control
    block that no longer exists, so the invariant of the connections does not
    hold any more. *)
Theorem go_cs_tcp_close_leaks w e r s :
  inv backs w -> es_heap w !! e = Some r ->
  tcp_close (es_pcb r) (lw w) = Ok (ERR_OK, s) ->
  exists w', go_cs_tcp_close go_cs_ (es_pcb r) e w = Ok (0, w') /\
    es_heap w' !! e = Some r /\ tcps (vw w') !! es_pcb r = None /\
    ~ inv backs w'.
Proof.
  intros I Hr Hc. exists (with_lw s w).
  destruct (inv_conn _ _ I _ _ Hr) as (_ & _ & _ & (t & Ht & _) & _).
  pose proof (tcp_close_law _ _ _ Ht) as Hlaw. unfold wpf in Hlaw.
  rewrite Hc, decide_True in Hlaw by done.
  assert (Hgone : tcps (vw (with_lw s w)) !! es_pcb r = None).
  { cbn. rewrite Hlaw. cbn. by rewrite lookup_delete_eq. }
  split_and!; [|done|done|].
  - unfold go_cs_tcp_close. erewrite bind_Ok by done.
    erewrite bind_Ok by (unfold lift; by rewrite Hc). done.
  - intros I'.
    destruct (inv_conn _ _ I' e r Hr) as (_ & _ & _ & (t' & Ht' & _) & _).
    congruence.
Qed.

End gback.
