(* ===== verification/Mains.v ===== *)
(** * The main programs of the Go build (src/echo/test/test.c and
    src/csocks/pc/test/test.c)

    The two programs have the same device functions and test callbacks, and a
    [main] that fills the table for Go, initialises the layer and hands over
    to the Go program.  Proved: [main] of the echo program faults, because it
    never sets [init]; [main] of csocks sets it, and reaches the Go program
    whatever of the initialisation failed. *)

From S2P Require Import Prelude Lwip Cs Tcp TcpSend TcpConn Udp Netif Echo Bridge.
Local Open Scope Z_scope.

(** [go_cs_proc], exported by src/echo/echo.go and, with the path of a
    configuration, by src/csocks/pc/pc.go; it calls back through the table
    [go_cs_], and lwIP through the table of callbacks. *)
Class GoProc (S A : Type) : Type := {
  echo_go_cs_proc :
    option (go_cs_callback S A) -> (ptr -> option (cs_callback S A)) ->
    M (world S A) unit;
  csocks_go_cs_proc :
    option (go_cs_callback S A) -> (ptr -> option (cs_callback S A)) ->
    list Z -> M (world S A) unit
}.

Section mains.
Context {S A : Type} `{!Lwip S, !LwipUdp S, !LwipNetif (world S A)}.
Context `{!TapOs (world S A), !GoExports (world S A), !GoProc S A}.
Context (fuel : nat) (mcast_tx char_signed : bool).

Abbreviation C := (M (world S A)).

(** ** The device *)

(** [system]'s result other than 0 is only printed. *)
Definition test_tap_init (netif : ptr) : C unit :=
  tap_fd ← os_open;
  if tap_fd =? -1 then stop (Exited 1)
  else
    ret ← os_tunsetiff tap_fd;
    if ret <? 0 then stop (Exited 1)
    else
      gw ← netif_ip4_gw netif;
      mask ← netif_ip4_netmask netif;
      ret ← os_system
        [byte_of gw 0; byte_of gw 1; byte_of gw 2; byte_of gw 3;
         byte_of mask 0; byte_of mask 1; byte_of mask 2; byte_of mask 3];
      if ret <? 0 then stop (Exited 1) else mret tt.

(** The version of src/echo/test/test.c is called directly and returns a
    result; the one of csocks is the callback [init]. *)
Definition echo_tap_init (netif : ptr) : C err_t :=
  test_tap_init netif;; mret ERR_OK.
Definition csocks_tap_init (arg : option ptr) (netif : ptr) : C unit :=
  test_tap_init netif.

Definition test_output (arg : option ptr) (buf : bytes) (len : Z) : C Z :=
  os_write buf len.

Definition test_input (arg : option ptr) (len : Z) : C (Z * bytes) :=
  os_read len.

Definition test_raw_output_h (arg : option ptr) (netif : ptr) (buf : bytes)
    (len : Z) : C Z :=
  test_output arg buf len.

Definition test_raw_input_h (arg : option ptr) (netif : ptr) (readlen : Z)
    : C (option ptr * Z) :=
  '(len, buf) ← test_input arg 1518;
  if len <? 1 then mret (None, 0)
  else
    p ← lift (pbuf_alloc (u16 len));
    match p with
    | Some p' => _ ← lift (pbuf_take p' buf (u16 len)); mret tt
    | None => mret tt
    end;;
    mret (p, readlen).

(** ** Test callbacks

    Not used: the lines of [main] that would are comments. *)

Definition test_tcp_accept (arg : option ptr) (newpcb state : ptr) : C err_t :=
  mret ERR_OK.

Definition test_tcp_recv (arg : option ptr) (tpcb p state : ptr) : C err_t :=
  tot_len ← lift (pbuf_tot_len p);
  lift (tcp_recved tpcb tot_len);;
  _ ← lift (pbuf_free p);
  mret ERR_OK.

Definition test_tcp_send_done (arg : option ptr) (tpcb state : ptr) : C unit :=
  mret tt.

Definition test_tcp_close (arg : option ptr) (tpcb state : ptr) : C unit :=
  mret tt.

Definition test_udp_recv (arg : option ptr) (upcb p : ptr) (addr : ip_addr)
    (port : Z) : C err_t :=
  _ ← cs_udp_sendto mcast_tx upcb p addr port;
  _ ← lift (pbuf_free p);
  mret ERR_OK.

(** ** [main] *)

(** The two tables are local variables of [main], at the addresses [back] and
    [netif].  [st] is the indeterminate value of [back.state]. *)
Definition at_back (back : ptr) (cb : cs_callback S A) (p : ptr)
    : option (cs_callback S A) :=
  if decide (p = back) then Some cb else None.

Definition main_gback (backs : ptr -> option (cs_callback S A)) (back netif : ptr)
    : go_cs_callback S A :=
  gback backs fuel mcast_tx char_signed test_input test_output back netif.

(** [back.netif = &netif; back.init = ..; go_cs_init(&gback);
    go_cs_init_handle(&back)].  The callbacks do not use [netif_proc], so the
    table it works on does not matter here ([main_back_eq]). *)
Definition main_back (init : option (option ptr -> ptr -> C unit))
    (st : option ptr) (back netif : ptr) : cs_callback S A :=
  go_cs_init_handle (go_cs_init (main_gback (fun _ => None) back netif))
    (CsCallback st (Some netif) None None None None None None None init).

Lemma main_back_eq backs init st back netif :
  main_back init st back netif =
  go_cs_init_handle (go_cs_init (main_gback backs back netif))
    (CsCallback st (Some netif) None None None None None None None init).
Proof. reflexivity. Qed.

(** [back.output = test_raw_output_h]. *)
Definition set_output (cb : cs_callback S A) : cs_callback S A :=
  CsCallback (cb_state cb) (cb_netif cb) (cb_tcp_accept cb) (cb_tcp_recv cb)
    (cb_tcp_send_done cb) (cb_tcp_close cb) (cb_udp_recv cb)
    (Some test_raw_output_h) (cb_input cb) (cb_init cb).

(** What [cs_init] is called with and what it returns are the same in both
    programs, but for the member [init]. *)
Definition echo_main (st : option ptr) (back netif : ptr) : C unit :=
  let cb := main_back None st back netif in
  let backs := at_back back (set_output cb) in
  _ ← cs_init (at_back back cb) back;
  _ ← echo_tap_init netif;
  echo_go_cs_proc (go_cs_init (main_gback backs back netif)) backs.

(** The bytes of "csocks.json". *)
Definition csocks_json : list Z := [99; 115; 111; 99; 107; 115; 46; 106; 115; 111; 110].

Definition csocks_main (st : option ptr) (back netif : ptr) : C unit :=
  let cb := main_back (Some csocks_tap_init) st back netif in
  let backs := at_back back (set_output cb) in
  _ ← cs_init (at_back back cb) back;
  csocks_go_cs_proc (go_cs_init (main_gback backs back netif)) backs csocks_json.

(** ** Properties *)

Context `{!LwipLaws S, !LwipUdpLaws S}.
Implicit Types w : world S A.
Context (st : option ptr) (back netif : ptr).

Abbreviation added w1 ok w2 :=
  (netif_add netif LWIP_PORT_INIT_IPADDR LWIP_PORT_INIT_NETMASK
     LWIP_PORT_INIT_GW (Some back) cs_netif_init w1 = Ok (ok, w2)).

(** The table with which the csocks program runs, and the one for Go. *)
Abbreviation csocks_backs :=
  (at_back back (set_output (main_back (Some csocks_tap_init) st back netif))).
Abbreviation csocks_gback := (main_gback csocks_backs back netif).

Lemma at_back_eq cb : at_back back cb back = Some cb.
Proof. unfold at_back. by rewrite decide_True. Qed.

(** Every member that the layer calls is set. *)
Definition complete (cb : cs_callback S A) : bool :=
  bool_decide (is_Some (cb_netif cb)) && bool_decide (is_Some (cb_tcp_accept cb)) &&
  bool_decide (is_Some (cb_tcp_recv cb)) &&
  bool_decide (is_Some (cb_tcp_send_done cb)) &&
  bool_decide (is_Some (cb_tcp_close cb)) && bool_decide (is_Some (cb_udp_recv cb)) &&
  bool_decide (is_Some (cb_output cb)) && bool_decide (is_Some (cb_input cb)) &&
  bool_decide (is_Some (cb_init cb)).

(** [main] of src/echo/test/test.c never sets the member [init] of its
    table, and [go_cs_init_handle] does not either; so when lwIP has been
    initialised and has added the interface, [cs_init] calls an unset function
    pointer. *)
Theorem echo_main_no_init w w1 w2 :
  lwip_init w = Ok (tt, w1) -> added w1 true w2 ->
  echo_main st back netif w = Fault UB.
Proof.
  intros H1 H2. unfold echo_main. apply bind_Fault.
  eapply no_init_faults; [| |apply at_back_eq|done|done]; done.
Qed.

Lemma main_init_run cb w w1 ok w2 :
  cb_netif cb = Some netif ->
  lwip_init w = Ok (tt, w1) -> added w1 ok w2 ->
  cs_init (at_back back cb) back w =
    if negb ok then Ok (-1, w2)
    else (init ← deref (cb_init cb); init (cb_state cb) netif;;
          netif_set_up netif;; netif_set_link_up netif;; netif_set_default netif;;
          _ ← cs_tcp_raw_init back; _ ← cs_udp_raw_init back; mret 0) w2.
Proof.
  intros Hn H1 H2. unfold cs_init. erewrite bind_Ok by done.
  rewrite at_back_eq. erewrite bind_Ok by done. rewrite Hn.
  erewrite bind_Ok by done. erewrite bind_Ok by done. by destruct ok.
Qed.

(** [main] of src/csocks/pc/test/test.c runs with a table that has every
    member, and reaches the Go program whatever happened before: if lwIP could
    not add the interface, without one; and otherwise with the device opened
    and the interface up, after one attempt each at a TCP listener and a UDP
    control block, whether or not they were made.  Nothing reports a
    failure. *)
Theorem csocks_main_starts w w1 ok w2 :
  lwip_init w = Ok (tt, w1) -> added w1 ok w2 ->
  (csocks_backs back ≫= fun cb => Some (complete cb)) = Some true /\
  if ok then forall w3 w4 w5 w6,
    csocks_tap_init st netif w2 = Ok (tt, w3) ->
    netif_set_up netif w3 = Ok (tt, w4) ->
    netif_set_link_up netif w4 = Ok (tt, w5) ->
    netif_set_default netif w5 = Ok (tt, w6) ->
    exists l w7 u w', init_post back w6 l w7 /\ udp_init_post w7 u w' /\
      csocks_main st back netif w =
        csocks_go_cs_proc (go_cs_init csocks_gback) csocks_backs csocks_json w'
  else csocks_main st back netif w =
         csocks_go_cs_proc (go_cs_init csocks_gback) csocks_backs csocks_json w2.
Proof.
  intros H1 H2. split; [by rewrite at_back_eq|].
  pose proof (main_init_run (main_back (Some csocks_tap_init) st back netif)
                w w1 ok w2 eq_refl H1 H2) as Hrun.
  destruct ok; cbn [negb] in Hrun.
  - intros w3 w4 w5 w6 H3 H4 H5 H6.
    destruct (proj1 (wp_Ok _ _ _) (cs_tcp_raw_init_spec w6 back)) as (l & w7 & H7 & Hl).
    destruct (proj1 (wp_Ok _ _ _) (cs_udp_raw_init_spec w7 back)) as (u & w' & H8 & Hu).
    exists l, w7, u, w'. split_and!; [done|done|].
    unfold csocks_main. erewrite bind_Ok; [done|]. rewrite Hrun.
    erewrite bind_Ok by done. do 6 (erewrite bind_Ok by done). done.
  - unfold csocks_main. by erewrite bind_Ok by done.
Qed.

End mains.
