(* ===== verification/GoChan.v ===== *)
(** * Channels and connections of the Go binding (src/lwipcs.go)

    Go's buffered channels as the binding uses them, and [PCB], the object
    that the binding makes for each connection, with the operations on its own
    fields.  An operation that has to wait is [Blocked], and one that the Go
    runtime answers with a panic is [Panicked].  Proved: what each operation on
    a channel does. *)

From S2P Require Import Prelude Lwip.

(** ** Channels

    A channel made with [make(chan T, n)]. *)
Record chan (T : Type) : Type := Chan {
  c_cap : nat;
  c_buf : list T;
  c_closed : bool
}.
Arguments Chan {T}.
Arguments c_cap {T}.
Arguments c_buf {T}.
Arguments c_closed {T}.

Definition make_chan {T} (n : nat) : chan T := Chan n [] false.

Section chan.
Context {T : Type}.
Implicit Types (c : chan T) (x : T).

(** [c <- x]. *)
Definition chan_send x : M (chan T) unit := fun c =>
  if c_closed c then Fault Panicked
  else if decide (length (c_buf c) < c_cap c)%nat
  then Ok (tt, Chan (c_cap c) (c_buf c ++ [x]) false)
  else Fault Blocked.

(** [<-c]; [None] is the zero value that a closed channel gives. *)
Definition chan_recv : M (chan T) (option T) := fun c =>
  match c_buf c with
  | x :: l => Ok (Some x, Chan (c_cap c) l (c_closed c))
  | [] => if c_closed c then Ok (None, c) else Fault Blocked
  end.

(** [close(c)]. *)
Definition chan_close : M (chan T) unit := fun c =>
  if c_closed c then Fault Panicked
  else Ok (tt, Chan (c_cap c) (c_buf c) true).

(** Whether a [case] of a [select] that receives from [c] can be taken. *)
Definition chan_ready c : bool :=
  match c_buf c with
  | [] => c_closed c
  | _ :: _ => true
  end.

Lemma chan_send_run c x :
  c_closed c = false -> (length (c_buf c) < c_cap c)%nat ->
  chan_send x c = Ok (tt, Chan (c_cap c) (c_buf c ++ [x]) false).
Proof. intros Hc Hl. unfold chan_send. by rewrite Hc, decide_True. Qed.

Lemma chan_send_inv c x u c' :
  chan_send x c = Ok (u, c') ->
  c_closed c = false /\ (length (c_buf c) < c_cap c)%nat /\
  c' = Chan (c_cap c) (c_buf c ++ [x]) false.
Proof.
  unfold chan_send. destruct (c_closed c); [done|]. case_decide; [|done].
  by intros [= <- <-].
Qed.

Lemma chan_recv_inv c o c' :
  chan_recv c = Ok (o, c') ->
  match o with
  | Some x => c_buf c = x :: c_buf c' /\ c_cap c' = c_cap c /\ c_closed c' = c_closed c
  | None => c_buf c = [] /\ c_closed c = true /\ c' = c
  end.
Proof.
  unfold chan_recv. destruct (c_buf c) as [|x l] eqn:Hb.
  - destruct (c_closed c) eqn:Hc; [|done]. by intros [= <- <-].
  - by intros [= <- <-].
Qed.

Lemma chan_close_inv c u c' :
  chan_close c = Ok (u, c') ->
  c_closed c = false /\ c' = Chan (c_cap c) (c_buf c) true.
Proof. unfold chan_close. destruct (c_closed c); [done|]. by intros [= <- <-]. Qed.

End chan.

(** ** Connections *)

(** [TCP] and [UDP]. *)
Inductive pcb_type : Type := TCP | UDP.

#[export] Instance pcb_type_eq_dec : EqDecision pcb_type.
Proof. solve_decision. Defined.

(** [PCB].  [err] is nil or the one error that [close] stores; [recvQueued] is
    a channel that others may hold too, since [Intercept] replaces it;
    [sendWait] is nil for UDP.  The member [port] is not used. *)
Record PCB : Type := Pcb {
  p_type : pcb_type;
  p_arg : option ptr;
  p_pcb : ptr;
  p_state : option ptr;
  localIP : ip_addr;
  localPort : Z;
  remoteIP : ip_addr;
  remotePort : Z;
  p_err : bool;
  recvInter : bool;
  recvQueued : ptr;
  sendWait : option (chan Z);
  sendCount : Z;
  lck : bool
}.

Definition with_err (x : bool) (p : PCB) : PCB :=
  Pcb (p_type p) (p_arg p) (p_pcb p) (p_state p) (localIP p) (localPort p)
    (remoteIP p) (remotePort p) x (recvInter p) (recvQueued p) (sendWait p)
    (sendCount p) (lck p).
Definition with_recvInter (x : bool) (p : PCB) : PCB :=
  Pcb (p_type p) (p_arg p) (p_pcb p) (p_state p) (localIP p) (localPort p)
    (remoteIP p) (remotePort p) (p_err p) x (recvQueued p) (sendWait p)
    (sendCount p) (lck p).
Definition with_recvQueued (x : ptr) (p : PCB) : PCB :=
  Pcb (p_type p) (p_arg p) (p_pcb p) (p_state p) (localIP p) (localPort p)
    (remoteIP p) (remotePort p) (p_err p) (recvInter p) x (sendWait p)
    (sendCount p) (lck p).
Definition with_sendWait (x : option (chan Z)) (p : PCB) : PCB :=
  Pcb (p_type p) (p_arg p) (p_pcb p) (p_state p) (localIP p) (localPort p)
    (remoteIP p) (remotePort p) (p_err p) (recvInter p) (recvQueued p) x
    (sendCount p) (lck p).
Definition with_sendCount (x : Z) (p : PCB) : PCB :=
  Pcb (p_type p) (p_arg p) (p_pcb p) (p_state p) (localIP p) (localPort p)
    (remoteIP p) (remotePort p) (p_err p) (recvInter p) (recvQueued p)
    (sendWait p) x (lck p).
Definition with_lck (x : bool) (p : PCB) : PCB :=
  Pcb (p_type p) (p_arg p) (p_pcb p) (p_state p) (localIP p) (localPort p)
    (remoteIP p) (remotePort p) (p_err p) (recvInter p) (recvQueued p)
    (sendWait p) (sendCount p) x.

Abbreviation P := (M PCB).

(** [p.lck.Lock()] and [p.lck.Unlock()]. *)
Definition lock : P unit := fun p =>
  if lck p then Fault Blocked else Ok (tt, with_lck true p).
Definition unlock : P unit := fun p =>
  if lck p then Ok (tt, with_lck false p) else Fault Panicked.

(** An operation on [p.sendWait]; on a nil channel sending and receiving wait
    for ever, and [close] panics. *)
Definition on_sendWait {X} (nil : fault) (m : M (chan Z) X) : P X := fun p =>
  match sendWait p with
  | None => Fault nil
  | Some c =>
      match m c with
      | Ok (x, c') => Ok (x, with_sendWait (Some c') p)
      | Fault f => Fault f
      end
  end.

Definition sendWait_send (n : Z) : P unit := on_sendWait Blocked (chan_send n).
Definition sendWait_recv : P unit := _ ← on_sendWait Blocked chan_recv; mret tt.
Definition sendWait_close : P unit := on_sendWait Panicked chan_close.

(** [s.PCB.sendCount++] and [pcb.sendCount--]. *)
Definition sendCount_add (d : Z) : P unit :=
  modify (fun p => with_sendCount (sendCount p + d) p).
