(* ===== verification/GoBind.v ===== *)
(** * The Go binding (src/lwipcs.go)

    The state of the binding and every function of src/lwipcs.go, over the
    calls of src/lwipcs.c ([Bridge]).  A goroutine that runs alone: where it
    has to wait for another one the run stops as [Blocked].  [GoConc] has the
    interleaving of goroutines, [GoApp] what the binding does as the
    application of the layer. *)

From S2P Require Import Prelude Lwip Cs Tcp Udp Netif Bridge GoChan.
Local Open Scope Z_scope.

(** ** The state

    The objects [PCB] and the channels of [[]byte], by address, and the
    package's variables.  The key of [udpPcbs] is the text of an address,
    which determines it up to the IPv6 form of IPv4 addresses ([udp_key]). *)
Record go_state : Type := GoState {
  pcbs : gmap ptr PCB;
  bchans : gmap ptr (chan bytes);
  tcpPcbs : gmap ptr ptr;
  udpPcbs : gmap (bytes * Z) ptr;
  inputQueue : chan bytes;
  inputQueue2 : chan bytes;
  recvedQueue : chan (ptr * Z);
  sendQueue : chan (ptr * bytes);
  closeQueue : chan ptr;
  runnning : bool
}.

Definition set_pcbs x g :=
  GoState x (bchans g) (tcpPcbs g) (udpPcbs g) (inputQueue g) (inputQueue2 g)
    (recvedQueue g) (sendQueue g) (closeQueue g) (runnning g).
Definition set_bchans x g :=
  GoState (pcbs g) x (tcpPcbs g) (udpPcbs g) (inputQueue g) (inputQueue2 g)
    (recvedQueue g) (sendQueue g) (closeQueue g) (runnning g).
Definition set_tcpPcbs x g :=
  GoState (pcbs g) (bchans g) x (udpPcbs g) (inputQueue g) (inputQueue2 g)
    (recvedQueue g) (sendQueue g) (closeQueue g) (runnning g).
Definition set_udpPcbs x g :=
  GoState (pcbs g) (bchans g) (tcpPcbs g) x (inputQueue g) (inputQueue2 g)
    (recvedQueue g) (sendQueue g) (closeQueue g) (runnning g).
Definition set_inputQueue x g :=
  GoState (pcbs g) (bchans g) (tcpPcbs g) (udpPcbs g) x (inputQueue2 g)
    (recvedQueue g) (sendQueue g) (closeQueue g) (runnning g).
Definition set_inputQueue2 x g :=
  GoState (pcbs g) (bchans g) (tcpPcbs g) (udpPcbs g) (inputQueue g) x
    (recvedQueue g) (sendQueue g) (closeQueue g) (runnning g).
Definition set_recvedQueue x g :=
  GoState (pcbs g) (bchans g) (tcpPcbs g) (udpPcbs g) (inputQueue g)
    (inputQueue2 g) x (sendQueue g) (closeQueue g) (runnning g).
Definition set_sendQueue x g :=
  GoState (pcbs g) (bchans g) (tcpPcbs g) (udpPcbs g) (inputQueue g)
    (inputQueue2 g) (recvedQueue g) x (closeQueue g) (runnning g).
Definition set_closeQueue x g :=
  GoState (pcbs g) (bchans g) (tcpPcbs g) (udpPcbs g) (inputQueue g)
    (inputQueue2 g) (recvedQueue g) (sendQueue g) x (runnning g).
Definition set_runnning x g :=
  GoState (pcbs g) (bchans g) (tcpPcbs g) (udpPcbs g) (inputQueue g)
    (inputQueue2 g) (recvedQueue g) (sendQueue g) (closeQueue g) x.

(** The capacity of every channel but [sendWait]. *)
Definition QUEUE : nat := 1024.

Definition go_state0 : go_state :=
  GoState ∅ ∅ ∅ ∅ (make_chan QUEUE) (make_chan QUEUE) (make_chan QUEUE)
    (make_chan QUEUE) (make_chan QUEUE) false.

Abbreviation G := (M go_state).

(** An operation on the object [p], and one on the channel [q]. *)
Definition at_pcb {X} (p : ptr) (m : P X) : G X :=
  zoom pcbs set_pcbs (at_key Panicked p m).
Definition at_bchan {X} (q : ptr) (m : M (chan bytes) X) : G X :=
  zoom bchans set_bchans (at_key Panicked q m).
Definition at_recvQueued {X} (p : ptr) (m : M (chan bytes) X) : G X :=
  q ← at_pcb p (gets recvQueued); at_bchan q m.

Definition on_inputQueue {X} (m : M _ X) : G X := zoom inputQueue set_inputQueue m.
Definition on_inputQueue2 {X} (m : M _ X) : G X := zoom inputQueue2 set_inputQueue2 m.
Definition on_recvedQueue {X} (m : M _ X) : G X := zoom recvedQueue set_recvedQueue m.
Definition on_sendQueue {X} (m : M _ X) : G X := zoom sendQueue set_sendQueue m.
Definition on_closeQueue {X} (m : M _ X) : G X := zoom closeQueue set_closeQueue m.

(** ** Methods of [PCB] *)

(** [newPCB]: a new object with a new channel. *)
Definition newPCB (ptype : pcb_type) (arg : option ptr) (pcb : ptr)
    (state : option ptr) (laddr raddr : ip_addr) (lport rport : Z) : G ptr :=
  g ← gets id;
  let q := fresh (dom (bchans g)) in
  let p := fresh (dom (pcbs g)) in
  let o := Pcb ptype arg pcb state laddr lport raddr rport false false q
             (if decide (ptype = TCP) then Some (make_chan 1) else None) 0 false in
  modify (set_bchans (<[q := make_chan QUEUE]> (bchans g)));;
  modify (set_pcbs (<[p := o]> (pcbs g)));;
  mret p.

(** [close]; the result is whether there is an error.  The deferred [Unlock]
    comes last. *)
Definition close (p : ptr) : G bool :=
  at_pcb p lock;;
  o ← at_pcb p (gets id);
  if p_err o then at_pcb p unlock;; mret true
  else
    at_pcb p (modify (with_err true));;
    (if recvInter o then mret tt else at_recvQueued p chan_close);;
    (if decide (p_type o = TCP) then at_pcb p sendWait_close else mret tt);;
    at_pcb p unlock;;
    mret false.

Definition Close (p : ptr) : G bool :=
  err ← close p;
  on_closeQueue (chan_send p);;
  mret err.

(** [Read] into a buffer of [n] bytes: what it copies, and whether there is an
    error.  A closed channel gives nil. *)
Definition Read (p : ptr) (n : nat) : G (bytes * bool) :=
  o ← at_pcb p (gets id);
  if recvInter o then stop Panicked
  else if p_err o then mret ([], true)
  else
    recevied ← at_recvQueued p chan_recv;
    match recevied with
    | None | Some [] => o ← at_pcb p (gets id); mret ([], p_err o)
    | Some b =>
        if decide (n < length b)%nat then stop Panicked
        else
          (if decide (p_type o = TCP)
           then on_recvedQueue (chan_send (p, Z.of_nat (length b)))
           else mret tt);;
          mret (b, false)
    end.

Definition Write (p : ptr) (b : bytes) : G (Z * bool) :=
  match b with
  | [] => mret (0, true)
  | _ :: _ =>
      o ← at_pcb p (gets id);
      (if p_err o then mret tt
       else
         (if decide (p_type o = TCP) then at_pcb p lock else mret tt);;
         on_sendQueue (chan_send (p, b));;
         (if decide (p_type o = TCP)
          then at_pcb p sendWait_recv;; at_pcb p unlock
          else mret tt));;
      o ← at_pcb p (gets id);
      mret (Z.of_nat (length b), p_err o)
  end.

(** [Intercept] with the channel [c]. *)
Definition Intercept (p c : ptr) : G unit :=
  at_pcb p lock;;
  o ← at_pcb p (gets id);
  if recvInter o then at_pcb p unlock;; stop Panicked
  else
    at_pcb p (modify (with_recvInter true));;
    at_recvQueued p chan_close;;
    at_pcb p (modify (with_recvQueued c));;
    at_pcb p unlock.

Definition SetDeadline (p : ptr) : G unit := mret tt.
Definition SetReadDeadline (p : ptr) : G unit := mret tt.
Definition SetWriteDeadline (p : ptr) : G unit := mret tt.

(** A frame goes from the goroutine that reads the device to the stack. *)
Definition forward_input : G unit :=
  r ← on_inputQueue chan_recv;
  i ← deref r;
  on_inputQueue2 (chan_send i).

(** ** Addresses as text

    [net.UDPAddr.String] of the bytes of an address and a port.  The text of an
    IPv4 address does not depend on whether it has 4 bytes or 16; otherwise the
    text determines bytes and port, which stand for it. *)
Definition to4 (ip : bytes) : bytes :=
  match ip with
  | [0; 0; 0; 0; 0; 0; 0; 0; 0; 0; 255; 255; a; b; c; d] => [a; b; c; d]
  | _ => ip
  end.
Definition udp_key (ip : bytes) (port : Z) : bytes * Z := (to4 ip, port).

(** ** The exported functions and the processing loop *)

(** [Handler]. *)
Record Handler (S : Type) : Type := GoHandler {
  OnAccept : ptr -> M (world S go_state) unit;
  OnClose : ptr -> M (world S go_state) unit
}.
Arguments GoHandler {S}.
Arguments OnAccept {S}.
Arguments OnClose {S}.

(** The [case]s of the [select] of [go_netif_proc]. *)
Inductive select_case : Type :=
| CaseRecved
| CaseClose
| CaseSend
| CaseInput.

Section bind.
Context {S : Type} `{!Lwip S, !LwipUdp S, !LwipTcpAddr S}.

Abbreviation C := (M (world S go_state)).

(** The table in C, and the variable [Event]. *)
Context (go_cs_ : option (go_cs_callback S go_state)).
Context (Event : option (Handler S)).

(** Go code that does not call C. *)
Definition go {X} (m : G X) : C X := zoom app with_app m.

Definition event (f : Handler S -> ptr -> C unit) (p : ptr) : C unit :=
  match Event with
  | Some h => f h p
  | None => mret tt
  end.

(** [LocalAddr] and [RemoteAddr]: a buffer of the right size is filled by
    [go_cs_ip_get]. *)
Definition ip_bytes (a : ip_addr) : C bytes :=
  b ← go_cs_ip_get go_cs_ a; mret (take (Z.to_nat (go_cs_ip_len a)) b).

Definition LocalAddr (p : ptr) : C (bytes * Z) :=
  o ← go (at_pcb p (gets id)); ip ← ip_bytes (localIP o); mret (ip, localPort o).
Definition RemoteAddr (p : ptr) : C (bytes * Z) :=
  o ← go (at_pcb p (gets id)); ip ← ip_bytes (remoteIP o); mret (ip, remotePort o).

Definition go_tcp_accept_h (arg : option ptr) (newpcb state : ptr) : C Z :=
  g ← gets app;
  match tcpPcbs g !! state with
  | Some _ => mret 1
  | None =>
      laddr ← go_cs_tcp_local_ip newpcb;
      raddr ← go_cs_tcp_remote_ip newpcb;
      lport ← go_cs_tcp_local_port newpcb;
      rport ← go_cs_tcp_remote_port newpcb;
      pcb ← go (newPCB TCP arg newpcb (Some state) laddr raddr lport rport);
      go (modify (fun g => set_tcpPcbs (<[state := pcb]> (tcpPcbs g)) g));;
      event OnAccept pcb;;
      mret 0
  end.

(** [make([]byte, len)] filled by [go_cs_pbuf_copy(buf, &data[0])]: the index
    is out of range when there are no bytes. *)
Definition pbuf_bytes (buf : ptr) : C bytes :=
  len ← go_cs_pbuf_len buf;
  if len =? 0 then stop Panicked else go_cs_pbuf_copy go_cs_ buf.

Definition go_tcp_recv_h (arg : option ptr) (tpcb state buf : ptr) : C Z :=
  g ← gets app;
  match tcpPcbs g !! state with
  | None => mret 1
  | Some pcb =>
      o ← go (at_pcb pcb (gets id));
      if p_err o then mret 1
      else
        data ← pbuf_bytes buf;
        go (at_recvQueued pcb (chan_send data));;
        mret 0
  end.

Definition go_tcp_send_done_h (arg : option ptr) (tpcb state : ptr) : C Z :=
  g ← gets app;
  match tcpPcbs g !! state with
  | None => mret 1
  | Some pcb =>
      o ← go (at_pcb pcb (gets id));
      if p_err o then mret 1
      else
        (if sendCount o >? 0 then
           go (at_pcb pcb (sendCount_add (-1)));;
           go (at_pcb pcb (sendWait_send 1))
         else mret tt);;
        mret 0
  end.

Definition go_tcp_close_h (arg : option ptr) (tpcb state : ptr) : C Z :=
  g ← gets app;
  match tcpPcbs g !! state with
  | None => mret 1
  | Some pcb =>
      go (modify (fun g => set_tcpPcbs (delete state (tcpPcbs g)) g));;
      _ ← go (close pcb);
      event OnClose pcb;;
      mret 0
  end.

Definition go_udp_recv_h (arg : option ptr) (upcb : ptr) (addr : ip_addr)
    (port : Z) (buf : ptr) : C Z :=
  data ← pbuf_bytes buf;
  ip ← ip_bytes addr;
  let key := udp_key ip port in
  g ← gets app;
  pcb ←
    match udpPcbs g !! key with
    | Some pcb => mret pcb
    | None =>
        laddr ← go_cs_udp_local_ip upcb;
        lport ← go_cs_udp_local_port upcb;
        pcb ← go (newPCB UDP arg upcb None laddr addr lport port);
        go (modify (fun g => set_udpPcbs (<[key := pcb]> (udpPcbs g)) g));;
        event OnAccept pcb;;
        mret pcb
    end;
  go (at_recvQueued pcb (chan_send data));;
  mret 0.

(** [tcpSend], [tcpClose] and [udpSend]; [&buf[0]] needs a byte. *)
Definition tcpSend (tpcb state : ptr) (buf : bytes) : C Z :=
  match buf with
  | [] => stop Panicked
  | _ :: _ => go_cs_tcp_send go_cs_ tpcb state buf (Z.of_nat (length buf))
  end.
Definition tcpClose (tpcb state : ptr) : C Z := go_cs_tcp_close go_cs_ tpcb state.
Definition udpSend (upcb : ptr) (laddr : ip_addr) (lport : Z) (raddr : ip_addr)
    (rport : Z) (buf : bytes) : C Z :=
  match buf with
  | [] => stop Panicked
  | _ :: _ => go_cs_udp_send go_cs_ upcb laddr (u16 lport) raddr (u16 rport) buf
                (Z.of_nat (length buf))
  end.

(** [sendEntry.Send] of the entry [(p, data)]; the results of the sends are
    dropped.  A TCP connection has a state. *)
Definition Send (p : ptr) (data : bytes) : C unit :=
  o ← go (at_pcb p (gets id));
  if p_err o then mret tt
  else if decide (p_type o = TCP) then
    go (at_pcb p (sendCount_add 1));;
    state ← deref (p_state o);
    _ ← tcpSend (p_pcb o) state data;
    mret tt
  else
    _ ← udpSend (p_pcb o) (localIP o) (localPort o) (remoteIP o) (remotePort o) data;
    mret tt.

(** The [default] of the [select] is taken when [inputQueue2] is empty. *)
Definition go_input_h (arg : option ptr) (netif : ptr) (readlen : Z)
    : C (option ptr * Z) :=
  g ← gets app;
  if chan_ready (inputQueue2 g) then
    i ← go (on_inputQueue2 chan_recv);
    match i with
    | None | Some [] => mret (None, readlen)
    | Some i =>
        let readlen := u16 (Z.of_nat (length i)) in
        p ← go_cs_pbuf_alloc go_cs_ readlen;
        match p with
        | Some p' => go_cs_pbuf_take go_cs_ p' i
        | None => mret tt
        end;;
        mret (p, readlen)
    end
  else mret (None, readlen).

(** One turn of the loop of [go_netif_proc] that takes the given case, which
    must be ready.  Nothing closes these channels. *)
Definition proc_turn (netif : ptr) (c : select_case) : C unit :=
  match c with
  | CaseRecved =>
      r ← go (on_recvedQueue chan_recv);
      '(p, len) ← deref r;
      o ← go (at_pcb p (gets id));
      if p_err o then mret tt
      else go_cs_tcp_recved go_cs_ (p_pcb o) (u16 len)
  | CaseClose =>
      r ← go (on_closeQueue chan_recv);
      p ← deref r;
      o ← go (at_pcb p (gets id));
      if decide (p_type o = TCP) then
        state ← deref (p_state o);
        _ ← tcpClose (p_pcb o) state;
        mret tt
      else
        '(ip, port) ← RemoteAddr p;
        go (modify (fun g => set_udpPcbs (delete (udp_key ip port) (udpPcbs g)) g))
  | CaseSend =>
      r ← go (on_sendQueue chan_recv);
      '(p, data) ← deref r;
      Send p data
  | CaseInput =>
      go forward_input;;
      go_cs_netif_proc go_cs_ netif
  end.

(** The first turns of [go_netif_proc], with the cases that are taken. *)
Fixpoint proc_loop (netif : ptr) (cs : list select_case) : C unit :=
  match cs with
  | [] => mret tt
  | c :: cs =>
      g ← gets app;
      if runnning g then proc_turn netif c;; proc_loop netif cs else mret tt
  end.

Definition go_netif_proc (cs : list select_case) : C unit :=
  go (modify (set_runnning true));;
  netif ← go_cs_netif_get go_cs_;
  n ← deref netif;
  proc_loop n cs.

(** The first [n] turns of [go_netif_read]. *)
Fixpoint read_loop (n : nat) : C unit :=
  match n with
  | O => mret tt
  | Datatypes.S n =>
      g ← gets app;
      if runnning g then
        '(readed, buf) ← go_cs_input go_cs_ 1518;
        if readed <? 1 then mret tt
        else
          go (on_inputQueue (chan_send (take (Z.to_nat readed) buf)));;
          read_loop n
      else mret tt
  end.

Definition go_netif_read (n : nat) : C unit :=
  go (modify (set_runnning true));; read_loop n.

Definition Proc (cs : list select_case) : C unit := go_netif_proc cs.
Definition ReadNetif (n : nat) : C unit := go_netif_read n.

(** What the C side sees of the binding. *)
#[export] Instance go_exports : GoExports (world S go_state) := {
  Bridge.go_tcp_accept_h := go_tcp_accept_h;
  Bridge.go_tcp_recv_h := go_tcp_recv_h;
  Bridge.go_tcp_send_done_h := go_tcp_send_done_h;
  Bridge.go_tcp_close_h := go_tcp_close_h;
  Bridge.go_udp_recv_h := go_udp_recv_h;
  Bridge.go_input_h := go_input_h
}.

End bind.
