(* ===== verification/GoApp.v ===== *)
(** * The Go binding as the application of the layer

    Proved: with the callbacks of src/lwipcs.c on top of those of
    src/lwipcs.go the layer stays memory safe in the accept, receive, sent and
    poll callbacks, and such a call can stop only where Go code waits or panics; a packet on an open connection is delivered to
    [Read]; a datagram without data, or one for a connection that was just
    closed, makes the binding panic; and hosts with IPv6 addresses that
    [cs_ip_get] cannot tell apart share a connection. *)

From S2P Require Import Prelude Lwip Cs Tcp TcpSend TcpConn Udp Netif Bridge.
From S2P Require Import GoChan GoBind.
Local Open Scope Z_scope.

(** The faults of Go code. *)
Definition go_fault (x : fault) : Prop := x = Blocked \/ x = Panicked.

(** ** Go operations stop only at these *)

Section stops.

Lemma blocked_fault : go_fault Blocked.
Proof. by left. Qed.
Lemma panicked_fault : go_fault Panicked.
Proof. by right. Qed.

Local Ltac op :=
  intros ?; unfold wpf; repeat case_match; simplify_eq; try done; first [by left|by right].

#[global] Instance chan_send_stops {T} (x : T) : Stops go_fault (chan_send x).
Proof. unfold chan_send. op. Qed.
#[global] Instance chan_recv_stops {T} : Stops go_fault (chan_recv (T := T)).
Proof. unfold chan_recv. op. Qed.
#[global] Instance chan_close_stops {T} : Stops go_fault (chan_close (T := T)).
Proof. unfold chan_close. op. Qed.
#[global] Instance lock_stops : Stops go_fault lock.
Proof. unfold lock. op. Qed.
#[global] Instance unlock_stops : Stops go_fault unlock.
Proof. unfold unlock. op. Qed.

#[global] Instance on_sendWait_stops {X} x (m : M (chan Z) X) :
  TCOr (TCEq x Blocked) (TCEq x Panicked) -> Stops go_fault m ->
  Stops go_fault (on_sendWait x m).
Proof.
  intros Hx Hm p. unfold wpf, on_sendWait. destruct (sendWait p) as [c|].
  - specialize (Hm c). unfold wpf in Hm. by destruct (m c) as [[? ?]|].
  - destruct Hx as [Hx|Hx]; apply TCEq_eq in Hx as ->; first [by left|by right].
Qed.

#[global] Instance at_pcb_stops {X} p (m : P X) :
  Stops go_fault m -> Stops go_fault (at_pcb p m).
Proof. intros. apply stops_zoom, stops_at_key; [apply panicked_fault|done]. Qed.
#[global] Instance at_bchan_stops {X} q (m : M (chan bytes) X) :
  Stops go_fault m -> Stops go_fault (at_bchan q m).
Proof. intros. apply stops_zoom, stops_at_key; [apply panicked_fault|done]. Qed.

End stops.

(** Following the structure of an operation. *)
Ltac stops_auto :=
  repeat first
    [ apply stops_bind; [|intros ?]
    | apply stops_stop; first [apply blocked_fault|apply panicked_fault]
    | case_decide | case_match
    | apply _ ].

Section methods.

#[global] Instance at_recvQueued_stops {X} p (m : M (chan bytes) X) :
  Stops go_fault m -> Stops go_fault (at_recvQueued p m).
Proof. intros. unfold at_recvQueued. stops_auto. Qed.
#[global] Instance newPCB_stops t a p s la ra lp rp :
  Stops go_fault (newPCB t a p s la ra lp rp).
Proof. unfold newPCB. stops_auto. Qed.
#[global] Instance close_stops p : Stops go_fault (close p).
Proof. unfold close, sendWait_close. stops_auto. Qed.

End methods.

(** A new object of a TCP connection. *)
Lemma newPCB_run arg pcb e la ra lp rp g p g' :
  newPCB TCP arg pcb (Some e) la ra lp rp g = Ok (p, g') ->
  p ∉ dom (pcbs g) /\ exists q, q ∉ dom (bchans g) /\
    g' = set_pcbs (<[p := Pcb TCP arg pcb (Some e) la lp ra rp false false q
                            (Some (make_chan 1)) 0 false]> (pcbs g))
           (set_bchans (<[q := make_chan QUEUE]> (bchans g)) g).
Proof.
  unfold newPCB, gets, modify, mbind, M_bind, mret, M_ret. cbn. intros [= <- <-].
  split; [apply is_fresh|]. exists (fresh (dom (bchans g))). split; [apply is_fresh|done].
Qed.

(** ** The callbacks *)

(** Reading the addresses of a live control block changes nothing. *)
Class LwipTcpAddrLaws (S : Type) `{LwipLaws S, LwipTcpAddr S} : Prop := {
  tcp_local_ip_law s p t : tcps (view s) !! p = Some t ->
    exists a, tcp_local_ip p s = Ok (a, s);
  tcp_local_port_law s p t : tcps (view s) !! p = Some t ->
    exists n, tcp_local_port p s = Ok (n, s);
  tcp_remote_ip_law s p t : tcps (view s) !! p = Some t ->
    exists a, tcp_remote_ip p s = Ok (a, s);
  tcp_remote_port_law s p t : tcps (view s) !! p = Some t ->
    exists n, tcp_remote_port p s = Ok (n, s)
}.

Section app.
Context {S : Type} `{!Lwip S, !LwipLaws S, !LwipUdp S, !LwipTcpAddr S}.
Context `{!LwipTcpAddrLaws S}.

Abbreviation C := (M (world S go_state)).
Abbreviation vw w := (view (lw w)).
Implicit Types (w : world S go_state) (cs : cells).

(** Nothing but the state of the binding changes. *)
Definition only_app {X} (m : C X) w (Q : X -> go_state -> Prop) : Prop :=
  wpf go_fault m w (fun x w' => exists a, w' = with_app a w /\ Q x a).

Lemma only_app_bind {X Y} (m : C X) (f : X -> C Y) w Q Q' :
  only_app m w Q ->
  (forall x a, Q x a -> only_app (f x) (with_app a w) Q') ->
  only_app (m ≫= f) w Q'.
Proof.
  intros Hm Hf. apply wp_bind. eapply wpf_mono; [exact Hm|].
  intros x w' (a & -> & Hq). eapply wpf_mono; [by apply Hf|].
  intros y w2 (a2 & -> & Hq2). exists a2. by split.
Qed.

Lemma only_app_seq {X Y} (m : C X) (f : X -> C Y) w Q :
  only_app m w (fun _ _ => True) -> (forall x a, only_app (f x) (with_app a w) Q) ->
  only_app (m ≫= f) w Q.
Proof. intros Hm Hf. eapply only_app_bind; [exact Hm|]. intros. apply Hf. Qed.

Lemma only_app_ret {X} (x : X) w (Q : X -> go_state -> Prop) :
  Q x (app w) -> only_app (mret x) w Q.
Proof. intros HQ. apply wp_ret. exists (app w). split; [by destruct w|done]. Qed.

Lemma only_app_go {X} (m : G X) w Q :
  wpf go_fault m (app w) Q -> only_app (go m) w Q.
Proof.
  intros Hm. apply wp_zoom. eapply wpf_mono; [exact Hm|]. intros x a Hq. by exists a.
Qed.

Lemma only_app_same {X} (m : C X) w x (Q : X -> go_state -> Prop) :
  m w = Ok (x, w) -> Q x (app w) -> only_app m w Q.
Proof.
  intros Hm HQ. eapply wpf_Ok; [exact Hm|]. exists (app w). split; [by destruct w|done].
Qed.

Lemma only_app_stop {X} x w (Q : X -> go_state -> Prop) :
  go_fault x -> only_app (stop x) w Q.
Proof. done. Qed.

Lemma only_app_mono {X} (m : C X) w (Q Q' : X -> go_state -> Prop) :
  only_app m w Q -> (forall x a, Q x a -> Q' x a) -> only_app m w Q'.
Proof.
  intros Hm HQ. eapply wpf_mono; [exact Hm|]. intros x w' (a & -> & ?). eauto.
Qed.

Lemma only_app_stops {X} (m : G X) w :
  Stops go_fault m -> only_app (go m) w (fun _ _ => True).
Proof. intros Hm. apply only_app_go, Hm. Qed.

(** What the binding is used with: a table in C that has lwIP's [pbuf_free]
    and [pbuf_copy_partial], and a handler of events that is Go code. *)
Context (go_cs_ : go_cs_callback S go_state) (Event : option (Handler S)).
Context (Hfree : g_pbuf_free go_cs_ = Some (fun p => lift (pbuf_free p))).
Context (Hcopy : g_pbuf_copy go_cs_ =
                 Some (fun p len off => lift (pbuf_copy_partial p len off))).

Class EventOk : Prop := {
  event_accept h p w : Event = Some h ->
    only_app (OnAccept h p) w (fun _ _ => True);
  event_close h p w : Event = Some h ->
    only_app (OnClose h p) w (fun _ _ => True)
}.
Context `{!EventOk}.

Abbreviation accept_h := (go_tcp_accept_h Event).
Abbreviation recv_h := (go_tcp_recv_h (Some go_cs_)).

Lemma event_accept_only p w : only_app (event Event OnAccept p) w (fun _ _ => True).
Proof.
  unfold event. destruct Event as [h|] eqn:HE; [|by apply only_app_ret].
  by apply event_accept.
Qed.
Lemma event_close_only p w : only_app (event Event OnClose p) w (fun _ _ => True).
Proof.
  unfold event. destruct Event as [h|] eqn:HE; [|by apply only_app_ret].
  by apply event_close.
Qed.

(** Looking at the object of a connection. *)
Lemma only_app_pcb {X} p (k : PCB -> C X) w (Q : X -> go_state -> Prop) :
  (forall o, pcbs (app w) !! p = Some o -> only_app (k o) w Q) ->
  only_app (o ← go (at_pcb p (gets id)); k o) w Q.
Proof.
  intros Hk. destruct (pcbs (app w) !! p) as [o|] eqn:Ho.
  - apply wp_bind. eapply wpf_Ok; [|by apply Hk].
    unfold go, at_pcb, zoom, at_key. rewrite Ho. cbn. rewrite insert_id by done.
    destruct w as [? ? ? ? ? []]. done.
  - apply wp_bind. unfold go, at_pcb, zoom, at_key, wpf. rewrite Ho. by right.
Qed.

Lemma member_run {X} (f : go_cs_callback S go_state -> option X) x w :
  f go_cs_ = Some x -> member (Some go_cs_) f w = Ok (x, w).
Proof. intros Hf. unfold member. erewrite bind_Ok by done. by rewrite Hf. Qed.

(** The bytes of a packet that lwIP hands over. *)
Lemma pbuf_bytes_run buf w cs :
  owned (pbufs (vw w)) cs -> chain_head cs = Some buf ->
  pbuf_bytes (Some go_cs_) buf w =
    if decide (chain_data cs = []) then Fault Panicked else Ok (chain_data cs, w).
Proof.
  intros Ho Hh. unfold pbuf_bytes, go_cs_pbuf_len.
  assert (Hlen : lift (pbuf_tot_len buf) w =
                 Ok (Z.of_nat (length (chain_data cs)), w)).
  { apply lift_run. by eapply pbuf_tot_len_law. }
  erewrite bind_Ok by exact Hlen. case_decide as Hd.
  - rewrite Hd. done.
  - rewrite (proj2 (Z.eqb_neq _ _)).
    2: { destruct (chain_data cs); [done|]. cbn. lia. }
    unfold go_cs_pbuf_copy.
    erewrite bind_Ok by (by apply member_run). erewrite bind_Ok by exact Hlen.
    apply lift_run. by eapply pbuf_copy_partial_law.
Qed.

Lemma recv_h_only arg n e buf w cs :
  owned (pbufs (vw w)) cs -> chain_head cs = Some buf ->
  only_app (recv_h arg n e buf) w (fun _ _ => True).
Proof.
  intros Ho Hh. unfold go_tcp_recv_h. apply wp_bind, wp_gets.
  destruct (tcpPcbs (app w) !! e) as [p|]; [|by apply only_app_ret].
  apply only_app_pcb. intros o _. destruct (p_err o); [by apply only_app_ret|].
  apply wp_bind. unfold wpf. rewrite (pbuf_bytes_run _ _ _ Ho Hh).
  case_decide; [by right|]. apply only_app_seq; [by apply only_app_stops, _|].
  intros. by apply only_app_ret.
Qed.

Lemma send_done_h_only arg n e w :
  only_app (go_tcp_send_done_h arg n e) w (fun _ _ => True).
Proof.
  unfold go_tcp_send_done_h. apply wp_bind, wp_gets.
  destruct (tcpPcbs (app w) !! e) as [p|]; [|by apply only_app_ret].
  apply only_app_pcb. intros o _. destruct (p_err o); [by apply only_app_ret|].
  apply only_app_seq; [|intros; by apply only_app_ret].
  case_match; [|by apply only_app_ret].
  apply only_app_seq; [|intros]; apply only_app_stops; unfold sendCount_add, sendWait_send;
    apply _.
Qed.

Lemma close_h_only arg n e w :
  only_app (go_tcp_close_h Event arg n e) w (fun _ _ => True).
Proof.
  unfold go_tcp_close_h. apply wp_bind, wp_gets.
  destruct (tcpPcbs (app w) !! e) as [p|]; [|by apply only_app_ret].
  apply only_app_seq; [by apply only_app_stops, _|]. intros _ a.
  apply only_app_seq; [by apply only_app_stops, _|]. intros _ a2.
  apply only_app_seq; [apply event_close_only|]. intros. by apply only_app_ret.
Qed.

Lemma accept_h_only arg n e w t :
  tcps (vw w) !! n = Some t ->
  only_app (accept_h arg n e) w (fun _ _ => True).
Proof.
  intros Ht. unfold go_tcp_accept_h. apply wp_bind, wp_gets.
  destruct (tcpPcbs (app w) !! e) as [p|]; [by apply only_app_ret|].
  destruct (tcp_local_ip_law _ _ _ Ht) as [la Hla].
  destruct (tcp_remote_ip_law _ _ _ Ht) as [ra Hra].
  destruct (tcp_local_port_law _ _ _ Ht) as [lp Hlp].
  destruct (tcp_remote_port_law _ _ _ Ht) as [rp Hrp].
  apply wp_bind. eapply wp_lift_eq; [exact Hla|].
  apply wp_bind. eapply wp_lift_eq; [exact Hra|].
  apply wp_bind. eapply wp_lift_eq; [exact Hlp|].
  apply wp_bind. eapply wp_lift_eq; [exact Hrp|].
  apply only_app_seq; [by apply only_app_stops, _|]. intros p a.
  apply only_app_seq; [by apply only_app_stops, _|]. intros [] a2.
  apply only_app_seq; [|intros; by apply only_app_ret]. by apply event_accept_only.
Qed.

(** ** The binding keeps what the layer asks of an application *)

(** The TCP members of the tables that [go_cs_init_handle] fills. *)
Record go_table (b : cs_callback S go_state) : Prop := GoTable {
  gt_accept : cb_tcp_accept b =
    Some (go_cs_tcp_accept_h (GoExports0 := go_exports (Some go_cs_) Event));
  gt_recv : cb_tcp_recv b =
    Some (go_cs_tcp_recv_h (GoExports0 := go_exports (Some go_cs_) Event)
            (Some go_cs_));
  gt_send_done : cb_tcp_send_done b =
    Some (go_cs_tcp_send_done_h (GoExports0 := go_exports (Some go_cs_) Event));
  gt_close : cb_tcp_close b =
    Some (go_cs_tcp_close_h (GoExports0 := go_exports (Some go_cs_) Event))
}.

Context (backs : ptr -> option (cs_callback S go_state)) (fuel : nat).
Context (Hbacks : forall p b, backs p = Some b -> go_table b).

Lemma only_app_ret_bind {X Y} (m : C X) (f : X -> Y) w
    (Q : Y -> world S go_state -> Prop) :
  only_app m w (fun _ _ => True) ->
  (forall x a, Q (f x) (with_app a w)) ->
  wpf go_fault (x ← m; mret (f x)) w Q.
Proof.
  intros Hm HQ. apply wp_bind. eapply wpf_mono; [exact Hm|].
  intros x w' (a & -> & _). by apply wp_ret.
Qed.

#[export] Instance go_app_ok : AppOk backs fuel go_fault.
Proof.
  intros p b [Ha Hr Hs Hc]%Hbacks. split; eexists; (split; [eassumption|]); intros w.
  - intros pcb e r I _ He <-.
    destruct (inv_conn _ _ I _ _ He) as (_ & _ & _ & (t & Ht & _) & _).
    apply only_app_ret_bind; [by eapply accept_h_only|]. intros. by apply inv_app.
  - intros pcb p0 e r cs I _ He <- Ho Hh Hun. apply wp_bind.
    eapply wpf_mono; [by eapply recv_h_only|]. intros x w' (a & -> & _).
    apply wp_bind. eapply wpf_Ok; [by apply member_run|]. apply wp_bind, wp_lift. cbn.
    destruct cs as [|[q bs] cs]; [done|]. injection Hh as ->.
    eapply wp_mono; [by eapply pbuf_free_law, pfree_chain|].
    cbn beta. intros _ s Hs1. apply wp_ret.
    by apply (inv_free backs (with_app a w) s ((p0, bs) :: cs)); [apply inv_app| |].
  - intros pcb e r I _ He <- _.
    apply only_app_ret_bind; [apply send_done_h_only|]. intros _ a.
    split; [by apply inv_app|]. by exists r.
  - intros pcb e. apply only_app_ret_bind; [apply close_h_only|]. intros _ a. by exists a.
Qed.

(** ** What a run does *)

Lemma at_pcb_at {X} p o (m : P X) g :
  pcbs g !! p = Some o ->
  at_pcb p m g =
    match m o with
    | Ok (x, o') => Ok (x, set_pcbs (<[p := o']> (pcbs g)) g)
    | Fault f => Fault f
    end.
Proof.
  intros Ho. unfold at_pcb, zoom, at_key. rewrite Ho. by destruct (m o) as [[x o']|].
Qed.

Lemma at_pcb_get_run p o g : pcbs g !! p = Some o -> at_pcb p (gets id) g = Ok (o, g).
Proof.
  intros Ho. unfold at_pcb, zoom, at_key. rewrite Ho. cbn. rewrite insert_id by done.
  by destruct g.
Qed.

Lemma go_get_run p o w :
  pcbs (app w) !! p = Some o -> go (at_pcb p (gets id)) w = Ok (o, w).
Proof.
  intros Ho. unfold go, zoom. rewrite (at_pcb_get_run _ _ _ Ho). by destruct w.
Qed.

(** An operation on the queue of received data of [p]. *)
Lemma at_recvQueued_run {X} p o c (m : M (chan bytes) X) g :
  pcbs g !! p = Some o -> bchans g !! recvQueued o = Some c ->
  at_recvQueued p m g =
    match m c with
    | Ok (x, c') => Ok (x, set_bchans (<[recvQueued o := c']> (bchans g)) g)
    | Fault f => Fault f
    end.
Proof.
  intros Ho Hc. unfold at_recvQueued.
  assert (at_pcb p (gets recvQueued) g = Ok (recvQueued o, g)) as Hq.
  { unfold at_pcb, zoom, at_key. rewrite Ho. cbn. rewrite insert_id by done.
    by destruct g. }
  erewrite bind_Ok by exact Hq. unfold at_bchan, zoom, at_key. rewrite Hc.
  by destruct (m c) as [[x c']|].
Qed.

(** What a packet becomes on the other side. *)
Definition delivered (q : ptr) (c : chan bytes) (data : bytes) (g : go_state) : go_state :=
  set_bchans (<[q := Chan (c_cap c) (c_buf c ++ [data]) false]> (bchans g)) g.

Lemma deliver_run p o c data g :
  pcbs g !! p = Some o -> bchans g !! recvQueued o = Some c ->
  c_closed c = false -> (length (c_buf c) < c_cap c)%nat ->
  at_recvQueued p (chan_send data) g = Ok (tt, delivered (recvQueued o) c data g).
Proof.
  intros Ho Hc Hopen Hroom. rewrite (at_recvQueued_run _ _ _ _ _ Ho Hc).
  by rewrite chan_send_run.
Qed.

Lemma go_tcp_recv_h_run arg n e buf w cs p o c :
  owned (pbufs (vw w)) cs -> chain_head cs = Some buf -> chain_data cs <> [] ->
  tcpPcbs (app w) !! e = Some p -> pcbs (app w) !! p = Some o -> p_err o = false ->
  bchans (app w) !! recvQueued o = Some c -> c_closed c = false ->
  (length (c_buf c) < c_cap c)%nat ->
  recv_h arg n e buf w =
    Ok (0, with_app (delivered (recvQueued o) c (chain_data cs) (app w)) w).
Proof.
  intros Hown Hh Hd Hp Ho Herr Hc Hopen Hroom. unfold go_tcp_recv_h.
  erewrite bind_Ok by done. rewrite Hp. erewrite bind_Ok by (by apply go_get_run).
  rewrite Herr. erewrite bind_Ok.
  2: { rewrite (pbuf_bytes_run _ _ _ Hown Hh). by rewrite decide_False. }
  erewrite bind_Ok; [done|]. unfold go, zoom. by erewrite deliver_run.
Qed.

Lemma Read_run p o data n (c : chan bytes) g :
  pcbs g !! p = Some o -> p_type o = TCP -> recvInter o = false -> p_err o = false ->
  bchans g !! recvQueued o = Some c -> c_buf c = [data] -> data <> [] ->
  (length data <= n)%nat ->
  c_closed (recvedQueue g) = false ->
  (length (c_buf (recvedQueue g)) < c_cap (recvedQueue g))%nat ->
  exists g', Read p n g = Ok ((data, false), g').
Proof.
  intros Ho Ht Hi He Hc Hb Hd Hn Hopen Hroom. unfold Read.
  erewrite bind_Ok by (by apply at_pcb_get_run). rewrite Hi, He.
  erewrite bind_Ok.
  2: { rewrite (at_recvQueued_run _ _ _ _ _ Ho Hc). unfold chan_recv. by rewrite Hb. }
  destruct data as [|b data]; [done|]. rewrite decide_False by lia.
  rewrite decide_True by done. erewrite bind_Ok; [by eexists|].
  unfold on_recvedQueue, zoom. cbn [recvedQueue set_bchans]. by rewrite chan_send_run.
Qed.

(** ** Datagrams *)

Context (get : ip_addr -> bytes) (Hget : g_ip_get go_cs_ = Some get).

(** The key of a host. *)
Definition host_key (a : ip_addr) (port : Z) : bytes * Z :=
  udp_key (take (Z.to_nat (go_cs_ip_len a)) (get a)) port.

Lemma ip_bytes_run a w :
  ip_bytes (Some go_cs_) a w = Ok (take (Z.to_nat (go_cs_ip_len a)) (get a), w).
Proof.
  unfold ip_bytes, go_cs_ip_get. erewrite bind_Ok; [done|].
  erewrite bind_Ok by (by apply member_run). done.
Qed.

(** A datagram from a host that is known already. *)
Lemma go_udp_recv_known arg u a port buf w cs p :
  owned (pbufs (vw w)) cs -> chain_head cs = Some buf -> chain_data cs <> [] ->
  udpPcbs (app w) !! host_key a port = Some p ->
  go_udp_recv_h (Some go_cs_) Event arg u a port buf w =
    (go (at_recvQueued p (chan_send (chain_data cs)));; mret 0) w.
Proof.
  intros Hown Hh Hd Hp. unfold go_udp_recv_h.
  erewrite bind_Ok.
  2: { rewrite (pbuf_bytes_run _ _ _ Hown Hh). by rewrite decide_False. }
  erewrite bind_Ok by apply ip_bytes_run. erewrite bind_Ok by done.
  fold (host_key a port). rewrite Hp. by erewrite bind_Ok by done.
Qed.

(** The callback in C on a packet that Go takes. *)
Lemma call_recv_run w e r p o c cs buf s' :
  es_heap w !! e = Some r -> is_Some (backs (es_callback r)) ->
  owned (pbufs (vw w)) cs -> chain_head cs = Some buf -> chain_data cs <> [] ->
  tcpPcbs (app w) !! e = Some p -> pcbs (app w) !! p = Some o -> p_err o = false ->
  bchans (app w) !! recvQueued o = Some c -> c_closed c = false ->
  (length (c_buf c) < c_cap c)%nat ->
  (exists k, pbuf_free buf (lw w) = Ok (k, s')) ->
  call_tcp_recv backs (es_pcb r) buf e w =
    Ok (ERR_OK, with_app (delivered (recvQueued o) c (chain_data cs) (app w))
                  (with_lw s' w)).
Proof.
  intros Hr [b Hb] Hown Hh Hd Hp Ho Herr Hc Hopen Hroom [k Hf].
  unfold call_tcp_recv, callback_of.
  erewrite bind_Ok by (by apply es_get_run). rewrite Hb. erewrite bind_Ok by done.
  rewrite (gt_recv _ (Hbacks _ _ Hb)). erewrite bind_Ok by done.
  unfold go_cs_tcp_recv_h.
  erewrite bind_Ok by (by eapply go_tcp_recv_h_run).
  erewrite bind_Ok by (by apply member_run).
  erewrite bind_Ok; [done|]. unfold lift. cbn [lw with_app]. by rewrite Hf.
Qed.

(** ** Properties *)

(** With the Go binding as the application every accept, receive, sent and poll call
    that lwIP makes on a reachable state of the connections - one that Go has not
    closed a connection of - either ends, with the invariant of the connections
    kept, or stops inside Go code that waits for another goroutine or panics: the
    layer itself does not fault. *)
Theorem go_callbacks_safe w ev t :
  tcp_reachable backs fuel w -> enough_fuel fuel w -> event_ok backs w ev t ->
  (exists x w', dispatch backs fuel ev t w = Ok (x, w') /\ inv backs w') \/
  (exists x, dispatch backs fuel ev t w = Fault x /\ go_fault x).
Proof.
  intros I%(reachable_inv _ _ (F := go_fault)) Hf Hev.
  pose proof (dispatch_inv _ _ (F := go_fault) _ _ _ I Hf Hev) as Hwp.
  unfold wpf in Hwp. destruct (dispatch backs fuel ev t w) as [[x w']|x]; eauto 6.
Qed.

(** A packet that arrives on a connection that Go has open, with room in its
    queue, is received: lwIP gets [ERR_OK], exactly the packet's buffers are
    freed, the bytes are queued behind what is there, nothing else of the
    binding changes, and a [Read] that finds nothing before them returns
    exactly them. *)
Theorem go_recv_delivers w e r t p o c cs buf :
  tcp_reachable backs fuel w -> es_heap w !! e = Some r ->
  tcps (vw w) !! es_pcb r = Some t ->
  owned (pbufs (vw w)) cs -> chain_head cs = Some buf -> chain_data cs <> [] ->
  tcpPcbs (app w) !! e = Some p -> pcbs (app w) !! p = Some o -> p_err o = false ->
  bchans (app w) !! recvQueued o = Some c -> c_closed c = false ->
  (length (c_buf c) < c_cap c)%nat ->
  exists s',
    dispatch backs fuel (EvData (es_pcb r) buf) t w =
      Ok (ERR_OK,
        with_app (delivered (recvQueued o) c (chain_data cs) (app w))
          (with_lw s'
            (with_es (<[e := es_set_state ES_RECEIVED r]> (es_heap w)) w))) /\
    view s' = with_pbufs (without (pbufs (vw w)) cs) (vw w) /\
    (p_type o = TCP -> recvInter o = false -> c_buf c = [] ->
     c_closed (recvedQueue (app w)) = false ->
     (length (c_buf (recvedQueue (app w))) < c_cap (recvedQueue (app w)))%nat ->
     forall n, (length (chain_data cs) <= n)%nat ->
     exists g', Read p n (delivered (recvQueued o) c (chain_data cs) (app w)) =
       Ok ((chain_data cs, false), g')).
Proof.
  intros I%(reachable_inv _ _ (F := go_fault)) Hr Ht Hown Hh Hd Hp Ho Herr Hc Hopen Hroom.
  destruct (inv_conn _ _ I _ _ Hr) as (_ & _ & Hb & (t' & Ht' & Ha & _) & _).
  assert (t' = t) as -> by congruence.
  assert (exists k s', pbuf_free buf (lw w) = Ok (k, s') /\
    view s' = with_pbufs (without (pbufs (vw w)) cs) (vw w)) as (k & s' & Hpf & Hs').
  { destruct cs as [|[q bs] cs]; [done|]. injection Hh as ->.
    pose proof (pbuf_free_law _ _ _ (pfree_chain _ _ _ _ Hown)) as Hlaw.
    apply wp_Ok in Hlaw as (k & s' & ? & ?). by exists k, s'. }
  exists s'. split; [|split; [done|]].
  - unfold dispatch. rewrite Ha, (raw_recv_run _ _ _ _ _ I Hr).
    apply (call_recv_run (with_es (<[e := es_set_state ES_RECEIVED r]> (es_heap w)) w)
             e (es_set_state ES_RECEIVED r) p o c cs); try done.
    + apply lookup_insert_eq.
    + by exists k.
  - intros Hty Hi Hb0 Hro Hrr n Hn.
    eapply (Read_run p o _ _ (Chan (c_cap c) (c_buf c ++ [_]) false)); try done.
    + by apply lookup_insert_eq.
    + cbn. by rewrite Hb0.
Qed.

(** Writing to the object of a connection. *)
Lemma at_pcb_run {X} p o (m : P X) g x o' :
  pcbs g !! p = Some o -> m o = Ok (x, o') ->
  at_pcb p m g = Ok (x, set_pcbs (<[p := o']> (pcbs g)) g).
Proof. intros Ho Hm. unfold at_pcb, zoom, at_key. by rewrite Ho, Hm. Qed.

(** [close] of an open datagram connection whose lock is free. *)
Lemma close_udp_run p o c g :
  pcbs g !! p = Some o -> p_type o = UDP -> lck o = false -> p_err o = false ->
  recvInter o = false -> bchans g !! recvQueued o = Some c -> c_closed c = false ->
  close p g =
    Ok (false, set_pcbs (<[p := with_lck false (with_err true o)]> (pcbs g))
      (set_bchans (<[recvQueued o := Chan (c_cap c) (c_buf c) true]> (bchans g)) g)).
Proof.
  intros Ho Ht Hl He Hi Hc Hopen. unfold close.
  erewrite bind_Ok by (eapply at_pcb_run; [done|]; unfold lock; by rewrite Hl).
  erewrite bind_Ok by (apply at_pcb_get_run; cbn; apply lookup_insert_eq).
  cbn [p_err with_lck]. rewrite He.
  erewrite bind_Ok by (eapply at_pcb_run; [cbn; apply lookup_insert_eq|done]).
  cbn [recvInter with_lck with_err]. rewrite Hi.
  erewrite bind_Ok.
  2: { erewrite at_recvQueued_run; [|cbn; apply lookup_insert_eq|exact Hc].
       unfold chan_close. by rewrite Hopen. }
  cbn [p_type with_lck]. rewrite decide_False by (by rewrite Ht).
  erewrite bind_Ok by done.
  erewrite bind_Ok by (eapply at_pcb_run; [cbn; apply lookup_insert_eq|done]).
  cbn. by rewrite !insert_insert_eq.
Qed.

(** [PCB.Close] closes the queue of a datagram connection at once, but the
    processing loop forgets the connection only when it takes the entry that
    [Close] leaves for it.  A datagram from the same host that is received
    before makes the binding send on the closed queue: the goroutine that
    runs the stack panics. *)
Theorem go_udp_recv_after_close_panics arg u a port buf w cs p o c :
  owned (pbufs (vw w)) cs -> chain_head cs = Some buf -> chain_data cs <> [] ->
  udpPcbs (app w) !! host_key a port = Some p ->
  pcbs (app w) !! p = Some o -> p_type o = UDP -> lck o = false ->
  p_err o = false -> recvInter o = false ->
  bchans (app w) !! recvQueued o = Some c -> c_closed c = false ->
  c_closed (closeQueue (app w)) = false ->
  (length (c_buf (closeQueue (app w))) < c_cap (closeQueue (app w)))%nat ->
  exists g', Close p (app w) = Ok (false, g') /\
    go_udp_recv_h (Some go_cs_) Event arg u a port buf (with_app g' w) =
      Fault Panicked.
Proof.
  intros Hown Hh Hd Hp Ho Ht Hl He Hi Hc Hopen Hqo Hqr.
  eexists. split.
  - unfold Close. erewrite bind_Ok by (by eapply close_udp_run).
    erewrite bind_Ok; [done|]. unfold on_closeQueue, zoom. cbn [closeQueue set_pcbs set_bchans].
    by rewrite chan_send_run.
  - rewrite (go_udp_recv_known _ _ _ _ _ _ cs p) by done. apply bind_Fault.
    unfold go, zoom. cbn [app with_app].
    erewrite at_recvQueued_run; [|cbn; apply lookup_insert_eq|cbn; apply lookup_insert_eq].
    done.
Qed.

(** A datagram without data makes the binding index an empty slice: the
    goroutine that runs the stack panics.  Any host can send one. *)
Theorem go_udp_empty_panics b u a port buf w cs cb :
  backs b = Some cb ->
  cb_udp_recv cb = Some (go_cs_udp_recv_h
    (GoExports0 := go_exports (Some go_cs_) Event) (Some go_cs_)) ->
  owned (pbufs (vw w)) cs -> chain_head cs = Some buf -> chain_data cs = [] ->
  cs_udp_raw_recv backs (Some b) u (Some buf) a port w = Fault Panicked.
Proof.
  intros Hb Hcb Hown Hh Hd. unfold cs_udp_raw_recv.
  erewrite bind_Ok by done. rewrite Hb. erewrite bind_Ok by done.
  rewrite Hcb. erewrite bind_Ok by done. apply bind_Fault.
  unfold go_cs_udp_recv_h. apply bind_Fault. apply bind_Fault.
  rewrite (pbuf_bytes_run _ _ _ Hown Hh). by rewrite decide_True.
Qed.

(** Of an IPv6 address [cs_ip_get] keeps one byte in four, and the binding
    finds the connection of a datagram by these bytes: a datagram from a host
    that agrees in them with one that is known, from the same port, is put into
    the queue of that other host's connection. *)
Theorem go_udp_v6_mixup sg arg u a0 a1 a2 a3 b0 b1 b2 b3 port buf w cs p o c :
  get = cs_ip_get sg ->
  map (fun x => byte_of x 3) [a0; a1; a2; a3] =
    map (fun x => byte_of x 3) [b0; b1; b2; b3] ->
  owned (pbufs (vw w)) cs -> chain_head cs = Some buf -> chain_data cs <> [] ->
  udpPcbs (app w) !! host_key (IPv6 a0 a1 a2 a3) port = Some p ->
  pcbs (app w) !! p = Some o -> bchans (app w) !! recvQueued o = Some c ->
  c_closed c = false -> (length (c_buf c) < c_cap c)%nat ->
  go_udp_recv_h (Some go_cs_) Event arg u (IPv6 b0 b1 b2 b3) port buf w =
    Ok (0, with_app (delivered (recvQueued o) c (chain_data cs) (app w)) w).
Proof.
  intros Hg [= H0 H1 H2 H3] Hown Hh Hd Hp Ho Hc Hopen Hroom.
  assert (host_key (IPv6 b0 b1 b2 b3) port = host_key (IPv6 a0 a1 a2 a3) port) as Hk.
  { unfold host_key. rewrite Hg. unfold cs_ip_get. rewrite !v6_word_eq.
    unfold sign_byte. by rewrite H0, H1, H2, H3. }
  rewrite (go_udp_recv_known _ _ _ _ _ _ cs p) by (try done; by rewrite Hk).
  erewrite bind_Ok; [done|]. unfold go, zoom. by erewrite deliver_run.
Qed.

End app.
