(* ===== verification/GoWf.v ===== *)
(** * Well-formed states of the Go binding

    Which objects, channels and tables of src/lwipcs.go can occur together:
    every connection in a table is an object of the right type under its own
    key, every object has its channels, and a queue of received data is open
    and belongs to one connection as long as that is neither closed nor
    intercepted.  Proved: the methods of [PCB] keep this, and where
    exactly they panic. *)

From S2P Require Import Prelude Lwip Cs Udp Netif Bridge.
From S2P Require Import GoChan GoBind GoApp.
Local Open Scope Z_scope.

(** ** The invariant *)

Section wf.
Context (get : ip_addr -> bytes).
Implicit Types (g : go_state) (o : PCB).

(** An object by itself. *)
Record obj_ok o : Prop := ObjOk {
  ob_wait : is_Some (sendWait o) <-> p_type o = TCP;
  ob_closed : forall c, sendWait o = Some c -> c_closed c = p_err o;
  ob_state : p_type o = TCP -> is_Some (p_state o)
}.

(** Connected by a queue of its own. *)
Definition connected o : Prop := p_err o = false /\ recvInter o = false.

Record go_wf g : Prop := GoWf {
  wf_obj : forall p o, pcbs g !! p = Some o -> obj_ok o;
  wf_chan : forall p o, pcbs g !! p = Some o -> is_Some (bchans g !! recvQueued o);
  wf_open : forall p o c, pcbs g !! p = Some o -> connected o ->
    bchans g !! recvQueued o = Some c -> c_closed c = false;
  wf_own : forall p p' o o', pcbs g !! p = Some o -> pcbs g !! p' = Some o' ->
    recvInter o = false -> p <> p' -> recvQueued o <> recvQueued o';
  wf_tcp : forall e p, tcpPcbs g !! e = Some p ->
    exists o, pcbs g !! p = Some o /\ p_type o = TCP /\ p_state o = Some e;
  wf_udp : forall k p, udpPcbs g !! k = Some p ->
    exists o, pcbs g !! p = Some o /\ p_type o = UDP /\
      host_key get (remoteIP o) (remotePort o) = k;
  wf_recved : forall p n, (p, n) ∈ c_buf (recvedQueue g) ->
    exists o, pcbs g !! p = Some o /\ p_type o = TCP;
  wf_send : forall p data, (p, data) ∈ c_buf (sendQueue g) ->
    is_Some (pcbs g !! p) /\ data <> [];
  wf_close : forall p, p ∈ c_buf (closeQueue g) -> is_Some (pcbs g !! p);
  wf_queues : c_closed (recvedQueue g) = false /\ c_closed (sendQueue g) = false /\
    c_closed (closeQueue g) = false
}.

Lemma go_wf_init : go_wf go_state0.
Proof. split; cbn; try done; intros ? ? []%elem_of_nil || intros ? []%elem_of_nil. Qed.

(** What an operation on an object leaves alone. *)
Record same_id o o' : Prop := SameId {
  id_type : p_type o' = p_type o;
  id_state : p_state o' = p_state o;
  id_ip : remoteIP o' = remoteIP o;
  id_port : remotePort o' = remotePort o
}.

Lemma same_id_refl o : same_id o o.
Proof. done. Qed.

(** ** Changes that keep it *)

(** The tables and queues only ask of an object what [same_id] keeps. *)
Lemma go_wf_pcb_gen g p o o' :
  go_wf g -> pcbs g !! p = Some o -> same_id o o' -> obj_ok o' ->
  is_Some (bchans g !! recvQueued o') ->
  (connected o' -> connected o) ->
  (recvInter o' = false -> recvInter o = false /\ recvQueued o' = recvQueued o) ->
  (forall p1 o1, p1 <> p -> pcbs g !! p1 = Some o1 -> recvInter o1 = false ->
     recvQueued o1 <> recvQueued o') ->
  go_wf (set_pcbs (<[p := o']> (pcbs g)) g).
Proof.
  intros W Ho [It Is Iip Ipt] Hok Hq Hco Hi Hown.
  assert (Hsome : forall p1, is_Some (pcbs g !! p1) ->
    is_Some (<[p := o']> (pcbs g) !! p1)).
  { intros p1 Hp1. rewrite lookup_insert. by case_decide. }
  split; cbn; try apply W.
  - intros p1 o1 [[_ <-]|[_ H1]]%lookup_insert_Some; [done|by eapply W].
  - intros p1 o1 [[_ <-]|[_ H1]]%lookup_insert_Some; [done|by eapply W].
  - intros p1 o1 c [[_ <-]|[_ H1]]%lookup_insert_Some; [|by eapply W].
    intros Hc. destruct (Hi (proj2 Hc)) as [_ ->]. eapply wf_open; [done|exact Ho|auto].
  - intros p1 p2 o1 o2 [[<- <-]|[Hn1 H1]]%lookup_insert_Some
      [[<- <-]|[Hn2 H2]]%lookup_insert_Some; try done.
    + intros [? ->]%Hi ?. by eapply W.
    + intros ? ?. by eapply Hown.
    + by eapply W.
  - intros e p1 (o1 & H1 & Ht & Hs)%(wf_tcp _ W). rewrite lookup_insert. case_decide.
    + subst. eexists. split; [done|]. rewrite It, Is. split; congruence.
    + eauto.
  - intros k p1 (o1 & H1 & Ht & Hs)%(wf_udp _ W). rewrite lookup_insert. case_decide.
    + subst. eexists. split; [done|]. rewrite It, Iip, Ipt. split; congruence.
    + eauto.
  - intros p1 n (o1 & H1 & Ht)%(wf_recved _ W). rewrite lookup_insert. case_decide.
    + subst. eexists. split; [done|]. rewrite It. congruence.
    + eauto.
  - intros p1 d [H1 Hd]%(wf_send _ W). split; [by apply Hsome|done].
  - intros p1 H1%(wf_close _ W). by apply Hsome.
Qed.

(** An object that keeps its queue. *)
Lemma go_wf_pcb g p o o' :
  go_wf g -> pcbs g !! p = Some o -> same_id o o' -> obj_ok o' ->
  recvQueued o' = recvQueued o -> recvInter o' = recvInter o ->
  (p_err o' = false -> p_err o = false) ->
  go_wf (set_pcbs (<[p := o']> (pcbs g)) g).
Proof.
  intros W Ho Hid Hok Hq Hi He. apply (go_wf_pcb_gen g p o o'); try done.
  - rewrite Hq. by eapply W.
  - intros [? ?]. split; [auto|congruence].
  - by rewrite Hq, Hi.
  - intros p1 o1 Hne H1 Hi1. rewrite Hq. by eapply W.
Qed.

(** A queue of received data is only closed when its owner is not connected by
    it any more. *)
Lemma go_wf_bchan g q c c' :
  go_wf g -> bchans g !! q = Some c ->
  (c_closed c' = c_closed c \/
   forall p o, pcbs g !! p = Some o -> recvQueued o = q -> ~ connected o) ->
  go_wf (set_bchans (<[q := c']> (bchans g)) g).
Proof.
  intros W Hc Hcl. split; cbn; try apply W.
  - intros p o Ho. rewrite lookup_insert. case_decide; [done|by eapply W].
  - intros p o c1 Ho Hco [[Hq <-]|[_ H1]]%lookup_insert_Some; [|by eapply W].
    destruct Hcl as [->|Hn]; [eapply W; [done..|by rewrite <- Hq]|].
    by destruct (Hn _ _ Ho (eq_sym Hq)).
Qed.

(** A new object with a new queue. *)
Lemma go_wf_new g p q o :
  go_wf g -> pcbs g !! p = None -> bchans g !! q = None ->
  obj_ok o -> recvQueued o = q ->
  go_wf (set_pcbs (<[p := o]> (pcbs g))
           (set_bchans (<[q := make_chan QUEUE]> (bchans g)) g)).
Proof.
  intros W Hp Hq Hok Hoq.
  assert (Hold : forall p1 o1, pcbs g !! p1 = Some o1 ->
    <[p := o]> (pcbs g) !! p1 = Some o1 /\ recvQueued o1 <> q).
  { intros p1 o1 H1. split.
    - rewrite lookup_insert_ne; [done|]. congruence.
    - intros <-. destruct (wf_chan _ W _ _ H1) as [? ?]. congruence. }
  split; cbn; try apply W.
  - intros p1 o1 [[_ <-]|[_ H1]]%lookup_insert_Some; [done|by eapply W].
  - intros p1 o1 [[_ <-]|[_ H1]]%lookup_insert_Some.
    + rewrite Hoq, lookup_insert_eq. done.
    + rewrite lookup_insert_ne by (symmetry; by eapply Hold). by eapply W.
  - intros p1 o1 c [[_ <-]|[_ H1]]%lookup_insert_Some Hco.
    + rewrite Hoq, lookup_insert_eq. by intros [= <-].
    + rewrite lookup_insert_ne by (symmetry; by eapply Hold). by eapply W.
  - intros p1 p2 o1 o2 [[<- <-]|[Hn1 H1]]%lookup_insert_Some
      [[<- <-]|[Hn2 H2]]%lookup_insert_Some; rewrite ?Hoq; try done.
    + intros _ _. symmetry. by eapply Hold.
    + intros _ _. by eapply Hold.
    + by eapply W.
  - intros e p1 (o1 & H1 & ?)%(wf_tcp _ W). exists o1. split; [by apply Hold|done].
  - intros k p1 (o1 & H1 & ?)%(wf_udp _ W). exists o1. split; [by apply Hold|done].
  - intros p1 n (o1 & H1 & ?)%(wf_recved _ W). exists o1. split; [by apply Hold|done].
  - intros p1 d [[o1 H1] Hd]%(wf_send _ W). split; [|done]. exists o1. by apply Hold.
  - intros p1 [o1 H1]%(wf_close _ W). exists o1. by apply Hold.
Qed.

(** The queues to the processing loop. *)
Lemma go_wf_recved g c :
  go_wf g -> c_closed c = false ->
  (forall p n, (p, n) ∈ c_buf c -> exists o, pcbs g !! p = Some o /\ p_type o = TCP) ->
  go_wf (set_recvedQueue c g).
Proof. intros W Hc Hb. destruct (wf_queues _ W) as (? & ? & ?). split; try apply W; done. Qed.

Lemma go_wf_send g c :
  go_wf g -> c_closed c = false ->
  (forall p data, (p, data) ∈ c_buf c -> is_Some (pcbs g !! p) /\ data <> []) ->
  go_wf (set_sendQueue c g).
Proof. intros W Hc Hb. destruct (wf_queues _ W) as (? & ? & ?). split; try apply W; done. Qed.

Lemma go_wf_close g c :
  go_wf g -> c_closed c = false ->
  (forall p, p ∈ c_buf c -> is_Some (pcbs g !! p)) -> go_wf (set_closeQueue c g).
Proof. intros W Hc Hb. destruct (wf_queues _ W) as (? & ? & ?). split; try apply W; done. Qed.

(** ** Symbolic runs of the methods

    [F] is what a run may stop with: waiting, and a panic where a hypothesis
    says so. *)
Section methods.
Context {F : fault -> Prop} (HB : F Blocked).

Lemma wp_at_pcb {X} p o (m : P X) g (Q : X -> go_state -> Prop) :
  pcbs g !! p = Some o ->
  wpf F m o (fun x o' => Q x (set_pcbs (<[p := o']> (pcbs g)) g)) ->
  wpf F (at_pcb p m) g Q.
Proof. intros Ho Hm. apply wp_zoom. by eapply wp_at_key. Qed.

Lemma wp_pcb_get {X} (f : PCB -> X) p o g (Q : X -> go_state -> Prop) :
  pcbs g !! p = Some o -> Q (f o) g -> wpf F (at_pcb p (gets f)) g Q.
Proof.
  intros Ho HQ. eapply wp_at_pcb; [done|]. apply wp_gets. rewrite insert_id by done.
  by destruct g.
Qed.

Lemma wp_recvQueued {X} p o c (m : M (chan bytes) X) g (Q : X -> go_state -> Prop) :
  pcbs g !! p = Some o -> bchans g !! recvQueued o = Some c ->
  wpf F m c (fun x c' => Q x (set_bchans (<[recvQueued o := c']> (bchans g)) g)) ->
  wpf F (at_recvQueued p m) g Q.
Proof.
  intros Ho Hc Hm. unfold at_recvQueued. apply wp_bind. eapply wp_pcb_get; [done|].
  apply wp_zoom. by eapply wp_at_key.
Qed.

Lemma wp_chan_send {T} (x : T) c (Q : unit -> chan T -> Prop) :
  (c_closed c = true -> F Panicked) ->
  (c_closed c = false -> Q tt (Chan (c_cap c) (c_buf c ++ [x]) false)) ->
  wpf F (chan_send x) c Q.
Proof.
  intros Hp HQ. unfold wpf, chan_send. destruct (c_closed c); [auto|].
  case_decide; auto.
Qed.

Lemma wp_chan_recv {T} c (Q : option T -> chan T -> Prop) :
  (forall x l, c_buf c = x :: l -> Q (Some x) (Chan (c_cap c) l (c_closed c))) ->
  (c_buf c = [] -> c_closed c = true -> Q None c) ->
  wpf F chan_recv c Q.
Proof.
  intros Hs Hn. unfold wpf, chan_recv. destruct (c_buf c); [|auto].
  destruct (c_closed c); auto.
Qed.

Lemma wp_chan_close {T} c (Q : unit -> chan T -> Prop) :
  c_closed c = false -> Q tt (Chan (c_cap c) (c_buf c) true) ->
  wpf F chan_close c Q.
Proof. intros Hc HQ. unfold wpf, chan_close. by rewrite Hc. Qed.

Lemma wp_lock p o g (Q : unit -> go_state -> Prop) :
  pcbs g !! p = Some o ->
  (lck o = false -> Q tt (set_pcbs (<[p := with_lck true o]> (pcbs g)) g)) ->
  wpf F (at_pcb p lock) g Q.
Proof.
  intros Ho HQ. eapply wp_at_pcb; [done|]. unfold wpf, lock. destruct (lck o); auto.
Qed.

Lemma wp_unlock p o g (Q : unit -> go_state -> Prop) :
  pcbs g !! p = Some o -> lck o = true ->
  Q tt (set_pcbs (<[p := with_lck false o]> (pcbs g)) g) -> wpf F (at_pcb p unlock) g Q.
Proof.
  intros Ho Hl HQ. eapply wp_at_pcb; [done|]. unfold wpf, unlock. by rewrite Hl.
Qed.

(** The state, and the objects that it has. *)
Definition grown g g' : Prop :=
  go_wf g' /\ forall p, is_Some (pcbs g !! p) -> is_Some (pcbs g' !! p).

Lemma grown_wf g : go_wf g -> grown g g.
Proof. done. Qed.

Lemma grown_pcb g p o o' :
  go_wf g -> pcbs g !! p = Some o -> same_id o o' -> obj_ok o' ->
  recvQueued o' = recvQueued o -> recvInter o' = recvInter o ->
  (p_err o' = false -> p_err o = false) ->
  grown g (set_pcbs (<[p := o']> (pcbs g)) g).
Proof.
  intros. split; [by eapply go_wf_pcb|]. intros p1 ?. cbn. rewrite lookup_insert.
  by case_decide.
Qed.

(** [close] of the queue of an object that has got its error. *)
Lemma grown_close g p o o' c c' :
  go_wf g -> pcbs g !! p = Some o -> same_id o o' -> obj_ok o' ->
  recvQueued o' = recvQueued o -> recvInter o' = recvInter o -> p_err o' = true ->
  recvInter o = false -> bchans g !! recvQueued o = Some c ->
  grown g (set_pcbs (<[p := o']> (pcbs g))
             (set_bchans (<[recvQueued o := c']> (bchans g)) g)).
Proof.
  intros W Ho Hid Hok Hq Hi He Hin Hc.
  destruct (grown_pcb g p o o' W Ho Hid Hok Hq Hi) as [W1 Hg]; [by rewrite He|].
  split; [|exact Hg].
  apply (go_wf_bchan (set_pcbs (<[p := o']> (pcbs g)) g) (recvQueued o) c c' W1 Hc).
  right. intros p1 o1 H1 Hq1 [He1 Hi1]. cbn in H1.
  apply lookup_insert_Some in H1 as [[_ <-]|[Hne H1]]; [congruence|].
  by apply (wf_own _ W _ _ _ _ Ho H1 Hin Hne).
Qed.

Lemma close_wf p o g :
  go_wf g -> pcbs g !! p = Some o -> wpf F (close p) g (fun _ => grown g).
Proof.
  intros W Ho. pose proof (wf_obj _ W _ _ Ho) as Hok.
  destruct (wf_chan _ W _ _ Ho) as [c Hc].
  unfold close. apply wp_bind. eapply wp_lock; [done|]. intros _.
  apply wp_bind. eapply wp_pcb_get; [apply lookup_insert_eq|]. cbn [id p_err with_lck].
  destruct (decide (p_err o = true)) as [He|He%not_true_is_false]; rewrite He.
  { apply wp_bind. eapply wp_unlock; [apply lookup_insert_eq|done|]. apply wp_ret.
    cbn. rewrite insert_insert_eq. apply (grown_pcb g p o); try done.
    destruct Hok. by split. }
  apply wp_bind. eapply wp_at_pcb; [apply lookup_insert_eq|]. apply wp_modify.
  cbn. rewrite insert_insert_eq.
  apply wp_bind.
  eapply (wpf_mono _ _ (fun _ g2 =>
    pcbs g2 = <[p := with_err true (with_lck true o)]> (pcbs g) /\
    (forall o', same_id o o' -> obj_ok o' -> recvQueued o' = recvQueued o ->
       recvInter o' = recvInter o -> p_err o' = true ->
       grown g (set_pcbs (<[p := o']> (pcbs g)) g2)))).
  - destruct (recvInter o) eqn:Hi.
    + apply wp_ret. split; [done|]. intros o' ? ? ? ? He'.
      apply (grown_pcb g p o); try done; congruence.
    + eapply wp_recvQueued; [apply lookup_insert_eq|done|].
      apply wp_chan_close; [by eapply wf_open|]. split; [done|]. intros.
      eapply (grown_close g p o); try done; congruence.
  - cbn beta. intros _ g2 [Hp Hg]. destruct Hok as [Hw Hcl Hst].
    apply wp_bind. case_decide as Ht; cbn in Ht.
    + destruct (proj2 Hw Ht) as [k Hk].
      eapply wp_at_pcb; [rewrite Hp; apply lookup_insert_eq|].
      unfold sendWait_close, on_sendWait, wpf. cbn [sendWait with_err with_lck].
      rewrite Hk. unfold chan_close. rewrite (Hcl _ Hk), He.
      apply wp_bind. eapply wp_unlock; [apply lookup_insert_eq|done|]. apply wp_ret.
      cbn. rewrite Hp, !insert_insert_eq. apply Hg; try done.
      split; cbn; [done| |done]. by intros ? [= <-].
    + apply wp_ret. apply wp_bind.
      eapply wp_unlock; [rewrite Hp; apply lookup_insert_eq|done|]. apply wp_ret.
      cbn. rewrite Hp, !insert_insert_eq. apply Hg; try done.
      split; cbn; [done| |done]. intros k Hk. destruct Ht. by apply Hw.
Qed.

Lemma Close_wf p o g :
  go_wf g -> pcbs g !! p = Some o -> wpf F (Close p) g (fun _ => grown g).
Proof.
  intros W Ho. unfold Close. apply wp_bind. eapply wpf_mono; [by eapply close_wf|].
  cbn beta. intros err g' [W' Hg]. apply wp_bind, wp_zoom. apply wp_chan_send.
  { intros H. by destruct (wf_queues _ W') as (_ & _ & ?); congruence. }
  intros Hopen. apply wp_ret. split; [|exact Hg]. apply go_wf_close; [done|done|].
  intros p1 [H1|H1]%elem_of_app; [by eapply (wf_close _ W')|].
  apply list_elem_of_singleton in H1 as ->. by apply Hg.
Qed.

Lemma Read_wf p o n g :
  go_wf g -> pcbs g !! p = Some o ->
  (recvInter o = true -> F Panicked) ->
  (forall c b l, p_err o = false -> bchans g !! recvQueued o = Some c ->
     c_buf c = b :: l -> (n < length b)%nat -> F Panicked) ->
  wpf F (Read p n) g (fun _ => grown g).
Proof.
  intros W Ho Hi Hn. destruct (wf_chan _ W _ _ Ho) as [c Hc].
  unfold Read. apply wp_bind. eapply wp_pcb_get; [done|]. cbn [id].
  destruct (recvInter o); [by apply wp_stop, Hi|].
  destruct (p_err o) eqn:He; [by apply wp_ret, grown_wf|].
  apply wp_bind. eapply wp_recvQueued; [done..|]. apply wp_chan_recv.
  - intros b l Hb.
    assert (W1 : go_wf (set_bchans (<[recvQueued o := Chan (c_cap c) l (c_closed c)]>
      (bchans g)) g)) by (eapply go_wf_bchan; [done..|by left]).
    destruct b as [|z b].
    { apply wp_bind. eapply wp_pcb_get; [exact Ho|]. by apply wp_ret. }
    case_decide as Hlen.
    { apply wp_stop. by eapply Hn. }
    case_decide as Ht; [|by apply wp_bind, wp_ret, wp_ret].
    apply wp_bind, wp_zoom. apply wp_chan_send.
    { intros H. by destruct (wf_queues _ W) as (? & _ & _); cbn in *; congruence. }
    intros Hopen. apply wp_ret. split; [|done]. apply go_wf_recved; [done..|].
    cbn. intros p1 k [H1|H1]%elem_of_app; [by eapply (wf_recved _ W)|].
    apply list_elem_of_singleton in H1 as [= -> ->]. by exists o.
  - intros Hb Hcl. apply wp_bind. eapply wp_pcb_get; [exact Ho|]. apply wp_ret.
    split; [|done]. eapply go_wf_bchan; [done..|by left].
Qed.

Lemma Write_wf p o b g :
  go_wf g -> pcbs g !! p = Some o -> wpf F (Write p b) g (fun _ => grown g).
Proof.
  intros W Ho. pose proof (wf_obj _ W _ _ Ho) as Hok. unfold Write.
  destruct b as [|z b]; [by apply wp_ret, grown_wf|].
  apply wp_bind. eapply wp_pcb_get; [done|]. cbn [id].
  apply wp_bind.
  eapply (wpf_mono _ _ (fun _ => grown g)).
  2: { cbn beta. intros _ g' [W' Hg]. destruct (Hg p) as [o' Ho']; [done|].
       apply wp_bind. eapply wp_pcb_get; [done|]. by apply wp_ret. }
  destruct (p_err o) eqn:He; [by apply wp_ret, grown_wf|].
  (* putting the entry into the queue *)
  assert (Hsend : forall g1 (Q : unit -> go_state -> Prop), grown g g1 ->
    (forall c, grown g (set_sendQueue c g1) -> Q tt (set_sendQueue c g1)) ->
    wpf F (on_sendQueue (chan_send (p, z :: b))) g1 Q).
  { intros g1 Q [W1 Hg1] HQ. apply wp_zoom, wp_chan_send.
    { intros H. by destruct (wf_queues _ W1) as (_ & ? & _); congruence. }
    intros Hopen. apply HQ. split; [|exact Hg1]. apply go_wf_send; [done..|].
    cbn. intros p1 d [H1|H1]%elem_of_app; [by eapply (wf_send _ W1)|].
    apply list_elem_of_singleton in H1 as [= -> ->]. split; [by apply Hg1|done]. }
  destruct (decide (p_type o = TCP)) as [Ht|Ht].
  - apply wp_bind. eapply wp_lock; [done|]. intros _.
    assert (Hok' : obj_ok (with_lck true o)) by (destruct Hok; by split).
    apply wp_bind, Hsend; [by apply (grown_pcb g p o)|]. intros q [W2 Hg2].
    destruct (proj2 (ob_wait _ Hok) Ht) as [k Hk].
    pose proof (ob_closed _ Hok _ Hk) as Hcl. rewrite He in Hcl.
    apply wp_bind. unfold sendWait_recv.
    eapply wp_at_pcb; [cbn; apply lookup_insert_eq|]. apply wp_bind.
    unfold wpf, on_sendWait. cbn [sendWait with_lck]. rewrite Hk. unfold chan_recv.
    destruct (c_buf k) as [|x l]; rewrite Hcl; [done|]. cbn.
    eapply wp_unlock; [cbn; apply lookup_insert_eq|done|]. cbn.
    rewrite insert_insert_eq.
    match goal with |- grown _ (set_pcbs (<[_ := ?o']> _) _) =>
      destruct (grown_pcb _ p (with_lck true o) o' W2) as [W3 Hg3] end; cbn; try done.
    + apply lookup_insert_eq.
    + destruct Hok. split; cbn; [done| |done]. by intros ? [= <-].
    + split; [exact W3|]. intros p1 Hp1. by apply Hg3, Hg2.
  - apply wp_bind, wp_ret. apply wp_bind, Hsend; [by apply grown_wf|].
    intros q Hg. by apply wp_ret.
Qed.

Lemma Intercept_wf p o c g :
  go_wf g -> pcbs g !! p = Some o ->
  (lck o = false -> recvInter o = true \/
     (exists q, bchans g !! recvQueued o = Some q /\ c_closed q = true) -> F Panicked) ->
  is_Some (bchans g !! c) ->
  (forall p' o', pcbs g !! p' = Some o' -> recvInter o' = false -> recvQueued o' <> c) ->
  wpf F (Intercept p c) g (fun _ => grown g).
Proof.
  intros W Ho HP Hc Hown. destruct (wf_chan _ W _ _ Ho) as [q Hq].
  unfold Intercept. apply wp_bind. eapply wp_lock; [done|]. intros Hlk.
  apply wp_bind. eapply wp_pcb_get; [apply lookup_insert_eq|]. cbn [id recvInter with_lck].
  destruct (recvInter o) eqn:Hi.
  { apply wp_bind. eapply wp_unlock; [apply lookup_insert_eq|done|]. apply wp_stop, HP; [done|].
    by left. }
  apply wp_bind. eapply wp_at_pcb; [apply lookup_insert_eq|]. apply wp_modify.
  cbn. rewrite insert_insert_eq.
  apply wp_bind. eapply wp_recvQueued; [apply lookup_insert_eq|done|].
  unfold wpf at 1, chan_close.
  destruct (c_closed q) eqn:Hcl.
  { apply HP; [done|]. right. by exists q. }
  cbn.
  apply wp_bind. eapply wp_at_pcb; [cbn; apply lookup_insert_eq|]. apply wp_modify.
  cbn. rewrite insert_insert_eq.
  eapply wp_unlock; [cbn; apply lookup_insert_eq|done|]. cbn. rewrite insert_insert_eq.
  set (o' := with_lck false _).
  assert (W1 : go_wf (set_pcbs (<[p := o']> (pcbs g)) g)).
  { apply (go_wf_pcb_gen g p o o'); try done.
    - destruct (wf_obj _ W _ _ Ho). by split.
    - by intros [_ ?].
    - intros p1 o1 _ H1 Hi1. by apply (Hown _ _ H1 Hi1). }
  split.
  - apply (go_wf_bchan (set_pcbs (<[p := o']> (pcbs g)) g) (recvQueued o) q _ W1 Hq).
    right. intros p1 o1 H1 Hq1 [He1 Hi1]. cbn in H1.
    apply lookup_insert_Some in H1 as [[_ <-]|[Hne H1]]; [done|].
    by apply (wf_own _ W _ _ _ _ Ho H1 Hi Hne).
  - intros p1 Hp1. cbn. rewrite lookup_insert. by case_decide.
Qed.

End methods.

(** ** Properties *)

(** The methods that change the state. *)
Inductive method : Type :=
| MRead (n : nat)
| MWrite (b : bytes)
| MClose
| MIntercept (c : ptr).

Definition run_method (p : ptr) (m : method) : G unit :=
  match m with
  | MRead n => _ ← Read p n; mret tt
  | MWrite b => _ ← Write p b; mret tt
  | MClose => _ ← Close p; mret tt
  | MIntercept c => Intercept p c
  end.

(** A queue that [Intercept] may be given: it exists and no connection reads
    from it. *)
Definition free_chan g (c : ptr) : Prop :=
  is_Some (bchans g !! c) /\
  forall p o, pcbs g !! p = Some o -> recvInter o = false -> recvQueued o <> c.

(** When a method panics: [Read] of an intercepted connection, or of an open one
    with a buffer that is too small for what is next; [Intercept] of a connection
    that is intercepted already, or whose queue is closed - which is that of a
    connection that was closed. *)
Definition panics g o (m : method) : Prop :=
  match m with
  | MRead n => recvInter o = true \/ p_err o = false /\
      exists c b l, bchans g !! recvQueued o = Some c /\ c_buf c = b :: l /\ (n < length b)%nat
  | MIntercept _ => lck o = false /\ (recvInter o = true \/
      exists c, bchans g !! recvQueued o = Some c /\ c_closed c = true)
  | MWrite _ | MClose => False
  end.

Lemma run_method_wf {F : fault -> Prop} p m o g :
  F Blocked -> (panics g o m -> F Panicked) ->
  (forall c, m = MIntercept c -> free_chan g c) ->
  go_wf g -> pcbs g !! p = Some o ->
  wpf F (run_method p m) g (fun _ => grown g).
Proof.
  intros HB Hm Hc W Ho. destruct m; cbn in *;
    try (apply wp_bind;
         apply (wpf_mono _ _ (fun _ => grown g)); [|by intros ? ? ?; apply wp_ret]).
  - eapply Read_wf; try done; [by auto|]. intros c b l He Hq Hb Hl. apply Hm. right.
    split; [done|]. by exists c, b, l.
  - by eapply Write_wf.
  - by eapply Close_wf.
  - destruct (Hc _ eq_refl) as [He Hown]. eapply Intercept_wf; try done. auto.
Qed.

Lemma run_method_panics p m o g :
  pcbs g !! p = Some o -> panics g o m -> run_method p m g = Fault Panicked.
Proof.
  intros Ho. destruct m as [n|b| |c]; cbn [panics run_method]; [|done|done|].
  - intros Hp. unfold Read. unfold mbind, M_bind. rewrite (at_pcb_get_run _ _ _ Ho). cbn [id].
    destruct (recvInter o); [done|]. destruct Hp as [|(He & c & b & l & Hc & Hb & Hl)]; [done|].
    rewrite He, (at_recvQueued_run _ _ _ _ _ Ho Hc). unfold chan_recv. rewrite Hb.
    destruct b as [|z b]; [cbn in Hl; lia|]. by rewrite decide_True.
  - intros [Hlk Hp]. unfold Intercept, mbind, M_bind.
    rewrite (at_pcb_at _ _ _ _ Ho). unfold lock. rewrite Hlk.
    rewrite (at_pcb_get_run _ (with_lck true o)) by apply lookup_insert_eq.
    cbn [id recvInter with_lck]. destruct (recvInter o) eqn:Hi.
    { by rewrite (at_pcb_at _ (with_lck true o)) by apply lookup_insert_eq. }
    destruct Hp as [|(q & Hq & Hcl)]; [done|].
    rewrite (at_pcb_at _ (with_lck true o)) by apply lookup_insert_eq.
    unfold modify at 1. cbv beta iota.
    erewrite at_recvQueued_run; [|cbn; apply lookup_insert_eq|exact Hq].
    unfold chan_close. by rewrite Hcl.
Qed.


End wf.
