(* ===== verification/GoReach.v ===== *)
(** * Reachable states of the Go binding

    The exported functions and the processing loop of src/lwipcs.go keep the
    state of the binding well formed, whatever lwIP, the device and the
    program above do between them.  Each runs whole here, and so does each
    method; [GoConc], [GoMulti] and [GoUdp] have them interleaved. *)

From S2P Require Import Prelude Lwip Cs Tcp Udp Netif Bridge.
From S2P Require Import GoChan GoBind GoApp GoWf.
Local Open Scope Z_scope.

Definition any (x : fault) : Prop := True.

(** ** Code that does not touch the state of the application *)

Class KeepsApp {S A X} (m : M (world S A) X) : Prop :=
  keeps_app w : wpf any m w (fun _ w' => app w' = app w).

Section keeps.
Context {S A : Type}.
Abbreviation C := (M (world S A)).

#[global] Instance keeps_ret {X} (x : X) : KeepsApp (mret x : C X).
Proof. done. Qed.
#[global] Instance keeps_bind {X Y} (m : C X) (f : X -> C Y) :
  KeepsApp m -> (forall x, KeepsApp (f x)) -> KeepsApp (m ≫= f).
Proof.
  intros Hm Hf w. apply wp_bind. eapply wpf_mono; [apply Hm|]. intros x w' <-.
  apply Hf.
Qed.
#[global] Instance keeps_stop {X} f : KeepsApp (stop f : C X).
Proof. done. Qed.
#[global] Instance keeps_gets {X} (f : world S A -> X) : KeepsApp (gets f).
Proof. done. Qed.
#[global] Instance keeps_deref {X} (o : option X) : KeepsApp (deref o : C X).
Proof. intros w. by destruct o. Qed.
#[global] Instance keeps_lift {X} (m : M S X) : KeepsApp (lift m : C X).
Proof. intros w. unfold wpf, lift. by destruct (m (lw w)) as [[? ?]|]. Qed.
#[global] Instance keeps_es_get e : KeepsApp (es_get e : C _).
Proof. unfold es_get. apply _. Qed.
#[global] Instance keeps_es_set e f : KeepsApp (es_set e f : C _).
Proof. unfold es_set. apply keeps_bind; [apply _|done]. Qed.
End keeps.

(** Following the structure of the code. *)
Ltac keeps_auto :=
  repeat first
    [ assumption | apply _ | apply keeps_bind; [|intros ?] | case_decide | case_match ].

Section layer.
Context {S A : Type} `{!Lwip S, !LwipUdp S}.

#[global] Instance keeps_send_loop n err tpcb es :
  KeepsApp (send_loop n err tpcb es : M (world S A) unit).
Proof.
  revert err. induction n as [|n IH]; intros err; cbn; [apply _|]. keeps_auto; apply IH.
Qed.
#[global] Instance keeps_char_send fuel tpcb es buf len :
  KeepsApp (cs_tcp_char_send fuel tpcb es buf len : M (world S A) Z).
Proof. unfold cs_tcp_char_send, cs_tcp_raw_send. keeps_auto. Qed.
#[global] Instance keeps_upcb_get u : KeepsApp (upcb_get u : M (world S A) _).
Proof. unfold upcb_get. keeps_auto. Qed.
#[global] Instance keeps_upcb_set u f : KeepsApp (upcb_set u f : M (world S A) _).
Proof. unfold upcb_set. apply keeps_bind; [apply _|done]. Qed.
#[global] Instance keeps_char_sendto mcast u la lp ra rp buf len :
  KeepsApp (cs_udp_char_sendto mcast u la lp ra rp buf len : M (world S A) Z).
Proof.
  unfold cs_udp_char_sendto, cs_udp_sendto, cs_get_current_netif. keeps_auto.
Qed.
End layer.

(** ** Tables and new objects *)

Section tables.
Context (get : ip_addr -> bytes).
Abbreviation go_wf := (go_wf get).
Implicit Types (g : go_state).

Lemma go_wf_tcpPcbs g e p o :
  go_wf g -> pcbs g !! p = Some o -> p_type o = TCP -> p_state o = Some e ->
  go_wf (set_tcpPcbs (<[e := p]> (tcpPcbs g)) g).
Proof.
  intros W Ho Ht Hs. split; try apply W.
  cbn. intros e1 p1 [[<- <-]|[_ H1]]%lookup_insert_Some; [eauto|by eapply (wf_tcp _ _ W)].
Qed.

Lemma go_wf_tcp_delete g e : go_wf g -> go_wf (set_tcpPcbs (delete e (tcpPcbs g)) g).
Proof.
  intros W. split; try apply W.
  cbn. intros e1 p1 [_ H1]%lookup_delete_Some. by eapply (wf_tcp _ _ W).
Qed.

Lemma go_wf_udpPcbs g p o :
  go_wf g -> pcbs g !! p = Some o -> p_type o = UDP ->
  go_wf (set_udpPcbs (<[host_key get (remoteIP o) (remotePort o) := p]> (udpPcbs g)) g).
Proof.
  intros W Ho Ht. split; try apply W.
  cbn. intros k p1 [[<- <-]|[_ H1]]%lookup_insert_Some; [eauto|by eapply (wf_udp _ _ W)].
Qed.

Lemma go_wf_udp_delete g k : go_wf g -> go_wf (set_udpPcbs (delete k (udpPcbs g)) g).
Proof.
  intros W. split; try apply W.
  cbn. intros k1 p1 [_ H1]%lookup_delete_Some. by eapply (wf_udp _ _ W).
Qed.

(** The queues of frames do not occur in the invariant. *)
Lemma go_wf_input g c : go_wf g -> go_wf (set_inputQueue c g).
Proof. intros W. split; apply W. Qed.
Lemma go_wf_input2 g c : go_wf g -> go_wf (set_inputQueue2 c g).
Proof. intros W. split; apply W. Qed.
Lemma go_wf_running g b : go_wf g -> go_wf (set_runnning b g).
Proof. intros W. split; apply W. Qed.

Lemma newPCB_wf t arg pcb s la ra lp rp g :
  go_wf g -> (t = TCP -> is_Some s) ->
  wpf any (newPCB t arg pcb s la ra lp rp) g (fun p g' => go_wf g' /\
    exists o, pcbs g' !! p = Some o /\ p_type o = t /\ p_state o = s /\
      remoteIP o = ra /\ remotePort o = rp).
Proof.
  intros W Hs. unfold newPCB. apply wp_bind, wp_gets. cbn [id].
  apply wp_bind, wp_modify, wp_bind, wp_modify, wp_ret. split.
  - eapply go_wf_new; [done|apply not_elem_of_dom, is_fresh..| |done].
    split; cbn; [|intros c Hc; case_decide; by simplify_eq/=|done].
    by case_decide; split.
  - eexists. split; [apply lookup_insert_eq|]. done.
Qed.

End tables.

(** ** Handlers and turns of the loop *)

Section handlers.
Context {S : Type} `{!Lwip S, !LwipUdp S, !LwipTcpAddr S}.
Context (get : ip_addr -> bytes).
Context (go_cs_ : go_cs_callback S go_state) (Event : option (Handler S)).
Context (Hget : g_ip_get go_cs_ = Some get).
Abbreviation C := (M (world S go_state)).
Abbreviation wf w := (go_wf get (app w)).
Implicit Types (w : world S go_state).

(** The functions in the table that Go calls, but [netif_proc], do not touch
    its state: they do not call Go. *)
Class TableKeeps : Prop := {
  tk_recved f p n : g_tcp_recved go_cs_ = Some f -> KeepsApp (f p n);
  tk_send f p e b n : g_tcp_send go_cs_ = Some f -> KeepsApp (f p e b n);
  tk_close f p : g_tcp_close go_cs_ = Some f -> KeepsApp (f p);
  tk_udp f p la lp ra rp b n :
    g_udp_send go_cs_ = Some f -> KeepsApp (f p la lp ra rp b n);
  tk_alloc f n : g_pbuf_alloc go_cs_ = Some f -> KeepsApp (f n);
  tk_take f p b n : g_pbuf_take go_cs_ = Some f -> KeepsApp (f p b n);
  tk_copy f p n k : g_pbuf_copy go_cs_ = Some f -> KeepsApp (f p n k);
  tk_input f o n : g_input go_cs_ = Some f -> KeepsApp (f o n)
}.

(** The handler of events is a Go program that only uses the exported names. *)
Class EventKeeps : Prop := {
  ek_accept h p w : Event = Some h -> wf w -> is_Some (pcbs (app w) !! p) ->
    wpf any (OnAccept h p) w (fun _ w' => wf w');
  ek_close h p w : Event = Some h -> wf w ->
    wpf any (OnClose h p) w (fun _ w' => wf w')
}.
Context `{!TableKeeps, !EventKeeps}.

Lemma wp_member {X Y} (f : go_cs_callback S go_state -> option X) (k : X -> C Y) w Q :
  (forall x, f go_cs_ = Some x -> wpf any (k x) w Q) ->
  wpf any (x ← member (Some go_cs_) f; k x) w Q.
Proof.
  intros Hk. apply wp_bind. unfold wpf at 1, member.
  erewrite bind_Ok by done. destruct (f go_cs_) eqn:Hf; [|done]. by apply Hk.
Qed.

Lemma keeps_member {X Y} (f : go_cs_callback S go_state -> option X)
    (k : X -> C Y) :
  (forall x, f go_cs_ = Some x -> KeepsApp (k x)) ->
  KeepsApp (x ← member (Some go_cs_) f; k x).
Proof. intros Hk w. apply wp_member. intros x Hx. by apply Hk. Qed.

(** A call that leaves the state of the binding, then the rest. *)
Lemma wp_keeps {X Y} (m : C X) (k : X -> C Y) w (Q : Y -> world S go_state -> Prop) :
  KeepsApp m -> wf w ->
  (forall x w', app w' = app w -> wf w' -> wpf any (k x) w' Q) ->
  wpf any (m ≫= k) w Q.
Proof.
  intros Hm W Hk. apply wp_bind. eapply wpf_mono; [apply Hm|].
  intros x w' Ha. apply Hk; by rewrite ?Ha.
Qed.

Lemma wp_go {X} (m : G X) w (Q : X -> world S go_state -> Prop) :
  wpf any m (app w) (fun x g => Q x (with_app g w)) -> wpf any (go m) w Q.
Proof. apply wp_zoom. Qed.

(** Looking at an object. *)
Lemma wp_go_pcb {Y} p (k : PCB -> C Y) w (Q : Y -> world S go_state -> Prop) :
  (forall o, pcbs (app w) !! p = Some o -> wpf any (k o) w Q) ->
  wpf any (o ← go (at_pcb p (gets id)); k o) w Q.
Proof.
  intros Hk. apply wp_bind. destruct (pcbs (app w) !! p) as [o|] eqn:Ho.
  - unfold wpf at 1. rewrite (go_get_run _ _ _ Ho). by apply Hk.
  - unfold wpf, go, zoom, at_pcb, zoom, at_key. by rewrite Ho.
Qed.

(** An operation on an object that keeps it in order, or that fails. *)
Lemma wp_go_at_pcb {X} p (m : P X) w (Q : X -> world S go_state -> Prop) :
  wf w ->
  (forall o, pcbs (app w) !! p = Some o ->
     wpf any m o (fun x o' => same_id o o' /\ obj_ok o' /\
       recvQueued o' = recvQueued o /\ recvInter o' = recvInter o /\
       p_err o' = p_err o /\
       forall w', wf w' -> pcbs (app w') !! p = Some o' -> Q x w')) ->
  wpf any (go (at_pcb p m)) w Q.
Proof.
  intros W Hm. apply wp_go. destruct (pcbs (app w) !! p) as [o|] eqn:Ho.
  - eapply wp_at_pcb; [done|]. eapply wpf_mono; [by apply Hm|].
    cbn beta. intros x o' (Hid & Hok & Hq & Hi & He & HQ). apply HQ; cbn.
    + apply (go_wf_pcb get _ p o); try done. congruence.
    + apply lookup_insert_eq.
  - unfold wpf, at_pcb, zoom, at_key. by rewrite Ho.
Qed.

Lemma wp_go_send_data p data w : wf w ->
  wpf any (go (at_recvQueued p (chan_send data))) w (fun _ w' => wf w').
Proof.
  intros W. apply wp_go. destruct (pcbs (app w) !! p) as [o|] eqn:Ho.
  - destruct (wf_chan _ _ W _ _ Ho) as [c Hc]. eapply wp_recvQueued; [done..|].
    apply wp_chan_send; [done|done|]. intros Hopen.
    apply (go_wf_bchan get _ _ _ _ W Hc). left. by rewrite Hopen.
  - unfold wpf, at_recvQueued, mbind, M_bind, at_pcb, zoom, at_key. by rewrite Ho.
Qed.

Lemma wp_event_accept p w : wf w -> is_Some (pcbs (app w) !! p) ->
  wpf any (event Event OnAccept p) w (fun _ w' => wf w').
Proof.
  intros W Hp. unfold event. destruct Event as [h|] eqn:E; [by eapply ek_accept|done].
Qed.
Lemma wp_event_close p w : wf w ->
  wpf any (event Event OnClose p) w (fun _ w' => wf w').
Proof. intros W. unfold event. destruct Event as [h|] eqn:E; [by eapply ek_close|done]. Qed.

#[local] Instance keeps_pbuf_bytes buf : KeepsApp (pbuf_bytes (Some go_cs_) buf).
Proof.
  unfold pbuf_bytes, go_cs_pbuf_len. apply keeps_bind; [apply _|intros n].
  case_match; [apply _|]. unfold go_cs_pbuf_copy. apply keeps_member.
  intros f Hf. apply keeps_bind; [apply _|]. intros x. by apply tk_copy.
Qed.

Lemma accept_wf arg n e w : wf w ->
  wpf any (go_tcp_accept_h Event arg n e) w (fun _ w' => wf w').
Proof.
  intros W. unfold go_tcp_accept_h. apply wp_bind, wp_gets.
  destruct (tcpPcbs (app w) !! e); [by apply wp_ret|].
  do 4 (apply wp_keeps; [apply keeps_lift|done|]; clear W; intros ? ? _ W).
  apply wp_bind, wp_go. eapply wpf_mono; [by apply newPCB_wf|].
  cbn beta. intros p g (Wg & o & Ho & Ht & Hs & _).
  apply wp_bind, wp_go, wp_modify. apply wp_bind.
  eapply wpf_mono; [apply wp_event_accept|].
  - cbn. by eapply go_wf_tcpPcbs.
  - cbn. by eexists.
  - intros [] w5 W5. by apply wp_ret.
Qed.

Lemma recv_wf arg n e buf w : wf w ->
  wpf any (go_tcp_recv_h (Some go_cs_) arg n e buf) w (fun _ w' => wf w').
Proof.
  intros W. unfold go_tcp_recv_h. apply wp_bind, wp_gets.
  destruct (tcpPcbs (app w) !! e) as [p|]; [|by apply wp_ret].
  apply wp_go_pcb. intros o Ho. destruct (p_err o); [by apply wp_ret|].
  apply wp_keeps; [apply _|done|]. intros data w1 _ W1. apply wp_bind.
  eapply wpf_mono; [by apply wp_go_send_data|]. done.
Qed.

Lemma send_done_wf arg n e w : wf w ->
  wpf any (go_tcp_send_done_h arg n e) w (fun _ w' => wf w').
Proof.
  intros W. unfold go_tcp_send_done_h. apply wp_bind, wp_gets.
  destruct (tcpPcbs (app w) !! e) as [p|]; [|by apply wp_ret].
  apply wp_go_pcb. intros o Ho. destruct (p_err o); [by apply wp_ret|].
  apply wp_bind. eapply (wpf_mono _ _ (fun _ w' => wf w')); [|done].
  case_match; [|by apply wp_ret].
  apply wp_bind. eapply wp_go_at_pcb; [done|]. intros o1 Ho1. apply wp_modify.
  destruct (wf_obj _ _ W _ _ Ho1). split_and!; try done. intros w2 W2 Ho2.
  eapply wp_go_at_pcb; [done|]. intros o3 Ho3. destruct (wf_obj _ _ W2 _ _ Ho3).
  unfold wpf, sendWait_send, on_sendWait. destruct (sendWait o3) as [k|] eqn:Hk; [|done].
  unfold chan_send. destruct (c_closed k) eqn:Hcl; [done|]. case_decide; [|done].
  split_and!; try done. split; cbn; try done.
  - split; [|done]. intros _. apply ob_wait0. by eexists.
  - intros ? [= <-]. by rewrite <- (ob_closed0 _ eq_refl).
Qed.

Lemma close_h_wf arg n e w : wf w ->
  wpf any (go_tcp_close_h Event arg n e) w (fun _ w' => wf w').
Proof.
  intros W. unfold go_tcp_close_h. apply wp_bind, wp_gets.
  destruct (tcpPcbs (app w) !! e) as [p|] eqn:Hp; [|by apply wp_ret].
  destruct (wf_tcp _ _ W _ _ Hp) as (o & Ho & _).
  apply wp_bind, wp_go, wp_modify. apply wp_bind, wp_go.
  eapply wpf_mono; [apply (close_wf get (F := any) I p o)|].
  - by apply go_wf_tcp_delete.
  - done.
  - intros b g [Wg _]. apply wp_bind. eapply wpf_mono; [by apply wp_event_close|].
    intros [] w5 W5. by apply wp_ret.
Qed.

Lemma ip_bytes_wp a w (Q : bytes -> world S go_state -> Prop) :
  Q (take (Z.to_nat (go_cs_ip_len a)) (get a)) w -> wpf any (ip_bytes (Some go_cs_) a) w Q.
Proof. intros HQ. eapply wpf_Ok; [by apply (ip_bytes_run go_cs_ get Hget)|done]. Qed.

Lemma udp_recv_wf arg u a port buf w : wf w ->
  wpf any (go_udp_recv_h (Some go_cs_) Event arg u a port buf) w (fun _ w' => wf w').
Proof.
  intros W. unfold go_udp_recv_h. apply wp_keeps; [apply _|done|]. intros data w1 _ W1.
  apply wp_bind, ip_bytes_wp. apply wp_bind, wp_gets. apply wp_bind.
  eapply (wpf_mono _ _ (fun _ w' => wf w')).
  - destruct (udpPcbs (app w1) !! _); [by apply wp_ret|].
    apply wp_keeps; [apply keeps_bind; apply _|done|]. intros la w2 _ W2.
    apply wp_keeps; [apply keeps_bind; apply _|done|]. intros lp w3 _ W3.
    apply wp_bind, wp_go. eapply wpf_mono; [by apply newPCB_wf|].
    cbn beta. intros p g (Wg & o & Ho & Ht & _ & <- & <-).
    apply wp_bind, wp_go, wp_modify. apply wp_bind.
    eapply wpf_mono; [apply wp_event_accept|].
    + cbn. by apply go_wf_udpPcbs.
    + cbn. by eexists.
    + intros [] w5 W5. by apply wp_ret.
  - intros p w4 W4. apply wp_bind. eapply wpf_mono; [by apply wp_go_send_data|]. done.
Qed.

Lemma input_wf arg netif readlen w : wf w ->
  wpf any (go_input_h (Some go_cs_) arg netif readlen) w (fun _ w' => wf w').
Proof.
  intros W. unfold go_input_h. apply wp_bind, wp_gets.
  destruct (chan_ready _); [|by apply wp_ret].
  apply wp_bind, wp_go, wp_zoom.
  eapply (wpf_mono _ _ (fun _ _ => True)); [by apply wp_chan_recv|].
  intros i c _. assert (W1 : wf (with_app (set_inputQueue2 c (app w)) w))
    by by apply go_wf_input2.
  destruct i as [[|z i]|]; [by apply wp_ret| |by apply wp_ret].
  apply wp_keeps; [|exact W1|].
  { unfold go_cs_pbuf_alloc. apply keeps_member. intros f Hf. by apply tk_alloc. }
  intros q w2 _ W2. apply wp_keeps; [|exact W2|intros; by apply wp_ret].
  destruct q as [q|]; [|apply _]. unfold go_cs_pbuf_take.
  apply keeps_member. intros f Hf. apply keeps_bind; [apply _|]. intros n.
  apply keeps_bind; [by apply tk_take|apply _].
Qed.

Lemma forward_wf g : go_wf get g -> wpf any forward_input g (fun _ => go_wf get).
Proof.
  intros W. unfold forward_input. apply wp_bind, wp_zoom.
  eapply (wpf_mono _ _ (fun _ _ => True)); [by apply wp_chan_recv|].
  intros r c _. apply wp_bind. destruct r as [i|]; [|done]. apply wp_ret, wp_zoom.
  apply wp_chan_send; [done|done|]. intros _. by apply go_wf_input2, go_wf_input.
Qed.

Lemma Send_wf p data w : wf w ->
  wpf any (Send (Some go_cs_) p data) w (fun _ w' => wf w').
Proof.
  intros W. unfold Send. apply wp_go_pcb. intros o Ho.
  destruct (p_err o); [by apply wp_ret|]. case_decide as Ht.
  - apply wp_bind. eapply wp_go_at_pcb; [done|]. intros o1 Ho1. apply wp_modify.
    destruct (wf_obj _ _ W _ _ Ho1). split_and!; try done. intros w2 W2 _.
    apply wp_bind. destruct (p_state o); [|done]. apply wp_ret.
    apply wp_keeps; [|exact W2|by intros; apply wp_ret].
    unfold tcpSend. destruct data; [apply _|]. apply keeps_member.
    intros f Hf. by apply tk_send.
  - apply wp_keeps; [|exact W|by intros; apply wp_ret].
    unfold udpSend. destruct data; [apply _|]. apply keeps_member.
    intros f Hf. by apply tk_udp.
Qed.

(** A turn that does not hand a frame to lwIP. *)
Lemma turn_wf netif c w : c <> CaseInput -> wf w ->
  wpf any (proc_turn (Some go_cs_) netif c) w (fun _ w' => wf w').
Proof.
  intros Hc W. destruct (wf_queues _ _ W) as (Hr & Hs & Hcl).
  destruct c; [| | |done]; cbn [proc_turn].
  - apply wp_bind, wp_go, wp_zoom. apply wp_chan_recv; [done| |done].
    intros [p n] l Hb. cbn. apply wp_bind, wp_ret.
    assert (W1 : wf (with_app (set_recvedQueue (Chan (c_cap (recvedQueue (app w))) l
      (c_closed (recvedQueue (app w)))) (app w)) w)).
    { apply go_wf_recved; [done..|]. intros p1 n1 Hin. apply (wf_recved _ _ W p1 n1).
      rewrite Hb. by right. }
    apply wp_go_pcb. intros o Ho. destruct (p_err o); [by apply wp_ret|].
    unfold go_cs_tcp_recved. apply wp_member. intros f Hf.
    eapply wpf_mono; [by apply tk_recved|]. cbn. intros _ w' ->. exact W1.
  - apply wp_bind, wp_go, wp_zoom. apply wp_chan_recv; [done| |done].
    intros p l Hb. cbn. apply wp_bind, wp_ret.
    assert (W1 : wf (with_app (set_closeQueue (Chan (c_cap (closeQueue (app w))) l
      (c_closed (closeQueue (app w)))) (app w)) w)).
    { apply go_wf_close; [done..|]. intros p1 Hin. apply (wf_close _ _ W p1).
      rewrite Hb. by right. }
    apply wp_go_pcb. intros o Ho. case_decide.
    + apply wp_bind. destruct (p_state o); [|done]. apply wp_ret.
      apply wp_keeps; [|exact W1|by intros; apply wp_ret].
      unfold tcpClose, go_cs_tcp_close. apply keeps_member. intros f Hf.
      apply keeps_bind; [by apply tk_close|apply _].
    + apply wp_bind. unfold RemoteAddr. apply wp_go_pcb. intros o1 _.
      apply wp_bind, ip_bytes_wp. apply wp_ret, wp_go, wp_modify.
      by apply go_wf_udp_delete.
  - apply wp_bind, wp_go, wp_zoom. apply wp_chan_recv; [done| |done].
    intros [p data] l Hb. cbn. apply wp_bind, wp_ret. apply Send_wf.
    apply go_wf_send; [done..|]. intros p1 d Hin. apply (wf_send _ _ W p1 d).
    rewrite Hb. by right.
Qed.

Lemma read_loop_wf n w : wf w ->
  wpf any (read_loop (Some go_cs_) n) w (fun _ w' => wf w').
Proof.
  revert w. induction n as [|n IH]; intros w W; cbn [read_loop]; [by apply wp_ret|].
  apply wp_bind, wp_gets. destruct (runnning _); [|by apply wp_ret].
  apply wp_keeps; [|exact W|].
  { intros w1. unfold go_cs_input. apply wp_bind, wp_ret. apply wp_bind.
    destruct (g_input go_cs_) as [f|] eqn:Hf; [|done]. apply wp_ret. by apply tk_input. }
  intros [k buf] w1 _ W1. destruct (k <? 1); [by apply wp_ret|].
  apply wp_bind, wp_go, wp_zoom, wp_chan_send; [done|done|]. intros _.
  apply IH. by apply go_wf_input.
Qed.

(** ** Runs

    A step: a handler that lwIP's events lead to, a turn of one of the two
    loops, a method that some goroutine runs, each without a step of another
    goroutine in it - so a [Write] of a TCP connection, which waits for another
    goroutine, is no step - or what leaves the objects alone:
    anything in C, and what a program does with a channel that no connection
    reads from. *)
Inductive go_step w : world S go_state -> Prop :=
| step_c w' : app w' = app w -> go_step w w'
| step_accept arg n e x w' :
    go_tcp_accept_h Event arg n e w = Ok (x, w') -> go_step w w'
| step_recv arg n e buf x w' :
    go_tcp_recv_h (Some go_cs_) arg n e buf w = Ok (x, w') -> go_step w w'
| step_send_done arg n e x w' :
    go_tcp_send_done_h arg n e w = Ok (x, w') -> go_step w w'
| step_close arg n e x w' :
    go_tcp_close_h Event arg n e w = Ok (x, w') -> go_step w w'
| step_udp_recv arg u a port buf x w' :
    go_udp_recv_h (Some go_cs_) Event arg u a port buf w = Ok (x, w') -> go_step w w'
| step_input arg netif n x w' :
    go_input_h (Some go_cs_) arg netif n w = Ok (x, w') -> go_step w w'
| step_turn netif c w' :
    c <> CaseInput -> proc_turn (Some go_cs_) netif c w = Ok (tt, w') -> go_step w w'
| step_forward g : forward_input (app w) = Ok (tt, g) -> go_step w (with_app g w)
| step_read n w' : read_loop (Some go_cs_) n w = Ok (tt, w') -> go_step w w'
| step_method p m o g :
    pcbs (app w) !! p = Some o -> (forall c, m = MIntercept c -> free_chan (app w) c) ->
    run_method p m (app w) = Ok (tt, g) -> go_step w (with_app g w)
| step_chan q c :
    (forall p o, pcbs (app w) !! p = Some o -> recvInter o = false ->
       recvQueued o <> q) ->
    go_step w (with_app (set_bchans (<[q := c]> (bchans (app w))) (app w)) w).

Lemma wpf_run {St X} (m : M St X) st x st' (Q : X -> St -> Prop) :
  m st = Ok (x, st') -> wpf any m st Q -> Q x st'.
Proof. unfold wpf. by intros ->. Qed.

Lemma go_wf_free g q c :
  go_wf get g ->
  (forall p o, pcbs g !! p = Some o -> recvInter o = false -> recvQueued o <> q) ->
  go_wf get (set_bchans (<[q := c]> (bchans g)) g).
Proof.
  intros W Hq. split; cbn; try apply W.
  - intros p o Ho. rewrite lookup_insert. case_decide; [done|by eapply (wf_chan _ _ W)].
  - intros p o k Ho Hco. rewrite lookup_insert_ne; [by eapply (wf_open _ _ W)|].
    intros Heq. by apply (Hq _ _ Ho (proj2 Hco)).
Qed.

Lemma go_step_wf w w' : wf w -> go_step w w' -> wf w'.
Proof.
  intros W. destruct 1 as [w' Ha|arg n e x w' E|arg n e b x w' E|arg n e x w' E|arg n e x w' E
    |arg u a pt b x w' E|arg n k x w' E|n c w' Hc E|g E|n w' E|p m o g Ho Hc E|q c Hq].
  - by rewrite Ha.
  - by apply (wpf_run _ _ _ _ (fun _ w' => wf w') E), accept_wf.
  - by apply (wpf_run _ _ _ _ (fun _ w' => wf w') E), recv_wf.
  - by apply (wpf_run _ _ _ _ (fun _ w' => wf w') E), send_done_wf.
  - by apply (wpf_run _ _ _ _ (fun _ w' => wf w') E), close_h_wf.
  - by apply (wpf_run _ _ _ _ (fun _ w' => wf w') E), udp_recv_wf.
  - by apply (wpf_run _ _ _ _ (fun _ w' => wf w') E), input_wf.
  - by apply (wpf_run _ _ _ _ (fun _ w' => wf w') E), turn_wf.
  - by apply (wpf_run _ _ _ _ (fun _ => go_wf get) E), forward_wf.
  - by apply (wpf_run _ _ _ _ (fun _ w' => wf w') E), read_loop_wf.
  - apply (wpf_run _ _ _ _ (fun _ => go_wf get) E). eapply wpf_mono;
      [apply (run_method_wf get (F := any) p m o); done|]. by intros ? ? [].
  - by apply go_wf_free.
Qed.

(** In every state of the binding that a run reaches in which methods, callbacks and
    turns of the loop run whole, one at a time - what happens when they interleave is
    in [GoConc], [GoMulti] and [GoUdp] - the connections in the
    tables are objects of the right type under their own keys, every object
    has its channels, the queue of a connection that is neither closed nor
    intercepted is open and its own, [sendWait] is closed exactly when the
    connection is, and the queues to the processing loop hold only existing
    connections. *)
Theorem go_wf_reachable w0 w :
  app w0 = go_state0 -> rtc go_step w0 w -> go_wf get (app w).
Proof.
  intros Hi Hr. eapply (rtc_invariant go_step (fun w => wf w) go_step_wf _ _ Hr).
  rewrite Hi. apply go_wf_init.
Qed.

End handlers.

(** The table of the main programs. *)
#[export] Instance gback_keeps {S} `{!Lwip S, !LwipUdp S, !LwipNetif (world S go_state)}
    backs fuel mcast sg input output b n :
  (forall o k, KeepsApp (input o k)) ->
  TableKeeps (gback (S := S) (A := go_state) backs fuel mcast sg input output b n).
Proof. intros Hin. split; intros * [= <-]; apply _. Qed.
