(* ===== verification/GoConc.v ===== *)
(** * Goroutines on one connection of the Go binding

    [Read], [Write] and [Close] of src/lwipcs.go run by any number of
    goroutines, next to the goroutine of the processing loop and the callbacks
    that lwIP makes in it: one step for each access to a shared variable, each
    operation on a channel and each operation on the lock.  Proved: the steps
    of a method, run alone, are the method of [GoBind]; data are delivered in
    order; the writes of all goroutines go to C one at a time and none finds a
    pending queue; nobody panics but the processing goroutine in
    [go_tcp_recv_h]; and that it can panic there, wait for ever for the lock of
    a [Write] that waits for it, and close a control block twice.

    Accesses to variables are taken to happen one after the other. *)

From S2P Require Import Prelude Lwip GoChan GoBind GoApp.
Local Open Scope Z_scope.

(** ** Goroutines *)

(** Where a goroutine is in [close]. *)
Inductive close_pc : Type :=
| KLock
| KErr
| KSet
| KRecv
| KWait
| KUnlock (err : bool).

#[export] Instance close_pc_eq_dec : EqDecision close_pc.
Proof. solve_decision. Defined.

(** Where a goroutine of the program is.  [UIdle], [UWrote], [URead] and
    [UClosed] are outside of a method, the last three with the results of
    one. *)
Inductive user_pc : Type :=
| UIdle
| WCheck (b : bytes)
| WLock (b : bytes)
| WPost (b : bytes)
| WWait (b : bytes)
| WUnlock (b : bytes)
| WErr (b : bytes)
| UWrote (l : Z) (err : bool)
| RInter (n : nat)
| RErr (n : nat)
| RTake (n : nat)
| RTell (data : bytes)
| RNil
| URead (data : bytes) (err : bool)
| UClose (k : close_pc)
| UPost (err : bool)
| UClosed (err : bool).

(** Where the processing goroutine is: waiting in its [select] or in code of
    lwIP ([PIdle]), in a case of the [select], or in a callback. *)
Inductive proc_pc : Type :=
| PIdle
| PTake                      (* case s := <-sendQueue *)
| PSendErr (data : bytes)    (* Send: s.PCB.err *)
| PCount (data : bytes)      (* s.PCB.sendCount++ *)
| PTcpSend (data : bytes)    (* tcpSend *)
| PTakeRecved                (* case r := <-recvedQueue *)
| PRecved (n : Z)            (* r.PCB.err *)
| PTakeClose                 (* case c := <-closeQueue *)
| PTcpClose                  (* tcpClose *)
| PRecvFind (data : bytes)   (* go_tcp_recv_h: tcpPcbs[state] *)
| PRecvErr (data : bytes)    (* pcb.err *)
| PRecvPut (data : bytes)    (* pcb.recvQueued <- data *)
| PDoneFind                  (* go_tcp_send_done_h: tcpPcbs[state] *)
| PDoneErr                   (* pcb.err *)
| PDoneCount                 (* pcb.sendCount > 0 *)
| PDoneDec                   (* pcb.sendCount-- *)
| PDonePost                  (* pcb.sendWait <- 1 *)
| PCloseFind                 (* go_tcp_close_h: tcpPcbs[state] *)
| PCloseDelete               (* delete *)
| PClose (k : close_pc).     (* pcb.close() *)

Section steps.
(** The connection and the address of its state in C. *)
Context (p e : ptr).

Definition close_step (k : close_pc) : G (close_pc + bool) :=
  match k with
  | KLock => at_pcb p lock;; mret (inl KErr)
  | KErr => err ← at_pcb p (gets p_err);
            mret (inl (if err : bool then KUnlock true else KSet))
  | KSet => at_pcb p (modify (with_err true));; mret (inl KRecv)
  | KRecv => at_recvQueued p chan_close;; mret (inl KWait)
  | KWait => at_pcb p sendWait_close;; mret (inl (KUnlock false))
  | KUnlock err => at_pcb p unlock;; mret (inr err)
  end.

Definition user_step (u : user_pc) : G user_pc :=
  match u with
  | WCheck b => err ← at_pcb p (gets p_err);
                mret (if err : bool then WErr b else WLock b)
  | WLock b => at_pcb p lock;; mret (WPost b)
  | WPost b => on_sendQueue (chan_send (p, b));; mret (WWait b)
  | WWait b => at_pcb p sendWait_recv;; mret (WUnlock b)
  | WUnlock b => at_pcb p unlock;; mret (WErr b)
  | WErr b => err ← at_pcb p (gets p_err); mret (UWrote (Z.of_nat (length b)) err)
  | RInter n => inter ← at_pcb p (gets recvInter);
                if inter : bool then stop Panicked else mret (RErr n)
  | RErr n => err ← at_pcb p (gets p_err);
              mret (if err : bool then URead [] true else RTake n)
  | RTake n =>
      recevied ← at_recvQueued p chan_recv;
      match recevied with
      | None | Some [] => mret RNil
      | Some b => if decide (n < length b)%nat then stop Panicked else mret (RTell b)
      end
  | RTell b => on_recvedQueue (chan_send (p, Z.of_nat (length b)));;
               mret (URead b false)
  | RNil => err ← at_pcb p (gets p_err); mret (URead [] err)
  | UClose k => r ← close_step k;
                mret (match r with inl k => UClose k | inr err => UPost err end)
  | UPost err => on_closeQueue (chan_send p);; mret (UClosed err)
  | UIdle | UWrote _ _ | URead _ _ | UClosed _ => mret u
  end.

(** The cases of the [select], with [Send].  A call of C is in [go_next]; here
    it is a step of no effect. *)
Definition select_step (c : proc_pc) : G proc_pc :=
  match c with
  | PTake => r ← on_sendQueue chan_recv; '(_, data) ← deref r; mret (PSendErr data)
  | PSendErr data => err ← at_pcb p (gets p_err);
                     mret (if err : bool then PIdle else PCount data)
  | PCount data => at_pcb p (sendCount_add 1);; mret (PTcpSend data)
  | PTcpSend _ => mret PIdle
  | PTakeRecved => r ← on_recvedQueue chan_recv; '(_, n) ← deref r; mret (PRecved n)
  | PRecved n => _ ← at_pcb p (gets p_err); mret PIdle
  | PTakeClose => r ← on_closeQueue chan_recv; _ ← deref r; mret PTcpClose
  | PTcpClose => mret PIdle
  | _ => mret c
  end.

(** The callbacks for TCP. *)
Definition callback_step (c : proc_pc) : G proc_pc :=
  match c with
  | PRecvFind data => g ← gets id;
      mret (if decide (tcpPcbs g !! e = Some p) then PRecvErr data else PIdle)
  | PRecvErr data => err ← at_pcb p (gets p_err);
                     mret (if err : bool then PIdle else PRecvPut data)
  | PRecvPut data => at_recvQueued p (chan_send data);; mret PIdle
  | PDoneFind => g ← gets id;
      mret (if decide (tcpPcbs g !! e = Some p) then PDoneErr else PIdle)
  | PDoneErr => err ← at_pcb p (gets p_err);
                mret (if err : bool then PIdle else PDoneCount)
  | PDoneCount => n ← at_pcb p (gets sendCount);
                  mret (if n >? 0 then PDoneDec else PIdle)
  | PDoneDec => at_pcb p (sendCount_add (-1));; mret PDonePost
  | PDonePost => at_pcb p (sendWait_send 1);; mret PIdle
  | PCloseFind => g ← gets id;
      mret (if decide (tcpPcbs g !! e = Some p) then PCloseDelete else PIdle)
  | PCloseDelete => modify (fun g => set_tcpPcbs (delete e (tcpPcbs g)) g);;
                    mret (PClose KLock)
  | PClose k => r ← close_step k;
                mret (match r with inl k => PClose k | inr _ => PIdle end)
  | _ => mret c
  end.

Definition proc_step (c : proc_pc) : G proc_pc :=
  match c with
  | PIdle | PTake | PSendErr _ | PCount _ | PTcpSend _ | PTakeRecved | PRecved _
  | PTakeClose | PTcpClose => select_step c
  | _ => callback_step c
  end.

(** Outside of a method. *)
Definition returned (u : user_pc) : bool :=
  match u with
  | UIdle | UWrote _ _ | URead _ _ | UClosed _ => true
  | _ => false
  end.

(** The entry of a method. *)
Definition method_entry (u : user_pc) : bool :=
  match u with
  | WCheck (_ :: _) | RInter _ | UClose KLock => true
  | _ => false
  end.

(** ** The machine

    [queued] is whether the connection has a queue in C, [live] whether its
    control block is there; [received] and [taken] are the packets that the
    binding got from C and those that the [Read]s took, [lost] the data that C
    did not take, with the result of [cs_tcp_char_send], [twice] that [tcp_close]
    was called on a control block that is gone. *)
Record sys : Type := Sys {
  gst : go_state;
  users : list user_pc;
  proc : proc_pc;
  queued : bool;
  live : bool;
  received : list bytes;
  taken : list bytes;
  lost : list (bytes * Z);
  twice : bool
}.

(** The results of [cs_tcp_char_send]: 100 when a queue is pending, 1 when there
    is no memory for the data, and 0 when it took them.  [Send] drops the result;
    data that were not taken are gone. *)
Definition char_send_result (pending : bool) (r : Z) : bool :=
  if pending then r =? 100 else (r =? 0) || (r =? 1).
Definition refuse (data : bytes) (r : Z) (l : list (bytes * Z)) : list (bytes * Z) :=
  if r =? 0 then l else l ++ [(data, r)].

(** The packet that [Read] takes in this step. *)
Definition takes (u : user_pc) (g : go_state) : list bytes :=
  match u with
  | RTake _ =>
      match at_recvQueued p chan_recv g with
      | Ok (Some b, _) => [b]
      | _ => []
      end
  | _ => []
  end.

Definition puts (c : proc_pc) : list bytes :=
  match c with
  | PRecvPut data => [data]
  | _ => []
  end.

(** What lwIP or the [select] may start in the processing goroutine:
    [cs_tcp_send] calls [go_tcp_send_done_h] only without a queue, and a
    callback comes only with a live control block and, for data, with some. *)
Definition proc_entry (s : sys) (c : proc_pc) : bool :=
  match c with
  | PTake | PTakeRecved | PTakeClose => true
  | PRecvFind (_ :: _) => live s
  | PDoneFind => live s && negb (queued s)
  | PCloseFind => live s
  | _ => false
  end.

Inductive go_next (s : sys) : sys -> Prop :=
| next_call t u u' :
    users s !! t = Some u -> returned u = true -> method_entry u' = true ->
    go_next s (Sys (gst s) (<[t := u']> (users s)) (proc s) (queued s) (live s)
                 (received s) (taken s) (lost s) (twice s))
| next_user t u u' g :
    users s !! t = Some u -> returned u = false -> user_step u (gst s) = Ok (u', g) ->
    go_next s (Sys g (<[t := u']> (users s)) (proc s) (queued s) (live s)
                 (received s) (taken s ++ takes u (gst s)) (lost s) (twice s))
| next_event c :
    proc s = PIdle -> proc_entry s c = true ->
    go_next s (Sys (gst s) (users s) c (queued s) (live s)
                 (received s) (taken s) (lost s) (twice s))
| next_sent :                          (* lwIP takes what was queued *)
    proc s = PIdle ->
    go_next s (Sys (gst s) (users s) PIdle false (live s)
                 (received s) (taken s) (lost s) (twice s))
| next_proc c c' g :
    proc s = c -> (forall data, c <> PTcpSend data) -> c <> PTcpClose ->
    c <> PCloseFind -> proc_step c (gst s) = Ok (c', g) ->
    go_next s (Sys g (users s) c' (queued s) (live s)
                 (received s ++ puts c) (taken s) (lost s) (twice s))
| next_tcp_send data q res :           (* cs_tcp_char_send *)
    proc s = PTcpSend data -> char_send_result (queued s) res = true ->
    go_next s (Sys (gst s) (users s) PIdle (if res =? 0 then q else queued s) (live s)
                 (received s) (taken s) (refuse data res (lost s)) (twice s))
| next_tcp_close ok :                  (* tcp_close, which may have no memory *)
    proc s = PTcpClose ->
    go_next s (Sys (gst s) (users s) PIdle (queued s) (live s && negb ok)
                 (received s) (taken s) (lost s) (negb (live s) || twice s))
| next_closed c' g :                   (* cs_tcp_raw_close calls Go, then tcp_close *)
    proc s = PCloseFind -> proc_step PCloseFind (gst s) = Ok (c', g) ->
    go_next s (Sys g (users s) c' (queued s) false
                 (received s) (taken s) (lost s) (twice s)).

(** The connection has been accepted. *)
Definition go_conn0 (arg : option ptr) (pcb : ptr) (laddr raddr : ip_addr)
    (lport rport : Z) : go_state :=
  let o := Pcb TCP arg pcb (Some e) laddr lport raddr rport false false 1%positive
             (Some (make_chan 1)) 0 false in
  set_tcpPcbs {[e := p]} (set_bchans {[1%positive := make_chan QUEUE]}
    (set_pcbs {[p := o]} go_state0)).

Definition sys_init (s : sys) : Prop :=
  (exists arg pcb la ra lp rp, gst s = go_conn0 arg pcb la ra lp rp) /\
  Forall (fun u => u = UIdle) (users s) /\ proc s = PIdle /\ queued s = false /\
  live s = true /\ received s = [] /\ taken s = [] /\ lost s = [] /\ twice s = false.

Definition sys_reachable (s : sys) : Prop :=
  exists s0, sys_init s0 /\ rtc go_next s0 s.

(** A method by a goroutine that no other one disturbs. *)
Fixpoint alone (n : nat) (u : user_pc) : G user_pc :=
  match n with
  | O => mret u
  | Datatypes.S n => if returned u then mret u else u' ← user_step u; alone n u'
  end.

(** ** The invariant *)

Definition k_holds (k : close_pc) : bool :=
  match k with KLock => false | _ => true end.

(** Holding the lock of the connection. *)
Definition u_holds (u : user_pc) : bool :=
  match u with
  | WPost _ | WWait _ | WUnlock _ => true
  | UClose k => k_holds k
  | _ => false
  end.
Definition p_holds (c : proc_pc) : bool :=
  match c with PClose k => k_holds k | _ => false end.

(** In [close], after and before some of its steps. *)
Definition u_at (f : close_pc -> bool) (u : user_pc) : bool :=
  match u with UClose k => f k | _ => false end.
Definition p_at (f : close_pc -> bool) (c : proc_pc) : bool :=
  match c with PClose k => f k | _ => false end.
Definition k_set (k : close_pc) : bool := match k with KSet => true | _ => false end.
Definition k_recv (k : close_pc) : bool := match k with KRecv => true | _ => false end.
Definition k_wait (k : close_pc) : bool := match k with KWait => true | _ => false end.

(** Waiting in a [Write] for its data to be sent. *)
Definition u_waits (u : user_pc) : bool := match u with WWait _ => true | _ => false end.
Definition p_never (c : proc_pc) : bool := false.

Definition number (f : user_pc -> bool) (f' : proc_pc -> bool) (us : list user_pc)
    (c : proc_pc) : nat := (count_if f us + Nat.b2n (f' c))%nat.
Abbreviation at_k f := (number (u_at f) (p_at f)).

(** On the way of a [Write] through the processing goroutine, but in the
    variable [sendCount]. *)
Definition p_token (c : proc_pc) : bool :=
  match c with PSendErr _ | PCount _ | PDonePost => true | _ => false end.
(** Where the connection was open at the last look. *)
Definition p_open (c : proc_pc) : bool :=
  match c with PCount _ | PTcpSend _ | PDoneDec | PDonePost => true | _ => false end.
(** Where [sendCount] is positive. *)
Definition p_counted (c : proc_pc) : bool :=
  match c with PTcpSend _ | PDoneDec => true | _ => false end.
(** Where the connection has no queue in C. *)
Definition p_unqueued (c : proc_pc) : bool :=
  match c with
  | PTcpSend _ | PDoneFind | PDoneErr | PDoneCount | PDoneDec | PDonePost => true
  | _ => false
  end.

(** [o] is the object, [c] and [k] are its channels [recvQueued] and [sendWait],
    [n] is the length of [sendQueue]. *)
Record facts (us : list user_pc) (pc : proc_pc) (o : PCB) (c : chan bytes)
    (k : chan Z) (n : nat) (q : bool) : Prop := Facts {
  fa_lock : number u_holds p_holds us pc = Nat.b2n (lck o);
  fa_set : (0 < at_k k_set us pc)%nat -> p_err o = false;
  fa_recv : (Nat.b2n (c_closed c) + at_k k_recv us pc = Nat.b2n (p_err o))%nat;
  fa_wait : (Nat.b2n (c_closed k) + at_k k_recv us pc + at_k k_wait us pc =
             Nat.b2n (p_err o))%nat;
  fa_count : 0 <= sendCount o;
  fa_tokens : p_err o = false ->
    (n + Nat.b2n (p_token pc) + Z.to_nat (sendCount o) + length (c_buf k) =
     number u_waits p_never us pc)%nat;
  fa_closed : p_err o = true ->
    sendCount o = 0 /\ length (c_buf k) = 0%nat /\ p_open pc = false;
  fa_counted : p_counted pc = true -> 1 <= sendCount o;
  fa_unqueued : p_unqueued pc = true -> q = false;
  fa_queued : q = true -> p_err o = false -> 1 <= sendCount o
}.

Lemma holds_waits u : u_waits u = true -> u_holds u = true.
Proof. by destruct u. Qed.
Lemma holds_set u : u_at k_set u = true -> u_holds u = true.
Proof. by destruct u as [| | | | | | | | | | | | | |[]| |]. Qed.

(** At most one goroutine holds the lock, so those in the middle of [close] and
    the waiting [Write] exclude each other. *)
Lemma facts_excl us pc o c k n q :
  facts us pc o c k n q ->
  (number u_holds p_holds us pc <= 1)%nat /\
  (number u_waits p_never us pc + at_k k_set us pc <= 1)%nat.
Proof.
  intros Fa. pose proof (fa_lock _ _ _ _ _ _ _ Fa) as Hl.
  assert (number u_holds p_holds us pc <= 1)%nat as H1 by (destruct (lck o); cbn in *; lia).
  split; [done|]. etransitivity; [|exact H1]. unfold number, p_never. cbn [Nat.b2n].
  assert (count_if u_waits us + count_if (u_at k_set) us <= count_if u_holds us)%nat.
  { clear. induction us as [|u us IH]; cbn; [lia|].
    destruct u as [| | | | | | | | | | | | | |[]| |]; cbn; lia. }
  destruct pc as [| | | | | | | | | | | | | | | | | | |[]]; cbn in *; lia.
Qed.

(** A step of a goroutine of the program. *)
Lemma facts_user us pc o c k n q t u u' o' c' k' n' :
  facts us pc o c k n q -> us !! t = Some u ->
  (Nat.b2n (u_holds u') + Nat.b2n (lck o) = Nat.b2n (u_holds u) + Nat.b2n (lck o'))%nat ->
  (u_at k_set u' = true -> p_err o' = false) ->
  (Nat.b2n (c_closed c') + Nat.b2n (u_at k_recv u') + Nat.b2n (p_err o) =
   Nat.b2n (c_closed c) + Nat.b2n (u_at k_recv u) + Nat.b2n (p_err o'))%nat ->
  (Nat.b2n (c_closed k') + Nat.b2n (u_at k_recv u') + Nat.b2n (u_at k_wait u') +
     Nat.b2n (p_err o) =
   Nat.b2n (c_closed k) + Nat.b2n (u_at k_recv u) + Nat.b2n (u_at k_wait u) +
     Nat.b2n (p_err o'))%nat ->
  sendCount o' = sendCount o ->
  (p_err o' = false -> p_err o = false /\
     n' + length (c_buf k') + Nat.b2n (u_waits u) =
     n + length (c_buf k) + Nat.b2n (u_waits u'))%nat ->
  (p_err o' = true ->
     p_err o = true /\ (length (c_buf k') <= length (c_buf k))%nat \/
     u_at k_set u = true /\ length (c_buf k') = length (c_buf k)) ->
  facts (<[t := u']> us) pc o' c' k' n' q.
Proof.
  intros Fa Hu Hl Hs Hr Hw Hc Ht He.
  destruct (facts_excl _ _ _ _ _ _ _ Fa) as [He1 He2].
  pose proof (count_if_insert u_holds _ _ _ u' Hu) as C1.
  pose proof (count_if_insert u_waits _ _ _ u' Hu) as C2.
  pose proof (count_if_insert (u_at k_set) _ _ _ u' Hu) as C3.
  pose proof (count_if_insert (u_at k_recv) _ _ _ u' Hu) as C4.
  pose proof (count_if_insert (u_at k_wait) _ _ _ u' Hu) as C5.
  destruct Fa. split; unfold number in *.
  - lia.
  - intros Hpos. destruct (u_at k_set u') eqn:Hk'; [auto|]. cbn in C3.
    assert (p_err o = false) as He0 by (apply fa_set0; lia).
    destruct (p_err o') eqn:He'; [|done].
    destruct (He eq_refl) as [[? _]|[Hk _]]; [congruence|].
    rewrite Hk in C3. cbn in C3. lia.
  - lia.
  - lia.
  - lia.
  - intros [He0 Hn]%Ht. specialize (fa_tokens0 He0). lia.
  - intros He'. rewrite Hc. destruct (He He') as [[He0 Hlen]|[Hk Hlen]].
    + destruct (fa_closed0 He0) as (? & ? & ?). split_and!; [done|lia|done].
    + pose proof (count_if_pos (u_at k_set) _ _ _ Hu Hk) as Hpos.
      specialize (fa_tokens0 ltac:(apply fa_set0; lia)). cbn in He2, fa_tokens0.
      split_and!; [lia|lia|]. destruct pc; cbn in *; try done; lia.
  - rewrite Hc. auto.
  - done.
  - intros Hq He'. destruct (Ht He') as [He0 _]. rewrite Hc. auto.
Qed.

(** A step of the processing goroutine. *)
Lemma facts_proc us pc o c k n q pc' o' c' k' n' q' :
  facts us pc o c k n q ->
  (Nat.b2n (p_holds pc') + Nat.b2n (lck o) = Nat.b2n (p_holds pc) + Nat.b2n (lck o'))%nat ->
  (p_at k_set pc' = true -> p_err o' = false) ->
  (Nat.b2n (c_closed c') + Nat.b2n (p_at k_recv pc') + Nat.b2n (p_err o) =
   Nat.b2n (c_closed c) + Nat.b2n (p_at k_recv pc) + Nat.b2n (p_err o'))%nat ->
  (Nat.b2n (c_closed k') + Nat.b2n (p_at k_recv pc') + Nat.b2n (p_at k_wait pc') +
     Nat.b2n (p_err o) =
   Nat.b2n (c_closed k) + Nat.b2n (p_at k_recv pc) + Nat.b2n (p_at k_wait pc) +
     Nat.b2n (p_err o'))%nat ->
  0 <= sendCount o' ->
  (p_err o' = false -> p_err o = false /\
     n' + Nat.b2n (p_token pc') + Z.to_nat (sendCount o') + length (c_buf k') =
     n + Nat.b2n (p_token pc) + Z.to_nat (sendCount o) + length (c_buf k))%nat ->
  (p_err o' = true ->
     (p_err o = true \/ p_at k_set pc = true) /\ p_open pc' = false /\
     sendCount o' = sendCount o /\ length (c_buf k') = length (c_buf k)) ->
  (p_counted pc' = true -> 1 <= sendCount o') ->
  (p_unqueued pc' = true -> q' = false) ->
  (q' = true -> p_err o' = false -> 1 <= sendCount o') ->
  facts us pc' o' c' k' n' q'.
Proof.
  intros Fa Hl Hs Hr Hw Hc Ht He Hcd Huq Hqd.
  destruct (facts_excl _ _ _ _ _ _ _ Fa) as [He1 He2].
  destruct Fa. split; unfold number, p_never in *; try done.
  - lia.
  - intros Hpos. destruct (p_at k_set pc') eqn:Hk'; [auto|]. cbn in Hpos.
    assert (p_err o = false) as He0 by (apply fa_set0; lia).
    destruct (p_err o') eqn:He'; [|done].
    destruct (He eq_refl) as [[?|Hk] _]; [congruence|].
    rewrite Hk in He2. cbn in He2. lia.
  - lia.
  - lia.
  - intros [He0 Hn]%Ht. specialize (fa_tokens0 He0). lia.
  - intros He'. destruct (He He') as ([He0|Hk] & Hop & -> & Hlen).
    + destruct (fa_closed0 He0) as (? & ? & ?). split_and!; [done|lia|done].
    + rewrite Hk in *. cbn in *.
      specialize (fa_tokens0 ltac:(apply fa_set0; lia)). split_and!; [lia|lia|done].
Qed.

(** The whole state. *)
Record conc_inv (s : sys) o c k : Prop := ConcInv {
  co_obj : pcbs (gst s) !! p = Some o;
  co_type : p_type o = TCP /\ recvInter o = false;
  co_chan : bchans (gst s) !! recvQueued o = Some c;
  co_wait : sendWait o = Some k /\ c_cap k = 1%nat;
  co_open : c_closed (sendQueue (gst s)) = false /\
    c_closed (recvedQueue (gst s)) = false /\ c_closed (closeQueue (gst s)) = false;
  co_facts : facts (users s) (proc s) o c k (length (c_buf (sendQueue (gst s)))) (queued s);
  co_fifo : received s = taken s ++ c_buf c;
  co_lost : Forall (fun x => x.2 = 1) (lost s)
}.

Lemma zoom_inv {St T X} (ge : St -> T) se (m : M T X) st x st' :
  zoom ge se m st = Ok (x, st') ->
  exists t, m (ge st) = Ok (x, t) /\ st' = se t st.
Proof. unfold zoom. destruct (m (ge st)) as [[? ?]|]; naive_solver. Qed.

(** The three kinds of steps: on the object, on the queue of received data, and
    on the rest. *)
Lemma conc_obj s us pc q lv tw o c k o' k' :
  conc_inv s o c k ->
  p_type o' = p_type o -> recvInter o' = recvInter o -> recvQueued o' = recvQueued o ->
  sendWait o' = Some k' -> c_cap k' = c_cap k ->
  facts us pc o' c k' (length (c_buf (sendQueue (gst s)))) q ->
  conc_inv (Sys (set_pcbs (<[p := o']> (pcbs (gst s))) (gst s)) us pc q lv
              (received s) (taken s) (lost s) tw) o' c k'.
Proof.
  intros [Ho [Ht Hi] Hc [Hk Hcap] Hop Fa Hf Hl] H1 H2 H3 H4 H5 Hfa.
  split; cbn; try done; [apply lookup_insert_eq|by rewrite H1, H2|by rewrite H3|].
  by rewrite H5.
Qed.

Lemma conc_gst s g us pc q lv tw o c k :
  conc_inv s o c k -> pcbs g = pcbs (gst s) -> bchans g = bchans (gst s) ->
  c_closed (sendQueue g) = false -> c_closed (recvedQueue g) = false ->
  c_closed (closeQueue g) = false ->
  facts us pc o c k (length (c_buf (sendQueue g))) q ->
  conc_inv (Sys g us pc q lv (received s) (taken s) (lost s) tw) o c k.
Proof.
  intros [Ho [Ht Hi] Hc [Hk Hcap] Hop Fa Hf Hl] H1 H2 H3 H4 H5 Hfa.
  split; cbn; try done; congruence.
Qed.

Lemma conc_chan s us pc lv rc tk o c k c' :
  conc_inv s o c k ->
  facts us pc o c' k (length (c_buf (sendQueue (gst s)))) (queued s) ->
  rc = tk ++ c_buf c' ->
  conc_inv (Sys (set_bchans (<[recvQueued o := c']> (bchans (gst s))) (gst s)) us pc
              (queued s) lv rc tk (lost s) (twice s)) o c' k.
Proof.
  intros [Ho [Ht Hi] Hc [Hk Hcap] Hop Fa Hf Hl] Hfa Hr.
  split; cbn; try done. apply lookup_insert_eq.
Qed.

(** A step of [close]. *)
Lemma close_step_inv s o c k kp r g :
  conc_inv s o c k -> close_step kp (gst s) = Ok (r, g) ->
  match kp with
  | KRecv => c_closed c = false /\ r = inl KWait /\
      g = set_bchans (<[recvQueued o := Chan (c_cap c) (c_buf c) true]>
            (bchans (gst s))) (gst s)
  | _ => exists o' k', g = set_pcbs (<[p := o']> (pcbs (gst s))) (gst s) /\
      p_type o' = p_type o /\ recvInter o' = recvInter o /\
      recvQueued o' = recvQueued o /\ sendCount o' = sendCount o /\
      sendWait o' = Some k' /\ c_cap k' = c_cap k /\ c_buf k' = c_buf k /\
      match kp with
      | KLock => lck o = false /\ lck o' = true /\ p_err o' = p_err o /\
          k' = k /\ r = inl KErr
      | KErr => lck o' = lck o /\ p_err o' = p_err o /\ k' = k /\
          r = inl (if p_err o then KUnlock true else KSet)
      | KSet => lck o' = lck o /\ p_err o' = true /\ k' = k /\ r = inl KRecv
      | KWait => lck o' = lck o /\ p_err o' = p_err o /\ c_closed k = false /\
          c_closed k' = true /\ r = inl (KUnlock false)
      | KUnlock b => lck o = true /\ lck o' = false /\ p_err o' = p_err o /\
          k' = k /\ r = inr b
      | KRecv => True
      end
  end.
Proof.
  intros [Ho [Ht Hi] Hc [Hk Hcap] Hop Fa Hf Hl].
  destruct kp; cbn [close_step]; unfold mbind, M_bind; rewrite ?(at_pcb_at _ _ _ _ Ho).
  - unfold lock. destruct (lck o) eqn:Hlk; [done|]. intros [= <- <-]. naive_solver.
  - cbn. intros [= <- <-]. naive_solver.
  - cbn. intros [= <- <-]. naive_solver.
  - rewrite (at_recvQueued_run _ _ _ _ _ Ho Hc). unfold chan_close.
    destruct (c_closed c); [done|]. by intros [= <- <-].
  - unfold sendWait_close, on_sendWait. rewrite Hk. unfold chan_close.
    destruct (c_closed k) eqn:Hck; [done|]. intros [= <- <-].
    eexists _, _. by split_and!.
  - unfold unlock. destruct (lck o) eqn:Hlk; [|done]. intros [= <- <-]. naive_solver.
Qed.

(** The side conditions of a step. *)
Ltac facts_done :=
  cbn; repeat match goal with
  | H : _ = _ :> bool |- _ => rewrite H
  | H : c_buf _ = _ |- _ => rewrite H
  end; cbn; rewrite ?length_app; cbn; (try done); (try by auto); (try by left);
  (try by right); (try lia); try (intros; split_and?; (done || lia)).

Lemma user_close_inv s o c k t kp r g :
  conc_inv s o c k -> users s !! t = Some (UClose kp) ->
  close_step kp (gst s) = Ok (r, g) ->
  exists o' c' k', conc_inv (Sys g
    (<[t := match r with inl k => UClose k | inr err => UPost err end]> (users s))
    (proc s) (queued s) (live s) (received s) (taken s) (lost s) (twice s)) o' c' k'.
Proof.
  intros I Hu Hstep. pose proof (co_facts _ _ _ _ I) as Fa.
  pose proof (close_step_inv _ _ _ _ _ _ _ I Hstep) as Hk.
  assert (Hset : kp = KSet -> p_err o = false).
  { intros ->. apply (fa_set _ _ _ _ _ _ _ Fa). unfold number.
    pose proof (count_if_pos (u_at k_set) _ _ _ Hu eq_refl). lia. }
  destruct (decide (kp = KRecv)) as [->|Hne].
  { destruct Hk as (Hcl & -> & ->). exists o, (Chan (c_cap c) (c_buf c) true), k.
    apply (conc_chan s _ _ _ _ _ o c k); [done| |by apply I].
    eapply facts_user; try exact Fa; try exact Hu; facts_done. }
  destruct kp; try done; destruct Hk as (o' & k' & -> & ? & ? & ? & Hsc & ? & ? & Hb & Hk);
    destruct_and?; subst; exists o', c; eexists;
    (eapply conc_obj; [exact I|try done..|]);
    (eapply facts_user; [exact Fa|exact Hu|..]).
  all: try solve [facts_done].
  all: try (rewrite (Hset eq_refl); facts_done).
  all: destruct (p_err o) eqn:Hpe; facts_done.
Qed.

(** A step on the object by a goroutine of the program. *)
Ltac user_obj I Fa Hu :=
  eexists _, _, _; eapply conc_obj;
  [exact I|try done..|eapply facts_user; [exact Fa|exact Hu|..];
    try solve [facts_done | destruct (p_err _) eqn:?; facts_done]].

Lemma takes_other u g : (forall n, u <> RTake n) -> takes u g = [].
Proof. intros Hn. destruct u; try done. by destruct (Hn n). Qed.

Lemma user_inv s o c k t u u' g :
  conc_inv s o c k -> users s !! t = Some u -> returned u = false ->
  user_step u (gst s) = Ok (u', g) ->
  exists o' c' k', conc_inv (Sys g (<[t := u']> (users s)) (proc s) (queued s) (live s)
    (received s) (taken s ++ takes u (gst s)) (lost s) (twice s)) o' c' k'.
Proof.
  intros I Hu Hret Hstep. pose proof (co_facts _ _ _ _ I) as Fa.
  pose proof (co_obj _ _ _ _ I) as Ho. pose proof (co_chan _ _ _ _ I) as Hc.
  destruct (co_wait _ _ _ _ I) as [Hk Hcap].
  destruct (co_open _ _ _ _ I) as (Hsq & Hrq & Hcq).
  destruct u; try done; cbn [user_step] in Hstep; unfold mbind, M_bind in Hstep;
    rewrite ?(at_pcb_at _ _ _ _ Ho) in Hstep;
    rewrite ?takes_other, ?app_nil_r by done.
  - injection Hstep as <- <-. user_obj I Fa Hu.
  - unfold lock in Hstep. destruct (lck o) eqn:Hlk; [done|]. injection Hstep as <- <-.
    user_obj I Fa Hu.
  - case_in Hstep. apply zoom_inv in E as (q & Hq & ->). injection Hstep as <- <-.
    apply chan_send_inv in Hq as (_ & _ & ->). exists o, c, k.
    eapply conc_gst; try done. eapply facts_user; [exact Fa|exact Hu|facts_done..].
  - unfold sendWait_recv, mbind, M_bind, on_sendWait in Hstep. rewrite Hk in Hstep.
    destruct (chan_recv k) as [[x k']|] eqn:Hkr; [|done]. injection Hstep as <- <-.
    assert (He : c_closed k = true -> p_err o = true).
    { intros Hcl. pose proof (fa_wait _ _ _ _ _ _ _ Fa) as Hw. rewrite Hcl in Hw.
      destruct (p_err o); [done|]. cbn in Hw. lia. }
    apply chan_recv_inv in Hkr. destruct x as [x|].
    + destruct Hkr as (Hb & Hc1 & Hc2). user_obj I Fa Hu.
    + destruct Hkr as (Hb & Hcl & ->). specialize (He Hcl). user_obj I Fa Hu.
  - unfold unlock in Hstep. destruct (lck o) eqn:Hlk; [|done]. injection Hstep as <- <-.
    user_obj I Fa Hu.
  - injection Hstep as <- <-. user_obj I Fa Hu.
  - cbn in Hstep. rewrite (proj2 (co_type _ _ _ _ I)) in Hstep.
    injection Hstep as <- <-. user_obj I Fa Hu.
  - injection Hstep as <- <-. user_obj I Fa Hu.
  - cbn [takes]. rewrite (at_recvQueued_run _ _ _ _ _ Ho Hc) in Hstep |- *.
    destruct (chan_recv c) as [[x c']|] eqn:Hcr; [|done].
    apply chan_recv_inv in Hcr.
    assert (Hg : g = set_bchans (<[recvQueued o := c']> (bchans (gst s))) (gst s) /\
      (u' = RNil \/ exists b, u' = RTell b)).
    { destruct x as [[|z b]|]; cbn in Hstep; [|case_decide; [done|]|];
        injection Hstep as <- <-; eauto. }
    assert (Hcl : c_closed c' = c_closed c) by (destruct x; naive_solver).
    destruct Hg as [-> Hu']. exists o, c', k. apply (conc_chan s _ _ _ _ _ o c k); [done|..].
    + eapply facts_user; [exact Fa|exact Hu|..]; destruct Hu' as [->|[b ->]]; facts_done.
    + rewrite (co_fifo _ _ _ _ I). destruct x as [x|].
      * destruct Hcr as [-> _]. by rewrite <- app_assoc.
      * destruct Hcr as (_ & _ & ->). by rewrite app_nil_r.
  - case_in Hstep. apply zoom_inv in E as (q & Hq & ->). injection Hstep as <- <-.
    apply chan_send_inv in Hq as (_ & _ & ->). exists o, c, k.
    eapply conc_gst; try done. eapply facts_user; [exact Fa|exact Hu|facts_done..].
  - injection Hstep as <- <-. user_obj I Fa Hu.
  - destruct (close_step k0 (gst s)) as [[r g1]|] eqn:Hcs; [|done].
    injection Hstep as <- <-. by eapply user_close_inv.
  - case_in Hstep. apply zoom_inv in E as (q & Hq & ->). injection Hstep as <- <-.
    apply chan_send_inv in Hq as (_ & _ & ->). exists o, c, k.
    eapply conc_gst; try done. eapply facts_user; [exact Fa|exact Hu|facts_done..].
Qed.

(** The same for the processing goroutine. *)
Lemma proc_close_inv s o c k kp r g :
  conc_inv s o c k -> proc s = PClose kp -> close_step kp (gst s) = Ok (r, g) ->
  forall lv, exists o' c' k', conc_inv (Sys g (users s)
    (match r with inl k => PClose k | inr _ => PIdle end)
    (queued s) lv (received s) (taken s) (lost s) (twice s)) o' c' k'.
Proof.
  intros I Hp Hstep lv. pose proof (co_facts _ _ _ _ I) as Fa. rewrite Hp in Fa.
  pose proof (close_step_inv _ _ _ _ _ _ _ I Hstep) as Hk.
  assert (Hset : kp = KSet -> p_err o = false).
  { intros ->. apply (fa_set _ _ _ _ _ _ _ Fa). unfold number. cbn. lia. }
  pose proof (fa_count _ _ _ _ _ _ _ Fa) as Hn.
  pose proof (fa_queued _ _ _ _ _ _ _ Fa) as Hq.
  destruct (decide (kp = KRecv)) as [->|Hne].
  { destruct Hk as (Hcl & -> & ->). exists o, (Chan (c_cap c) (c_buf c) true), k.
    apply (conc_chan s _ _ _ _ _ o c k); [done| |by apply I].
    eapply facts_proc; [exact Fa|facts_done..]. }
  destruct kp; try done; destruct Hk as (o' & k' & -> & ? & ? & ? & Hsc & ? & ? & Hb & Hk);
    destruct_and?; subst; exists o', c; eexists;
    (eapply conc_obj; [exact I|try done..|]);
    (eapply facts_proc; [exact Fa|..]); rewrite ?Hsc.
  all: try solve [facts_done].
  all: try (rewrite (Hset eq_refl); facts_done).
  all: destruct (p_err o) eqn:Hpe; facts_done.
Qed.

(** Where the connection was open it still is. *)
Lemma facts_open us pc o c k n q :
  facts us pc o c k n q -> p_open pc = true -> p_err o = false.
Proof.
  intros Fa Hop. destruct (p_err o) eqn:He; [|done].
  destruct (fa_closed _ _ _ _ _ _ _ Fa He) as (_ & _ & ?). congruence.
Qed.

(** Only one [Write] is on its way. *)
Lemma facts_one us pc o c k n q :
  facts us pc o c k n q -> p_err o = false ->
  (n + Nat.b2n (p_token pc) + Z.to_nat (sendCount o) + length (c_buf k) <= 1)%nat.
Proof.
  intros Fa He. rewrite (fa_tokens _ _ _ _ _ _ _ Fa He).
  destruct (facts_excl _ _ _ _ _ _ _ Fa). lia.
Qed.

Ltac proc_facts Fa := eapply facts_proc; [exact Fa|..]; try solve [facts_done].

Ltac proc_obj I Fa :=
  eexists _, _, _; eapply conc_obj;
  [exact I|try done..|eapply facts_proc; [exact Fa|..];
    try solve [facts_done | destruct (p_err _) eqn:?; facts_done]].

Lemma proc_inv s o c k pc pc' g :
  conc_inv s o c k -> proc s = pc -> (forall data, pc <> PTcpSend data) ->
  pc <> PTcpClose -> proc_step pc (gst s) = Ok (pc', g) ->
  forall lv, exists o' c' k', conc_inv (Sys g (users s) pc' (queued s) lv
    (received s ++ puts pc) (taken s) (lost s) (twice s)) o' c' k'.
Proof.
  intros I Hpc Hn1 Hn2 Hstep lv. pose proof (co_facts _ _ _ _ I) as Fa. rewrite Hpc in Fa.
  pose proof (co_obj _ _ _ _ I) as Ho. pose proof (co_chan _ _ _ _ I) as Hc.
  destruct (co_wait _ _ _ _ I) as [Hk Hcap].
  destruct (co_open _ _ _ _ I) as (Hsq & Hrq & Hcq).
  pose proof (fa_count _ _ _ _ _ _ _ Fa) as Hn.
  pose proof (fa_queued _ _ _ _ _ _ _ Fa) as Hq.
  pose proof (fa_closed _ _ _ _ _ _ _ Fa) as Hcl.
  pose proof (fa_counted _ _ _ _ _ _ _ Fa) as Hcd.
  pose proof (fa_unqueued _ _ _ _ _ _ _ Fa) as Huq.
  pose proof (facts_open _ _ _ _ _ _ _ Fa) as Hope.
  pose proof (facts_one _ _ _ _ _ _ _ Fa) as Hone.
  destruct pc; try done; cbn [proc_step select_step callback_step] in Hstep;
    unfold mbind, M_bind in Hstep;
    rewrite ?(at_pcb_at _ _ _ _ Ho) in Hstep; cbn [puts]; rewrite ?app_nil_r.
  - injection Hstep as <- <-. exists o, c, k. by eapply conc_gst.
  - (* PTake *)
    destruct (on_sendQueue chan_recv (gst s)) as [[r g1]|] eqn:E; [|done].
    apply zoom_inv in E as (q & Hr & ->). apply chan_recv_inv in Hr.
    destruct r as [[p' data]|]; cbn in Hstep; [|done]. injection Hstep as <- <-.
    destruct Hr as (Hb & _ & Hcl'). exists o, c, k.
    eapply conc_gst; cbn; [exact I|done..|congruence|done|done|]. proc_facts Fa.
  - (* PSendErr *)
    injection Hstep as <- <-. proc_obj I Fa.
  - (* PCount *)
    injection Hstep as <- <-. specialize (Hope eq_refl). specialize (Hone Hope).
    proc_obj I Fa. intros _. destruct (queued s) eqn:Hqs; [|done]. specialize (Hq eq_refl Hope).
      cbn in Hone. lia.
  - by destruct (Hn1 data).
  - (* PTakeRecved *)
    destruct (on_recvedQueue chan_recv (gst s)) as [[r g1]|] eqn:E; [|done].
    apply zoom_inv in E as (q & Hr & ->). apply chan_recv_inv in Hr.
    destruct r as [[p' data]|]; cbn in Hstep; [|done]. injection Hstep as <- <-.
    destruct Hr as (Hb & _ & Hcl'). exists o, c, k.
    eapply conc_gst; cbn; [exact I|done..|congruence|done|]. proc_facts Fa.
  - injection Hstep as <- <-. proc_obj I Fa.
  - (* PTakeClose *)
    destruct (on_closeQueue chan_recv (gst s)) as [[r g1]|] eqn:E; [|done].
    apply zoom_inv in E as (q & Hr & ->). apply chan_recv_inv in Hr.
    destruct r as [p'|]; cbn in Hstep; [|done]. injection Hstep as <- <-.
    destruct Hr as (Hb & _ & Hcl'). exists o, c, k.
    eapply conc_gst; cbn; [exact I|done..|congruence|]. proc_facts Fa.
  - injection Hstep as <- <-. exists o, c, k. eapply conc_gst; try done.
    case_decide; proc_facts Fa.
  - injection Hstep as <- <-. proc_obj I Fa.
  - (* PRecvPut *)
    rewrite (at_recvQueued_run _ _ _ _ _ Ho Hc) in Hstep.
    destruct (chan_send data c) as [[[] c']|] eqn:Hcs; [|done].
    injection Hstep as <- <-. apply chan_send_inv in Hcs as (Hc0 & _ & ->).
    eexists o, _, k. apply (conc_chan s _ _ _ _ _ o c k); [done| |].
    + proc_facts Fa.
    + rewrite (co_fifo _ _ _ _ I). by rewrite <- app_assoc.
  - injection Hstep as <- <-. exists o, c, k. eapply conc_gst; try done.
    case_decide; proc_facts Fa.
  - injection Hstep as <- <-. proc_obj I Fa.
  - (* PDoneCount *)
    cbn in Hstep. injection Hstep as <- <-. exists o, c, k.
    eapply conc_obj; [exact I|done..|]. case_match; proc_facts Fa.
    intros (? & _)%Hcl. lia.
  - (* PDoneDec *)
    injection Hstep as <- <-. specialize (Hope eq_refl). specialize (Hcd eq_refl).
    specialize (Huq eq_refl). proc_obj I Fa.
  - (* PDonePost *)
    unfold sendWait_send, on_sendWait in Hstep. rewrite Hk in Hstep.
    destruct (chan_send 1 k) as [[[] k']|] eqn:Hcs; [|done].
    injection Hstep as <- <-. apply chan_send_inv in Hcs as (Hc0 & _ & ->).
    specialize (Hope eq_refl). proc_obj I Fa.
  - injection Hstep as <- <-. exists o, c, k. eapply conc_gst; try done.
    case_decide; proc_facts Fa.
  - injection Hstep as <- <-. exists o, c, k. eapply conc_gst; try done. proc_facts Fa.
  - destruct (close_step k0 (gst s)) as [[r g1]|] eqn:Hcs; [|done].
    injection Hstep as <- <-. by eapply proc_close_inv.
Qed.

(** What only changes where the processing goroutine is, and the C side. *)
Lemma conc_event s o c k pc q lv tw :
  conc_inv s o c k ->
  facts (users s) pc o c k (length (c_buf (sendQueue (gst s)))) q ->
  conc_inv (Sys (gst s) (users s) pc q lv (received s) (taken s) (lost s) tw) o c k.
Proof.
  intros I Hfa. destruct (co_open _ _ _ _ I) as (? & ? & ?). by eapply conc_gst.
Qed.

(** What C did not take for want of memory. *)
Lemma conc_refuse g us pc q lv rc tk lo tw data res o c k :
  conc_inv (Sys g us pc q lv rc tk lo tw) o c k -> res = 0 \/ res = 1 ->
  conc_inv (Sys g us pc q lv rc tk (refuse data res lo) tw) o c k.
Proof.
  intros [] Hres. split; try done. cbn in *. destruct Hres as [->| ->]; cbn; [done|].
  apply Forall_app. split; [done|]. by repeat constructor.
Qed.

Lemma next_inv s s' :
  (exists o c k, conc_inv s o c k) -> go_next s s' -> exists o c k, conc_inv s' o c k.
Proof.
  intros (o & c & k & I) Hn. pose proof (co_facts _ _ _ _ I) as Fa.
  pose proof (fa_count _ _ _ _ _ _ _ Fa) as Hnn.
  pose proof (fa_queued _ _ _ _ _ _ _ Fa) as Hq.
  destruct (co_open _ _ _ _ I) as (? & ? & ?).
  destruct Hn as [t u u' Hu Hr He|t u u' g Hu Hr Hs|pc Hp He|Hp|pc pc' g Hp Hn1 Hn2 Hn3 Hs
    |data q res Hp Hres|ok Hp|pc' g Hp Hs].
  - exists o, c, k. eapply conc_gst; try done. eapply facts_user; [exact Fa|exact Hu|..].
    all: destruct u, u' as [|[]| | | | | | | | | | | | |[]| |]; try done; facts_done.
  - by eapply user_inv.
  - exists o, c, k. rewrite Hp in Fa. apply conc_event; [done|].
    destruct pc as [| | | | | | | | |[]| | | | | | | | | |]; try done; proc_facts Fa.
    all: cbn in He; destruct (live s), (queued s); done.
  - exists o, c, k. rewrite Hp in Fa. apply conc_event; [done|]. proc_facts Fa.
  - by eapply (proc_inv _ _ _ _ pc).
  - rewrite Hp in Fa. rewrite (fa_unqueued _ _ _ _ _ _ _ Fa eq_refl) in *.
    pose proof (fa_counted _ _ _ _ _ _ _ Fa eq_refl) as Hcd.
    exists o, c, k. apply conc_refuse; [|by destruct (orb_prop _ _ Hres) as [->%Z.eqb_eq|?%Z.eqb_eq]; [left|right]].
    apply conc_event; [done|]. proc_facts Fa.
  - exists o, c, k. rewrite Hp in Fa. apply conc_event; [done|]. proc_facts Fa.
  - rewrite <- (app_nil_r (received s)). by eapply (proc_inv _ _ _ _ PCloseFind).
Qed.

Lemma init_inv s : sys_init s -> exists o c k, conc_inv s o c k.
Proof.
  intros ((arg & pcb & la & ra & lp & rp & Hg) & Hus & Hp & Hq & Hl & Hr & Ht & Hlo & Htw).
  assert (Hcount : forall f, f UIdle = false -> count_if f (users s) = 0%nat).
  { intros f Hf. clear -Hus Hf. induction Hus as [|u us -> _ IH]; cbn; [done|].
    by rewrite Hf. }
  eexists _, _, _. split; rewrite ?Hg.
  - apply lookup_singleton_eq.
  - done.
  - cbn. apply lookup_insert_eq.
  - done.
  - done.
  - rewrite Hp, Hq. split; unfold number; cbn; rewrite ?Hcount; done.
  - by rewrite Hr, Ht.
  - by rewrite Hlo.
Qed.

Lemma reachable_conc s : sys_reachable s -> exists o c k, conc_inv s o c k.
Proof.
  intros (s0 & Hi & Hr).
  eapply (rtc_invariant go_next (fun s => exists o c k, conc_inv s o c k)); [|exact Hr|].
  - intros. by eapply next_inv.
  - by apply init_inv.
Qed.

(** What a goroutine in [close] may rely on. *)
Definition k_ready o (c : chan bytes) (k : chan Z) (kp : close_pc) : Prop :=
  (k_holds kp = true -> lck o = true) /\ (kp = KRecv -> c_closed c = false) /\
  (kp = KWait -> c_closed k = false).

Lemma facts_k_ready us pc o c k n q kp :
  facts us pc o c k n q ->
  (k_holds kp = true -> 0 < number u_holds p_holds us pc)%nat ->
  (kp = KRecv -> 0 < at_k k_recv us pc)%nat -> (kp = KWait -> 0 < at_k k_wait us pc)%nat ->
  k_ready o c k kp.
Proof.
  intros [Hl _ Hr Hw _ _ _ _ _ _] H1 H2 H3. split_and!.
  - intros ?%H1. destruct (lck o); [done|]. cbn in Hl. lia.
  - intros ?%H2. destruct (c_closed c); [|done]. destruct (p_err o); cbn in *; lia.
  - intros ?%H3. destruct (c_closed k); [|done]. destruct (p_err o); cbn in *; lia.
Qed.

Lemma user_k_ready s o c k t kp :
  conc_inv s o c k -> users s !! t = Some (UClose kp) -> k_ready o c k kp.
Proof.
  intros I Hu. eapply facts_k_ready; [by apply I|..]; unfold number; intros Hk.
  - pose proof (count_if_pos u_holds _ _ _ Hu Hk). lia.
  - subst. pose proof (count_if_pos (u_at k_recv) _ _ _ Hu eq_refl). lia.
  - subst. pose proof (count_if_pos (u_at k_wait) _ _ _ Hu eq_refl). lia.
Qed.

Lemma proc_k_ready s o c k kp :
  conc_inv s o c k -> proc s = PClose kp -> k_ready o c k kp.
Proof.
  intros I Hp. eapply facts_k_ready; [by apply I|..]; rewrite Hp; unfold number;
    intros Hk; subst; cbn; rewrite ?Hk; cbn; lia.
Qed.

(** Where the steps of a goroutine can stop. *)
Lemma close_step_fault s o c k kp f :
  conc_inv s o c k -> k_ready o c k kp -> close_step kp (gst s) = Fault f ->
  f = Blocked.
Proof.
  intros I (H1 & H2 & H3).
  pose proof (co_obj _ _ _ _ I) as Ho. pose proof (co_chan _ _ _ _ I) as Hc.
  destruct (co_wait _ _ _ _ I) as [Hw _].
  destruct kp; cbn [close_step]; unfold mbind, M_bind; rewrite ?(at_pcb_at _ _ _ _ Ho).
  - unfold lock. destruct (lck o); [|done]. by intros [= <-].
  - done.
  - done.
  - rewrite (at_recvQueued_run _ _ _ _ _ Ho Hc). unfold chan_close. by rewrite H2.
  - unfold sendWait_close, on_sendWait. rewrite Hw. unfold chan_close. by rewrite H3.
  - unfold unlock. by rewrite H1.
Qed.

Lemma queue_send_fault {T} (ge : go_state -> chan T) se x g f :
  c_closed (ge g) = false -> zoom ge se (chan_send x) g = Fault f -> f = Blocked.
Proof.
  intros Hc. unfold zoom, chan_send. rewrite Hc. case_decide; [done|]. by intros [= <-].
Qed.

Lemma queue_recv_fault {T} (ge : go_state -> chan T) se g f :
  zoom ge se chan_recv g = Fault f -> f = Blocked.
Proof.
  unfold zoom, chan_recv. destruct (c_buf (ge g)); [|done].
  destruct (c_closed (ge g)); [done|]. by intros [= <-].
Qed.

Lemma user_fault s o c k t u f :
  conc_inv s o c k -> users s !! t = Some u -> user_step u (gst s) = Fault f ->
  f = Blocked \/
  exists n b, u = RTake n /\ head (c_buf c) = Some b /\ (n < length b)%nat.
Proof.
  intros I Hu Hs. pose proof (co_obj _ _ _ _ I) as Ho.
  pose proof (co_chan _ _ _ _ I) as Hc. pose proof (co_facts _ _ _ _ I) as Fa.
  destruct (co_wait _ _ _ _ I) as [Hw _]. destruct (co_open _ _ _ _ I) as (Hsq & Hrq & Hcq).
  destruct u; cbn [user_step] in Hs; unfold mbind, M_bind in Hs;
    rewrite ?(at_pcb_at _ _ _ _ Ho) in Hs; try done.
  - unfold lock in Hs. destruct (lck o); [|done]. injection Hs as <-. by left.
  - destruct (on_sendQueue _ _) as [[? ?]|] eqn:E; [done|]. injection Hs as <-.
    left. by eapply (queue_send_fault sendQueue).
  - unfold sendWait_recv, mbind, M_bind, on_sendWait, chan_recv in Hs. rewrite Hw in Hs.
    destruct (c_buf k); [|done]. destruct (c_closed k); [done|]. injection Hs as <-. by left.
  - unfold unlock in Hs. pose proof (fa_lock _ _ _ _ _ _ _ Fa) as Hl.
    pose proof (count_if_pos u_holds _ _ _ Hu eq_refl) as Hp. unfold number in Hl.
    destruct (lck o); [done|]. cbn in Hl. lia.
  - cbn in Hs. by rewrite (proj2 (co_type _ _ _ _ I)) in Hs.
  - rewrite (at_recvQueued_run _ _ _ _ _ Ho Hc) in Hs. unfold chan_recv in Hs.
    destruct (c_buf c) as [|[|z b] l] eqn:Hb; [|done|].
    + destruct (c_closed c); [done|]. injection Hs as <-. by left.
    + case_decide; [|done]. right. by exists n, (z :: b).
  - destruct (on_recvedQueue _ _) as [[? ?]|] eqn:E; [done|]. injection Hs as <-.
    left. by eapply (queue_send_fault recvedQueue).
  - destruct (close_step _ _) as [[? ?]|] eqn:E; [done|]. injection Hs as <-.
    left. eapply close_step_fault; [exact I|by eapply user_k_ready|exact E].
  - destruct (on_closeQueue _ _) as [[? ?]|] eqn:E; [done|]. injection Hs as <-.
    left. by eapply (queue_send_fault closeQueue).
Qed.

Lemma proc_fault s o c k f :
  conc_inv s o c k -> proc_step (proc s) (gst s) = Fault f ->
  f = Blocked /\ proc s <> PDonePost \/
  exists data, proc s = PRecvPut data /\ f = Panicked /\ p_err o = true.
Proof.
  intros I Hs. pose proof (co_obj _ _ _ _ I) as Ho.
  pose proof (co_chan _ _ _ _ I) as Hc. pose proof (co_facts _ _ _ _ I) as Fa.
  destruct (co_wait _ _ _ _ I) as [Hw Hcap].
  destruct (co_open _ _ _ _ I) as (Hsq & Hrq & Hcq).
  destruct (proc s) eqn:Hp; cbn [proc_step select_step callback_step] in Hs;
    unfold mbind, M_bind in Hs;
    rewrite ?(at_pcb_at _ _ _ _ Ho) in Hs; try done.
  - destruct (on_sendQueue _ _) as [[r ?]|] eqn:E.
    + apply zoom_inv in E as (q & E & _). apply chan_recv_inv in E.
      destruct r as [[? ?]|]; [done|]. destruct E as (_ & ? & _). congruence.
    + injection Hs as <-. left. split; [|done]. by eapply (queue_recv_fault sendQueue).
  - destruct (on_recvedQueue _ _) as [[r ?]|] eqn:E.
    + apply zoom_inv in E as (q & E & _). apply chan_recv_inv in E.
      destruct r as [[? ?]|]; [done|]. destruct E as (_ & ? & _). congruence.
    + injection Hs as <-. left. split; [|done]. by eapply (queue_recv_fault recvedQueue).
  - destruct (on_closeQueue _ _) as [[r ?]|] eqn:E.
    + apply zoom_inv in E as (q & E & _). apply chan_recv_inv in E.
      destruct r as [?|]; [done|]. destruct E as (_ & ? & _). congruence.
    + injection Hs as <-. left. split; [|done]. by eapply (queue_recv_fault closeQueue).
  - rewrite (at_recvQueued_run _ _ _ _ _ Ho Hc) in Hs. unfold chan_send in Hs.
    destruct (c_closed c) eqn:Hcl.
    + injection Hs as <-. right. exists data. split_and!; [done|done|].
      pose proof (fa_recv _ _ _ _ _ _ _ Fa) as Hr. rewrite Hcl in Hr.
      destruct (p_err o); [done|]. cbn in Hr. lia.
    + case_decide; [done|]. injection Hs as <-. by left.
  - exfalso. pose proof (facts_open _ _ _ _ _ _ _ Fa eq_refl) as He.
    pose proof (facts_one _ _ _ _ _ _ _ Fa He) as H1. cbn in H1.
    pose proof (fa_wait _ _ _ _ _ _ _ Fa) as H2. rewrite He in H2. cbn in H2.
    unfold sendWait_send, on_sendWait, chan_send in Hs. rewrite Hw in Hs.
    destruct (c_closed k); [cbn in H2; lia|]. rewrite decide_True in Hs by lia. done.
  - destruct (close_step _ _) as [[? ?]|] eqn:E; [done|]. injection Hs as <-.
    left. split; [|done]. eapply close_step_fault; [exact I|by eapply proc_k_ready|exact E].
Qed.

(** ** Methods run alone *)

Lemma at_pcb_gets {X} (f : PCB -> X) g :
  at_pcb p (gets f) g =
    match at_pcb p (gets id) g with
    | Ok (o, g') => Ok (f o, g')
    | Fault x => Fault x
    end.
Proof. unfold at_pcb, zoom, at_key. by destruct (pcbs g !! p). Qed.

Lemma alone_S n u g :
  returned u = false ->
  alone (Datatypes.S n) u g =
    match user_step u g with
    | Ok (u', g') => alone n u' g'
    | Fault f => Fault f
    end.
Proof. intros Hr. cbn [alone]. by rewrite Hr. Qed.

(** The next step of the goroutine, and that of the method. *)
Ltac next_step :=
  rewrite ?alone_S by done; cbn [user_step close_step]; unfold mbind, M_bind, mret, M_ret;
  rewrite ?(at_pcb_gets p_err), ?(at_pcb_gets recvInter); cbn beta iota.

Lemma Write_alone o b g :
  pcbs g !! p = Some o -> p_type o = TCP -> b <> [] ->
  alone 6 (WCheck b) g = (x ← Write p b; mret (UWrote x.1 x.2)) g.
Proof.
  intros Ho Ht Hb. destruct b as [|z b]; [done|]. unfold Write. next_step.
  rewrite !(at_pcb_get_run _ _ _ Ho). destruct (p_err o).
  { next_step. by destruct (at_pcb p (gets id) g) as [[? ?]|]. }
  rewrite !(decide_True _ _ Ht). next_step.
  destruct (at_pcb p lock g) as [[[] g1]|]; [|done]. next_step.
  destruct (on_sendQueue _ g1) as [[[] g2]|]; [|done]. next_step.
  destruct (at_pcb p sendWait_recv g2) as [[[] g3]|]; [|done]. next_step.
  destruct (at_pcb p unlock g3) as [[[] g4]|]; [|done]. next_step.
  by destruct (at_pcb p (gets id) g4) as [[? ?]|].
Qed.

Lemma Read_alone o n g :
  pcbs g !! p = Some o -> p_type o = TCP ->
  alone 4 (RInter n) g = (x ← Read p n; mret (URead x.1 x.2)) g.
Proof.
  intros Ho Ht. unfold Read. next_step. rewrite !(at_pcb_get_run _ _ _ Ho).
  destruct (recvInter o); [done|]. next_step. rewrite !(at_pcb_get_run _ _ _ Ho).
  destruct (p_err o); [done|]. next_step.
  destruct (at_recvQueued p chan_recv g) as [[r g1]|]; [|done].
  destruct r as [[|z b]|]; next_step.
  - by destruct (at_pcb p (gets id) g1) as [[? ?]|].
  - case_decide; [done|]. rewrite (decide_True _ _ Ht). next_step.
    by destruct (on_recvedQueue _ g1) as [[[] g2]|].
  - by destruct (at_pcb p (gets id) g1) as [[? ?]|].
Qed.

Lemma Close_alone o g :
  pcbs g !! p = Some o -> p_type o = TCP -> recvInter o = false ->
  alone 7 (UClose KLock) g = (x ← Close p; mret (UClosed x)) g.
Proof.
  intros Ho Ht Hi. unfold Close, close. next_step.
  rewrite !(at_pcb_at _ _ lock _ Ho). unfold lock. destruct (lck o); [done|].
  next_step. rewrite !(at_pcb_get_run p (with_lck true o)) by apply lookup_insert_eq.
  cbn [p_err with_lck]. destruct (p_err o).
  { next_step. destruct (at_pcb p unlock _) as [[[] g1]|]; [|done]. next_step.
    by destruct (on_closeQueue _ g1) as [[[] g2]|]. }
  next_step.
  destruct (at_pcb p (modify (with_err true)) _) as [[[] g1]|]; [|done]. next_step.
  cbn [recvInter p_type with_lck]. rewrite Hi, !(decide_True _ _ Ht).
  destruct (at_recvQueued p chan_close g1) as [[[] g2]|]; [|done]. next_step.
  destruct (at_pcb p sendWait_close g2) as [[[] g3]|]; [|done]. next_step.
  destruct (at_pcb p unlock g3) as [[[] g4]|]; [|done]. next_step.
  by destruct (on_closeQueue _ g4) as [[[] g5]|].
Qed.

(** ** Properties *)

(** The steps of the goroutines are those of the methods: a goroutine that
    runs [Write], [Read] or [Close] of a TCP connection to its end, or to where
    it waits or panics, without a step of another one, does what the method
    does as a whole, with the same result. *)
Theorem go_methods_alone o b n g :
  pcbs g !! p = Some o -> p_type o = TCP -> b <> [] -> recvInter o = false ->
  alone 6 (WCheck b) g = (x ← Write p b; mret (UWrote x.1 x.2)) g /\
  alone 4 (RInter n) g = (x ← Read p n; mret (URead x.1 x.2)) g /\
  alone 7 (UClose KLock) g = (x ← Close p; mret (UClosed x)) g.
Proof.
  intros. split_and!; [by eapply Write_alone|by eapply Read_alone|by eapply Close_alone].
Qed.

(** C5: In every interleaving of the goroutines the packets that the binding got
    from C are those that the [Read]s have taken, in the order in which they
    took them, followed by those in the queue: none is lost, doubled or
    overtaken. *)
Theorem go_stream_in_order s :
  sys_reachable s ->
  exists o c, pcbs (gst s) !! p = Some o /\ bchans (gst s) !! recvQueued o = Some c /\
    received s = taken s ++ c_buf c.
Proof.
  intros (o & c & k & I)%reachable_conc. exists o, c. split_and!; by apply I.
Qed.

(** C11: At most one [Write] at a time waits for its data, [sendCount] is 0 or 1,
    data are handed to C only when the connection has no queue there, so C never
    refuses any with "pending" but only for want of memory, and where the
    processing goroutine is about to tell a waiting [Write] that its data are sent
    it does so: it neither waits nor finds [sendWait] closed. *)
Theorem go_writes_serialised s :
  sys_reachable s ->
  (forall t u b b', users s !! t = Some (WWait b) -> users s !! u = Some (WWait b') ->
     t = u) /\
  (exists o, pcbs (gst s) !! p = Some o /\ 0 <= sendCount o <= 1) /\
  (forall data, proc s = PTcpSend data -> queued s = false) /\
  Forall (fun x => x.2 = 1) (lost s) /\
  (proc s = PDonePost -> exists g, proc_step PDonePost (gst s) = Ok (PIdle, g)).
Proof.
  intros (o & c & k & I)%reachable_conc. pose proof (co_facts _ _ _ _ I) as Fa.
  split_and!.
  - intros t u b b' Ht Hu. destruct (facts_excl _ _ _ _ _ _ _ Fa) as [_ H2].
    eapply (count_if_unique u_waits); [|exact Ht|done|exact Hu|done].
    unfold number in H2. lia.
  - exists o. split; [apply I|]. pose proof (fa_count _ _ _ _ _ _ _ Fa).
    destruct (p_err o) eqn:He.
    + destruct (fa_closed _ _ _ _ _ _ _ Fa He). lia.
    + pose proof (facts_one _ _ _ _ _ _ _ Fa He). lia.
  - intros data Hp. rewrite Hp in Fa. by apply (fa_unqueued _ _ _ _ _ _ _ Fa).
  - apply I.
  - intros Hp. destruct (proc_step (proc s) (gst s)) as [[pc g]|f] eqn:E.
    + rewrite Hp in E. exists g. rewrite E. f_equal. f_equal.
      cbn [proc_step select_step callback_step] in E. unfold mbind, M_bind in E.
      destruct (at_pcb p (sendWait_send 1) (gst s)) as [[? ?]|]; [|done].
      by injection E as <- <-.
    + destruct (proc_fault _ _ _ _ _ I E) as [[_ []]|(data & Hd & _)]; congruence.
Qed.

(** C16: The goroutines of the program never panic in [Read], [Write] or [Close],
    however they are interleaved, but for a [Read] with a buffer that is too
    small, which the code says; they only wait.  The processing goroutine can
    panic at one place only: where [go_tcp_recv_h] puts a packet into the queue
    of a connection that was closed after it looked. *)
Theorem go_no_panic s :
  sys_reachable s ->
  exists o c, pcbs (gst s) !! p = Some o /\ bchans (gst s) !! recvQueued o = Some c /\
  (forall t u f, users s !! t = Some u -> user_step u (gst s) = Fault f ->
     f = Blocked \/
     exists n b, u = RTake n /\ head (c_buf c) = Some b /\ (n < length b)%nat) /\
  (forall f, proc_step (proc s) (gst s) = Fault f ->
     f = Blocked \/
     exists data, proc s = PRecvPut data /\ f = Panicked /\ p_err o = true).
Proof.
  intros (o & c & k & I)%reachable_conc. exists o, c. split_and!; [by apply I..| |].
  - intros t u f Hu. by eapply user_fault.
  - intros f [[? _]|?]%(proc_fault _ _ _ _ _ I); auto.
Qed.

End steps.

(** ** Runs that go wrong *)

Definition conn0 (n : nat) : sys :=
  Sys (go_conn0 1 1 None 2 (IPv4 0) (IPv4 0) 7 8) (replicate n UIdle) PIdle false true
    [] [] [] false.

Lemma conn0_init n : sys_init 1 1 (conn0 n).
Proof.
  split; [by repeat eexists|]. split_and!; try done. cbn.
  apply Forall_forall. by intros u [-> _]%elem_of_replicate.
Qed.

(** A step of goroutine [t], and one of the processing goroutine. *)
Ltac call t u := eapply rtc_l; [eapply (next_call 1 1 _ t _ u); reflexivity|cbn].
Ltac user t :=
  eapply rtc_l; [eapply (next_user 1 1 _ t); [reflexivity|reflexivity|vm_compute; reflexivity]
                |cbn].
Ltac event c := eapply rtc_l; [eapply (next_event 1 1 _ c); reflexivity|cbn].
Ltac proc_go :=
  eapply rtc_l; [eapply (next_proc 1 1); [reflexivity|done..|vm_compute; reflexivity]|cbn].

(** A packet arrives, the binding sees that the connection is open, and then
    the program closes it: the processing goroutine sends on the closed queue
    and panics. *)
Theorem go_recv_close_race :
  exists s, sys_reachable 1 1 s /\ proc_step 1 1 (proc s) (gst s) = Fault Panicked.
Proof.
  eexists. split.
  - exists (conn0 1). split; [apply conn0_init|]. unfold conn0. cbn.
    event (PRecvFind [1]). proc_go. proc_go.
    call 0%nat (UClose KLock). user 0%nat. user 0%nat. user 0%nat. user 0%nat.
    apply rtc_refl.
  - vm_compute. reflexivity.
Qed.

(** C30: When the peer closes the connection while a [Write] waits for its data to
    be sent, the processing goroutine waits for the lock that the [Write]
    holds, and the [Write] for a message that only the processing goroutine
    could send: a state that can be reached and in which no step is possible
    any more. *)
Theorem go_write_close_deadlock :
  exists s b, sys_reachable 1 1 s /\ users s = [WWait b] /\ proc s = PClose KLock /\
    forall s', ~ go_next 1 1 s s'.
Proof.
  eexists _, [1]. split_and!.
  - exists (conn0 1). split; [apply conn0_init|]. unfold conn0. cbn.
    call 0%nat (WCheck [1]). user 0%nat. user 0%nat. user 0%nat.
    event PCloseFind.
    eapply rtc_l; [eapply (next_closed 1 1); [reflexivity|vm_compute; reflexivity]|cbn].
    proc_go. apply rtc_refl.
  - reflexivity.
  - reflexivity.
  - intros s' Hn. inversion Hn as [t u u' Hu Hr He|t u u' g Hu Hr Hs|pc Hp He|Hp
      |pc pc' g Hp Hn1 Hn2 Hn3 Hs|data q res Hp|ok Hp|pc' g Hp Hs]; cbn in *; try done.
    + destruct t as [|t]; cbn in Hu; [|done]. by injection Hu as <-.
    + destruct t as [|t]; cbn in Hu; [|done]. injection Hu as <-. by vm_compute in Hs.
    + subst pc. by vm_compute in Hs.
Qed.

(** [PCB.Close] of a connection that the peer has closed already leaves an
    entry for the processing goroutine all the same, which then calls
    [tcp_close] on a control block that is gone. *)
Theorem go_close_twice :
  exists s, sys_reachable 1 1 s /\ twice s = true.
Proof.
  eexists. split.
  - exists (conn0 1). split; [apply conn0_init|]. unfold conn0. cbn.
    event PCloseFind.
    eapply rtc_l; [eapply (next_closed 1 1); [reflexivity|vm_compute; reflexivity]|cbn].
    do 7 proc_go.
    call 0%nat (UClose KLock). do 4 user 0%nat.
    event PTakeClose. proc_go.
    eapply rtc_l; [eapply (next_tcp_close 1 1 _ true); reflexivity|cbn]. apply rtc_refl.
  - reflexivity.
Qed.

(** ** Witnesses *)

Lemma conn0_reachable n : sys_reachable 1 1 (conn0 n).
Proof. exists (conn0 n). split; [apply conn0_init|apply rtc_refl]. Qed.

(** A packet has been put into the queue and another one was read. *)
Lemma conn_data : exists s, sys_reachable 1 1 s /\ received s = [[1]; [2]] /\ taken s = [[1]].
Proof.
  eexists. split_and!.
  - exists (conn0 1). split; [apply conn0_init|]. unfold conn0. cbn.
    event (PRecvFind [1]). do 3 proc_go.
    call 0%nat (RInter 5). do 3 user 0%nat.
    event (PRecvFind [2]). do 3 proc_go. apply rtc_refl.
  - reflexivity.
  - reflexivity.
Qed.

Lemma go_stream_in_order_witness :
  exists s c, received s = [[1]; [2]] /\ received s = [[1]] ++ c_buf c.
Proof.
  destruct conn_data as (s & Hr & H1 & H2).
  destruct (go_stream_in_order 1 1 s Hr) as (o & c & _ & _ & H).
  exists s, c. split; [exact H1|]. rewrite H2 in H. exact H.
Defined.

(** Two goroutines write: one waits for its data, the other for the lock. *)
Lemma conn_writes :
  exists s, sys_reachable 1 1 s /\ users s = [WWait [1]; WLock [2]] /\
    proc s = PTcpSend [1].
Proof.
  eexists. split_and!.
  - exists (conn0 2). split; [apply conn0_init|]. unfold conn0. cbn.
    call 0%nat (WCheck [1]). do 3 user 0%nat. call 1%nat (WCheck [2]). user 1%nat.
    event PTake. do 3 proc_go. apply rtc_refl.
  - reflexivity.
  - reflexivity.
Qed.

Lemma go_writes_serialised_witness :
  exists s, users s = [WWait [1]; WLock [2]] /\ queued s = false /\
    Forall (fun x => x.2 = 1) (lost s).
Proof.
  destruct conn_writes as (s & Hr & Hu & Hp).
  destruct (go_writes_serialised 1 1 s Hr) as (_ & _ & H1 & H2 & _).
  exists s. split; [exact Hu|]. split; [exact (H1 _ Hp)|exact H2].
Defined.

Lemma go_no_panic_witness :
  exists s, users s = [WWait [1]; WLock [2]] /\
    forall f, user_step 1 (WLock [2]) (gst s) = Fault f -> f = Blocked.
Proof.
  destruct conn_writes as (s & Hr & Hu & Hp). exists s. split; [exact Hu|].
  destruct (go_no_panic 1 1 s Hr) as (o & c & _ & _ & H & _). intros f Hf.
  destruct (H 1%nat (WLock [2]) f) as [H1|(n & b & H1 & _)].
  - rewrite Hu. reflexivity.
  - exact Hf.
  - exact H1.
  - discriminate H1.
Defined.

Lemma go_methods_alone_witness :
  alone 1 7 (UClose KLock) (gst (conn0 1)) =
    (x ← Close 1 ; mret (UClosed x)) (gst (conn0 1)).
Proof.
  apply (go_methods_alone 1 _ [1] 0 (gst (conn0 1)) eq_refl eq_refl); [discriminate|reflexivity].
Defined.
