(* ===== verification/GoEcho.v ===== *)
(** * The echo application in Go

    The handler [OnAccept] of src/echo/echo.go starts a goroutine that runs
    [io.Copy(pcb, pcb)] of Go's library: [Read] into a buffer of 32768 bytes,
    [Write] of what was read, until one of them returns an error.  Here it runs
    in the machine of [GoConc] as the only user of its connection, with a record
    of the data that the processing loop hands to C and what C answered.  Proved:
    what is handed to C is, in order, a prefix of what was received, and C has
    accepted it but for what it had no memory for; while the connection is open
    nothing is missing but what is on its way, and the copy goes on. *)

From S2P Require Import Prelude Lwip GoChan GoBind GoApp GoConc.
Local Open Scope Z_scope.

(** The buffer of [io.Copy]. *)
Definition copy_buffer : nat := Z.to_nat 32768.

(** The next call of [io.Copy] in the goroutine of [OnAccept], if any: with data
    the loop writes them before it looks at the error of [Read], and an error of
    either ends it. *)
Definition OnAccept_next (u : user_pc) : option user_pc :=
  match u with
  | UIdle => Some (RInter copy_buffer)
  | URead ((_ :: _) as b) _ => Some (WCheck b)
  | URead [] err | UWrote _ err => if err : bool then None else Some (RInter copy_buffer)
  | _ => None
  end.

(** [io.Copy] has returned: its last call gave an error. *)
Definition copy_done (u : user_pc) : bool :=
  match u with
  | URead [] true | UWrote _ true => true
  | _ => false
  end.

(** The data that the goroutine has taken and not yet given to [sendQueue]. *)
Definition in_user (u : user_pc) : bytes :=
  match u with
  | RTell b | URead b _ | WCheck b | WLock b | WPost b => b
  | _ => []
  end.

(** The data that the processing loop has taken and not yet given to C. *)
Definition in_proc (c : proc_pc) : bytes :=
  match c with
  | PSendErr data | PCount data | PTcpSend data => data
  | _ => []
  end.

(** Data in [sendQueue]. *)
Definition queue_bytes (g : go_state) : bytes := concat (snd <$> c_buf (sendQueue g)).

(** The sizes of the queues between the goroutines. *)
Definition sized (g : go_state) : Prop :=
  c_cap (sendQueue g) = QUEUE /\ c_cap (recvedQueue g) = QUEUE /\
  (length (c_buf (recvedQueue g)) <= QUEUE)%nat.

(** Where [io.Copy] can be: it calls [Read], with its buffer, and [Write]. *)
Definition in_copy (u : user_pc) : Prop :=
  match u with
  | RInter n | RErr n | RTake n => n = copy_buffer
  | UClose _ | UPost _ | UClosed _ => False
  | _ => True
  end.

Section echo.
Context (p e : ptr).

(** The machine with the data that the processing loop has handed to C, each
    with the result of [cs_tcp_char_send]. *)
Record echo : Type := Echo { sys_of : sys; sent : list (bytes * Z) }.

(** What C has accepted. *)
Definition accepted (x : echo) : list bytes := (filter (fun y => y.2 = 0) (sent x)).*1.

(** What is handed to C in a step: unless it is logged as refused, the result is
    0. *)
Definition handed (s s' : sys) : list (bytes * Z) :=
  match proc s, proc s' with
  | PTcpSend data, PIdle =>
      match drop (length (lost s)) (lost s') with
      | [] => [(data, 0)]
      | l => l
      end
  | _, _ => []
  end.

(** The goroutine calls what [io.Copy] calls. *)
Definition calls_of_copy (s s' : sys) : Prop :=
  forall u u', users s = [u] -> users s' = [u'] -> returned u = true ->
    u' = u \/ OnAccept_next u = Some u'.

Inductive echo_next (x : echo) : echo -> Prop :=
| echo_step s' :
    go_next p e (sys_of x) s' -> calls_of_copy (sys_of x) s' ->
    echo_next x (Echo s' (sent x ++ handed (sys_of x) s')).

Definition echo_init (x : echo) : Prop :=
  sys_init p e (sys_of x) /\ users (sys_of x) = [UIdle] /\ sent x = [].

Definition echo_reachable (x : echo) : Prop :=
  exists x0, echo_init x0 /\ rtc echo_next x0 x.

(** ** What a step does to the data on their way *)

Lemma echo_close_step s o c k kp r g :
  conc_inv p s o c k -> close_step p kp (gst s) = Ok (r, g) ->
  exists o', pcbs g !! p = Some o' /\ (p_err o = true -> p_err o' = true) /\
    queue_bytes g = queue_bytes (gst s) /\ (sized (gst s) -> sized g).
Proof.
  intros I Hs. pose proof (close_step_inv _ _ _ _ _ _ _ _ I Hs) as Hk.
  destruct (decide (kp = KRecv)) as [->|Hne].
  { destruct Hk as (_ & _ & ->). exists o. split_and!; [apply I|done..]. }
  destruct kp; try done; destruct Hk as (o' & k' & -> & Hk); exists o';
    (split_and!; [apply lookup_insert_eq| |done|done]); naive_solver.
Qed.

(** A step after which no data are in the hands of the goroutine. *)
Ltac no_data :=
  split_and!; try done; try (cbn; by rewrite ?app_nil_r); cbn; intros; congruence.

(** A step of the goroutine: data go from the connection through [in_user] to
    [sendQueue]. *)
Lemma echo_user_step s o c k t u u' g :
  conc_inv p s o c k -> users s !! t = Some u -> returned u = false ->
  user_step p u (gst s) = Ok (u', g) ->
  exists o', pcbs g !! p = Some o' /\ (p_err o = true -> p_err o' = true) /\
    (sized (gst s) -> sized g) /\ (in_copy u -> in_copy u') /\
    (copy_done u' = true -> p_err o' = true) /\
    (p_err o' = false ->
       queue_bytes g ++ in_user u' =
       queue_bytes (gst s) ++ in_user u ++ concat (takes p u (gst s))).
Proof.
  intros I Hu Hret Hstep.
  pose proof (co_obj _ _ _ _ _ I) as Ho. pose proof (co_chan _ _ _ _ _ I) as Hc.
  destruct (co_wait _ _ _ _ _ I) as [Hk Hcap].
  destruct u; try done; cbn [user_step] in Hstep; unfold mbind, M_bind in Hstep;
    rewrite ?(at_pcb_at _ _ _ _ Ho) in Hstep;
    rewrite ?takes_other by done; cbn [concat in_user]; rewrite ?app_nil_r.
  - injection Hstep as <- <-. eexists. split; [apply lookup_insert_eq|].
    destruct (p_err o); naive_solver.
  - unfold lock in Hstep. destruct (lck o) eqn:Hlk; [done|]. injection Hstep as <- <-.
    eexists. split; [apply lookup_insert_eq|]. naive_solver.
  - case_in Hstep. apply zoom_inv in E as (q & Hq & ->). injection Hstep as <- <-.
    apply chan_send_inv in Hq as (_ & _ & ->). exists o. split_and!; [done..|]. intros _.
    unfold queue_bytes. cbn. rewrite fmap_app, concat_app. cbn. by rewrite !app_nil_r.
  - unfold sendWait_recv, mbind, M_bind, on_sendWait in Hstep. rewrite Hk in Hstep.
    destruct (chan_recv k) as [[x k']|] eqn:Hkr; [|done]. injection Hstep as <- <-.
    eexists. split; [apply lookup_insert_eq|]. no_data.
  - unfold unlock in Hstep. destruct (lck o) eqn:Hlk; [|done]. injection Hstep as <- <-.
    eexists. split; [apply lookup_insert_eq|]. no_data.
  - injection Hstep as <- <-. eexists. split; [apply lookup_insert_eq|].
    destruct (p_err o) eqn:He; no_data.
  - cbn in Hstep. rewrite (proj2 (co_type _ _ _ _ _ I)) in Hstep.
    injection Hstep as <- <-. eexists. split; [apply lookup_insert_eq|]. no_data.
  - injection Hstep as <- <-. eexists. split; [apply lookup_insert_eq|].
    destruct (p_err o) eqn:He; no_data.
  - cbn [takes]. rewrite (at_recvQueued_run _ _ _ _ _ Ho Hc) in Hstep |- *.
    destruct (chan_recv c) as [[x c']|] eqn:Hcr; [|done]. exists o.
    destruct x as [[|z b]|]; cbn in Hstep; [|case_decide; [done|]|];
      injection Hstep as <- <-; no_data.
  - case_in Hstep. apply zoom_inv in E as (q & Hq & ->). injection Hstep as <- <-.
    apply chan_send_inv in Hq as (_ & Hroom & ->). exists o.
    assert (sized (gst s) -> sized (set_recvedQueue (Chan (c_cap (recvedQueue (gst s)))
      (c_buf (recvedQueue (gst s)) ++ [(p, Z.of_nat (length data))]) false) (gst s))).
    { intros (H1 & H2 & H3). split_and!; try done. cbn. rewrite length_app. cbn. lia. }
    destruct data; no_data.
  - injection Hstep as <- <-. eexists. split; [apply lookup_insert_eq|].
    destruct (p_err o) eqn:He; no_data.
  - destruct (close_step p k0 (gst s)) as [[r g1]|] eqn:Hcs; [|done].
    injection Hstep as <- <-. apply (echo_close_step _ _ _ _ _ _ _ I) in Hcs
      as (o' & ? & ? & Hq & ?). exists o'. rewrite Hq. destruct r; no_data.
  - case_in Hstep. apply zoom_inv in E as (q & Hq & ->). injection Hstep as <- <-.
    apply chan_send_inv in Hq as (_ & _ & ->). exists o. no_data.
Qed.

(** A step of the processing goroutine: data go from [sendQueue] through
    [in_proc]. *)
Lemma echo_proc_step s o c k pc pc' g :
  conc_inv p s o c k -> proc s = pc -> (forall data, pc <> PTcpSend data) ->
  proc_step p e pc (gst s) = Ok (pc', g) ->
  exists o', pcbs g !! p = Some o' /\ (p_err o = true -> p_err o' = true) /\
    (sized (gst s) -> sized g) /\
    (p_err o' = false ->
       in_proc pc' ++ queue_bytes g = in_proc pc ++ queue_bytes (gst s)).
Proof.
  intros I Hpc Hn Hstep.
  pose proof (co_obj _ _ _ _ _ I) as Ho. pose proof (co_chan _ _ _ _ _ I) as Hc.
  destruct (co_wait _ _ _ _ _ I) as [Hk Hcap].
  destruct pc; try done; cbn [proc_step select_step callback_step] in Hstep;
    unfold mbind, M_bind in Hstep; rewrite ?(at_pcb_at _ _ _ _ Ho) in Hstep.
  - injection Hstep as <- <-. by exists o.
  - destruct (on_sendQueue chan_recv (gst s)) as [[r g1]|] eqn:E; [|done].
    apply zoom_inv in E as (q & Hr & ->). apply chan_recv_inv in Hr.
    destruct r as [[p' data]|]; cbn in Hstep; [|done]. injection Hstep as <- <-.
    destruct Hr as (Hb & Hcq & _). exists o. split_and!; [done..| |].
    + intros (? & ? & ?). split_and!; cbn; congruence || done.
    + intros _. unfold queue_bytes. by rewrite Hb.
  - injection Hstep as <- <-. eexists. split; [apply lookup_insert_eq|].
    destruct (p_err o) eqn:He; cbn; by rewrite ?He.
  - injection Hstep as <- <-. eexists. split; [apply lookup_insert_eq|]. done.
  - by destruct (Hn data).
  - destruct (on_recvedQueue chan_recv (gst s)) as [[r g1]|] eqn:E; [|done].
    apply zoom_inv in E as (q & Hr & ->). apply chan_recv_inv in Hr.
    destruct r as [[? ?]|]; cbn in Hstep; [|done]. injection Hstep as <- <-.
    destruct Hr as (Hb & Hcq & _). exists o. split_and!; try done.
    intros (? & ? & Hl). rewrite Hb in Hl. cbn in Hl.
    split_and!; cbn; [done|congruence|lia].
  - injection Hstep as <- <-. eexists. split; [apply lookup_insert_eq|]. done.
  - destruct (on_closeQueue chan_recv (gst s)) as [[r g1]|] eqn:E; [|done].
    apply zoom_inv in E as (q & _ & ->).
    destruct r as [?|]; cbn in Hstep; [|done]. injection Hstep as <- <-. by exists o.
  - injection Hstep as <- <-. by exists o.
  - injection Hstep as <- <-. exists o. by case_decide.
  - injection Hstep as <- <-. eexists. split; [apply lookup_insert_eq|]. by destruct (p_err o).
  - rewrite (at_recvQueued_run _ _ _ _ _ Ho Hc) in Hstep.
    destruct (chan_send data c) as [[[] c']|]; [|done]. injection Hstep as <- <-. by exists o.
  - injection Hstep as <- <-. exists o. by case_decide.
  - injection Hstep as <- <-. eexists. split; [apply lookup_insert_eq|]. by destruct (p_err o).
  - cbn in Hstep. injection Hstep as <- <-. eexists.
    split; [apply lookup_insert_eq|]. by case_match.
  - injection Hstep as <- <-. eexists. split; [apply lookup_insert_eq|]. done.
  - unfold sendWait_send, on_sendWait in Hstep. rewrite Hk in Hstep.
    destruct (chan_send 1 k) as [[[] k']|]; [|done]. injection Hstep as <- <-.
    eexists. split; [apply lookup_insert_eq|]. done.
  - injection Hstep as <- <-. exists o. by case_decide.
  - injection Hstep as <- <-. by exists o.
  - destruct (close_step p k0 (gst s)) as [[r g1]|] eqn:Hcs; [|done].
    injection Hstep as <- <-. apply (echo_close_step _ _ _ _ _ _ _ I) in Hcs
      as (o' & ? & ? & Hq & ?). exists o'. rewrite Hq. by destruct r.
Qed.

(** ** The invariant *)

(** The data on their way to C, the first one first. *)
Definition on_way (s : sys) (u : user_pc) : bytes :=
  in_proc (proc s) ++ queue_bytes (gst s) ++ in_user u.

(** What was taken is what was sent and a rest, which is on its way unless the
    connection has been closed. *)
Record echo_ok (x : echo) (o : PCB) (c : chan bytes) (k : chan Z) (u : user_pc)
    (rest : bytes) : Prop := EchoOk {
  ec_conc : conc_inv p (sys_of x) o c k;
  ec_user : users (sys_of x) = [u];
  ec_taken : concat (taken (sys_of x)) = concat (sent x).*1 ++ rest;
  ec_lost : lost (sys_of x) = filter (fun y => y.2 <> 0) (sent x);
  ec_rest : p_err o = false -> rest = on_way (sys_of x) u;
  ec_done : copy_done u = true -> p_err o = true;
  ec_sized : sized (gst (sys_of x));
  ec_copy : in_copy u
}.

Definition echo_inv (x : echo) : Prop := exists o c k u rest, echo_ok x o c k u rest.

Lemma handed_same s s' : proc s' = proc s -> handed s s' = [].
Proof. unfold handed. intros ->. destruct (proc s); reflexivity. Qed.

Lemma handed_other s s' :
  (forall data, proc s <> PTcpSend data) -> handed s s' = [].
Proof.
  unfold handed. intros Hn. destruct (proc s); try reflexivity. by destruct (Hn data).
Qed.

Lemma next_call_keeps u u' :
  OnAccept_next u = Some u' ->
  in_user u' = in_user u /\ copy_done u' = false /\ in_copy u'.
Proof. destruct u; cbn; repeat case_match; by intros [= <-]. Qed.

Lemma single_lookup {A} (u u' : A) t : [u] !! t = Some u' -> t = O /\ u' = u.
Proof. destruct t as [|t]; [by intros [= <-]|done]. Qed.

(** A step that sends nothing keeps the invariant if it keeps the data that are
    taken or on their way. *)
Lemma echo_ok_step x o c k u rest s' o' u' new :
  echo_ok x o c k u rest -> (exists o' c' k', conc_inv p s' o' c' k') ->
  pcbs (gst s') !! p = Some o' -> users s' = [u'] ->
  handed (sys_of x) s' = [] -> lost s' = lost (sys_of x) ->
  concat (taken s') = concat (taken (sys_of x)) ++ new ->
  (p_err o = true -> p_err o' = true) ->
  (p_err o' = false -> on_way s' u' = on_way (sys_of x) u ++ new) ->
  (copy_done u' = true -> p_err o' = true) ->
  (sized (gst (sys_of x)) -> sized (gst s')) -> in_copy u' ->
  echo_inv (Echo s' (sent x ++ handed (sys_of x) s')).
Proof.
  intros [I Hu Ht Hlo Hr Hd Hcp Hb] (o1 & c' & k' & I') Ho' Hu' Ha Hl' Ht' Hmono Hway Hd' Hcp' Hb'.
  pose proof (co_obj _ _ _ _ _ I') as Ho1. assert (o1 = o') as -> by congruence.
  exists o', c', k', u', (rest ++ new). split; cbn; try done; [| | |by apply Hcp'].
  - by rewrite Ht', Ht, Ha, app_nil_r, <- app_assoc.
  - by rewrite Hl', Ha, app_nil_r.
  - intros He. rewrite (Hway He), Hr; [done|]. destruct (p_err o); [|done].
    by rewrite Hmono in He.
Qed.

(** The same where only the places of the goroutines change. *)
Lemma echo_ok_move x o c k u rest s' u' :
  echo_ok x o c k u rest -> (exists o' c' k', conc_inv p s' o' c' k') ->
  gst s' = gst (sys_of x) -> users s' = [u'] -> taken s' = taken (sys_of x) ->
  handed (sys_of x) s' = [] -> lost s' = lost (sys_of x) -> in_proc (proc s') = in_proc (proc (sys_of x)) ->
  in_user u' = in_user u -> (copy_done u' = true -> copy_done u = true) -> in_copy u' ->
  echo_inv (Echo s' (sent x ++ handed (sys_of x) s')).
Proof.
  intros Ok I' Hg Hu' Ht' Ha Hl' Hin Huin Hdone Hc'. pose proof Ok as [I _ _ _ _ Hd _ _].
  eapply (echo_ok_step _ _ _ _ _ _ _ o u' []); try done.
  - rewrite Hg. apply I.
  - by rewrite Ht', app_nil_r.
  - intros _. unfold on_way. by rewrite Hin, Hg, Huin, app_nil_r.
  - auto.
  - by rewrite Hg.
Qed.

(** The same for a step of the processing goroutine. *)
Lemma echo_ok_proc x o c k u rest s' pc' :
  echo_ok x o c k u rest -> (exists o' c' k', conc_inv p s' o' c' k') ->
  (forall data, proc (sys_of x) <> PTcpSend data) ->
  proc_step p e (proc (sys_of x)) (gst (sys_of x)) = Ok (pc', gst s') ->
  users s' = users (sys_of x) -> taken s' = taken (sys_of x) -> proc s' = pc' ->
  lost s' = lost (sys_of x) ->
  echo_inv (Echo s' (sent x ++ handed (sys_of x) s')).
Proof.
  intros Ok I' Hn Hs Hus Ht Hp' Hl'. pose proof Ok as [I Hu _ _ _ Hd _ Hc].
  destruct (echo_proc_step _ _ _ _ _ _ _ I eq_refl Hn Hs) as (o' & Ho' & Hm & Hcp & Hw).
  eapply (echo_ok_step _ _ _ _ _ _ _ o' u []); try done.
  - congruence.
  - by apply handed_other.
  - by rewrite Ht, app_nil_r.
  - intros He%Hw. unfold on_way. by rewrite Hp', app_nil_r, !app_assoc, He.
  - auto.
Qed.

Lemma echo_next_inv x x' : echo_inv x -> echo_next x x' -> echo_inv x'.
Proof.
  intros (o & c & k & u & rest & Ok) [s' Hn Hcalls].
  pose proof Ok as [I Hu Ht Hlo Hr Hd Hcp Hb].
  pose proof (next_inv _ _ _ _ (ex_intro _ o (ex_intro _ c (ex_intro _ k I))) Hn) as I'.
  pose proof (co_obj _ _ _ _ _ I) as Ho. pose proof (co_facts _ _ _ _ _ I) as Fa.
  destruct Hn as [t u0 u' Hu0 Hret He|t u0 u' g Hu0 Hret Hs|pc Hp He|Hp
    |pc pc' g Hp Hn1 Hn2 Hn3 Hs|data q res Hp Hres|ok Hp|pc' g Hp Hs].
  - rewrite Hu in Hu0, Hcalls, I' |- *. apply single_lookup in Hu0 as [-> ->].
    assert (u' = u \/ OnAccept_next u = Some u') as [->|Hnx] by (by apply Hcalls).
    { by destruct u as [|[]| | | | | | | | | | | | |[]| |]. }
    apply next_call_keeps in Hnx as (Hin & Hnd & Hb').
    eapply echo_ok_move; try done; [by apply handed_same|by rewrite Hnd].
  - pose proof Hu0 as Hu1. rewrite Hu in Hu0, I' |- *. apply single_lookup in Hu0 as [-> ->].
    destruct (echo_user_step _ _ _ _ _ _ _ _ I Hu1 Hret Hs)
      as (o' & Ho' & Hm & Hcp' & Hb' & Hd' & Hw).
    eapply (echo_ok_step _ _ _ _ _ _ _ o' u' _); try done; cbn.
    + by apply handed_same.
    + by rewrite concat_app.
    + intros He%Hw. unfold on_way. cbn. by rewrite <- !app_assoc, He.
    + auto.
  - eapply echo_ok_move; try done; cbn; rewrite ?Hp; [apply handed_other; by rewrite Hp|].
    by destruct pc.
  - eapply echo_ok_move; try done; cbn; rewrite ?Hp; [apply handed_other; by rewrite Hp|].
    done.
  - eapply echo_ok_proc; try done; cbn; rewrite ?Hp; done.
  - (* PTcpSend *)
    destruct I' as (o1 & c' & k' & I'). pose proof (co_obj _ _ _ _ _ I') as Ho1.
    cbn in Ho1. assert (o1 = o) as -> by congruence. rewrite Hp in Fa.
    pose proof (facts_open _ _ _ _ _ _ _ Fa eq_refl) as He.
    pose proof (fa_unqueued _ _ _ _ _ _ _ Fa eq_refl) as Hq.
    exists o, c', k', u, (queue_bytes (gst (sys_of x)) ++ in_user u).
    assert (handed (sys_of x) (Sys (gst (sys_of x)) (users (sys_of x)) PIdle
      (if res =? 0 then q else queued (sys_of x)) (live (sys_of x)) (received (sys_of x))
      (taken (sys_of x)) (refuse data res (lost (sys_of x))) (twice (sys_of x))) =
      [(data, res)]) as Hh.
    { unfold handed. rewrite Hp. cbn. unfold refuse.
      destruct (Z.eqb_spec res 0) as [->|]; [by rewrite drop_all|by rewrite drop_app_length]. }
    rewrite Hh. split; cbn; try done.
    + rewrite Ht, (Hr He). unfold on_way. rewrite Hp, fmap_app, concat_app. cbn.
      by rewrite app_nil_r, <- app_assoc.
    + rewrite filter_app, <- Hlo. unfold refuse. destruct (Z.eqb_spec res 0) as [->|].
      * by rewrite app_nil_r.
      * by rewrite filter_cons_True.
  - eapply echo_ok_move; try done; cbn; rewrite ?Hp; [apply handed_other; by rewrite Hp|].
    done.
  - eapply echo_ok_proc; try done; cbn; rewrite ?Hp; done.
Qed.

Lemma echo_init_inv x : echo_init x -> echo_inv x.
Proof.
  intros (Hi & Hu & Hs). pose proof (init_inv _ _ _ Hi) as (o & c & k & I).
  exists o, c, k, UIdle, []. split; try done.
  - destruct Hi as (_ & _ & _ & _ & _ & _ & Ht & _). by rewrite Hs, Ht.
  - destruct Hi as (_ & _ & _ & _ & _ & _ & _ & Hlo & _). by rewrite Hs, Hlo.
  - intros _. destruct Hi as ((? & ? & ? & ? & ? & ? & Hg) & _ & Hp & _).
    unfold on_way, queue_bytes. by rewrite Hp, Hg.
  - destruct Hi as ((? & ? & ? & ? & ? & ? & Hg) & _). rewrite Hg.
    split_and!; [done..|]. cbn. lia.
Qed.

(** C takes what it is handed or has no memory for it. *)
Lemma results_of x o c k u rest :
  echo_ok x o c k u rest -> Forall (fun y => y.2 = 0 \/ y.2 = 1) (sent x).
Proof.
  intros [I _ _ Hlo _ _ _ _]. pose proof (co_lost _ _ _ _ _ I) as H. rewrite Hlo in H.
  rewrite Forall_forall in H |- *. intros y Hy. destruct (decide (y.2 = 0)); [by left|right].
  apply H. by apply list_elem_of_filter.
Qed.

Lemma accepted_all x o c k u rest :
  echo_ok x o c k u rest -> lost (sys_of x) = [] -> accepted x = (sent x).*1.
Proof.
  intros [_ _ _ Hlo _ _ _ _] Hl. unfold accepted. rewrite Hl in Hlo. clear Hl.
  induction (sent x) as [|[b z] l IH]; [done|]. rewrite filter_cons in Hlo |- *. cbn in *.
  destruct (decide (z = 0)) as [->|Hz]; cbn; [|by rewrite decide_True in Hlo].
  rewrite decide_False in Hlo by auto. by rewrite IH.
Qed.

(** Nothing is on its way to C if no [Write] waits. *)
Lemma not_waiting s o c k u :
  conc_inv p s o c k -> users s = [u] -> p_err o = false -> u_waits u = false ->
  on_way s u = in_user u.
Proof.
  intros I Hu He Hw. pose proof (co_facts _ _ _ _ _ I) as Fa.
  pose proof (fa_tokens _ _ _ _ _ _ _ Fa He) as Hn.
  pose proof (fa_counted _ _ _ _ _ _ _ Fa) as Hcd.
  rewrite Hu in Hn. unfold number in Hn. cbn in Hn. rewrite Hw in Hn. cbn in Hn.
  unfold on_way, queue_bytes.
  destruct (c_buf (sendQueue (gst s))) as [|x l]; cbn in Hn; [|lia].
  destruct (proc s); cbn in *; try done; try lia.
Qed.

Lemma echo_reachable_inv x : echo_reachable x -> echo_inv x.
Proof.
  intros (x0 & Hi & Hr). eapply (rtc_invariant echo_next echo_inv); [|exact Hr|].
  - intros. by eapply echo_next_inv.
  - by apply echo_init_inv.
Qed.

(** ** Properties *)

(** C8: The application echoes: what the processing loop has handed to C is, byte
    for byte and in order, a prefix of what the connection received; C has
    accepted it but for the pieces for which it had no memory, which are lost.
    While the connection is open the rest is exactly what the goroutine or the
    processing loop has in its hands and what waits in the two queues; unless the
    goroutine waits in a [Write], all that it has taken has been handed to C; and
    the copy ends only when the connection has been closed. *)
Theorem go_echo_stream x :
  echo_reachable x ->
  let s := sys_of x in
  exists o c u, pcbs (gst s) !! p = Some o /\ bchans (gst s) !! recvQueued o = Some c /\
    users s = [u] /\ concat (sent x).*1 `prefix_of` concat (received s) /\
    Forall (fun y => y.2 = 0 \/ y.2 = 1) (sent x) /\
    lost s = filter (fun y => y.2 <> 0) (sent x) /\
    (lost s = [] -> concat (accepted x) `prefix_of` concat (received s)) /\
    (p_err o = false ->
       concat (received s) = concat (sent x).*1 ++ on_way s u ++ concat (c_buf c)) /\
    (p_err o = false -> u_waits u = false ->
       concat (received s) = concat (sent x).*1 ++ in_user u ++ concat (c_buf c)) /\
    (copy_done u = true -> p_err o = true).
Proof.
  intros (o & c & k & u & rest & Ok)%echo_reachable_inv s. subst s.
  pose proof Ok as [I Hu Ht Hlo Hr Hd _ _].
  exists o, c, u. pose proof (co_fifo _ _ _ _ _ I) as Hf.
  assert (concat (sent x).*1 `prefix_of` concat (received (sys_of x))) as Hpre.
  { rewrite Hf, concat_app, Ht, <- app_assoc. by eexists. }
  split_and!; try done; [apply I..| | | |].
  - by eapply results_of.
  - intros Hl. by rewrite (accepted_all _ _ _ _ _ _ Ok Hl).
  - intros He. by rewrite Hf, concat_app, Ht, (Hr He), <- app_assoc.
  - intros He Hw. rewrite Hf, concat_app, Ht, (Hr He), <- app_assoc.
    by rewrite (not_waiting _ _ _ _ _ I Hu He Hw).
Qed.

End echo.
