(* ===== verification/GoEchoRun.v ===== *)
(** * Runs of the echo application in Go

    Runs of the machine of [GoEcho]: an executable form of its steps, what the
    echo can always still do, and what can bring it to a stop. *)

From S2P Require Import Prelude Lwip GoChan GoBind GoApp GoConc GoEcho.
Local Open Scope Z_scope.

#[local] Arguments QUEUE : simpl never.

Section echo_runs.
Context (p e : ptr).
Abbreviation echo_next := (echo_next p e).

(** ** Execution *)

(** The moves of a run: a call of [io.Copy], a step of its goroutine, an event
    for the processing goroutine, a step of it, C taking data (with a queue
    afterwards or not), lwIP taking the queue. *)
Inductive move : Type :=
| MCall
| MUser
| MEvent (c : proc_pc)
| MProc
| MSend (q : bool)
| MSent.

(** The state with another [gst], [users], [proc], [queued], [received] and
    [taken]. *)
Definition moved (s : sys) g us pc q rc tk : sys :=
  Sys g us pc q (live s) rc tk (lost s) (twice s).

Definition move_sys (s : sys) (m : move) : option sys :=
  match m with
  | MCall =>
      match users s with
      | [u] => u' ← OnAccept_next u;
               Some (moved s (gst s) [u'] (proc s) (queued s) (received s) (taken s))
      | _ => None
      end
  | MUser =>
      match users s with
      | [u] => if returned u then None
               else match user_step p u (gst s) with
                    | Ok (u', g) => Some (moved s g [u'] (proc s) (queued s) (received s)
                                            (taken s ++ takes p u (gst s)))
                    | Fault _ => None
                    end
      | _ => None
      end
  | MEvent c =>
      match proc s with
      | PIdle =>
          if proc_entry s c
          then Some (moved s (gst s) (users s) c (queued s) (received s) (taken s)) else None
      | _ => None
      end
  | MProc =>
      match proc s with
      | PTcpSend _ | PTcpClose | PCloseFind => None
      | pc => match proc_step p e pc (gst s) with
              | Ok (pc', g) => Some (moved s g (users s) pc' (queued s)
                                       (received s ++ puts pc) (taken s))
              | Fault _ => None
              end
      end
  | MSend q =>
      match proc s with
      | PTcpSend _ =>
          if queued s then None
          else Some (moved s (gst s) (users s) PIdle q (received s) (taken s))
      | _ => None
      end
  | MSent =>
      match proc s with
      | PIdle => Some (moved s (gst s) (users s) PIdle false (received s) (taken s))
      | _ => None
      end
  end.

Fixpoint echo_run (ms : list move) (x : echo) : option echo :=
  match ms with
  | [] => Some x
  | m :: ms => s' ← move_sys (sys_of x) m;
               echo_run ms (Echo s' (sent x ++ handed (sys_of x) s'))
  end.

Lemma calls_same s s' : users s' = users s -> calls_of_copy s s'.
Proof. intros Hu u u' H1 H2 _. left. congruence. Qed.

Lemma calls_inside s s' u : users s = [u] -> returned u = false -> calls_of_copy s s'.
Proof. intros Hu Hr u1 u' H1 _ ?. congruence. Qed.

Lemma call_entry u u' :
  OnAccept_next u = Some u' -> returned u = true /\ method_entry u' = true.
Proof. destruct u; cbn; repeat case_match; by intros [= <-]. Qed.

(** Every move is a step of the machine. *)
Lemma move_sound s m s' :
  move_sys s m = Some s' -> go_next p e s s' /\ calls_of_copy s s'.
Proof.
  unfold move_sys, moved. intros Hm. destruct m as [| |c| |q|].
  - destruct (users s) as [|u [|]] eqn:Hu; try done.
    destruct (OnAccept_next u) as [u'|] eqn:Hn; [|done]. injection Hm as <-.
    destruct (call_entry _ _ Hn) as [Hr He]. split.
    + change [u'] with (<[O := u']> [u]). rewrite <- Hu.
      apply (next_call _ _ _ _ u); [by rewrite Hu|done..].
    + intros u1 u1' H1 [= <-] _. rewrite Hu in H1. injection H1 as <-. by right.
  - destruct (users s) as [|u [|]] eqn:Hu; try done. destruct (returned u) eqn:Hr; [done|].
    destruct (user_step p u (gst s)) as [[u' g]|] eqn:Hs; [|done]. injection Hm as <-.
    split; [|by eapply calls_inside]. change [u'] with (<[O := u']> [u]). rewrite <- Hu.
    apply next_user; [by rewrite Hu|done..].
  - destruct (proc s) eqn:Hp; try done. destruct (proc_entry s c) eqn:He; [|done]. injection Hm as <-.
    split; [by apply next_event|by apply calls_same].
  - assert (exists pc' g, proc_step p e (proc s) (gst s) = Ok (pc', g) /\
      s' = Sys g (users s) pc' (queued s) (live s) (received s ++ puts (proc s)) (taken s)
             (lost s) (twice s) /\
      (forall data, proc s <> PTcpSend data) /\ proc s <> PTcpClose /\ proc s <> PCloseFind)
      as (pc' & g & Hs & -> & ? & ? & ?).
    { destruct (proc s); try done;
        (destruct (proc_step _ _ _ _) as [[pc' g]|]; [|done]); injection Hm as <-;
        by exists pc', g. }
    split; [by apply next_proc|by apply calls_same].
  - destruct (proc s) eqn:Hp; try done. destruct (queued s) eqn:Hq; [done|].
    injection Hm as <-. split; [|by apply calls_same].
    pose proof (next_tcp_send p e s data q 0 Hp) as Hn. rewrite Hq in Hn. by apply Hn.
  - destruct (proc s) eqn:Hp; try done. injection Hm as <-.
    split; [by apply next_sent|by apply calls_same].
Qed.

Lemma echo_run_sound ms x x' : echo_run ms x = Some x' -> rtc echo_next x x'.
Proof.
  revert x. induction ms as [|m ms IH]; intros x; cbn; [by intros [= ->]|].
  destruct (move_sys (sys_of x) m) as [s'|] eqn:Hm; cbn; [|done].
  intros Hr%IH. eapply rtc_l; [|exact Hr]. by apply echo_step; apply (move_sound _ m).
Qed.

(** ** Waiting with a queue in C *)

(** The goroutine waits for its data to be sent, and [n] packets are in the
    queue of the connection. *)
Definition stalled (x : echo) (pc : proc_pc) (n : nat) : Prop :=
  users (sys_of x) = [WWait [1]] /\ proc (sys_of x) = pc /\ live (sys_of x) = true /\
  tcpPcbs (gst (sys_of x)) !! e = Some p /\
  exists o c k, pcbs (gst (sys_of x)) !! p = Some o /\ p_err o = false /\
    sendWait o = Some k /\ c_buf k = [] /\ c_closed k = false /\
    bchans (gst (sys_of x)) !! recvQueued o = Some c /\ c_closed c = false /\
    c_cap c = QUEUE /\ length (c_buf c) = n.

(** A step of the processing goroutine while the other one waits. *)
Lemma stalled_next x pc n s' pc' n' :
  stalled x pc n -> go_next p e (sys_of x) s' ->
  (forall y, sys_of y = s' -> stalled y pc' n') ->
  exists x', echo_next x x' /\ stalled x' pc' n'.
Proof.
  intros (Hu & _) Hn Hs. eexists. split; [apply echo_step; [exact Hn|]|by apply Hs].
  intros u u' Hu'. rewrite Hu in Hu'. by injection Hu' as <-.
Qed.

Lemma stalled_event x n :
  stalled x PIdle n -> exists x', echo_next x x' /\ stalled x' (PRecvFind [1]) n.
Proof.
  intros St. pose proof St as (Hu & Hp & Hl & Ht & Ho).
  eapply stalled_next; [exact St|by apply (next_event _ _ _ (PRecvFind [1]))|].
  intros y Hy. unfold stalled. rewrite Hy. by split_and!.
Qed.

Lemma stalled_find x n :
  stalled x (PRecvFind [1]) n -> exists x', echo_next x x' /\ stalled x' (PRecvErr [1]) n.
Proof.
  intros St. pose proof St as (Hu & Hp & Hl & Ht & Ho).
  eapply stalled_next; [exact St|eapply next_proc; [exact Hp|done..|]|].
  - cbn [proc_step callback_step]. unfold mbind, M_bind. cbn. by rewrite decide_True.
  - intros y Hy. unfold stalled. rewrite Hy. by split_and!.
Qed.

Lemma stalled_err x n :
  stalled x (PRecvErr [1]) n -> exists x', echo_next x x' /\ stalled x' (PRecvPut [1]) n.
Proof.
  intros St. pose proof St as (Hu & Hp & Hl & Ht & o & c & k & Ho & He & Hrest).
  eapply stalled_next; [exact St|eapply next_proc; [exact Hp|done..|]|].
  - cbn [proc_step callback_step]. unfold mbind, M_bind.
    rewrite (at_pcb_at _ _ _ _ Ho). cbn. by rewrite He.
  - intros y Hy. unfold stalled. rewrite Hy. cbn. split_and!; try done.
    exists o, c, k. split; [apply lookup_insert_eq|done].
Qed.

Lemma stalled_put x n :
  (n < QUEUE)%nat -> stalled x (PRecvPut [1]) n ->
  exists x', echo_next x x' /\ stalled x' PIdle (S n).
Proof.
  intros Hn St.
  pose proof St as (Hu & Hp & Hl & Ht & o & c & k & Ho & He & Hk & Hb & Hkc & Hc & Hcl & Hcap & Hlen).
  eapply stalled_next; [exact St|eapply next_proc; [exact Hp|done..|]|].
  - cbn [proc_step callback_step]. unfold mbind, M_bind.
    rewrite (at_recvQueued_run _ _ _ _ _ Ho Hc), chan_send_run by (done || lia). done.
  - intros y Hy. unfold stalled. rewrite Hy. cbn. split_and!; try done.
    exists o, (Chan (c_cap c) (c_buf c ++ [[1]]) false), k.
    split_and!; try done; [apply lookup_insert_eq|].
    cbn. rewrite length_app. cbn. lia.
Qed.

(** Where the queue is full both goroutines wait for each other. *)
Lemma stalled_full x x' : stalled x (PRecvPut [1]) QUEUE -> ~ echo_next x x'.
Proof.
  intros (Hu & Hp & Hl & Ht & o & c & k & Ho & He & Hk & Hb & Hkc & Hc & Hcl & Hcap & Hlen)
    [s' Hn _].
  destruct Hn as [t u0 u' Hu0 Hret _|t u0 u' g Hu0 _ Hs|pc Hpi _|Hpi
    |pc pc' g Hpi _ _ _ Hs|data q Hpi|Hpi|pc' g Hpi Hs]; try congruence.
  - rewrite Hu in Hu0. by apply single_lookup in Hu0 as [_ ->].
  - rewrite Hu in Hu0. apply single_lookup in Hu0 as [_ ->].
    cbn [user_step] in Hs. unfold mbind, M_bind in Hs. rewrite (at_pcb_at _ _ _ _ Ho) in Hs.
    unfold sendWait_recv, mbind, M_bind, on_sendWait, chan_recv in Hs.
    by rewrite Hk, Hb, Hkc in Hs.
  - rewrite Hp in Hpi. subst pc. cbn [proc_step callback_step] in Hs.
    unfold mbind, M_bind in Hs. rewrite (at_recvQueued_run _ _ _ _ _ Ho Hc) in Hs.
    unfold chan_send in Hs. rewrite Hcl, decide_False in Hs by lia. done.
Qed.

Lemma stalled_packet x n :
  stalled x PIdle n -> exists x', rtc echo_next x x' /\ stalled x' (PRecvPut [1]) n.
Proof.
  intros (x1 & H1 & (x2 & H2 & (x3 & H3 & St)%stalled_err)%stalled_find)%stalled_event.
  exists x3. split; [|done]. by eapply rtc_l, rtc_l, rtc_once.
Qed.

Lemma stalled_fill x n m :
  (n + m <= QUEUE)%nat -> stalled x PIdle n ->
  exists x', rtc echo_next x x' /\ stalled x' PIdle (n + m)%nat.
Proof.
  revert n x. induction m as [|m IH]; intros n x Hm St.
  { exists x. by rewrite Nat.add_0_r. }
  destruct (stalled_packet _ _ St) as (x1 & H1 & St1).
  destruct (stalled_put x1 n ltac:(lia) St1) as (x2 & H2 & St2).
  destruct (IH (S n) x2 ltac:(lia) St2) as (x3 & H3 & St3).
  exists x3. rewrite Nat.add_succ_r. split; [|done].
  etransitivity; [exact H1|by eapply rtc_l].
Qed.

(** ** The echo can be completed

    From a state between two turns of the processing loop, every data that the
    connection has received can still be sent, by steps of the two goroutines
    and by lwIP taking what was queued. *)

(** How far the goroutine is from its next packet. *)
Definition weight (u : user_pc) : nat :=
  match u with
  | RTell _ => 11
  | URead (_ :: _) _ => 10
  | WCheck _ => 9
  | WLock _ => 8
  | WPost _ => 7
  | WWait _ => 6
  | WUnlock _ => 5
  | WErr _ | RNil => 4
  | UIdle | UWrote _ _ | URead [] _ => 3
  | RInter _ => 2
  | RErr _ => 1
  | _ => 0
  end.

(** How far the processing goroutine is from what the other one waits for. *)
Definition proc_weight (s : sys) (o : PCB) : nat :=
  match proc s with
  | PIdle =>
      match c_buf (sendQueue (gst s)) with
      | [] => if 0 <? sendCount o then if queued s then 10 else 9
              else if (QUEUE <=? length (c_buf (recvedQueue (gst s))))%nat then 3 else 0
      | _ => 15
      end
  | PTake => 14
  | PSendErr _ => 13
  | PCount _ => 12
  | PTcpSend _ => 11
  | PDoneFind => 8
  | PDoneErr => 7
  | PDoneCount => 6
  | PDoneDec => 5
  | PDonePost => 4
  | PTakeRecved => 2
  | PRecved _ => 1
  | _ => 0
  end.

Lemma proc_weight_le s o : (proc_weight s o <= 15)%nat.
Proof. unfold proc_weight. repeat case_match; lia. Qed.

Definition rank (s : sys) (o : PCB) (c : chan bytes) (u : user_pc) : nat :=
  (300 * length (c_buf c) + 20 * weight u + proc_weight s o)%nat.

Lemma rank_proc s s' o o' c u :
  (proc_weight s' o' < proc_weight s o)%nat -> (rank s' o' c u < rank s o c u)%nat.
Proof. unfold rank. lia. Qed.

(** Where the processing goroutine does not wait. *)
Definition ready (s : sys) (o : PCB) : Prop :=
  match proc s with
  | PIdle | PSendErr _ | PCount _ | PTcpSend _ | PDonePost => True
  | PTake => c_buf (sendQueue (gst s)) <> []
  | PTakeRecved =>
      c_buf (sendQueue (gst s)) = [] /\ sendCount o = 0 /\ c_buf (recvedQueue (gst s)) <> []
  | PRecved _ =>
      c_buf (sendQueue (gst s)) = [] /\ sendCount o = 0 /\
      (length (c_buf (recvedQueue (gst s))) < QUEUE)%nat
  | PDoneFind | PDoneErr | PDoneCount | PDoneDec => 0 < sendCount o
  | _ => False
  end.

(** The connection is open and known to both sides, and its packets fit. *)
Record working (s : sys) (o : PCB) (c : chan bytes) : Prop := Working {
  wk_obj : pcbs (gst s) !! p = Some o;
  wk_open : p_err o = false;
  wk_chan : bchans (gst s) !! recvQueued o = Some c;
  wk_fits : Forall (fun b => length b <= copy_buffer)%nat (c_buf c);
  wk_live : live s = true;
  wk_known : tcpPcbs (gst s) !! e = Some p
}.

Record good (x : echo) (o : PCB) (c : chan bytes) (u : user_pc) : Prop := Good {
  gd_inv : echo_inv p x;
  gd_user : users (sys_of x) = [u];
  gd_work : working (sys_of x) o c;
  gd_ready : ready (sys_of x) o
}.

(** A step towards the next packet. *)
Definition advance (x : echo) (r : nat) : Prop :=
  exists x' o c u, echo_next x x' /\ good x' o c u /\
    (rank (sys_of x') o c u < r)%nat /\ received (sys_of x') = received (sys_of x) /\
    lost (sys_of x') = lost (sys_of x).

Lemma good_next x o c u s' o' c' u' :
  good x o c u -> go_next p e (sys_of x) s' -> calls_of_copy (sys_of x) s' ->
  users s' = [u'] -> working s' o' c' -> ready s' o' ->
  received s' = received (sys_of x) -> lost s' = lost (sys_of x) ->
  (rank s' o' c' u' < rank (sys_of x) o c u)%nat ->
  advance x (rank (sys_of x) o c u).
Proof.
  intros G Hn Hc Hu Hw Hr Hrc Hlo Hlt. eexists _, o', c', u'.
  assert (Hx : echo_next x (Echo s' (sent x ++ handed (sys_of x) s'))) by by apply echo_step.
  split_and!; [exact Hx| |done..].
  split; [by eapply echo_next_inv; [apply G|exact Hx]|done..].
Qed.

(** A step of the goroutine between two turns of the loop. *)
Lemma good_user x o c u u' g o' c' :
  good x o c u -> proc (sys_of x) = PIdle -> returned u = false ->
  user_step p u (gst (sys_of x)) = Ok (u', g) ->
  pcbs g !! p = Some o' -> p_err o' = false -> bchans g !! recvQueued o' = Some c' ->
  tcpPcbs g = tcpPcbs (gst (sys_of x)) -> c_buf c' `suffix_of` c_buf c ->
  (length (c_buf c') < length (c_buf c) \/ weight u' < weight u)%nat ->
  advance x (rank (sys_of x) o c u).
Proof.
  intros G Hp Hr Hs Ho He Hc Ht Hsuf Hlt. pose proof G as [_ Hu [? ? ? Hfit ? ?] _].
  eapply good_next; [exact G|..].
  - apply (next_user _ _ _ O u); [by rewrite Hu|exact Hr|exact Hs].
  - by eapply calls_inside.
  - by rewrite Hu.
  - split; cbn; [exact Ho|exact He|exact Hc| |done|by rewrite Ht].
    destruct Hsuf as [l Hl]. rewrite Hl in Hfit. by apply Forall_app in Hfit as [_ ?].
  - unfold ready. cbn. by rewrite Hp.
  - done.
  - done.
  - destruct Hsuf as [l Hl]. unfold rank. rewrite Hl, length_app in *.
    set (s' := Sys _ _ _ _ _ _ _ _ _). pose proof (proc_weight_le s' o').
    assert (weight u' <= 11)%nat by (destruct u' as [| | | | | | | | | | | | |[]| | |]; cbn; lia).
    lia.
Qed.

(** What the invariant says in a good state. *)
Lemma good_conc x o c u :
  good x o c u ->
  exists k, conc_inv p (sys_of x) o c k /\ sized (gst (sys_of x)) /\
    in_copy u /\ copy_done u = false.
Proof.
  intros [(o1 & c1 & k & u1 & rest & [I Hu _ _ _ Hd Hcp Hb]) Hu' [Ho He Hc _ _ _] _].
  pose proof (co_obj _ _ _ _ _ I) as Ho1. assert (o1 = o) as -> by congruence.
  pose proof (co_chan _ _ _ _ _ I) as Hc1. assert (c1 = c) as -> by congruence.
  assert (u1 = u) as -> by congruence. exists k. split_and!; try done.
  destruct (copy_done u); [|done]. rewrite Hd in He by done. done.
Qed.

(** The goroutine calls [Read] or [Write]. *)
Lemma good_call x o c u u' :
  good x o c u -> proc (sys_of x) = PIdle -> OnAccept_next u = Some u' ->
  advance x (rank (sys_of x) o c u).
Proof.
  intros G Hp Hn. pose proof G as [_ Hu W _]. destruct (call_entry _ _ Hn) as [Hr He].
  eapply good_next; [exact G|..].
  - apply (next_call _ _ _ O u u'); [by rewrite Hu|done..].
  - intros u1 u1' H1 H2 _. cbn in H2. rewrite Hu in H1, H2. cbn in H2. right. congruence.
  - by rewrite Hu.
  - destruct W. by split.
  - unfold ready. cbn. by rewrite Hp.
  - done.
  - done.
  - unfold rank, proc_weight. cbn. rewrite Hp.
    assert (weight u' < weight u)%nat; [|lia].
    destruct u; cbn in Hn; repeat case_match; try done; injection Hn as <-; cbn; lia.
Qed.

(** An event for the processing loop. *)
Lemma good_event x o c u pc :
  good x o c u -> proc (sys_of x) = PIdle -> proc_entry (sys_of x) pc = true ->
  ready (Sys (gst (sys_of x)) (users (sys_of x)) pc (queued (sys_of x)) (live (sys_of x))
    (received (sys_of x)) (taken (sys_of x)) (lost (sys_of x)) (twice (sys_of x))) o ->
  (proc_weight (Sys (gst (sys_of x)) (users (sys_of x)) pc (queued (sys_of x))
     (live (sys_of x)) (received (sys_of x)) (taken (sys_of x)) (lost (sys_of x))
     (twice (sys_of x))) o < proc_weight (sys_of x) o)%nat ->
  advance x (rank (sys_of x) o c u).
Proof.
  intros G Hp He Hr Hlt. pose proof G as [_ Hu [] _]. eapply good_next; [exact G|..].
  - by apply next_event.
  - by apply calls_same.
  - done.
  - by split.
  - done.
  - done.
  - done.
  - by apply rank_proc.
Qed.

(** The goroutine waits for its data to be sent: they are on their way. *)
Lemma good_wait x o c b :
  good x o c (WWait b) -> proc (sys_of x) = PIdle ->
  advance x (rank (sys_of x) o c (WWait b)).
Proof.
  intros G Hp. destruct (good_conc _ _ _ _ G) as (k & I & _).
  pose proof G as [_ Hu [Ho He Hc Hf Hl Ht] _].
  destruct (co_wait _ _ _ _ _ I) as [Hk _].
  pose proof (fa_tokens _ _ _ _ _ _ _ (co_facts _ _ _ _ _ I) He) as Hn.
  rewrite Hu, Hp in Hn. unfold number, p_never in Hn. cbn in Hn.
  destruct (c_buf k) as [|z l] eqn:Hkb; cycle 1.
  { eapply good_user; [exact G|done|done|..].
    - cbn [user_step]. unfold mbind, M_bind. rewrite (at_pcb_at _ _ _ _ Ho).
      unfold sendWait_recv, mbind, M_bind, on_sendWait, chan_recv.
      rewrite Hk, Hkb. reflexivity.
    - apply lookup_insert_eq.
    - done.
    - exact Hc.
    - done.
    - done.
    - right. cbn. lia. }
  destruct (decide (c_buf (sendQueue (gst (sys_of x))) = [])) as [Hq|Hq].
  - rewrite Hq in Hn. cbn in Hn. assert (Hsc : 0 < sendCount o) by lia.
    destruct (queued (sys_of x)) eqn:Hqd.
    + eapply good_next; [exact G|by apply next_sent|by apply calls_same|done|by split|done..|].
      apply rank_proc. unfold proc_weight. cbn. rewrite Hp, Hq, Hqd.
      rewrite (proj2 (Z.ltb_lt _ _) Hsc). lia.
    + eapply (good_event _ _ _ _ PDoneFind); [exact G|done| |done|].
      * cbn. by rewrite Hl, Hqd.
      * unfold proc_weight. cbn. rewrite Hp, Hq, Hqd.
        rewrite (proj2 (Z.ltb_lt _ _) Hsc). lia.
  - eapply (good_event _ _ _ _ PTake); [exact G|done|done|done|].
    unfold proc_weight. cbn. rewrite Hp. destruct (c_buf (sendQueue _)); [done|lia].
Qed.

(** A step of the goroutine on the object of the connection. *)
Ltac user_on_obj G Ho tac :=
  eapply good_user;
  [exact G|done|done
  |cbn [user_step]; unfold mbind, M_bind; rewrite (at_pcb_at _ _ _ _ Ho); tac; reflexivity
  |apply lookup_insert_eq|done|done|done|done|right; cbn; lia].

(** [Read] tells the loop how much it took: the loop makes room first, if it has
    to. *)
Lemma good_tell x o c b :
  good x o c (RTell b) -> proc (sys_of x) = PIdle ->
  advance x (rank (sys_of x) o c (RTell b)).
Proof.
  intros G Hp. destruct (good_conc _ _ _ _ G) as (k & I & Hcp & _).
  pose proof G as [_ Hu [Ho He Hc Hf Hl Ht] _].
  destruct (co_open _ _ _ _ _ I) as (Hsq & Hrq & _). destruct Hcp as (Hc1 & Hc2 & Hc3).
  pose proof (fa_tokens _ _ _ _ _ _ _ (co_facts _ _ _ _ _ I) He) as Hn.
  pose proof (fa_count _ _ _ _ _ _ _ (co_facts _ _ _ _ _ I)) as Hcount.
  rewrite Hu, Hp in Hn. unfold number, p_never in Hn. cbn in Hn.
  destruct (decide (length (c_buf (recvedQueue (gst (sys_of x)))) < QUEUE)%nat) as [Hr|Hr].
  - eapply good_user; [exact G|done|done|..].
    + cbn [user_step]. unfold mbind, M_bind, on_recvedQueue, zoom.
      rewrite chan_send_run by (done || lia). reflexivity.
    + exact Ho.
    + done.
    + exact Hc.
    + done.
    + done.
    + right. destruct b; cbn; lia.
  - eapply (good_event _ _ _ _ PTakeRecved); [exact G|done|done| |].
    + unfold ready. cbn. split_and!; [|lia|].
      * destruct (c_buf (sendQueue _)); [done|cbn in Hn; lia].
      * intros Hnil. rewrite Hnil in Hr. apply Hr. unfold QUEUE. cbn. lia.
    + unfold proc_weight. cbn [proc gst]. rewrite Hp.
      destruct (c_buf (sendQueue _)); [|cbn in Hn; lia].
      rewrite (proj2 (Z.ltb_ge _ _)) by lia. rewrite (proj2 (Nat.leb_le _ _)) by lia. lia.
Qed.

(** [Read] takes the next packet. *)
Lemma good_take x o c n :
  good x o c (RTake n) -> proc (sys_of x) = PIdle -> c_buf c <> [] ->
  advance x (rank (sys_of x) o c (RTake n)).
Proof.
  intros G Hp Hb. destruct (good_conc _ _ _ _ G) as (k & I & _ & Hcopy & _).
  cbn in Hcopy. subst n. pose proof G as [_ Hu [Ho He Hc Hf Hl Ht] _].
  destruct (c_buf c) as [|b l] eqn:Hcb; [done|].
  apply Forall_cons in Hf as [Hlen _].
  assert (Hstep : exists u', user_step p (RTake copy_buffer) (gst (sys_of x)) =
    Ok (u', set_bchans (<[recvQueued o := Chan (c_cap c) l (c_closed c)]>
                          (bchans (gst (sys_of x)))) (gst (sys_of x)))).
  { cbn [user_step]. unfold mbind, M_bind. rewrite (at_recvQueued_run _ _ _ _ _ Ho Hc).
    unfold chan_recv. rewrite Hcb. destruct b; [by eexists|].
    rewrite decide_False by lia. by eexists. }
  destruct Hstep as [u' Hstep]. eapply good_user; [exact G|done|done|exact Hstep|..].
  - exact Ho.
  - done.
  - apply lookup_insert_eq.
  - done.
  - cbn. rewrite Hcb. by exists [b].
  - left. cbn. rewrite Hcb. cbn. lia.
Qed.

(** Between two turns of the loop. *)
Lemma good_idle x o c u :
  good x o c u -> proc (sys_of x) = PIdle ->
  (c_buf c = [] /\ u_waits u = false /\ in_user u = []) \/
  advance x (rank (sys_of x) o c u).
Proof.
  intros G Hp. destruct (good_conc _ _ _ _ G) as (k & I & Hcp & Hcopy & Hdone).
  pose proof G as [_ Hu [Ho He Hc Hf Hl Ht] _]. destruct Hcp as (Hc1 & Hc2 & Hc3).
  destruct (co_open _ _ _ _ _ I) as (Hsq & Hrq & _). pose proof (co_facts _ _ _ _ _ I) as Fa.
  pose proof (fa_tokens _ _ _ _ _ _ _ Fa He) as Hn.
  pose proof (fa_lock _ _ _ _ _ _ _ Fa) as Hlk.
  rewrite Hu, Hp in Hn, Hlk. unfold number, p_never in Hn, Hlk.
  destruct (decide (c_buf c = [] /\ u_waits u = false /\ in_user u = [])) as [|Hnd];
    [by left|right].
  destruct u; try done; cbn in Hlk, Hn.
  - by eapply good_call.
  - user_on_obj G Ho ltac:(cbn; rewrite He).
  - user_on_obj G Ho ltac:(unfold lock; destruct (lck o); [done|]).
  - eapply good_user; [exact G|done|done|..].
    + cbn [user_step]. unfold mbind, M_bind, on_sendQueue, zoom.
      rewrite chan_send_run by (done || (unfold QUEUE in *; lia)). reflexivity.
    + exact Ho.
    + done.
    + exact Hc.
    + done.
    + done.
    + right. cbn. lia.
  - by apply good_wait.
  - user_on_obj G Ho ltac:(unfold unlock; destruct (lck o); [|done]).
  - user_on_obj G Ho ltac:(cbn; rewrite He).
  - destruct err; [done|]. by eapply good_call.
  - user_on_obj G Ho ltac:(cbn; rewrite (proj2 (co_type _ _ _ _ _ I))).
  - user_on_obj G Ho ltac:(cbn; rewrite He).
  - apply good_take; [done|done|]. intros Hb. by apply Hnd.
  - by apply good_tell.
  - user_on_obj G Ho ltac:(cbn; rewrite He).
  - destruct data as [|z b], err; try done; by eapply good_call.
Qed.

(** A step of the processing goroutine. *)
Lemma good_proc_step x o c u pc pc' g o' :
  good x o c u -> proc (sys_of x) = pc -> (forall data, pc <> PTcpSend data) ->
  pc <> PTcpClose -> pc <> PCloseFind -> puts pc = [] ->
  proc_step p e pc (gst (sys_of x)) = Ok (pc', g) ->
  pcbs g !! p = Some o' -> p_err o' = false -> recvQueued o' = recvQueued o ->
  bchans g = bchans (gst (sys_of x)) -> tcpPcbs g = tcpPcbs (gst (sys_of x)) ->
  (forall us q lv rc tk lo tw, ready (Sys g us pc' q lv rc tk lo tw) o' /\
     (proc_weight (Sys g us pc' q lv rc tk lo tw) o' < proc_weight (sys_of x) o)%nat) ->
  advance x (rank (sys_of x) o c u).
Proof.
  intros G Hp H1 H2 H3 Hput Hs Ho' He' Hq' Hb' Ht' Hr.
  pose proof G as [_ Hu [Ho He Hc Hf Hl Ht] _]. eapply good_next; [exact G|..].
  - by eapply next_proc.
  - by apply calls_same.
  - done.
  - split; cbn; try done; [by rewrite Hq', Hb'|by rewrite Ht'].
  - apply Hr.
  - cbn. by rewrite Hput, app_nil_r.
  - done.
  - apply rank_proc, Hr.
Qed.

(** The same on the object of the connection. *)
Ltac proc_on_obj G Hp Ho tac :=
  eapply good_proc_step;
  [exact G|exact Hp|done..
  |cbn [proc_step select_step callback_step]; unfold mbind, M_bind;
   rewrite (at_pcb_at _ _ _ _ Ho); tac; reflexivity
  |apply lookup_insert_eq|done|done|done|done
  |intros; unfold ready, proc_weight; cbn; rewrite Hp].

(** The same on the rest of the state. *)
Ltac proc_elsewhere G Hp Ho tac :=
  eapply good_proc_step;
  [exact G|exact Hp|done..
  |cbn [proc_step select_step callback_step]; unfold mbind, M_bind; tac; reflexivity
  |exact Ho|done|done|done|done
  |intros; unfold ready, proc_weight; cbn; rewrite Hp].

(** C takes the data, and keeps no queue. *)
Lemma good_tcp_send x o c u data :
  good x o c u -> proc (sys_of x) = PTcpSend data -> advance x (rank (sys_of x) o c u).
Proof.
  intros G Hp. destruct (good_conc _ _ _ _ G) as (k & I & _).
  pose proof G as [_ Hu [Ho He Hc Hf Hl Ht] _]. pose proof (co_facts _ _ _ _ _ I) as Fa.
  pose proof (facts_one _ _ _ _ _ _ _ Fa He) as Hone. rewrite Hp in Fa.
  pose proof (fa_unqueued _ _ _ _ _ _ _ Fa eq_refl) as Hq.
  pose proof (fa_counted _ _ _ _ _ _ _ Fa eq_refl) as Hcd.
  eapply good_next; [exact G|by apply (next_tcp_send _ _ _ data false 0); rewrite ?Hq
    |by apply calls_same|done|by split|done..|].
  apply rank_proc. unfold proc_weight. cbn. rewrite Hp.
  destruct (c_buf (sendQueue (gst (sys_of x)))); [|cbn in Hone; lia].
  rewrite (proj2 (Z.ltb_lt _ _)) by lia. lia.
Qed.

(** The waiting [Write] is told. *)
Lemma good_post x o c u :
  good x o c u -> proc (sys_of x) = PDonePost -> advance x (rank (sys_of x) o c u).
Proof.
  intros G Hp. destruct (good_conc _ _ _ _ G) as (k & I & _).
  pose proof G as [_ Hu [Ho He Hc Hf Hl Ht] _]. pose proof (co_facts _ _ _ _ _ I) as Fa.
  pose proof (facts_one _ _ _ _ _ _ _ Fa He) as Hone.
  pose proof (fa_wait _ _ _ _ _ _ _ Fa) as Hw. destruct (co_wait _ _ _ _ _ I) as [Hk Hcap].
  rewrite Hp in Hone, Hw. rewrite He in Hw. cbn in Hone.
  assert (Hkc : c_closed k = false) by (destruct (c_closed k); [cbn in Hw; lia|done]).
  proc_on_obj G Hp Ho ltac:(unfold sendWait_send, on_sendWait;
    rewrite Hk, chan_send_run by (done || lia)).
  destruct (c_buf (sendQueue (gst (sys_of x)))) eqn:Hq; [|cbn in Hone; lia].
  split; [done|]. rewrite (proj2 (Z.ltb_ge _ _)) by lia.
  destruct (_ <=? _)%nat; lia.
Qed.

(** In a turn of the loop. *)
Lemma good_turn x o c u :
  good x o c u -> proc (sys_of x) <> PIdle -> advance x (rank (sys_of x) o c u).
Proof.
  intros G Hp. destruct (good_conc _ _ _ _ G) as (k & I & Hsz & _).
  pose proof G as [_ Hu [Ho He Hc Hf Hl Ht] Hr]. unfold ready in Hr.
  destruct (proc (sys_of x)) eqn:Hpc; try done; clear Hp.
  - (* PTake *)
    destruct (c_buf (sendQueue (gst (sys_of x)))) as [|[p' data] l] eqn:Hq; [done|].
    proc_elsewhere G Hpc Ho ltac:(unfold on_sendQueue, zoom, chan_recv; rewrite Hq).
    split; [done|lia].
  - proc_on_obj G Hpc Ho ltac:(cbn; rewrite He). split; [done|lia].
  - proc_on_obj G Hpc Ho ltac:(idtac). split; [done|lia].
  - by eapply good_tcp_send.
  - (* PTakeRecved *)
    destruct Hr as (Hq0 & Hsc & Hne). destruct Hsz as (_ & _ & Hlen).
    destruct (c_buf (recvedQueue (gst (sys_of x)))) as [|[p' n] l] eqn:Hq; [done|].
    proc_elsewhere G Hpc Ho ltac:(unfold on_recvedQueue, zoom, chan_recv; rewrite Hq).
    cbn in Hlen. split; [split_and!; [done..|lia]|lia].
  - (* PRecved *)
    destruct Hr as (Hq & Hsc & Hlen). proc_on_obj G Hpc Ho ltac:(idtac). rewrite Hq, Hsc.
    rewrite (proj2 (Nat.leb_gt _ _)) by done. split; [done|cbn; lia].
  - (* PDoneFind *)
    proc_elsewhere G Hpc Ho ltac:(cbn; rewrite decide_True by done). split; [done|lia].
  - proc_on_obj G Hpc Ho ltac:(cbn; rewrite He). split; [done|lia].
  - proc_on_obj G Hpc Ho ltac:(cbn; rewrite (proj2 (Z.gtb_lt _ _)) by lia).
    split; [done|lia].
  - proc_on_obj G Hpc Ho ltac:(idtac). split; [|lia].
    done.
  - by apply good_post.
Qed.

(** By induction on the rank. *)
Lemma good_completes r x o c u :
  (rank (sys_of x) o c u < r)%nat -> good x o c u ->
  exists x', rtc echo_next x x' /\ received (sys_of x') = received (sys_of x) /\
    lost (sys_of x') = lost (sys_of x) /\
    concat (sent x').*1 = concat (received (sys_of x)).
Proof.
  revert x o c u. induction r as [|r IH]; intros x o c u Hlt G; [lia|].
  assert ((c_buf c = [] /\ u_waits u = false /\ in_user u = []) \/
          advance x (rank (sys_of x) o c u)) as [(Hb & Hw & Hin)|Had].
  { destruct (proc (sys_of x)) eqn:Hp.
    1: by apply good_idle.
    all: right; apply good_turn; congruence. }
  - destruct (good_conc _ _ _ _ G) as (k & I & _). exists x. split_and!; [done..|].
    destruct G as [(o1 & c1 & k1 & u1 & rest & [I1 Hu1 Ht _ Hr _ _ _]) Hu [Ho He _ _ _ _] _].
    pose proof (co_obj _ _ _ _ _ I1) as Ho1. assert (o1 = o) as -> by congruence.
    assert (u1 = u) as -> by congruence.
    rewrite (co_fifo _ _ _ _ _ I), Hb, app_nil_r, Ht, (Hr He).
    by rewrite (not_waiting _ _ _ _ _ _ I Hu He Hw), Hin, app_nil_r.
  - destruct Had as (x1 & o1 & c1 & u1 & Hn & G1 & Hr1 & Hrc & Hlo).
    destruct (IH x1 o1 c1 u1 ltac:(lia) G1) as (x2 & Hs & Hrc2 & Hlo2 & Hst).
    exists x2. split_and!; [by eapply rtc_l|congruence..].
Qed.

(** C18: While C has had memory for all data that it was handed, the echo is never
    lost: from every state that can be reached so, between two turns of the
    processing loop, with the connection open on both sides and packets that fit
    into the buffer, the two goroutines and an lwIP that takes what it has queued
    and reports what was sent can bring it about that C has accepted exactly
    what was received, with no further packet and no other call.  (After data
    for which there was no memory a [Write] may wait for a report that never
    comes.) *)
Theorem go_echo_completes x o c :
  echo_reachable p e x -> lost (sys_of x) = [] -> proc (sys_of x) = PIdle ->
  pcbs (gst (sys_of x)) !! p = Some o -> p_err o = false -> live (sys_of x) = true ->
  tcpPcbs (gst (sys_of x)) !! e = Some p ->
  bchans (gst (sys_of x)) !! recvQueued o = Some c ->
  Forall (fun b => length b <= copy_buffer)%nat (c_buf c) ->
  exists x', rtc echo_next x x' /\ received (sys_of x') = received (sys_of x) /\
    lost (sys_of x') = [] /\ concat (accepted x') = concat (received (sys_of x)).
Proof.
  intros Hx%echo_reachable_inv Hlo Hp Ho He Hl Ht Hc Hf.
  pose proof Hx as (o1 & c1 & k & u & rest & [_ Hu _ _ _ _ _ _]).
  assert (Hg : good x o c u) by (split; [done|done|by split|]; unfold ready; by rewrite Hp).
  destruct (good_completes _ x o c u (Nat.lt_succ_diag_r _) Hg) as (x' & Hr & Hrc & Hlo' & Hs).
  rewrite Hlo in Hlo'. exists x'. split_and!; try done.
  assert (echo_inv p x') as (o2 & c2 & k2 & u2 & rest2 & Ok).
  { eapply (rtc_invariant echo_next (echo_inv p)); [|exact Hr|done].
    intros. by eapply echo_next_inv. }
  by rewrite (accepted_all _ _ _ _ _ _ _ Ok Hlo').
Qed.

End echo_runs.

(** ** Runs *)

Definition echo0 : echo := Echo (conn0 1) [].

Lemma echo0_init : echo_init 1 1 echo0.
Proof. split_and!; [apply conn0_init|done..]. Qed.

(** A packet comes in; the goroutine reads it and writes it; the processing loop
    gives it to C. *)
Definition packet_in (data : bytes) : list move :=
  [MEvent (PRecvFind data); MProc; MProc; MProc].
Definition read_packet : list move := [MCall; MUser; MUser; MUser; MUser].
Definition write_packet (q : bool) : list move :=
  [MCall; MUser; MUser; MUser; MEvent PTake; MProc; MProc; MProc; MSend q].
(** C says that the data are sent. *)
Definition write_done : list move :=
  [MEvent PDoneFind; MProc; MProc; MProc; MProc; MProc; MUser; MUser; MUser].

(** A byte has been received and given to C, which has queued it. *)
Definition one_byte : echo :=
  default echo0 (echo_run 1 1 (packet_in [1] ++ read_packet ++ write_packet true) echo0).

Lemma one_byte_reached : rtc (echo_next 1 1) echo0 one_byte.
Proof.
  apply (echo_run_sound _ _ (packet_in [1] ++ read_packet ++ write_packet true)).
  vm_compute. reflexivity.
Qed.

Lemma one_byte_stalled : stalled 1 1 one_byte PIdle 0.
Proof. do 4 (split; [vm_compute; reflexivity|]). do 3 eexists. repeat split. Qed.

Lemma echo0_reachable ms x :
  echo_run 1 1 ms echo0 = Some x -> echo_reachable 1 1 x.
Proof. intros Hr. exists echo0. split; [apply echo0_init|by eapply echo_run_sound]. Qed.

(** C33: A peer that does not acknowledge and goes on sending stops the whole
    stack: while the echo waits in [Write] for its data to be sent, 1024 packets
    fill the queue of the connection, and with the next one the processing
    goroutine waits for the application to [Read], which waits for the
    processing goroutine.  The state can be reached, nobody has closed anything,
    and no step is possible any more. *)
Theorem go_echo_deadlock :
  exists x o c, echo_reachable 1 1 x /\ users (sys_of x) = [WWait [1]] /\
    proc (sys_of x) = PRecvPut [1] /\ pcbs (gst (sys_of x)) !! 1%positive = Some o /\
    p_err o = false /\ bchans (gst (sys_of x)) !! recvQueued o = Some c /\
    length (c_buf c) = QUEUE /\ forall x', ~ echo_next 1 1 x x'.
Proof.
  destruct (stalled_fill 1 1 one_byte 0 QUEUE ltac:(lia) one_byte_stalled) as (x1 & H1 & S1).
  destruct (stalled_packet 1 1 _ _ S1) as (x2 & H2 & S2).
  pose proof S2 as (Hu & Hp & _ & _ & o & c & k & Ho & He & _ & _ & _ & Hc & _ & _ & Hl).
  exists x2, o, c. split_and!; try done.
  - exists echo0. split; [apply echo0_init|].
    etransitivity; [apply one_byte_reached|]. by etransitivity.
  - intros x'. by apply stalled_full.
Qed.

(** ** Witnesses *)

(** Two packets: the first one has been echoed, the second one is read. *)
Definition two_packets : list move :=
  packet_in [1; 2] ++ read_packet ++ packet_in [3] ++ write_packet true ++
  [MSent] ++ write_done ++ read_packet.

Definition echoing : echo := default echo0 (echo_run 1 1 two_packets echo0).

Lemma echoing_reachable : echo_reachable 1 1 echoing.
Proof. apply (echo0_reachable two_packets). vm_compute. reflexivity. Qed.

Lemma go_echo_stream_witness :
  sent echoing = [([1; 2], 0)] /\ concat (accepted echoing) `prefix_of` [1; 2; 3].
Proof.
  split; [vm_compute; reflexivity|].
  destruct (go_echo_stream 1 1 echoing echoing_reachable)
    as (o & c & u & _ & _ & _ & _ & _ & _ & H & _).
  apply H. vm_compute. reflexivity.
Defined.

Lemma go_echo_completes_witness :
  exists x, rtc (echo_next 1 1) echoing x /\ concat (accepted x) = [1; 2; 3].
Proof.
  destruct (go_echo_completes 1 1 echoing
    (default (Pcb TCP None 1 None (IPv4 0) 0 (IPv4 0) 0 true false 1 None 0 false)
       (pcbs (gst (sys_of echoing)) !! 1%positive))
    (default (make_chan 0) (bchans (gst (sys_of echoing)) !! 1%positive)))
    as (x & Hx & _ & _ & Hs).
  - exact echoing_reachable.
  - vm_compute. reflexivity.
  - vm_compute. reflexivity.
  - vm_compute. reflexivity.
  - vm_compute. reflexivity.
  - vm_compute. reflexivity.
  - vm_compute. reflexivity.
  - vm_compute. reflexivity.
  - apply Forall_nil_2.
  - exists x. split; [exact Hx|]. rewrite Hs. vm_compute. reflexivity.
Defined.
