(* ===== verification/Csocks.v ===== *)
(** * The routing of the SOCKS client in Go (src/csocks/csocks.go)

    The handler that the client gives to the binding: connections are sent to
    the proxy or straight on by scheme, port and address; name queries go to one
    connection for each target, and the addresses in their answers are recorded
    for the routing.  Modelled: every type and method of the file, over the
    methods of [GoBind].  Parameters: the two processors of the package core,
    which do the transport, the parser of DNS messages, and of Go's library the
    text of addresses, [url.Parse], the order in which [range] visits a map and
    [regexp.Compile], whose documented behaviour the theorems state as
    hypotheses.  Proved: which names [Find] finds, where a connection goes, what
    a turn of the DNS goroutine does on every branch, and where connections go
    after any history of answers that were written and of [Clear]s. *)

From S2P Require Import Prelude Lwip GoChan GoBind GoApp.
From stdpp Require Import strings pretty.
From Stdlib Require Import Ascii.
Local Open Scope string_scope.

#[local] Arguments String.append !_ _ / : simpl nomatch.

(** ** Strings *)

(** The text up to and with the first dot, and the rest. *)
Fixpoint cut_after (s : string) : option (string * string) :=
  match s with
  | EmptyString => None
  | String a s =>
      if decide (a = "."%char) then Some (String a "", s)
      else '(l, r) ← cut_after s; Some (String a l, r)
  end.

(** [strings.SplitAfterN(s, ".", n)] for a positive [n], as [n - 1] cuts. *)
Fixpoint split_after (cuts : nat) (s : string) : list string :=
  match cuts with
  | O => [s]
  | S cuts => match cut_after s with
              | None => [s]
              | Some (l, r) => l :: split_after cuts r
              end
  end.
Definition SplitAfterN (s : string) (n : nat) : list string := split_after (n - 1) s.

Fixpoint trim_left (s : string) : string :=
  match s with
  | String a s' => if decide (a = "."%char) then trim_left s' else s
  | EmptyString => EmptyString
  end.
Fixpoint trim_right (s : string) : string :=
  match s with
  | EmptyString => EmptyString
  | String a s =>
      let t := trim_right s in
      if decide (a = "."%char /\ t = "") then "" else String a t
  end.
(** [strings.Trim(s, ".")]. *)
Definition Trim (s : string) : string := trim_right (trim_left s).

(** ** Third-party data *)

(** The fields of [url.URL] that are used. *)
Record URL : Type := Url {
  Scheme : string;
  Host : string;
  Hostname : string;
  Port : string
}.

(** The fields of [dns.Msg] that are used: the names that are asked for, and
    the answers, the addresses among them with their name. *)
Inductive RR : Type :=
| RR_A (name : string) (ip : bytes)
| RR_other.
Record Msg : Type := DnsMsg {
  Question : list string;
  Answer : list RR
}.

(** ** Connections

    An [io.ReadWriteCloser] of this program: a connection of the binding, a
    [DNSConn] at an address with its target, or a [DNSRecordConn]. *)
Inductive conn : Type :=
| CPcb (p : ptr)
| CDns (d : ptr) (base : conn) (target : string)
| CRecord (r : ptr) (base : conn).

(** What [%p] prints. *)
Definition address (c : conn) : bool * ptr :=
  match c with
  | CPcb p => (false, p)
  | CDns d _ _ => (true, d)
  | CRecord r _ => (true, r)
  end.

(** The members of the two kinds of objects that change. *)
Inductive object : Type :=
| DNSConn (readQueued : chan bytes) (closed : bool)
| DNSRecordConn.

(** The state: that of the binding, the objects, and the maps of [DNSGFW],
    [DNSProcessor] (with its goroutines) and [DNSRecordProcessor]. *)
Record socks : Type := Socks {
  binding : go_state;
  objects : gmap ptr object;
  gfw : gmap string string;
  dns_conns : gmap (bool * ptr * string) conn;
  dns_procs : list conn;
  allIP : gmap string string
}.

Definition set_binding x s :=
  Socks x (objects s) (gfw s) (dns_conns s) (dns_procs s) (allIP s).
Definition set_objects x s :=
  Socks (binding s) x (gfw s) (dns_conns s) (dns_procs s) (allIP s).
Definition set_gfw x s :=
  Socks (binding s) (objects s) x (dns_conns s) (dns_procs s) (allIP s).
Definition set_dns_conns x s :=
  Socks (binding s) (objects s) (gfw s) x (dns_procs s) (allIP s).
Definition set_dns_procs x s :=
  Socks (binding s) (objects s) (gfw s) (dns_conns s) x (allIP s).
Definition set_allIP x s :=
  Socks (binding s) (objects s) (gfw s) (dns_conns s) (dns_procs s) x.

Abbreviation K := (M socks).

(** [NewDNSGFW]. *)
Definition gfw0 : gmap string string := {["*" := "dns://local"]}.
Definition socks0 (g : go_state) : socks := Socks g ∅ gfw0 ∅ [] ∅.

Definition new_object (o : object) : K ptr :=
  s ← gets id;
  let d := fresh (dom (objects s)) in
  modify (set_objects (<[d := o]> (objects s)));; mret d.

(** A step on a [DNSConn]. *)
Definition at_dns {X} (d : ptr) (m : M (chan bytes * bool) X) : K X :=
  zoom objects set_objects (at_key Panicked d (fun o =>
    match o with
    | DNSConn q c =>
        match m (q, c) with
        | Ok (x, (q, c)) => Ok (x, DNSConn q c)
        | Fault f => Fault f
        end
    | DNSRecordConn => Fault Panicked
    end)).
Definition at_readQueued {X} (d : ptr) (m : M (chan bytes) X) : K X :=
  at_dns d (zoom fst (fun q s => (q, s.2)) m).

(** A [core.Processor]: [ProcConn] of it; the result is whether there is an
    error. *)
Abbreviation Processor := (conn -> string -> K bool).

Section csocks.
(** The two processors that [NewLwipHandler] gets. *)
Context (proxy direct : Processor).
(** [dns.Msg.Unpack], [net.IP.String] and [net.Addr.String], [url.Parse], the
    order of [range], and [regexp.Compile] with [MatchString]. *)
Context (Unpack : bytes -> option Msg).
Context (IP_String : bytes -> string) (Addr_String : bytes -> Z -> string).
Context (Parse : string -> option URL).
Context (range : gmap string string -> list (string * string)).
Context (Compile : string -> option (string -> bool)).

(** ** [DNSGFW] *)

Definition GFW_Add (list target : string) : K unit :=
  modify (fun s => set_gfw (<[list := target]> (gfw s)) s).

Definition pattern (a b : string) : string := "[\|\.]*" ++ a ++ "\." ++ b ++ "$".

(** What a map gives for a key that is missing. *)
Definition at_map (m : gmap string string) (k : string) : string := default "" (m !! k).

(** [Find]; [None] is the panic of [MustCompile]. *)
Definition Find (list : gmap string string) (domain : string) : option string :=
  match SplitAfterN domain 3 with
  | [] | [_] => Some (at_map list "*")
  | p0 :: p1 :: rest =>
      let '(a, b) := match rest with [p2] => (p1, p2) | _ => (p0, p1) end in
      match Compile (pattern (Trim a) (Trim b)) with
      | None => None
      | Some matches =>
          match List.find (fun kv => matches kv.1) (range list) with
          | Some (_, val) => Some val
          | None => Some (at_map list "*")
          end
      end
  end.

(** ** [DNSRecordProcessor] *)

Definition Record_ (key val : string) : K unit :=
  modify (fun s => set_allIP (<[key := val]> (allIP s)) s).
Definition IsRecorded (key : string) : K bool :=
  gets (fun s => bool_decide (is_Some (allIP s !! key))).
Definition Clear : K unit := modify (set_allIP ∅).

(** [NewDNSRecordConn] and the [ProcConn] of the processor before [next]. *)
Definition NewDNSRecordConn (base : conn) : K conn :=
  r ← new_object DNSRecordConn; mret (CRecord r base).
Definition DNSRecord_ProcConn (next : Processor) : Processor := fun r target =>
  c ← NewDNSRecordConn r; next c target.

(** The loop over the answers. *)
Fixpoint record_answers (l : list RR) : K unit :=
  match l with
  | [] => mret tt
  | RR_A name ip :: l => Record_ (IP_String ip) name;; record_answers l
  | RR_other :: l => record_answers l
  end.
Definition record_msg (b : bytes) : K unit :=
  match Unpack b with
  | Some msg => record_answers (Answer msg)
  | None => mret tt
  end.

(** ** [DNSConn] and the methods of connections *)

Definition NewDNSConn (base : conn) (target : string) : K conn :=
  d ← new_object (DNSConn (make_chan QUEUE) false); mret (CDns d base target).

(** [DNSConn.Read] into a buffer of [n] bytes. *)
Definition DNSConn_Read (d : ptr) (n : nat) : K (bytes * bool) :=
  data ← at_readQueued d chan_recv;
  match data with
  | None => mret ([], true)
  | Some data =>
      if decide (n < length data)%nat then mret ([], true) else mret (data, false)
  end.

(** [DNSConn.Close], with [close] of the processor. *)
Definition DNSConn_Close (d : ptr) (key : bool * ptr * string) : K bool :=
  closed ← at_dns d (gets snd);
  if closed : bool then mret true
  else
    at_dns d (modify (fun s => (s.1, true)));;
    at_readQueued d chan_close;;
    modify (fun s => set_dns_conns (delete key (dns_conns s)) s);;
    mret false.

Fixpoint conn_Read (c : conn) (n : nat) : K (bytes * bool) :=
  match c with
  | CPcb p => zoom binding set_binding (Read p n)
  | CDns d _ _ => DNSConn_Read d n
  | CRecord _ base => conn_Read base n
  end.
Fixpoint conn_Write (c : conn) (b : bytes) : K (Z * bool) :=
  match c with
  | CPcb p => zoom binding set_binding (Write p b)
  | CDns _ base _ => conn_Write base b
  | CRecord _ base => record_msg b;; conn_Write base b
  end.
Fixpoint conn_Close (c : conn) : K bool :=
  match c with
  | CPcb p => zoom binding set_binding (Close p)
  | CDns d base target => DNSConn_Close d (address base, target)
  | CRecord _ base => conn_Close base
  end.

(** ** [PACProcessor] *)

Definition PAC_ProcConn : Processor := fun r target =>
  match Parse target with
  | None => mret true
  | Some u =>
      recorded ← IsRecorded (Hostname u);
      if bool_decide (Host u = "proxy") || recorded then proxy r target else direct r target
  end.

(** ** [DNSProcessor] *)

(** [ProcConn] starts a goroutine that runs [proc]. *)
Definition DNS_ProcConn : Processor := fun r target =>
  modify (fun s => set_dns_procs (dns_procs s ++ [r]) s);; mret false.

(** A turn of the loop of [proc], with the data that were read; the result is
    whether the loop goes on. *)
Definition dns_turn (next : Processor) (r : conn) (data : bytes) : K bool :=
  match Unpack data with
  | None => mret false
  | Some msg =>
      match Question msg with
      | [] => stop Panicked
      | name :: _ =>
          s ← gets id;
          match Find (gfw s) name with
          | None => stop Panicked
          | Some target =>
              let key := (address r, target) in
              match dns_conns s !! key with
              | Some c => at_readQueued (address c).2 (chan_send data);; mret true
              | None =>
                  c ← NewDNSConn r target;
                  err ← next c target;
                  if err : bool then mret true
                  else
                    modify (fun s => set_dns_conns (<[key := c]> (dns_conns s)) s);;
                    at_readQueued (address c).2 (chan_send data);; mret true
              end
          end
      end
  end.

(** [n] turns of [proc]. *)
Fixpoint dns_proc (next : Processor) (n : nat) (r : conn) : K unit :=
  match n with
  | O => mret tt
  | S n =>
      '(data, err) ← conn_Read r 4096;
      if err : bool then mret tt
      else
        more ← dns_turn next r data;
        if more : bool then dns_proc next n r else mret tt
  end.

(** ** [PortDistProcessor] and [SchemeDistProcessor] *)

(** [Add] of both. *)
Definition Dist_Add (k : string) (h : Processor) (handlers : gmap string Processor) :
    gmap string Processor := <[k := h]> handlers.

Definition PortDist_ProcConn (handlers : gmap string Processor) : Processor :=
  fun raw target =>
    match Parse target with
    | None => mret true
    | Some u =>
        match handlers !! Port u with
        | Some h => h raw target
        | None => match handlers !! "*" with
                  | Some h => h raw target
                  | None => mret true
                  end
        end
    end.

Definition SchemeDist_ProcConn (handlers : gmap string Processor) : Processor :=
  fun raw target =>
    match Parse target with
    | None => mret true
    | Some u =>
        match handlers !! Scheme u with
        | Some h => h raw target
        | None => mret true
        end
    end.

(** ** [LwipHandler] *)

(** What [NewLwipHandler] puts together: the processor of the handler, and the
    one that the DNS goroutines hand their connections to. *)
Definition record_next : Processor := DNSRecord_ProcConn PAC_ProcConn.
Definition port_next : Processor :=
  PortDist_ProcConn (Dist_Add "*" PAC_ProcConn (Dist_Add "53" DNS_ProcConn ∅)).
Definition handler_next : Processor :=
  SchemeDist_ProcConn (Dist_Add "udp" port_next (Dist_Add "tcp" PAC_ProcConn ∅)).

(** The constants [TCP] and [UDP]. *)
Definition type_text (t : pcb_type) : string :=
  match t with TCP => "tcp" | UDP => "udp" end.

(** [OnAccept] of a connection with this type and this [LocalAddr]; the result of
    [ProcConn] is only logged.  [OnClose] does nothing but log. *)
Definition Lwip_OnAccept (p : ptr) (t : pcb_type) (ip : bytes) (port : Z) : K unit :=
  _ ← handler_next (CPcb p) (type_text t ++ "://" ++ Addr_String ip port); mret tt.
Definition Lwip_OnClose (p : ptr) : K unit := mret tt.

(** ** Names *)

(** What is documented of [regexp]: in a pattern of such characters each stands
    for itself, but the dot, which stands for any character but a line feed. *)
Definition literal (a : ascii) : bool :=
  let n := N_of_ascii a in
  ((48 <=? n) && (n <=? 57) || (65 <=? n) && (n <=? 90) || (97 <=? n) && (n <=? 122) ||
   (n =? 45) || (n =? 95))%N.
Definition simple (a : ascii) : bool := literal a || bool_decide (a = "."%char).

(** Whether [s] matches the text [p] of simple characters. *)
Fixpoint match_text (p s : string) : bool :=
  match p, s with
  | EmptyString, EmptyString => true
  | String a p, String b s =>
      (if decide (a = "."%char) then bool_decide (b <> "010"%char) else bool_decide (a = b))
      && match_text p s
  | _, _ => false
  end.
(** Whether an end of [s] is [a], a dot and [b]. *)
Fixpoint match_two (a b s : string) : bool :=
  match a, s with
  | EmptyString, String d s => bool_decide (d = "."%char) && match_text b s
  | String x a, String y s =>
      (if decide (x = "."%char) then bool_decide (y <> "010"%char) else bool_decide (x = y))
      && match_two a b s
  | _, _ => false
  end.
Fixpoint match_end (a b s : string) : bool :=
  match_two a b s || match s with EmptyString => false | String _ s => match_end a b s end.

Fixpoint all_chars (f : ascii -> bool) (s : string) : bool :=
  match s with EmptyString => true | String a s => f a && all_chars f s end.

(** A part of a name. *)
Definition label (s : string) : Prop := all_chars literal s = true /\ s <> "".

Lemma literal_not_dot a : literal a = true -> a <> "."%char.
Proof. by intros H ->. Qed.

Lemma all_chars_app f s t : all_chars f (s ++ t) = all_chars f s && all_chars f t.
Proof. induction s as [|a s IH]; cbn; [done|]. by rewrite IH, andb_assoc. Qed.

Lemma all_chars_mono (f g : ascii -> bool) s :
  (forall a, f a = true -> g a = true) -> all_chars f s = true -> all_chars g s = true.
Proof.
  intros Hfg. induction s as [|a s IH]; cbn; [done|].
  intros [Ha Hs]%andb_true_iff. by rewrite Hfg, IH.
Qed.

Lemma label_simple s : all_chars literal s = true -> all_chars simple s = true.
Proof. apply all_chars_mono. intros a Ha. unfold simple. by rewrite Ha. Qed.

Lemma app_assoc_s (s t u : string) : (s ++ t) ++ u = s ++ t ++ u.
Proof. induction s as [|a s IH]; cbn; [done|]. by rewrite IH. Qed.
Lemma app_nil_s (s : string) : s ++ "" = s.
Proof. induction s as [|a s IH]; cbn; [done|]. by rewrite IH. Qed.

Lemma cut_after_dot s t :
  all_chars literal s = true -> cut_after (s ++ "." ++ t) = Some (s ++ ".", t).
Proof.
  induction s as [|a s IH]; cbn; [done|]. intros [Ha Hs]%andb_true_iff.
  rewrite decide_False by by apply literal_not_dot. cbn in IH. by rewrite IH.
Qed.

Lemma trim_left_label s t : label s -> trim_left (s ++ t) = s ++ t.
Proof.
  intros [Hs Hn]. destruct s as [|a s]; [done|]. cbn in *.
  apply andb_true_iff in Hs as [Ha _]. by rewrite decide_False by by apply literal_not_dot.
Qed.

Lemma trim_right_dot s : trim_right (s ++ ".") = trim_right s.
Proof. induction s as [|a s IH]; cbn; [done|]. by rewrite IH. Qed.

Lemma trim_right_label s t : label t -> trim_right (s ++ t) = s ++ t.
Proof.
  intros [Ht Hn].
  assert (Hr : trim_right t = t).
  { clear Hn. induction t as [|a t IH]; [done|]. cbn in *.
    apply andb_true_iff in Ht as [Ha Ht]. rewrite IH by done.
    rewrite decide_False; [done|]. intros [? _]. by apply (literal_not_dot a). }
  induction s as [|a s IH]; cbn; [done|]. rewrite IH, decide_False; [done|].
  intros [_ He]. destruct s; [by cbn in He|done].
Qed.

Lemma Trim_label s : label s -> Trim s = s /\ Trim (s ++ ".") = s.
Proof.
  intros Hs. unfold Trim. rewrite (trim_left_label s ".") by done.
  rewrite <- (app_nil_s s) at 1. rewrite trim_left_label, trim_right_dot by done.
  rewrite app_nil_s. by pose proof (trim_right_label "" s Hs).
Qed.

Lemma Trim_two s t : label s -> label t -> Trim (s ++ "." ++ t ++ ".") = s ++ "." ++ t.
Proof.
  intros Hs Ht. unfold Trim. rewrite trim_left_label by done.
  replace (s ++ "." ++ t ++ ".") with ((s ++ "." ++ t) ++ ".") by by rewrite !app_assoc_s.
  rewrite trim_right_dot.
  replace (s ++ "." ++ t) with ((s ++ ".") ++ t) by by rewrite !app_assoc_s.
  by apply trim_right_label.
Qed.

Definition ends_with (t s : string) : Prop := exists pre, s = pre ++ t.

Lemma match_text_literal p s :
  all_chars literal p = true -> match_text p s = true <-> s = p.
Proof.
  revert s. induction p as [|a p IH]; intros [|b s] Hp; cbn in *; try done.
  apply andb_true_iff in Hp as [Ha Hp].
  rewrite decide_False by by apply literal_not_dot.
  rewrite andb_true_iff, bool_decide_eq_true, IH by done. split; [by intros [-> ->]|].
  by intros [= -> ->].
Qed.

Lemma match_two_literal a b s :
  all_chars literal a = true -> all_chars literal b = true ->
  match_two a b s = true <-> s = a ++ "." ++ b.
Proof.
  intros Ha Hb. revert s. induction a as [|x a IH]; intros [|y s]; cbn in *; try done.
  - rewrite andb_true_iff, bool_decide_eq_true, match_text_literal by done.
    split; [by intros [-> ->]|]. by intros [= -> ->].
  - apply andb_true_iff in Ha as [Hx Ha].
    rewrite decide_False by by apply literal_not_dot.
    rewrite andb_true_iff, bool_decide_eq_true, IH by done.
    split; [by intros [-> ->]|]. by intros [= -> ->].
Qed.

Lemma match_end_ends a b s :
  match_end a b s = true <-> exists pre s', s = pre ++ s' /\ match_two a b s' = true.
Proof.
  induction s as [|x s IH]; cbn; rewrite orb_true_iff.
  - split.
    + intros [H|H]; [|done]. by exists "", "".
    + intros (pre & s' & He & H). left. by destruct pre, s'.
  - rewrite IH. split.
    + intros [H|(pre & s' & -> & H)]; [by exists "", (String x s)|].
      by exists (String x pre), s'.
    + intros ([|y pre] & s' & He & H); cbn in He.
      * left. by rewrite He.
      * right. injection He as -> ->. by exists pre, s'.
Qed.

Lemma match_end_literal a b s :
  all_chars literal a = true -> all_chars literal b = true ->
  match_end a b s = true <-> ends_with (a ++ "." ++ b) s.
Proof.
  intros Ha Hb. rewrite match_end_ends. split.
  - intros (pre & s' & -> & Hm%match_two_literal); [|done..]. subst. by exists pre.
  - intros [pre ->]. exists pre, (a ++ "." ++ b). by rewrite match_two_literal.
Qed.

Section names.
(** The patterns of [Find] compile and match what they say. *)
Context (HCompile : forall a b, all_chars simple a = true -> all_chars simple b = true ->
  exists f, Compile (pattern a b) = Some f /\ forall key, f key = match_end a b key).

(** [range] visits every entry once. *)
Context (Hrange : forall m, range m ≡ₚ map_to_list m).

Lemma find_range (m : gmap string string) (f : string -> bool) t dflt :
  ((exists k, m !! k = Some t /\ f k = true) /\
     (forall k v, m !! k = Some v -> f k = true -> v = t)) \/
  (t = dflt /\ forall k v, m !! k = Some v -> f k = false) ->
  match List.find (fun kv : string * string => f kv.1) (range m) with
  | Some (_, v) => v
  | None => dflt
  end = t.
Proof.
  intros Hm. assert (Hin : forall k v, In (k, v) (range m) <-> m !! k = Some v).
  { intros k v. rewrite <- list_elem_of_In, Hrange. apply elem_of_map_to_list. }
  destruct (List.find _ _) as [[k v]|] eqn:Hf.
  - apply find_some in Hf as [Hk Hfk]. apply Hin in Hk. cbn in Hfk.
    destruct Hm as [[_ H]|[_ H]]; [by eapply H|]. by rewrite (H _ _ Hk) in Hfk.
  - destruct Hm as [[(k & Hk & Hfk) _]|[-> _]]; [|done].
    apply Hin in Hk. pose proof (find_none _ _ Hf _ Hk) as Hn. cbn in Hn. congruence.
Qed.

(** [Find] of a name of at least two parts. *)
Lemma Find_run list domain p0 p1 rest a b t :
  SplitAfterN domain 3 = p0 :: p1 :: rest ->
  (Trim (match rest with [p2] => p1 | _ => p0 end),
   Trim (match rest with [p2] => p2 | _ => p1 end)) = (a, b) ->
  all_chars simple a = true -> all_chars simple b = true ->
  ((exists k, list !! k = Some t /\ match_end a b k = true) /\
     (forall k v, list !! k = Some v -> match_end a b k = true -> v = t)) \/
  (t = at_map list "*" /\ forall k v, list !! k = Some v -> match_end a b k = false) ->
  Find list domain = Some t.
Proof.
  intros Hs [= Ha Hb] Hsa Hsb Hm. unfold Find. rewrite Hs.
  destruct (HCompile a b Hsa Hsb) as (f & Hf & Hfe).
  pose proof (find_range list f t (at_map list "*")) as Hr.
  assert (Hgo : match Compile (pattern a b) with
    | Some matches =>
        match List.find (fun kv : string * string => matches kv.1) (range list) with
        | Some (_, val) => Some val
        | None => Some (at_map list "*")
        end
    | None => None
    end = Some t).
  { rewrite Hf. rewrite <- Hr at 1.
    - by destruct (List.find _ _) as [[? ?]|].
    - destruct Hm as [[(k & Hk & Hm1) Hm2]|[Ht Hm]].
      + left. split; [by exists k; rewrite Hfe|]. intros k' v. rewrite Hfe. by apply Hm2.
      + right. split; [done|]. intros k v. rewrite Hfe. by apply Hm. }
  destruct rest as [|p2 [|p3 rest]]; by rewrite Ha, Hb.
Qed.

(** Which names the list of [DNSGFW] finds, as DNS asks for them, with a dot
    at the end.  A host right below a listed domain is found: the target is that
    of the entries whose key ends with the domain.  The domain itself is not, as
    the pattern then starts at its last part: whatever the list says of it, the
    name gets the default.  Nor is a name with more parts: the pattern then
    wants a key that ends with three of them. *)
Theorem Find_levels list x a b c t :
  label x -> label a -> label b -> label c ->
  ((exists k, list !! k = Some t /\ ends_with (b ++ "." ++ c) k) ->
   (forall k v, list !! k = Some v -> ends_with (b ++ "." ++ c) k -> v = t) ->
   Find list (a ++ "." ++ b ++ "." ++ c ++ ".") = Some t) /\
  ((forall k v, list !! k = Some v -> ~ ends_with "." k) ->
   Find list (b ++ "." ++ c ++ ".") = Some (at_map list "*")) /\
  ((forall k v, list !! k = Some v -> match_end a (b ++ "." ++ c) k = false) ->
   Find list (x ++ "." ++ a ++ "." ++ b ++ "." ++ c ++ ".") = Some (at_map list "*")).
Proof.
  intros Hx Ha Hb Hc. pose proof Hx as [Lx _]. pose proof Ha as [La _].
  pose proof Hb as [Lb _]. pose proof Hc as [Lc _].
  assert (Hsplit : forall u v r, all_chars literal u = true -> all_chars literal v = true ->
    SplitAfterN (u ++ "." ++ v ++ "." ++ r) 3 = [u ++ "."; v ++ "."; r]).
  { intros u v r Hu Hv. unfold SplitAfterN. cbn [Nat.sub split_after].
    by rewrite !cut_after_dot. }
  split_and!.
  - intros (k & Hk & He) Hall. eapply (Find_run _ _ _ _ _ b c); [by apply Hsplit| | | |].
    + cbv beta iota. by rewrite (proj2 (Trim_label b Hb)), (proj2 (Trim_label c Hc)).
    + by apply label_simple.
    + by apply label_simple.
    + left. split; [exists k; by rewrite match_end_literal|].
      intros k' v Hk'. rewrite match_end_literal by done. by apply Hall.
  - intros Hall. eapply (Find_run _ _ _ _ _ c ""); [| | | |].
    + by apply (Hsplit b c "").
    + cbv beta iota. by rewrite (proj2 (Trim_label c Hc)).
    + by apply label_simple.
    + done.
    + right. split; [done|]. intros k v Hk. apply not_true_iff_false.
      rewrite match_end_literal by done. intros [pre ->].
      eapply Hall; [exact Hk|]. exists (pre ++ c). by rewrite app_assoc_s.
  - intros Hall. eapply (Find_run _ _ _ _ _ a (b ++ "." ++ c)); [by apply Hsplit| | | |].
    + cbv beta iota. by rewrite (proj2 (Trim_label a Ha)), Trim_two.
    + by apply label_simple.
    + by rewrite !all_chars_app, (label_simple b Lb), (label_simple c Lc).
    + by right.
Qed.

End names.

(** ** Routes *)

Section routes.

(** What is documented of the text of addresses and of [url.Parse], for the
    addresses and ports that there are. *)
Definition port_number (port : Z) : Prop := (0 <= port < 2 ^ 16)%Z.
Definition ip_length (ip : bytes) : Prop := length ip = 4%nat \/ length ip = 16%nat.
Context (HParse : forall t ip port, ip_length ip -> port_number port ->
  Parse (type_text t ++ "://" ++ Addr_String ip port) =
    Some (Url (type_text t) (Addr_String ip port) (IP_String ip) (pretty port)) /\
  Addr_String ip port <> "proxy").

(** The processor of an address. *)
Definition chosen (s : socks) (ip : bytes) : Processor :=
  if decide (is_Some (allIP s !! IP_String ip)) then proxy else direct.

Lemma PAC_run t ip port c s :
  ip_length ip -> port_number port ->
  let target := type_text t ++ "://" ++ Addr_String ip port in
  PAC_ProcConn c target s = chosen s ip c target s.
Proof.
  intros Hip Hport target. destruct (HParse t ip port Hip Hport) as [Hp Hne].
  unfold PAC_ProcConn, chosen, target. rewrite Hp. cbn [Hostname Host].
  unfold mbind, M_bind, IsRecorded, gets. rewrite (bool_decide_eq_false_2 _ Hne).
  cbn [orb]. by repeat case_decide || case_bool_decide.
Qed.

Lemma pretty_53 port : pretty port = "53" <-> port = 53%Z.
Proof. split; [|by intros ->]. intros H. by apply (inj pretty). Qed.

(** Where a connection goes. *)
Lemma OnAccept_run p t ip port s :
  ip_length ip -> port_number port ->
  let target := type_text t ++ "://" ++ Addr_String ip port in
  Lwip_OnAccept p t ip port s =
    if decide (t = UDP /\ port = 53%Z)
    then Ok (tt, set_dns_procs (dns_procs s ++ [CPcb p]) s)
    else (_ ← chosen s ip (CPcb p) target; mret tt) s.
Proof.
  intros Hip Hport target. pose proof (PAC_run t ip port (CPcb p) s Hip Hport) as Hpac.
  destruct (HParse t ip port Hip Hport) as [Hp _]. fold target in Hpac, Hp.
  unfold Lwip_OnAccept, handler_next, SchemeDist_ProcConn. fold target.
  unfold mbind, M_bind. rewrite Hp. cbn [Scheme]. clearbody target.
  destruct t; cbn [type_text].
  - rewrite decide_False by by intros [? ?]. unfold Dist_Add.
    rewrite lookup_insert_ne, lookup_insert_eq by done. by rewrite Hpac.
  - unfold Dist_Add at 1. rewrite lookup_insert_eq.
    unfold port_next, PortDist_ProcConn. rewrite Hp. cbn [Port]. unfold Dist_Add. destruct (decide (port = 53%Z)) as [->|Hne].
    + rewrite lookup_insert_ne, lookup_insert_eq by done. by rewrite decide_True.
    + rewrite decide_False by by intros [? ?]. destruct (decide (pretty port = "*")) as [->|Hs].
      { rewrite lookup_insert_eq. by rewrite Hpac. }
      rewrite lookup_insert_ne, lookup_insert_ne, lookup_empty, lookup_insert_eq
        by (try done; by intros H%eq_sym%pretty_53).
      by rewrite Hpac.
Qed.

(** ** Answers *)

(** The addresses, as text, in the answers of a message, and those that a [Write]
    to a connection records: one for each recorder that it passes. *)
Definition answer_ip (a : RR) : option string :=
  match a with RR_A _ ip => Some (IP_String ip) | RR_other => None end.
Definition msg_ips (b : bytes) : list string :=
  match Unpack b with Some msg => omap answer_ip (Answer msg) | None => [] end.
Fixpoint written_ips (c : conn) (b : bytes) : list string :=
  match c with
  | CPcb _ => []
  | CDns _ base _ => written_ips base b
  | CRecord _ base => msg_ips b ++ written_ips base b
  end.

(** What is recorded after a call of [Record] for each of [l]. *)
Definition records (l : list string) (s s' : socks) : Prop :=
  forall k, is_Some (allIP s' !! k) <-> is_Some (allIP s !! k) \/ k ∈ l.

Lemma records_nil s : records [] s s.
Proof. intros k. split; [by left|by intros [?|[]%elem_of_nil]]. Qed.

Lemma record_answers_run l s :
  exists m, record_answers l s = Ok (tt, set_allIP m s) /\
    records (omap answer_ip l) s (set_allIP m s).
Proof.
  revert s. induction l as [|[name ip|] l IH]; intros s; cbn.
  - exists (allIP s). split; [by destruct s|]. exact (records_nil s).
  - unfold mbind, M_bind, Record_, modify.
    destruct (IH (set_allIP (<[IP_String ip := name]> (allIP s)) s)) as (m & Hm & Hk).
    exists m. split; [by rewrite Hm|]. intros k. specialize (Hk k). cbn in Hk |- *.
    rewrite Hk, lookup_insert_is_Some', elem_of_cons.
    split; [intros [[<-|?]|?]|intros [?|[->|?]]]; auto.
  - apply IH.
Qed.

Lemma record_msg_run b s :
  exists m, record_msg b s = Ok (tt, set_allIP m s) /\ records (msg_ips b) s (set_allIP m s).
Proof.
  unfold record_msg, msg_ips. destruct (Unpack b) as [msg|]; [apply record_answers_run|].
  exists (allIP s). split; [by destruct s|]. exact (records_nil s).
Qed.

Lemma conn_Write_records c b s x s' :
  conn_Write c b s = Ok (x, s') -> records (written_ips c b) s s'.
Proof.
  revert s. induction c as [p|d base IH target|r base IH]; intros s; cbn.
  - unfold zoom. destruct (Write p b (binding s)) as [[y g]|]; [|done].
    intros [= <- <-]. exact (records_nil s).
  - apply IH.
  - unfold mbind, M_bind. destruct (record_msg_run b s) as (m & Hm & Hk).
    rewrite Hm. intros Hw%IH k. rewrite (Hw k), (Hk k), elem_of_app.
    split; [intros [[?|?]|?]|intros [?|[?|?]]]; auto.
Qed.

(** What happens to the recorded addresses: a [Write], to any connection, a
    [Clear], and everything else, which does not touch them. *)
Inductive route_act : Type :=
| RWrite (c : conn) (b : bytes)
| RClear
| ROther (s : socks).

Definition route_move (a : route_act) (s : socks) : outcome socks :=
  match a with
  | RWrite c b => match conn_Write c b s with Ok (_, s') => Ok s' | Fault f => Fault f end
  | RClear => match Clear s with Ok (_, s') => Ok s' | Fault f => Fault f end
  | ROther s' => if decide (allIP s' = allIP s) then Ok s' else Fault Blocked
  end.

Fixpoint route_run (h : list route_act) (s : socks) : outcome socks :=
  match h with
  | [] => Ok s
  | a :: h => match route_move a s with Ok s => route_run h s | Fault f => Fault f end
  end.

(** The addresses that were written in answers since the last [Clear]. *)
Definition add_answers (l : list string) (a : route_act) : list string :=
  match a with
  | RWrite c b => l ++ written_ips c b
  | RClear => []
  | ROther _ => l
  end.
Definition answered_ips (h : list route_act) : list string := foldl add_answers [] h.

Lemma route_run_records h s l s' :
  (forall k, is_Some (allIP s !! k) <-> k ∈ l) -> route_run h s = Ok s' ->
  forall k, is_Some (allIP s' !! k) <-> k ∈ foldl add_answers l h.
Proof.
  revert s l. induction h as [|a h IH]; intros s l Hs; cbn; [by intros [= <-]|].
  destruct (route_move a s) as [s1|] eqn:Ha; [|done]. apply IH.
  intros k. destruct a as [c b| |s2]; cbn in Ha |- *.
  - destruct (conn_Write c b s) as [[x s2]|] eqn:Hw; [|done]. injection Ha as <-.
    by rewrite (conn_Write_records _ _ _ _ _ Hw k), elem_of_app, Hs.
  - injection Ha as <-. cbn. rewrite lookup_empty. split; [by intros []|].
    intros []%elem_of_nil.
  - case_decide as He; [|done]. injection Ha as <-. by rewrite He.
Qed.

(** C37: Answers decide where connections go, and nothing else does: after any
    history of writes to connections, of [Clear]s and of whatever else the program
    does, since the handler was made, a connection that lwIP accepts is given to
    the name service if it is for datagrams to port 53; and otherwise to the proxy
    if its address was in an answer that was written to a connection of the
    recorder - for a name of whatever target - since the last [Clear], and to the
    direct processor if it was in none. *)
Theorem answers_route h s0 s p t ip port :
  allIP s0 = ∅ -> route_run h s0 = Ok s -> ip_length ip -> port_number port ->
  let target := type_text t ++ "://" ++ Addr_String ip port in
  Lwip_OnAccept p t ip port s =
    if decide (t = UDP /\ port = 53%Z)
    then Ok (tt, set_dns_procs (dns_procs s ++ [CPcb p]) s)
    else (_ ← (if decide (IP_String ip ∈ answered_ips h) then proxy else direct)
               (CPcb p) target; mret tt) s.
Proof.
  intros H0 Hr Hip Hport target. rewrite (OnAccept_run p t ip port s Hip Hport).
  case_decide; [done|]. unfold chosen. fold target.
  assert (Hk : is_Some (allIP s !! IP_String ip) <-> IP_String ip ∈ answered_ips h).
  { apply (route_run_records h s0 []); [|done]. intros k. rewrite H0, lookup_empty.
    split; [by intros []|by intros []%elem_of_nil]. }
  by rewrite (decide_ext _ _ proxy direct Hk).
Qed.

End routes.

(** ** Queries *)

Section queries.

Lemma queue_send d q data s :
  objects s !! d = Some (DNSConn q false) -> c_closed q = false ->
  (length (c_buf q) < c_cap q)%nat ->
  at_readQueued d (chan_send data) s =
    Ok (tt, set_objects (<[d := DNSConn (Chan (c_cap q) (c_buf q ++ [data]) false) false]>
              (objects s)) s).
Proof.
  intros Ho Hc Hl. unfold at_readQueued, at_dns, zoom, at_key. rewrite Ho.
  by rewrite chan_send_run.
Qed.

(** The target of a query. *)
Definition query_target (list : gmap string string) (data : bytes) : option string :=
  msg ← Unpack data; name ← head (Question msg); Find list name.

(** The processors take a connection and return, without a change of what DNS
    uses. *)
Definition takes_conns (P : Processor) : Prop :=
  forall c target s, exists s', P c target s = Ok (false, s') /\
    objects s' = objects s /\ dns_conns s' = dns_conns s /\ gfw s' = gfw s /\
    binding s' = binding s.

Context (Hproxy : takes_conns proxy) (Hdirect : takes_conns direct).

Lemma record_next_run c target s :
  is_Some (Parse target) ->
  exists s' r, record_next c target s = Ok (false, s') /\
    objects s !! r = None /\ objects s' = <[r := DNSRecordConn]> (objects s) /\
    dns_conns s' = dns_conns s /\ gfw s' = gfw s /\ binding s' = binding s.
Proof.
  intros [u Hu]. unfold record_next, DNSRecord_ProcConn, NewDNSRecordConn, new_object.
  set (r := fresh (dom (objects s))).
  assert (Hr : objects s !! r = None) by (apply not_elem_of_dom, is_fresh).
  unfold mbind, M_bind, gets, modify. cbn. fold r.
  unfold PAC_ProcConn. rewrite Hu. unfold mbind, M_bind, IsRecorded, gets, mret, M_ret.
  match goal with |- context [if ?b then proxy _ _ else _] => destruct b end.
  - destruct (Hproxy (CRecord r c) target (set_objects (<[r := DNSRecordConn]> (objects s)) s))
      as (s' & -> & Ho & Hd & Hg & Hb). by exists s', r.
  - destruct (Hdirect (CRecord r c) target (set_objects (<[r := DNSRecordConn]> (objects s)) s))
      as (s' & -> & Ho & Hd & Hg & Hb). by exists s', r.
Qed.

Lemma NewDNSConn_run base target s :
  exists d, objects s !! d = None /\
    NewDNSConn base target s =
      Ok (CDns d base target,
          set_objects (<[d := DNSConn (make_chan QUEUE) false]> (objects s)) s).
Proof.
  exists (fresh (dom (objects s))). split; [|done].
  apply not_elem_of_dom, is_fresh.
Qed.

(** Every connection for [r] is open and has the queries [ds target]; no two
    targets share one. *)
Record dns_ok (r : conn) (ds : string -> list bytes) (s : socks) : Prop := DnsOk {
  dk_conn target :
    match dns_conns s !! (address r, target) with
    | None => ds target = []
    | Some c => exists d q, c = CDns d r target /\ objects s !! d = Some (DNSConn q false) /\
        c_closed q = false /\ c_cap q = QUEUE /\ c_buf q = ds target
    end;
  dk_inj t1 t2 d b1 b2 :
    dns_conns s !! (address r, t1) = Some (CDns d b1 t1) ->
    dns_conns s !! (address r, t2) = Some (CDns d b2 t2) -> t1 = t2
}.

(** A query is added to those of its target. *)
Definition add_query (target : string) (data : bytes) (ds : string -> list bytes)
    (t : string) : list bytes :=
  if decide (t = target) then ds t ++ [data] else ds t.

Lemma dns_ok_ext r ds ds' s :
  (forall t, ds t = ds' t) -> dns_ok r ds s -> dns_ok r ds' s.
Proof.
  intros He [Hc Hinj]. split; [|done]. intros t. specialize (Hc t). by rewrite He in Hc.
Qed.

(** A query goes to a connection that is there. *)
Lemma dns_ok_push r ds data target s d q :
  dns_ok r ds s -> dns_conns s !! (address r, target) = Some (CDns d r target) ->
  c_buf q = ds target -> c_cap q = QUEUE ->
  dns_ok r (add_query target data ds)
    (set_objects (<[d := DNSConn (Chan (c_cap q) (c_buf q ++ [data]) false) false]>
       (objects s)) s).
Proof.
  intros [Hc Hinj] Hm Hb Hcap. split; cbn; [|exact Hinj]. intros t. specialize (Hc t).
  unfold add_query. destruct (decide (t = target)) as [->|Hne].
  - rewrite Hm. eexists d, _. split; [done|]. rewrite lookup_insert_eq.
    split; [done|]. cbn. by rewrite Hb.
  - destruct (dns_conns s !! (address r, t)) as [c|] eqn:Hmt; [|done].
    destruct Hc as (d' & q' & -> & Ho' & ?). exists d', q'.
    rewrite lookup_insert_ne; [done|]. intros ->. apply Hne. by eapply Hinj.
Qed.

(** A connection is made, for a target that has none. *)
Lemma dns_ok_new r ds target s s' d r' :
  dns_ok r ds s -> dns_conns s !! (address r, target) = None ->
  objects s !! d = None -> r' <> d -> objects s !! r' = None ->
  objects s' = <[r' := DNSRecordConn]> (<[d := DNSConn (make_chan QUEUE) false]> (objects s)) ->
  dns_conns s' = <[(address r, target) := CDns d r target]> (dns_conns s) ->
  dns_ok r ds s'.
Proof.
  intros [Hc Hinj] Hm Hd Hne Hr' Ho2 Hd2.
  assert (Hold : forall t b, dns_conns s !! (address r, t) = Some (CDns d b t) -> False).
  { intros t b Ht'. specialize (Hc t). rewrite Ht' in Hc.
    destruct Hc as (? & ? & [= <- <-] & ? & _). congruence. }
  split.
  - intros t. specialize (Hc t). rewrite Hd2. destruct (decide (t = target)) as [->|Hnt].
    + rewrite lookup_insert_eq. rewrite Hm in Hc. exists d, (make_chan QUEUE).
      split; [done|]. by rewrite Ho2, lookup_insert_ne, lookup_insert_eq.
    + rewrite lookup_insert_ne by congruence.
      destruct (dns_conns s !! (address r, t)) as [c|]; [|done].
      destruct Hc as (d' & q' & -> & Ho' & ?). exists d', q'.
      split; [done|]. by rewrite Ho2, !lookup_insert_ne by congruence.
  - intros t1 t2 d' b1 b2. rewrite Hd2.
    destruct (decide (t1 = target)) as [->|H1], (decide (t2 = target)) as [->|H2]; [done|..].
    + rewrite lookup_insert_eq, lookup_insert_ne by congruence.
      intros [= <- <-] H'. by destruct (Hold t2 b2).
    + rewrite lookup_insert_ne, lookup_insert_eq by congruence.
      intros H' [= <- <-]. by destruct (Hold t1 b1).
    + rewrite !lookup_insert_ne by congruence. apply Hinj.
Qed.

Lemma dns_turn_run r ds data target s :
  dns_ok r ds s -> query_target (gfw s) data = Some target -> is_Some (Parse target) ->
  (length (ds target) < QUEUE)%nat ->
  exists s', dns_turn record_next r data s = Ok (true, s') /\
    dns_ok r (add_query target data ds) s' /\ gfw s' = gfw s /\ binding s' = binding s.
Proof.
  intros Hok Ht HP Hl. unfold query_target in Ht.
  destruct (Unpack data) as [msg|] eqn:Hu; [|done]. cbn in Ht.
  destruct (Question msg) as [|name qs] eqn:Hq; [done|]. cbn in Ht.
  unfold dns_turn. rewrite Hu, Hq. erewrite bind_Ok by done. cbn [id]. rewrite Ht.
  pose proof (dk_conn _ _ _ Hok target) as Hct.
  destruct (dns_conns s !! (address r, target)) as [c|] eqn:Hm.
  - destruct Hct as (d & q & -> & Ho & Hcl & Hcap & Hb). cbn [address snd].
    unfold mbind, M_bind. rewrite (queue_send d q) by (done || (rewrite Hb, Hcap; lia)).
    eexists. split; [reflexivity|]. split; [by apply dns_ok_push|done].
  - destruct (NewDNSConn_run r target s) as (d & Hd & Hnew).
    erewrite bind_Ok by exact Hnew.
    destruct (record_next_run (CDns d r target) target
      (set_objects (<[d := DNSConn (make_chan QUEUE) false]> (objects s)) s) HP)
      as (s2 & r' & Hn & Hr' & Ho2 & Hd2 & Hg2 & Hb2). cbn in Hr', Ho2, Hd2, Hg2, Hb2.
    erewrite bind_Ok by exact Hn. cbn iota. erewrite bind_Ok by reflexivity.
    apply lookup_insert_None in Hr' as [Hr' Hne].
    set (s3 := set_dns_conns _ s2).
    assert (Hok3 : dns_ok r ds s3).
    { eapply (dns_ok_new _ _ _ s s3 d r'); try done. cbn. by rewrite Hd2. }
    assert (Hdq : objects s3 !! d = Some (DNSConn (make_chan QUEUE) false))
      by (cbn; by rewrite Ho2, lookup_insert_ne, lookup_insert_eq).
    erewrite bind_Ok by (apply queue_send; [exact Hdq|done|cbn; lia]).
    eexists. split; [reflexivity|]. split; [|done]. apply dns_ok_push; try done.
    cbn. by rewrite lookup_insert_eq.
Qed.

(** A datagram connection that is open, with packets in its queue. *)
Definition udp_ready (g : go_state) (p : ptr) (ds : list bytes) : Prop :=
  exists o c, pcbs g !! p = Some o /\ p_type o = UDP /\ p_err o = false /\
    recvInter o = false /\ bchans g !! recvQueued o = Some c /\ c_buf c = ds.

Lemma Read_udp g p n b ds :
  udp_ready g p (b :: ds) -> b <> [] -> (length b <= n)%nat ->
  exists g', Read p n g = Ok ((b, false), g') /\ udp_ready g' p ds.
Proof.
  intros (o & c & Ho & Ht & He & Hi & Hc & Hb) Hne Hn.
  unfold Read. erewrite bind_Ok by (by apply at_pcb_get_run). rewrite Hi, He.
  erewrite bind_Ok.
  2: { rewrite (at_recvQueued_run _ _ _ _ _ Ho Hc). unfold chan_recv. by rewrite Hb. }
  destruct b as [|z b]; [done|]. rewrite decide_False by lia.
  rewrite decide_False by (by rewrite Ht). eexists. split; [reflexivity|].
  exists o, (Chan (c_cap c) ds (c_closed c)). split_and!; try done. cbn.
  apply lookup_insert_eq.
Qed.

(** A packet that the goroutine can use. *)
Definition good_query (list : gmap string string) (data : bytes) : Prop :=
  data <> [] /\ (length data <= 4096)%nat /\
  exists t, query_target list data = Some t /\ is_Some (Parse t).

Lemma dns_proc_run p ds pre s list :
  gfw s = list -> udp_ready (binding s) p ds -> Forall (good_query list) ds ->
  (length (pre ++ ds)%list <= QUEUE)%nat ->
  dns_ok (CPcb p) (fun t => filter (fun d => query_target list d = Some t) pre) s ->
  exists s', dns_proc record_next (length ds) (CPcb p) s = Ok (tt, s') /\
    dns_ok (CPcb p) (fun t => filter (fun d => query_target list d = Some t) (pre ++ ds)%list) s'.
Proof.
  revert pre s. induction ds as [|d ds IH]; intros pre s Hl Hr Hg Hlen Hok.
  { exists s. split; [done|]. by rewrite app_nil_r. }
  apply Forall_cons in Hg as [(Hne & Hd & t & Ht & HP) Hg].
  destruct (Read_udp _ _ 4096 _ _ Hr Hne Hd) as (g & Hread & Hr').
  cbn [length dns_proc]. erewrite bind_Ok.
  2: { cbn [conn_Read]. unfold zoom. rewrite Hread. reflexivity. }
  cbn beta iota. rewrite length_app in Hlen. cbn in Hlen.
  destruct (dns_turn_run (CPcb p)
    (fun t => filter (fun d => query_target list d = Some t) pre) d t (set_binding g s))
    as (s1 & Hs1 & Hok1 & Hg1 & Hb1).
  { destruct Hok as [H1 H2]. by split. }
  { cbn. by rewrite Hl. }
  { done. }
  { pose proof (length_filter (fun d => query_target list d = Some t) pre). lia. }
  erewrite bind_Ok by exact Hs1. cbn beta iota.
  destruct (IH (pre ++ [d])%list s1) as (s2 & Hs2 & Hok2).
  - by rewrite Hg1.
  - by rewrite Hb1.
  - done.
  - rewrite !length_app. cbn. lia.
  - eapply dns_ok_ext; [|exact Hok1]. intros t'. unfold add_query.
    rewrite filter_app, filter_cons, filter_nil, Ht.
    destruct (decide (t' = t)) as [->|Hnt]; case_decide; try congruence.
    by rewrite app_nil_r.
  - exists s2. split; [done|]. by rewrite <- app_assoc in Hok2.
Qed.

(** The goroutine of [DNSProcessor] for a datagram connection splits its
    queries by target: reading any number of them, up to the size of the queues,
    it ends up with one open connection for each target that was asked for, and
    in its queue are the queries for that target, all of them and in order; a
    target that nobody asked for has none.  The processors take each new
    connection and leave the state of DNS alone. *)
Theorem dns_queries_in_order p ds s :
  (forall t, dns_conns s !! (false, p, t) = None) -> udp_ready (binding s) p ds ->
  Forall (good_query (gfw s)) ds -> (length ds <= QUEUE)%nat ->
  exists s', dns_proc record_next (length ds) (CPcb p) s = Ok (tt, s') /\
  forall t, let queries := filter (fun d => query_target (gfw s) d = Some t) ds in
    match dns_conns s' !! (false, p, t) with
    | None => queries = []
    | Some c => exists d q, c = CDns d (CPcb p) t /\
        objects s' !! d = Some (DNSConn q false) /\ c_closed q = false /\ c_buf q = queries
    end.
Proof.
  intros Hno Hr Hg Hl.
  destruct (dns_proc_run p ds [] s (gfw s)) as (s' & Hs' & [Hok _]); try done.
  { split; cbn; intros *; by rewrite !Hno. }
  exists s'. split; [done|]. intros t. specialize (Hok t). cbn in Hok.
  destruct (dns_conns s' !! (false, p, t)); [|done]. naive_solver.
Qed.

(** One packet can end the name service of a connection, or the program.
    After one that is no DNS message the goroutine is gone, but nothing is
    closed: the connection stays open and registered, and what comes next only
    fills its queue.  After a message without a question, which is well formed,
    the program panics. *)
Theorem dns_bad_packet next p b ds n s :
  udp_ready (binding s) p (b :: ds) -> b <> [] -> (length b <= 4096)%nat ->
  (Unpack b = None ->
   exists g, dns_proc next (S n) (CPcb p) s = Ok (tt, set_binding g s) /\ udp_ready g p ds) /\
  (forall msg, Unpack b = Some msg -> Question msg = [] ->
   dns_proc next (S n) (CPcb p) s = Fault Panicked).
Proof.
  intros Hr Hne Hl. destruct (Read_udp _ _ 4096 _ _ Hr Hne Hl) as (g & Hread & Hr').
  assert (Hc : conn_Read (CPcb p) 4096 s = Ok ((b, false), set_binding g s)).
  { cbn [conn_Read]. unfold zoom. by rewrite Hread. }
  split.
  - intros Hu. exists g. split; [|done]. cbn [dns_proc]. erewrite bind_Ok by exact Hc.
    cbn beta iota. unfold dns_turn. rewrite Hu. done.
  - intros msg Hu Hq. cbn [dns_proc]. erewrite bind_Ok by exact Hc.
    cbn beta iota. unfold dns_turn. rewrite Hu, Hq. done.
Qed.

End queries.
End csocks.

(** ** Witnesses

    The parameters as concrete functions, for a few messages and for addresses
    written in a way of their own. *)
Module Example.

Definition processor : Processor := fun _ _ => mret false.

Definition unpack (b : bytes) : option Msg :=
  match b with
  | [1%Z] => Some (DnsMsg ["www.google.com."] [])
  | [2%Z] => Some (DnsMsg ["google.com."] [])
  | [3%Z] => Some (DnsMsg ["www.google.com."] [RR_other; RR_A "www.google.com." [0; 2; 0; 1]%Z])
  | [4%Z] => Some (DnsMsg [] [])
  | _ => None
  end.

(** The text before the first [x], and what follows it. *)
Fixpoint until (x : ascii) (s : string) : string * string :=
  match s with
  | EmptyString => ("", "")
  | String a s => if decide (a = x) then ("", s)
                  else let '(l, r) := until x s in (String a l, r)
  end.
Definition tail_s (s : string) : string := match s with EmptyString => "" | String _ s => s end.

Lemma until_app x s t :
  all_chars (fun a => negb (bool_decide (a = x))) s = true ->
  until x (s ++ String x t) = (s, t).
Proof.
  induction s as [|a s IH]; cbn; [by rewrite decide_True|].
  intros [Ha Hs]%andb_true_iff. rewrite negb_true_iff, bool_decide_eq_false in Ha.
  by rewrite decide_False, IH.
Qed.

Definition compile (s : string) : option (string -> bool) :=
  let '(a, rest) := until "\" (tail_s (tail_s (tail_s (tail_s (tail_s (tail_s (tail_s s))))))) in
  let '(b, _) := until "$" (tail_s rest) in
  Some (match_end a b).

Lemma compile_ok a b :
  all_chars simple a = true -> all_chars simple b = true ->
  exists f, compile (pattern a b) = Some f /\ forall key, f key = match_end a b key.
Proof.
  intros Ha Hb. exists (match_end a b). split; [|done]. unfold compile, pattern. cbn.
  rewrite until_app.
  2: { eapply all_chars_mono; [|exact Ha]. intros x Hx. by case_bool_decide; [subst|]. }
  cbn. rewrite until_app; [done|].
  eapply all_chars_mono; [|exact Hb]. intros x Hx. by case_bool_decide; [subst|].
Qed.

(** Addresses in strokes. *)
Definition ip_string (ip : bytes) : string :=
  foldr (fun n s => Nat.iter (Z.to_nat n) (String "1") (String "." s)) "" ip.
Definition addr_string (ip : bytes) (port : Z) : string := ip_string ip ++ ":" ++ pretty port.
Definition parse (s : string) : option URL :=
  let '(scheme, rest) := until ":" s in
  let host := tail_s (tail_s rest) in
  let '(name, port) := until ":" host in
  Some (Url scheme host name port).

Lemma ip_string_no_colon ip :
  all_chars (fun a => negb (bool_decide (a = ":"%char))) (ip_string ip) = true.
Proof.
  induction ip as [|n ip IH]; [done|].
  change (ip_string (n :: ip))
    with (Nat.iter (Z.to_nat n) (String "1") (String "." (ip_string ip))).
  induction (Z.to_nat n) as [|m IHm]; [exact IH|exact IHm].
Qed.

Lemma parse_ok t ip port :
  ip_length ip -> port_number port ->
  parse (type_text t ++ "://" ++ addr_string ip port) =
    Some (Url (type_text t) (addr_string ip port) (ip_string ip) (pretty port)) /\
  addr_string ip port <> "proxy".
Proof.
  intros _ _.
  assert (Hu : until ":" (addr_string ip port) = (ip_string ip, pretty port)).
  { unfold addr_string. apply until_app, ip_string_no_colon. }
  split.
  - unfold parse.
    change ("://" ++ addr_string ip port) with (String ":" ("//" ++ addr_string ip port)).
    rewrite until_app by by destruct t.
    change (tail_s (tail_s ("//" ++ addr_string ip port))) with (addr_string ip port).
    by rewrite Hu.
  - intros He. rewrite He in Hu. cbn in Hu. injection Hu as Hip _.
    by destruct ip as [|n ip]; [|cbn in Hip; destruct (Z.to_nat n)].
Qed.

Lemma processor_takes : takes_conns processor.
Proof. intros c t s. by exists s. Qed.

Lemma label_ok s : all_chars literal s && negb (bool_decide (s = "")) = true -> label s.
Proof. intros [Hs Hn]%andb_true_iff. split; [done|]. by intros ->. Qed.

(** The list of the client, and a datagram connection with packets. *)
Definition listed : gmap string string := <["||google.com" := "dns://proxy"]> gfw0.
Definition udp_pcb : PCB :=
  Pcb UDP None 1 None (IPv4 0) 53 (IPv4 0) 9 false false 1 None 0 false.
Definition state (ds : list bytes) : socks :=
  set_gfw listed (socks0 (set_bchans {[1%positive := Chan QUEUE ds false]}
    (set_pcbs {[1%positive := udp_pcb]} go_state0))).

Lemma query_ok d t :
  d <> [] -> (length d <= 4096)%nat ->
  query_target unpack map_to_list compile listed d = Some t ->
  good_query unpack parse map_to_list compile listed d.
Proof.
  intros Hd Hl Ht. split_and!; [done..|]. exists t. split; [done|]. unfold parse.
  destruct (until ":" t) as [l r], (until ":" (tail_s (tail_s r))) as [l' r']. by eexists.
Qed.

Lemma state_ready ds : udp_ready (binding (state ds)) 1 ds.
Proof. exists udp_pcb, (Chan QUEUE ds false). by split_and!. Qed.

End Example.
Import Example.

Lemma listed_lookup k v :
  listed !! k = Some v -> k = "||google.com" /\ v = "dns://proxy" \/ k = "*" /\ v = "dns://local".
Proof.
  unfold listed, gfw0. intros [[<- <-]|[_ [<- <-]%lookup_singleton_Some]]%lookup_insert_Some;
    auto.
Qed.

Lemma Find_levels_witness :
  Find map_to_list compile listed "www.google.com." = Some "dns://proxy" /\
  Find map_to_list compile listed "google.com." = Some "dns://local" /\
  Find map_to_list compile listed "a.www.google.com." = Some "dns://local".
Proof.
  destruct (Find_levels map_to_list compile compile_ok (fun m => Permutation_refl _) listed
    "a" "www" "google" "com" "dns://proxy" (label_ok "a" eq_refl) (label_ok "www" eq_refl)
    (label_ok "google" eq_refl) (label_ok "com" eq_refl)) as (H1 & H2 & H3).
  split_and!.
  - apply H1.
    + exists "||google.com". split; [reflexivity|]. by exists "||".
    + intros k v [[-> ->]|[-> _]]%listed_lookup; [done|].
      by intros He%(match_end_literal "google" "com").
  - apply H2. intros k v [[-> _]|[-> _]]%listed_lookup.
    all: by intros He%(match_end_literal "" "").
  - apply H3. by intros k v [[-> _]|[-> _]]%listed_lookup.
Defined.

(** An answer has passed to a connection whose names are resolved locally. *)
Definition dns_local : conn := CRecord 2 (CDns 1 (CPcb 1) "dns://local").
(** A processor that leaves a trace. *)
Definition marker : Processor :=
  fun _ target => modify (set_gfw {["marked" := target]});; mret false.

(** An answer is written, for a name to be resolved locally. *)
Definition answer_history : list route_act := [RClear; RWrite dns_local [3%Z]].
Definition answered_state : socks :=
  match route_run unpack ip_string answer_history (state []) with
  | Ok s => s
  | Fault _ => state []
  end.

Lemma answers_route_witness :
  Lwip_OnAccept marker processor addr_string parse 7 TCP [0; 2; 0; 1]%Z 80 answered_state =
    Ok (tt, set_gfw {["marked" := "tcp://" ++ addr_string [0; 2; 0; 1]%Z 80]} answered_state) /\
  Lwip_OnAccept marker processor addr_string parse 7 TCP [0; 2; 0; 2]%Z 80 answered_state =
    Ok (tt, answered_state).
Proof.
  assert (Hr : route_run unpack ip_string answer_history (state []) = Ok answered_state)
    by (vm_compute; reflexivity).
  assert (Hport : port_number 80) by (split; [discriminate|reflexivity]).
  split.
  - etransitivity; [apply (answers_route marker processor unpack ip_string addr_string parse
      parse_ok answer_history (state []) answered_state 7 TCP [0; 2; 0; 1]%Z 80);
      [reflexivity|exact Hr|by left|exact Hport]|]. vm_compute. reflexivity.
  - etransitivity; [apply (answers_route marker processor unpack ip_string addr_string parse
      parse_ok answer_history (state []) answered_state 7 TCP [0; 2; 0; 2]%Z 80);
      [reflexivity|exact Hr|by left|exact Hport]|]. vm_compute. reflexivity.
Defined.

Lemma dns_queries_in_order_witness :
  let s := state [[1]; [2]; [1]]%Z in
  exists s', dns_proc unpack map_to_list compile
      (record_next processor processor parse) 3 (CPcb 1) s = Ok (tt, s') /\
    match dns_conns s' !! (false, 1%positive, "dns://proxy") with
    | None => [[1]; [1]]%Z = []
    | Some c => exists d q, c = CDns d (CPcb 1) "dns://proxy" /\
        objects s' !! d = Some (DNSConn q false) /\ c_closed q = false /\
        c_buf q = [[1]; [1]]%Z
    end.
Proof.
  intros s.
  destruct (dns_queries_in_order processor processor unpack parse map_to_list compile
    processor_takes processor_takes 1 [[1]; [2]; [1]]%Z s) as (s' & Hs & Hq).
  - intros t. reflexivity.
  - apply state_ready.
  - repeat (apply Forall_cons; split); [..|apply Forall_nil_2].
    + by apply (query_ok _ "dns://proxy"); [|cbn; lia|vm_compute].
    + by apply (query_ok _ "dns://local"); [|cbn; lia|vm_compute].
    + by apply (query_ok _ "dns://proxy"); [|cbn; lia|vm_compute].
  - cbn. unfold QUEUE. lia.
  - exists s'. split; [exact Hs|]. specialize (Hq "dns://proxy").
    replace (filter _ [[1]; [2]; [1]]%Z) with [[1]; [1]]%Z in Hq by (vm_compute; reflexivity).
    exact Hq.
Defined.

(** A packet that is no message, and one without a question. *)
Lemma dns_bad_packet_witness :
  (exists g, dns_proc unpack map_to_list compile (record_next processor processor parse) 5
     (CPcb 1) (state [[9]; [1]]%Z) = Ok (tt, set_binding g (state [[9]; [1]]%Z)) /\
   udp_ready g 1 [[1]]%Z) /\
  dns_proc unpack map_to_list compile (record_next processor processor parse) 5
    (CPcb 1) (state [[4]]%Z) = Fault Panicked.
Proof.
  split.
  - destruct (dns_bad_packet unpack map_to_list compile
      (record_next processor processor parse) 1 [9]%Z [[1]]%Z 4 (state [[9]; [1]]%Z)
      (state_ready _)) as [H _]; [done|cbn; lia|]. exact (H eq_refl).
  - destruct (dns_bad_packet unpack map_to_list compile
      (record_next processor processor parse) 1 [4]%Z [] 4 (state [[4]]%Z)
      (state_ready _)) as [_ H]; [done|cbn; lia|]. exact (H _ eq_refl eq_refl).
Defined.
