(* ===== verification/DnsConc.v ===== *)
(** * The goroutines of the SOCKS client's name service (src/csocks/csocks.go)

    The goroutines that [DNSProcessor.ProcConn] starts, one for each datagram
    connection, cut into the steps between which other goroutines can run, next
    to the goroutines of the processors that read from the [DNSConn]s and close
    them, and to whatever changes the binding and the recorded addresses.
    The list of [DNSGFW] is the one that the program starts with.
    Proved: that each query is read by whoever reads the [DNSConn] of its
    target, once and in order, in every interleaving; that nothing but a bad
    packet or a [Close] at the wrong time makes the program panic; and that a
    [Close] at the wrong time does. *)

From S2P Require Import Prelude Lwip GoChan GoBind GoApp Csocks.
From stdpp Require Import strings.
Local Open Scope string_scope.

(** ** The machine *)

(** Where the goroutine of [proc] is: before [r.Read]; before the lookup in
    [conns], with the target and the packet; before [Next.ProcConn], with the new
    [DNSConn]; before the connection is put into [conns]; before the packet is
    put into its queue; returned. *)
Inductive dns_pc : Type :=
| AtRead
| AtLookup (target : string) (data : bytes)
| AtProcConn (c : conn) (target : string) (data : bytes)
| AtInsert (c : conn) (target : string) (data : bytes)
| AtSend (c : conn) (target : string) (data : bytes)
| AtEnd.

(** Where a goroutine is in [DNSConn.Close]: before [closed] is looked at, before
    it is set, before the queue is closed, before the connection is taken out of
    [conns]; returned. *)
Inductive dns_close_pc : Type := CloseCheck | CloseMark | CloseQueue | CloseRemove | CloseEnd.

#[export] Instance dns_close_pc_eq_dec : EqDecision dns_close_pc.
Proof. solve_decision. Defined.

(** A goroutine of [proc] for the connection [g_conn].  Ghosts: the packets that
    it read, with their targets, and where it put them, [None] for those that it
    dropped as [Next.ProcConn] failed. *)
Record goroutine : Type := Goroutine {
  g_conn : conn;
  g_pc : dns_pc;
  g_asked : list (string * bytes);
  g_out : list (option ptr * (string * bytes))
}.

(** A goroutine in [Close] of the [DNSConn] at [k_dns], which has this key. *)
Record closer : Type := Closer {
  k_dns : ptr;
  k_key : bool * ptr * string;
  k_pc : dns_close_pc
}.

(** The shared state, the goroutines of [proc], and those that have called
    [Close].  Ghosts: what each [DNSConn] was made for, and what [Read] took out
    of each queue. *)
Record dns : Type := Dns {
  d_socks : socks;
  d_procs : list goroutine;
  d_closers : list closer;
  d_made : gmap ptr (conn * string);
  d_taken : list (ptr * bytes)
}.

(** What a processor may do to a connection: anything but to the maps of the name
    service and the queues, which change by [Read] and [Close] only; and it may
    wait. *)
Record kept (s s' : socks) : Prop := Kept {
  kp_conns : dns_conns s' = dns_conns s;
  kp_gfw : gfw s' = gfw s;
  kp_objects d q cl :
    objects s' !! d = Some (DNSConn q cl) <-> objects s !! d = Some (DNSConn q cl)
}.
Class KeepsDns (P : Processor) : Prop :=
  keeps_dns c t s : match P c t s with Ok (_, s') => kept s s' | Fault f => f = Blocked end.

#[export] Instance kept_preorder : PreOrder kept.
Proof.
  split; [by split|]. intros s1 s2 s3 [C1 G1 O1] [C2 G2 O2]. split; [congruence..|].
  intros. by rewrite O2, O1.
Qed.

(** The processor that the handler gives to the name service is one, if the
    proxy and the direct one are. *)
#[export] Instance record_next_keeps proxy direct Parse :
  KeepsDns proxy -> KeepsDns direct -> KeepsDns (record_next proxy direct Parse).
Proof.
  intros Hp Hd c t s. unfold record_next, DNSRecord_ProcConn, NewDNSRecordConn, new_object.
  unfold mbind, M_bind, gets, modify, mret, M_ret. cbn [id].
  set (r := fresh (dom (objects s))).
  set (s1 := set_objects _ s).
  assert (Hk : kept s s1).
  { split; [done..|]. intros d q cl. cbn. destruct (decide (d = r)) as [->|Hne].
    - rewrite lookup_insert_eq. split; [done|]. intros Ho.
      by pose proof (is_fresh (dom (objects s))) as []; apply elem_of_dom_2 in Ho.
    - by rewrite lookup_insert_ne. }
  unfold PAC_ProcConn. destruct (Parse t) as [u|]; [|done].
  unfold mbind, M_bind, IsRecorded, gets.
  match goal with |- context [if ?b then proxy _ _ else _] => destruct b end.
  - pose proof (Hp (CRecord r c) t s1). destruct (proxy _ _ s1) as [[? ?]|]; [|done].
    by transitivity s1.
  - pose proof (Hd (CRecord r c) t s1). destruct (direct _ _ s1) as [[? ?]|]; [|done].
    by transitivity s1.
Qed.

Section machine.
Context (Unpack : bytes -> option Msg).
Context (range : gmap string string -> list (string * string)).
Context (Compile : string -> option (string -> bool)).
(** The [Next] of the [DNSProcessor]. *)
Context (next : Processor).

(** A step of [proc], from one point to the next. *)
Definition dns_step (r : conn) (pc : dns_pc) : K dns_pc :=
  match pc with
  | AtRead =>
      '(data, err) ← conn_Read r 4096;
      if err : bool then mret AtEnd
      else
        match Unpack data with
        | None => mret AtEnd
        | Some msg =>
            match Question msg with
            | [] => stop Panicked
            | name :: _ =>
                s ← gets id;
                match Find range Compile (gfw s) name with
                | None => stop Panicked
                | Some target => mret (AtLookup target data)
                end
            end
        end
  | AtLookup target data =>
      s ← gets id;
      match dns_conns s !! (address r, target) with
      | Some c => mret (AtSend c target data)
      | None => c ← NewDNSConn r target; mret (AtProcConn c target data)
      end
  | AtProcConn c target data =>
      err ← next c target;
      mret (if err : bool then AtRead else AtInsert c target data)
  | AtInsert c target data =>
      modify (fun s => set_dns_conns (<[(address r, target) := c]> (dns_conns s)) s);;
      mret (AtSend c target data)
  | AtSend c target data =>
      at_readQueued (address c).2 (chan_send data);; mret AtRead
  | AtEnd => stop Blocked
  end.

(** A step of [Close]. *)
Definition close_dns_step (d : ptr) (key : bool * ptr * string) (pc : dns_close_pc) : K dns_close_pc :=
  match pc with
  | CloseCheck =>
      closed ← at_dns d (gets snd); mret (if closed : bool then CloseEnd else CloseMark)
  | CloseMark => at_dns d (modify (fun s => (s.1, true)));; mret CloseQueue
  | CloseQueue => at_readQueued d chan_close;; mret CloseRemove
  | CloseRemove =>
      modify (fun s => set_dns_conns (delete key (dns_conns s)) s);; mret CloseEnd
  | CloseEnd => stop Blocked
  end.

(** The ghosts of a step of [proc]. *)
Definition log_asked (pc pc' : dns_pc) : list (string * bytes) :=
  match pc, pc' with
  | AtRead, AtLookup target data => [(target, data)]
  | _, _ => []
  end.
Definition log_out (pc pc' : dns_pc) : list (option ptr * (string * bytes)) :=
  match pc, pc' with
  | AtSend c target data, AtRead => [(Some (address c).2, (target, data))]
  | AtProcConn _ target data, AtRead => [(None, (target, data))]
  | _, _ => []
  end.
Definition log_made (r : conn) (pc' : dns_pc) (m : gmap ptr (conn * string)) :=
  match pc' with
  | AtProcConn (CDns d _ _) target _ => <[d := (r, target)]> m
  | _ => m
  end.
Definition log_taken (d : ptr) (s : socks) : list (ptr * bytes) :=
  match objects s !! d with
  | Some (DNSConn q _) => match c_buf q with b :: _ => [(d, b)] | [] => [] end
  | _ => []
  end.

(** What happens next: a goroutine of [proc] makes a step; a datagram connection
    is handed to the processor; some goroutine calls [Close] of a [DNSConn]; one
    that has called it makes a step; some goroutine calls [Read]; the rest of the
    program changes the state of the binding or the recorded addresses, as any
    [conn_Write] does. *)
Inductive dns_act : Type :=
| MProc (i : nat)
| MStart (p : ptr)
| MClose (d : ptr)
| MCloser (j : nat)
| MRead (d : ptr) (n : nat)
| MBinding (g : go_state)
| MAllIP (m : gmap string string).

Definition dns_move (mv : dns_act) (w : dns) : outcome dns :=
  let '(Dns s gs ks made taken) := w in
  match mv with
  | MProc i =>
      match gs !! i with
      | None => Fault Blocked
      | Some (Goroutine r pc asked out) =>
          match dns_step r pc s with
          | Ok (pc', s') =>
              Ok (Dns s' (<[i := Goroutine r pc' (asked ++ log_asked pc pc')%list
                                              (out ++ log_out pc pc')%list]> gs)
                    ks (log_made r pc' made) taken)
          | Fault f => Fault f
          end
      end
  | MStart p =>
      (* the handler gets each connection once *)
      if decide (Exists (fun g => address (g_conn g) = (false, p)) gs) then Fault Blocked
      else
        match DNS_ProcConn (CPcb p) "" s with
        | Ok (_, s') => Ok (Dns s' (gs ++ [Goroutine (CPcb p) AtRead [] []])%list ks made taken)
        | Fault f => Fault f
        end
  | MClose d =>
      match made !! d with
      | None => Fault Blocked
      | Some (r, t) =>
          Ok (Dns s gs (ks ++ [Closer d (address r, t) CloseCheck])%list made taken)
      end
  | MCloser j =>
      match ks !! j with
      | None => Fault Blocked
      | Some (Closer d key pc) =>
          match close_dns_step d key pc s with
          | Ok (pc', s') => Ok (Dns s' gs (<[j := Closer d key pc']> ks) made taken)
          | Fault f => Fault f
          end
      end
  | MRead d n =>
      match DNSConn_Read d n s with
      | Ok (_, s') => Ok (Dns s' gs ks made (taken ++ log_taken d s)%list)
      | Fault f => Fault f
      end
  | MBinding g => Ok (Dns (set_binding g s) gs ks made taken)
  | MAllIP m => Ok (Dns (set_allIP m s) gs ks made taken)
  end.

Fixpoint dns_moves (mvs : list dns_act) (w : dns) : outcome dns :=
  match mvs with
  | [] => Ok w
  | mv :: mvs => match dns_move mv w with Ok w => dns_moves mvs w | Fault f => Fault f end
  end.

(** The state that [NewDNSProcessor] leaves, and what can be reached from it. *)
Definition dns0 (s : socks) : dns := Dns s [] [] ∅ [].
Definition dns_init (s : socks) : Prop := objects s = ∅ /\ dns_conns s = ∅ /\ dns_procs s = [].
Definition dns_reachable (w : dns) : Prop :=
  exists s mvs, dns_init s /\ dns_moves mvs (dns0 s) = Ok w.

Lemma dns_reachable_ind (I : dns -> Prop) :
  (forall s, dns_init s -> I (dns0 s)) ->
  (forall w mv w', I w -> dns_move mv w = Ok w' -> I w') ->
  forall w, dns_reachable w -> I w.
Proof.
  intros H0 Hstep w (s & mvs & Hs & Hm). specialize (H0 s Hs). revert Hm H0.
  generalize (dns0 s). induction mvs as [|mv mvs IH]; intros w0; cbn; [by intros [= <-]|].
  destruct (dns_move mv w0) as [w1|] eqn:Hmv; [|done]. intros Hm H0. eauto.
Qed.

(** ** One goroutine alone *)

(** [n] steps without interference. *)
Fixpoint dns_steps (n : nat) (r : conn) (pc : dns_pc) : K dns_pc :=
  match n with
  | O => mret pc
  | S n => pc' ← dns_step r pc; match pc' with
                               | AtRead | AtEnd => mret pc'
                               | _ => dns_steps n r pc'
                               end
  end.

(** From one read to the next this is [conn_Read] and [dns_turn], and a [Close]
    without interference is [DNSConn_Close]. *)
Lemma dns_alone r s :
  dns_steps 5 r AtRead s =
  ('(data, err) ← conn_Read r 4096;
   if err : bool then mret AtEnd
   else more ← dns_turn Unpack range Compile next r data;
        mret (if more : bool then AtRead else AtEnd)) s.
Proof.
  cbn [dns_steps]. unfold dns_step, dns_turn. set (m := conn_Read r 4096). clearbody m.
  unfold mbind, M_bind, mret, M_ret, gets, modify, stop. destruct (m s) as [[[data [|]] s1]|]; [done| |done]. cbn [id].
  destruct (Unpack data) as [msg|]; [|done]. destruct (Question msg) as [|name qs]; [done|].
  destruct (Find range Compile (gfw s1) name) as [target|]; [|done].
  destruct (dns_conns s1 !! (address r, target)) as [c|].
  { by destruct (at_readQueued _ _ s1) as [[? ?]|]. }
  destruct (NewDNSConn r target s1) as [[c s2]|]; [|done].
  destruct (next c target s2) as [[[|] s3]|]; [done| |done].
  by destruct (at_readQueued _ _ _) as [[? ?]|].
Qed.

Fixpoint close_dns_steps (n : nat) (d : ptr) (key : bool * ptr * string) (pc : dns_close_pc) :
    K dns_close_pc :=
  match n with
  | O => mret pc
  | S n => pc' ← close_dns_step d key pc;
           match pc' with CloseEnd => mret pc' | _ => close_dns_steps n d key pc' end
  end.

Lemma close_alone d key s :
  (close_dns_steps 4 d key CloseCheck;; mret tt) s = (DNSConn_Close d key;; mret tt) s.
Proof.
  unfold DNSConn_Close. cbn [close_dns_steps]. unfold close_dns_step.
  set (m1 := at_dns d (gets snd)).
  set (m2 := at_dns d (modify (fun s => (s.1, true)))).
  set (m3 := at_readQueued d chan_close). clearbody m1 m2 m3.
  unfold mbind, M_bind, mret, M_ret.
  destruct (m1 s) as [[[|] s1]|]; [done| |done].
  destruct (m2 s1) as [[u s2]|]; [|done]. by destruct (m3 s2) as [[v s3]|].
Qed.

(** ** The invariant *)

(** What was read from the queue of the [DNSConn] at [d], what a goroutine put
    into it, and what was put in as far as the state tells. *)
Definition read_of (d : ptr) (taken : list (ptr * bytes)) : list bytes :=
  (filter (fun x => x.1 = d) taken).*2.
Definition put_in (d : ptr) (out : list (option ptr * (string * bytes))) :
    list (string * bytes) := (filter (fun x => x.1 = Some d) out).*2.
Definition buffered (s : socks) (d : ptr) : list bytes :=
  match objects s !! d with Some (DNSConn q _) => c_buf q | _ => [] end.
Definition contents (taken : list (ptr * bytes)) (s : socks) (d : ptr) : list bytes :=
  (read_of d taken ++ buffered s d)%list.

#[local] Arguments address c : simpl never.
#[local] Arguments read_of d taken : simpl never.
#[local] Arguments put_in d out : simpl never.
#[local] Arguments contents taken s d : simpl never.

(** The packet that a goroutine has read and not put anywhere yet. *)
Definition pending (pc : dns_pc) : list (string * bytes) :=
  match pc with
  | AtLookup t b | AtProcConn _ t b | AtInsert _ t b | AtSend _ t b => [(t, b)]
  | AtRead | AtEnd => []
  end.

(** Nobody has called [Close] of a connection with this key. *)
Definition unclosed (key : bool * ptr * string) (ks : list closer) : Prop :=
  Forall (fun k => k_key k <> key) ks.

(** A [Close] has closed the queue, or found it closed. *)
Definition queue_closed (pc : dns_close_pc) : bool :=
  match pc with CloseRemove | CloseEnd => true | _ => false end.

(** What holds of one goroutine of [proc]. *)
Record proc_ok (w : dns) (g : goroutine) : Prop := ProcOk {
  po_conn : exists p, g_conn g = CPcb p;
  po_pc :
    match g_pc g with
    | AtProcConn c t _ | AtInsert c t _ =>
        exists d, c = CDns d (g_conn g) t /\ d_made w !! d = Some (g_conn g, t) /\
          dns_conns (d_socks w) !! (address (g_conn g), t) = None
    | AtSend c t _ =>
        exists d, c = CDns d (g_conn g) t /\ d_made w !! d = Some (g_conn g, t) /\
          (unclosed (address (g_conn g), t) (d_closers w) ->
           dns_conns (d_socks w) !! (address (g_conn g), t) = Some c)
    | _ => True
    end;
  po_asked : g_asked g = ((g_out g).*2 ++ pending (g_pc g))%list;
  po_out d t b :
    (Some d, (t, b)) ∈ g_out g -> d_made w !! d = Some (g_conn g, t) /\
          (unclosed (address (g_conn g), t) (d_closers w) ->
       dns_conns (d_socks w) !! (address (g_conn g), t) = Some (CDns d (g_conn g) t));
  po_queue d t :
    d_made w !! d = Some (g_conn g, t) ->
    pair t <$> contents (d_taken w) (d_socks w) d = put_in d (g_out g)
}.

(** What holds of the shared state, and all together. *)
Record store_ok (w : dns) : Prop := StoreOk {
  so_made d : is_Some (d_made w !! d) <->
    exists q cl, objects (d_socks w) !! d = Some (DNSConn q cl);
  so_map k c : dns_conns (d_socks w) !! k = Some c ->
    exists d p t, c = CDns d (CPcb p) t /\ k = (address (CPcb p), t) /\
      d_made w !! d = Some (CPcb p, t);
  so_owner d r t : d_made w !! d = Some (r, t) -> r ∈ g_conn <$> d_procs w;
  so_taken d b : (d, b) ∈ d_taken w -> is_Some (d_made w !! d);
  so_closers k : k ∈ d_closers w ->
    exists r t, d_made w !! k_dns k = Some (r, t) /\ k_key k = (address r, t);
  so_closed d q cl : objects (d_socks w) !! d = Some (DNSConn q cl) -> c_closed q = true ->
    exists k, k ∈ d_closers w /\ k_dns k = d /\ queue_closed (k_pc k) = true;
  so_nodup : NoDup (g_conn <$> d_procs w)
}.
Record dns_inv (w : dns) : Prop := DnsInv {
  di_store : store_ok w;
  di_procs g : g ∈ d_procs w -> proc_ok w g
}.

(** What a step of something else than the goroutine for [r] leaves alone. *)
Record frame (w w' : dns) (r : conn) : Prop := Frame {
  fr_made d t : d_made w' !! d = Some (r, t) <-> d_made w !! d = Some (r, t);
  fr_contents d t : d_made w !! d = Some (r, t) ->
    contents (d_taken w') (d_socks w') d = contents (d_taken w) (d_socks w) d;
  fr_conns t :
    dns_conns (d_socks w') !! (address r, t) = dns_conns (d_socks w) !! (address r, t) \/
    dns_conns (d_socks w') !! (address r, t) = None /\
      ~ unclosed (address r, t) (d_closers w');
  fr_closers key : unclosed key (d_closers w') -> unclosed key (d_closers w)
}.

Lemma proc_ok_frame w w' g : proc_ok w g -> frame w w' (g_conn g) -> proc_ok w' g.
Proof.
  intros [Hconn Hpc Hasked Hout Hq] [Hm Hc Hd Hk].
  split; [done| |done| |].
  - destruct (g_pc g) as [| |c t b|c t b|c t b|]; try done.
    1,2: destruct Hpc as (d & -> & Hmd & Hn); exists d; rewrite Hm; split_and!; [done..|];
      destruct (Hd t) as [-> | [? _]]; done.
    destruct Hpc as (d & -> & Hmd & Hn). exists d. rewrite Hm. split_and!; [done..|].
    intros Hu. destruct (Hd t) as [-> | [_ []]]; [|done]. auto.
  - intros d t b Hin. destruct (Hout d t b Hin) as [Hmd Hn]. rewrite Hm. split; [done|].
    intros Hu. destruct (Hd t) as [-> | [_ []]]; [|done]. auto.
  - intros d t Hmd. rewrite Hm in Hmd. by rewrite (Hc d t), (Hq d t).
Qed.

(** A step of nothing that is a goroutine of [proc]. *)
Lemma inv_frame w w' :
  dns_inv w -> d_procs w' = d_procs w -> store_ok w' ->
  (forall r, r ∈ g_conn <$> d_procs w -> frame w w' r) -> dns_inv w'.
Proof.
  intros [Hs Hp] He Hs' Hf. split; [done|]. intros g. rewrite He. intros Hg.
  eapply proc_ok_frame; [by apply Hp|]. apply Hf. by apply list_elem_of_fmap_2.
Qed.

(** A step of one of them. *)
Lemma inv_proc w w' i g g' :
  dns_inv w -> d_procs w !! i = Some g -> d_procs w' = <[i := g']> (d_procs w) ->
  g_conn g' = g_conn g -> store_ok w' -> proc_ok w' g' ->
  (forall r, r ∈ g_conn <$> d_procs w -> r <> g_conn g -> frame w w' r) -> dns_inv w'.
Proof.
  intros [Hs Hp] Hi He Hc Hs' Hg' Hf. split; [done|]. intros g2. rewrite He.
  intros [j Hj]%list_elem_of_lookup_1. destruct (decide (i = j)) as [<-|Hne].
  - rewrite list_lookup_insert_eq in Hj by by eapply lookup_lt_Some. by injection Hj as <-.
  - rewrite list_lookup_insert_ne in Hj by done.
    assert (g2 ∈ d_procs w) by by eapply list_elem_of_lookup_2.
    eapply proc_ok_frame; [by apply Hp|]. apply Hf; [by apply list_elem_of_fmap_2|].
    intros Heq. apply Hne. eapply (NoDup_lookup (g_conn <$> d_procs w)); [apply Hs| |].
    + by rewrite list_lookup_fmap, Hi.
    + by rewrite list_lookup_fmap, Hj; cbn; rewrite Heq.
Qed.

Lemma store_procs w gs :
  store_ok w -> g_conn <$> gs = g_conn <$> d_procs w ->
  store_ok (Dns (d_socks w) gs (d_closers w) (d_made w) (d_taken w)).
Proof. intros [] Hf. split; cbn; rewrite ?Hf; done. Qed.

Lemma conns_insert (gs : list goroutine) i g g' :
  gs !! i = Some g -> g_conn g' = g_conn g -> g_conn <$> <[i := g']> gs = g_conn <$> gs.
Proof.
  intros Hi Hc. rewrite list_fmap_insert, Hc. apply list_insert_id.
  by rewrite list_lookup_fmap, Hi.
Qed.

(** Only the point that a goroutine is at changes. *)
Lemma inv_pc s gs ks made taken i g g' :
  dns_inv (Dns s gs ks made taken) -> gs !! i = Some g -> g_conn g' = g_conn g ->
  proc_ok (Dns s gs ks made taken) g' -> dns_inv (Dns s (<[i := g']> gs) ks made taken).
Proof.
  intros Hw Hi Hc Hg'.
  assert (Hf : proc_ok (Dns s (<[i := g']> gs) ks made taken) g') by by destruct Hg'; split.
  apply (inv_proc _ (Dns s (<[i := g']> gs) ks made taken) i g g' Hw Hi eq_refl Hc); [|done|].
  - apply (store_procs (Dns s gs ks made taken)); [apply Hw|]. by eapply conns_insert.
  - intros r _ _. by split; cbn; auto.
Qed.

(** A step of [at_dns] on the state. *)
Lemma at_dns_inv {X} d (m : M (chan bytes * bool) X) s x s' :
  at_dns d m s = Ok (x, s') ->
  exists q c q' c', objects s !! d = Some (DNSConn q c) /\ m (q, c) = Ok (x, (q', c')) /\
    s' = set_objects (<[d := DNSConn q' c']> (objects s)) s.
Proof.
  unfold at_dns, zoom, at_key. destruct (objects s !! d) as [[q c|]|] eqn:Ho; [|done..].
  destruct (m (q, c)) as [[y [q' c']]|] eqn:Hm; [|done]. intros [= <- <-].
  by exists q, c, q', c'.
Qed.

Lemma at_readQueued_inv {X} d (m : M (chan bytes) X) s x s' :
  at_readQueued d m s = Ok (x, s') ->
  exists q c q', objects s !! d = Some (DNSConn q c) /\ m q = Ok (x, q') /\
    s' = set_objects (<[d := DNSConn q' c]> (objects s)) s.
Proof.
  intros (q & c & q' & c' & Ho & Hm & ->)%at_dns_inv. exists q, c. revert Hm.
  unfold zoom. cbn. destruct (m q) as [[y q'']|]; [|done]. intros [= <- <- <-].
  by exists q''.
Qed.

(** What a step does that makes no [DNSConn] and puts none into the map. *)
Record tame (w w' : dns) : Prop := Tame {
  tm_objects d : (exists q cl, objects (d_socks w') !! d = Some (DNSConn q cl)) <->
    exists q cl, objects (d_socks w) !! d = Some (DNSConn q cl);
  tm_conns k c : dns_conns (d_socks w') !! k = Some c -> dns_conns (d_socks w) !! k = Some c;
  tm_procs : g_conn <$> d_procs w' = g_conn <$> d_procs w;
  tm_made : d_made w' = d_made w;
  tm_taken d b : (d, b) ∈ d_taken w' -> (d, b) ∈ d_taken w \/ is_Some (d_made w !! d);
  tm_closers k : k ∈ d_closers w' ->
    exists r t, d_made w !! k_dns k = Some (r, t) /\ k_key k = (address r, t);
  tm_queue_closed k : k ∈ d_closers w -> queue_closed (k_pc k) = true ->
    exists k', k' ∈ d_closers w' /\ k_dns k' = k_dns k /\ queue_closed (k_pc k') = true;
  tm_closed d q' cl' : objects (d_socks w') !! d = Some (DNSConn q' cl') ->
    c_closed q' = true ->
    (exists q cl, objects (d_socks w) !! d = Some (DNSConn q cl) /\ c_closed q = true) \/
    exists k, k ∈ d_closers w' /\ k_dns k = d /\ queue_closed (k_pc k) = true
}.

Lemma store_tame w w' : store_ok w -> tame w w' -> store_ok w'.
Proof.
  intros [S1 S2 S3 S4 S5 S6 S7] [T1 T2 T3 T4 T5 T6 T7 T8].
  split; rewrite ?T3, ?T4; try done.
  - intros d. by rewrite T1.
  - intros k c Hk. auto.
  - intros d b [?|?]%T5; eauto.
  - intros d q cl Ho Hc. destruct (T8 d q cl Ho Hc) as [(q0 & cl0 & Ho0 & Hc0)|Hk]; [|done].
    destruct (S6 d q0 cl0 Ho0 Hc0) as (k & Hk & <- & Hq). eauto.
Qed.

(** The queue of one [DNSConn] changes. *)
Lemma tame_queue w d q c q' c' taken :
  store_ok w -> objects (d_socks w) !! d = Some (DNSConn q c) ->
  (c_closed q' = true -> c_closed q = true) ->
  (forall e b, (e, b) ∈ taken -> (e, b) ∈ d_taken w \/ e = d) ->
  tame w (Dns (set_objects (<[d := DNSConn q' c']> (objects (d_socks w))) (d_socks w))
            (d_procs w) (d_closers w) (d_made w) taken).
Proof.
  intros Hs Ho Hc Ht. split; cbn; try done.
  - intros e. destruct (decide (e = d)) as [->|Hne].
    + rewrite lookup_insert_eq. split; intros _; eauto.
    + by rewrite lookup_insert_ne.
  - intros e b [?| ->]%Ht; [by left|right]. apply (so_made _ Hs). eauto.
  - apply Hs.
  - eauto.
  - intros e q0 cl0. destruct (decide (e = d)) as [->|Hne].
    + rewrite lookup_insert_eq. intros [= <- <-] ?. left. eauto.
    + rewrite lookup_insert_ne by done. eauto.
Qed.

Lemma buffered_insert d q c s e :
  buffered (set_objects (<[d := DNSConn q c]> (objects s)) s) e =
    if decide (e = d) then c_buf q else buffered s e.
Proof.
  unfold buffered. cbn. destruct (decide (e = d)) as [->|Hne].
  - by rewrite lookup_insert_eq.
  - by rewrite lookup_insert_ne.
Qed.

Lemma filter_none {A} (P : A -> Prop) `{forall x, Decision (P x)} l :
  (forall x, x ∈ l -> ~ P x) -> filter P l = [].
Proof.
  intros Hl. induction l as [|x l IH]; [done|].
  rewrite filter_cons_False by (apply Hl, list_elem_of_here).
  apply IH. intros y Hy. by apply Hl, list_elem_of_further.
Qed.

Lemma read_of_app d l l' : read_of d (l ++ l')%list = (read_of d l ++ read_of d l')%list.
Proof. unfold read_of. by rewrite filter_app, fmap_app. Qed.
Lemma put_in_app d l l' : put_in d (l ++ l')%list = (put_in d l ++ put_in d l')%list.
Proof. unfold put_in. by rewrite filter_app, fmap_app. Qed.

(** [Read] moves the first packet. *)
Lemma read_contents d n s x s' taken e :
  DNSConn_Read d n s = Ok (x, s') ->
  exists q c q' , objects s !! d = Some (DNSConn q c) /\ c_closed q' = c_closed q /\
    s' = set_objects (<[d := DNSConn q' c]> (objects s)) s /\
    contents (taken ++ log_taken d s)%list s' e = contents taken s e.
Proof.
  unfold DNSConn_Read, mbind, M_bind.
  destruct (at_readQueued d chan_recv s) as [[o s1]|] eqn:Hr; [|done].
  intros Hx. assert (s' = s1) as ->.
  { destruct o; [case_decide|]; by injection Hx as _ ->. }
  apply at_readQueued_inv in Hr as (q & c & q' & Ho & Hq & ->).
  exists q, c, q'. apply chan_recv_inv in Hq. split; [done|].
  split; [by destruct o; [|destruct Hq as (_ & _ & ->)]; [destruct Hq as (_ & _ & ->)|]|].
  split; [done|]. unfold contents, log_taken. rewrite Ho, read_of_app, buffered_insert.
  assert (Hb : buffered s d = c_buf q) by (unfold buffered; by rewrite Ho).
  destruct o as [b|].
  - destruct Hq as (Hq & _ & _). rewrite Hq. unfold read_of at 2. rewrite filter_cons, filter_nil. cbn.
    destruct (decide (e = d)) as [->|Hne].
    + rewrite decide_True by done. cbn. rewrite Hb, Hq, <- app_assoc. done.
    + rewrite decide_False by done. cbn. by rewrite app_nil_r.
  - destruct Hq as (Hq & _ & ->). rewrite Hq. cbn. rewrite app_nil_r.
    destruct (decide (e = d)) as [->|Hne]; [|done]. by rewrite Hb, Hq.
Qed.

Lemma frame_same w w' r :
  d_made w' = d_made w ->
  (forall key, unclosed key (d_closers w') -> unclosed key (d_closers w)) ->
  (forall t, dns_conns (d_socks w') !! (address r, t) = dns_conns (d_socks w) !! (address r, t)) ->
  (forall d t, d_made w !! d = Some (r, t) ->
     contents (d_taken w') (d_socks w') d = contents (d_taken w) (d_socks w) d) ->
  frame w w' r.
Proof. intros Hm Hk Hd Hc. split; [by intros; rewrite Hm|done|by left|done]. Qed.

(** ** The moves of the others *)

Lemma inv_read w d n x s' :
  dns_inv w -> DNSConn_Read d n (d_socks w) = Ok (x, s') ->
  dns_inv (Dns s' (d_procs w) (d_closers w) (d_made w)
             (d_taken w ++ log_taken d (d_socks w))%list).
Proof.
  intros Hw Hr.
  destruct (read_contents d n _ _ _ (d_taken w) d Hr) as (q & c & q' & Ho & Hc & Hs' & _).
  eapply inv_frame; [done|done| |].
  - eapply store_tame; [apply Hw|]. rewrite Hs'. eapply tame_queue; [apply Hw|done| |].
    + by rewrite Hc.
    + intros e b [?|He]%elem_of_app; [by left|right]. unfold log_taken in He. rewrite Ho in He.
      destruct (c_buf q); [by apply elem_of_nil in He|].
      by apply list_elem_of_singleton in He as [= -> _].
  - intros r _. apply frame_same; [done|done| |].
    + by rewrite Hs'.
    + intros e t _. cbn [d_taken d_socks].
      by destruct (read_contents d n _ _ _ (d_taken w) e Hr) as (? & ? & ? & _ & _ & _ & ->).
Qed.

(** What processors and the rest of the program do. *)
Lemma kept_eq s s' :
  objects s' = objects s -> dns_conns s' = dns_conns s -> gfw s' = gfw s -> kept s s'.
Proof. intros Ho Hd Hg. split; [done..|]. by rewrite Ho. Qed.

Lemma kept_buffered s s' d : kept s s' -> buffered s' d = buffered s d.
Proof.
  intros [_ _ Ho]. unfold buffered.
  destruct (objects s !! d) as [[q c|]|] eqn:H1; [by rewrite (proj2 (Ho d q c) H1)|..];
    destruct (objects s' !! d) as [[q c|]|] eqn:H2; try done;
    apply Ho in H2; congruence.
Qed.

Lemma inv_kept w s' :
  dns_inv w -> kept (d_socks w) s' ->
  dns_inv (Dns s' (d_procs w) (d_closers w) (d_made w) (d_taken w)).
Proof.
  intros Hw Hk. pose proof Hk as [Hd _ Ho]. eapply inv_frame; [done|done| |].
  - destruct Hw as [[S1 S2 S3 S4 S5 S6 S7] _]. split; cbn; rewrite ?Hd; try done.
    + intros d. rewrite S1. by setoid_rewrite Ho.
    + intros d q cl. rewrite Ho. apply S6.
  - intros r _. apply frame_same; cbn; [done|done|by rewrite Hd|].
    intros d t _. unfold contents. by rewrite (kept_buffered _ _ _ Hk).
Qed.

Lemma inv_close_call w d r t :
  dns_inv w -> d_made w !! d = Some (r, t) ->
  dns_inv (Dns (d_socks w) (d_procs w) (d_closers w ++ [Closer d (address r, t) CloseCheck])%list
             (d_made w) (d_taken w)).
Proof.
  intros Hw Hd. eapply inv_frame; [done|done| |].
  - eapply store_tame; [apply Hw|]. split; cbn; eauto.
    + intros k [Hk| ->%list_elem_of_singleton]%elem_of_app; [by apply Hw|]. cbn. eauto.
    + intros k Hk ?. exists k. split_and!; [|done..]. apply elem_of_app. by left.
  - intros r' _. apply frame_same; cbn; [done| |done|done].
    intros key [Hk _]%Forall_app. exact Hk.
Qed.

(** The goroutines in [Close] stay at their connections. *)
Lemma closers_insert (ks : list closer) j d key pc pc' k :
  ks !! j = Some (Closer d key pc) -> k ∈ <[j := Closer d key pc']> ks ->
  exists k0, k0 ∈ ks /\ k_dns k0 = k_dns k /\ k_key k0 = k_key k.
Proof.
  intros Hj [i Hi]%list_elem_of_lookup_1.
  apply list_lookup_insert_Some in Hi as [(<- & <- & _)|[_ Hi]].
  - exists (Closer d key pc). split; [by eapply list_elem_of_lookup_2|done].
  - exists k. split; [by eapply list_elem_of_lookup_2|done].
Qed.
Lemma closers_mono (ks : list closer) j d key pc pc' k :
  ks !! j = Some (Closer d key pc) -> (queue_closed pc = true -> queue_closed pc' = true) ->
  k ∈ ks -> queue_closed (k_pc k) = true ->
  exists k', k' ∈ <[j := Closer d key pc']> ks /\ k_dns k' = k_dns k /\
    queue_closed (k_pc k') = true.
Proof.
  intros Hj Hm [i Hi]%list_elem_of_lookup_1 Hq. destruct (decide (i = j)) as [->|Hne].
  - rewrite Hj in Hi. injection Hi as <-. exists (Closer d key pc'). split_and!; auto.
    eapply list_elem_of_lookup_2, list_lookup_insert_eq. by eapply lookup_lt_Some.
  - exists k. split_and!; [|done..]. eapply list_elem_of_lookup_2.
    by rewrite list_lookup_insert_ne.
Qed.
Lemma unclosed_insert (ks : list closer) j d key pc pc' key' :
  ks !! j = Some (Closer d key pc) ->
  unclosed key' (<[j := Closer d key pc']> ks) -> unclosed key' ks.
Proof.
  unfold unclosed. rewrite <- !(Forall_fmap k_key (fun x => x <> key')), list_fmap_insert.
  intros Hj. cbn [k_key]. by rewrite list_insert_id by (by rewrite list_lookup_fmap, Hj).
Qed.

(** What a step of [Close] does to the state. *)
Lemma close_dns_inv d key pc s pc' s' :
  close_dns_step d key pc s = Ok (pc', s') ->
  (queue_closed pc = true -> queue_closed pc' = true) /\
  (forall taken e, contents taken s' e = contents taken s e) /\
  (forall e, (exists q cl, objects s' !! e = Some (DNSConn q cl)) <->
     exists q cl, objects s !! e = Some (DNSConn q cl)) /\
  (forall e q' cl', objects s' !! e = Some (DNSConn q' cl') -> c_closed q' = true ->
     (exists q cl, objects s !! e = Some (DNSConn q cl) /\ c_closed q = true) \/
     e = d /\ queue_closed pc' = true) /\
  (dns_conns s' = dns_conns s \/ dns_conns s' = delete key (dns_conns s)).
Proof.
  assert (Hone : forall q c q' c', objects s !! d = Some (DNSConn q c) -> c_buf q' = c_buf q ->
    (c_closed q' = true -> c_closed q = true \/ queue_closed pc' = true) ->
    s' = set_objects (<[d := DNSConn q' c']> (objects s)) s ->
    (forall taken e, contents taken s' e = contents taken s e) /\
    (forall e, (exists q cl, objects s' !! e = Some (DNSConn q cl)) <->
       exists q cl, objects s !! e = Some (DNSConn q cl)) /\
    (forall e q' cl', objects s' !! e = Some (DNSConn q' cl') -> c_closed q' = true ->
       (exists q cl, objects s !! e = Some (DNSConn q cl) /\ c_closed q = true) \/
       e = d /\ queue_closed pc' = true) /\
    (dns_conns s' = dns_conns s \/ dns_conns s' = delete key (dns_conns s))).
  { intros q c q' c' Ho Hb Hc ->. split_and!; [| | |by left].
    - intros taken e. unfold contents. rewrite buffered_insert.
      destruct (decide (e = d)) as [->|]; [|done]. unfold buffered. by rewrite Ho, Hb.
    - intros e. cbn. destruct (decide (e = d)) as [->|Hne].
      + rewrite lookup_insert_eq. split; intros _; eauto.
      + by rewrite lookup_insert_ne.
    - intros e q0 cl0. cbn. destruct (decide (e = d)) as [->|Hne].
      + rewrite lookup_insert_eq. intros [= <- <-] [?|?]%Hc; [left|by right]. eauto.
      + rewrite lookup_insert_ne by done. eauto. }
  destruct pc; cbn [close_dns_step]; [| | | |done].
  - unfold mbind, M_bind. destruct (at_dns d _ s) as [[b s1]|] eqn:Ha; [|done].
    intros [= <- <-]. split; [done|].
    apply at_dns_inv in Ha as (q & c & q' & c' & Ho & [= <- <- <-] & Hs').
    eapply Hone; [exact Ho| | |exact Hs']; [done|by left].
  - unfold mbind, M_bind. destruct (at_dns d _ s) as [[b s1]|] eqn:Ha; [|done].
    intros [= <- <-]. split; [done|].
    apply at_dns_inv in Ha as (q & c & q' & c' & Ho & [= <- <-] & Hs').
    eapply Hone; [exact Ho| | |exact Hs']; [done|by left].
  - unfold mbind, M_bind. destruct (at_readQueued d _ s) as [[b s1]|] eqn:Ha; [|done].
    intros [= <- <-]. split; [done|].
    apply at_readQueued_inv in Ha as (q & c & q' & Ho & Hq & Hs').
    apply chan_close_inv in Hq as [_ ->].
    eapply Hone; [exact Ho| | |exact Hs']; [done|by right].
  - intros [= <- <-]. split; [done|]. split_and!; [done|done| |by right]. eauto.
Qed.

Lemma inv_closer w j d key pc pc' s' :
  dns_inv w -> d_closers w !! j = Some (Closer d key pc) ->
  close_dns_step d key pc (d_socks w) = Ok (pc', s') ->
  dns_inv (Dns s' (d_procs w) (<[j := Closer d key pc']> (d_closers w)) (d_made w) (d_taken w)).
Proof.
  intros Hw Hj (Hpc & Hcont & Hobj & Hcl & Hd)%close_dns_inv.
  assert (Hin : Closer d key pc' ∈ <[j := Closer d key pc']> (d_closers w)).
  { eapply list_elem_of_lookup_2, list_lookup_insert_eq. by eapply lookup_lt_Some. }
  eapply inv_frame; [done|done| |].
  - eapply store_tame; [apply Hw|]. split; cbn; eauto.
    + intros k c. destruct Hd as [->| ->]; [done|]. by intros [_ ?]%lookup_delete_Some.
    + intros k Hk. destruct (closers_insert _ _ _ _ _ _ _ Hj Hk) as (k0 & Hk0 & <- & <-).
      by apply Hw.
    + intros k. by apply (closers_mono _ _ _ _ _ _ _ Hj).
    + intros e q' cl' Ho Hq. destruct (Hcl e q' cl' Ho Hq) as [?|[-> ?]]; [by left|right].
      eauto.
  - intros r _. split; cbn [d_made d_closers d_socks d_taken]; [done|by intros| |].
    + intros t. destruct Hd as [->| ->]; [by left|].
      destruct (decide (key = (address r, t))) as [->|Hne].
      * right. rewrite lookup_delete_eq. split; [done|]. intros Hu.
        unfold unclosed in Hu. rewrite Forall_forall in Hu. by apply (Hu _ Hin).
      * left. by rewrite lookup_delete_ne.
    + intros key'. by apply (unclosed_insert _ _ _ _ _ _ _ Hj).
Qed.

(** ** The moves of the goroutines of [proc] *)

Lemma inv_start w p s' :
  dns_inv w -> ~ Exists (fun g => address (g_conn g) = (false, p)) (d_procs w) ->
  objects s' = objects (d_socks w) -> dns_conns s' = dns_conns (d_socks w) ->
  dns_inv (Dns s' (d_procs w ++ [Goroutine (CPcb p) AtRead [] []])%list (d_closers w)
             (d_made w) (d_taken w)).
Proof.
  intros Hw Hp Ho Hd.
  assert (Hnew : CPcb p ∉ g_conn <$> d_procs w).
  { intros (g & Hg & Hin)%list_elem_of_fmap. apply Hp, Exists_exists. exists g.
    by rewrite <- Hg. }
  split.
  - destruct Hw as [[S1 S2 S3 S4 S5 S6 S7] _].
    split; cbn; rewrite ?Ho, ?Hd, ?fmap_app; try done.
    + intros d r t Hm. apply elem_of_app. left. eauto.
    + apply NoDup_app. split_and!; [done| |apply NoDup_singleton].
      by intros x Hx ->%list_elem_of_singleton.
  - intros g [Hg| ->%list_elem_of_singleton]%elem_of_app.
    + eapply proc_ok_frame; [by apply Hw|]. apply frame_same; cbn; [done|done|by rewrite Hd|].
      intros d t _. unfold contents, buffered. by rewrite Ho.
    + split; cbn; [by exists p|done|done| |].
      * by intros d t b ?%elem_of_nil.
      * intros d t Hm. exfalso. apply Hnew. by apply (so_owner _ (di_store _ Hw) d _ t).
Qed.

(** What each step of [proc] does. *)
Lemma read_step_inv p s pc' s' :
  dns_step (CPcb p) AtRead s = Ok (pc', s') ->
  (exists g, s' = set_binding g s) /\ (pc' = AtEnd \/ exists t b, pc' = AtLookup t b).
Proof.
  cbn [dns_step conn_Read]. set (m := Read p 4096). clearbody m. unfold zoom, mbind, M_bind.
  destruct (m (binding s)) as [[[data [|]] g]|]; [|cbn|done].
  { intros [= <- <-]. split; [by exists g|by left]. }
  destruct (Unpack data) as [msg|].
  2: { intros [= <- <-]. split; [by exists g|by left]. }
  destruct (Question msg) as [|name qs]; [done|]. unfold gets. cbn [id].
  destruct (Find range Compile _ name) as [t|]; [|done].
  intros [= <- <-]. split; [by exists g|right]. eauto.
Qed.

Lemma lookup_step_inv r t b s pc' s' :
  dns_step r (AtLookup t b) s = Ok (pc', s') ->
  (exists c, dns_conns s !! (address r, t) = Some c /\ pc' = AtSend c t b /\ s' = s) \/
  (exists d, dns_conns s !! (address r, t) = None /\ objects s !! d = None /\
     pc' = AtProcConn (CDns d r t) t b /\
     s' = set_objects (<[d := DNSConn (make_chan QUEUE) false]> (objects s)) s).
Proof.
  cbn [dns_step]. unfold mbind at 1, M_bind at 1, gets. cbn [id].
  destruct (dns_conns s !! (address r, t)) as [c|] eqn:Hc.
  { intros [= <- <-]. left. eauto. }
  destruct (NewDNSConn_run r t s) as (d & Hd & Hn). intros Hx.
  erewrite bind_Ok in Hx by exact Hn. injection Hx as <- <-. right. eauto.
Qed.

Lemma send_step_inv r c t b s pc' s' :
  dns_step r (AtSend c t b) s = Ok (pc', s') ->
  exists q cl, objects s !! (address c).2 = Some (DNSConn q cl) /\ c_closed q = false /\
    pc' = AtRead /\
    s' = set_objects (<[(address c).2 := DNSConn (Chan (c_cap q) (c_buf q ++ [b])%list false) cl]>
           (objects s)) s.
Proof.
  cbn [dns_step]. unfold mbind, M_bind.
  destruct (at_readQueued _ _ s) as [[u s1]|] eqn:Ha; [|done]. intros [= <- <-].
  apply at_readQueued_inv in Ha as (q & cl & q' & Ho & Hq & ->).
  apply chan_send_inv in Hq as (Hc & _ & ->). by exists q, cl.
Qed.

(** The packet is at a connection that is there. *)
Lemma inv_found w i r t b asked out c :
  let g := Goroutine r (AtLookup t b) asked out in
  dns_inv w -> d_procs w !! i = Some g ->
  dns_conns (d_socks w) !! (address r, t) = Some c ->
  dns_inv (Dns (d_socks w) (<[i := Goroutine r (AtSend c t b) asked out]> (d_procs w))
             (d_closers w) (d_made w) (d_taken w)).
Proof.
  intros g Hw Hi Hc. apply (inv_pc (d_socks w) _ _ _ _ i g); [by destruct w|done|done|].
  destruct (di_procs _ Hw g ltac:(by eapply list_elem_of_lookup_2)) as [[p Hp] Hpc Ha Ho Hq].
  cbn in Hp. subst r. split; cbn; try done; [by exists p|].
  destruct (so_map _ (di_store _ Hw) _ _ Hc) as (d & p' & t' & -> & [= <- <-] & Hm).
  by exists d.
Qed.

(** Nothing was put into or read from a connection that is not made yet. *)
Lemma unmade_empty w g d :
  store_ok w -> proc_ok w g -> d_made w !! d = None ->
  read_of d (d_taken w) = [] /\ put_in d (g_out g) = [].
Proof.
  intros Hs Hg Hn. unfold read_of, put_in. rewrite !filter_none; [done| |].
  - intros [o [t b]] Hin He. cbn in He. subst o. apply (po_out _ _ Hg) in Hin as [Hm _].
    congruence.
  - intros [e b] Hin He. cbn in He. subst e. apply (so_taken _ Hs) in Hin as [x Hx].
    congruence.
Qed.

(** A connection is made. *)
Lemma inv_new w i r t b asked out d :
  let g := Goroutine r (AtLookup t b) asked out in
  dns_inv w -> d_procs w !! i = Some g ->
  dns_conns (d_socks w) !! (address r, t) = None -> objects (d_socks w) !! d = None ->
  dns_inv (Dns (set_objects (<[d := DNSConn (make_chan QUEUE) false]> (objects (d_socks w)))
                  (d_socks w))
             (<[i := Goroutine r (AtProcConn (CDns d r t) t b) asked out]> (d_procs w))
             (d_closers w) (<[d := (r, t)]> (d_made w)) (d_taken w)).
Proof.
  intros g Hw Hi Hc Hd. pose proof Hw as [Hs Hp].
  assert (Hg : g ∈ d_procs w) by by eapply list_elem_of_lookup_2.
  assert (Hn : d_made w !! d = None).
  { apply eq_None_not_Some. intros (q & cl & Ho)%(so_made _ Hs). congruence. }
  assert (Hne : forall e x, d_made w !! e = Some x -> e <> d) by (intros e x He ->; congruence).
  assert (Hcont : forall e x, d_made w !! e = Some x ->
    contents (d_taken w) (set_objects (<[d := DNSConn (make_chan QUEUE) false]>
      (objects (d_socks w))) (d_socks w)) e = contents (d_taken w) (d_socks w) e).
  { intros e x He. unfold contents. rewrite buffered_insert, decide_False; [done|eauto]. }
  eapply inv_proc; [done|exact Hi|done|done| | |].
  - destruct Hs as [S1 S2 S3 S4 S5 S6 S7]. split; cbn; rewrite ?(conns_insert _ _ _ _ Hi) by done; try done.
    + intros e. destruct (decide (e = d)) as [->|Hed].
      * rewrite !lookup_insert_eq. split; intros _; eauto.
      * by rewrite !lookup_insert_ne.
    + intros k c Hk. destruct (S2 k c Hk) as (e & p & t' & -> & -> & Hm).
      exists e, p, t'. by rewrite lookup_insert_ne by (by eapply not_eq_sym, Hne).
    + intros e r' t' [[<- [= <- <-]]|[_ Hm]]%lookup_insert_Some; [|eauto].
      change r with (g_conn g). by apply list_elem_of_fmap_2.
    + intros e b' Hin. apply lookup_insert_is_Some'. right. eauto.
    + intros k Hk. destruct (S5 k Hk) as (r' & t' & Hm & ?). exists r', t'.
      by rewrite lookup_insert_ne by (by eapply not_eq_sym, Hne).
    + intros e q cl [[<- [= <- <-]]|[_ Ho]]%lookup_insert_Some; [done|eauto].
  - destruct (Hp g Hg) as [Hconn Hpc Ha Ho Hq]. split; cbn; [done| |done| |].
    + exists d. by rewrite lookup_insert_eq.
    + intros e t' b' Hin. destruct (Ho e t' b' Hin) as [Hm ?].
      rewrite lookup_insert_ne by (by eapply not_eq_sym, Hne). done.
    + intros e t' [[<- [= <-]]|[_ Hm]]%lookup_insert_Some.
      * destruct (unmade_empty _ _ _ Hs (Hp g Hg) Hn) as [He Hput]. cbn in Hput.
        unfold contents. by rewrite Hput, He, buffered_insert, decide_True.
      * rewrite (Hcont e _ Hm). by apply Hq.
  - intros r' _ Hr'. split; cbn; [| |by left|done].
    + intros e t'. destruct (decide (e = d)) as [->|Hed].
      * rewrite lookup_insert_eq, Hn. split; [|done]. intros [= <- _]. by destruct Hr'.
      * by rewrite lookup_insert_ne.
    + intros e t' Hm. by eapply Hcont.
Qed.

Lemma proc_conn w g : dns_inv w -> g ∈ d_procs w -> exists p, g_conn g = CPcb p.
Proof. intros Hw Hg. apply (po_conn _ _ (di_procs _ Hw _ Hg)). Qed.

(** The new connection is put into the map. *)
Lemma inv_insert w i r t b asked out c :
  let g := Goroutine r (AtInsert c t b) asked out in
  dns_inv w -> d_procs w !! i = Some g ->
  dns_inv (Dns (set_dns_conns (<[(address r, t) := c]> (dns_conns (d_socks w))) (d_socks w))
             (<[i := Goroutine r (AtSend c t b) asked out]> (d_procs w))
             (d_closers w) (d_made w) (d_taken w)).
Proof.
  intros g Hw Hi. pose proof Hw as [Hs Hp].
  assert (Hg : g ∈ d_procs w) by by eapply list_elem_of_lookup_2.
  destruct (Hp g Hg) as [[p Hr] Hpc Ha Ho Hq]. cbn in Hr, Hpc. subst r.
  destruct Hpc as (d & -> & Hm & Hn).
  eapply inv_proc; [done|exact Hi|done|done| | |].
  - eapply (store_procs (Dns _ (d_procs w) _ _ _)); [|by eapply conns_insert].
    destruct Hs as [S1 S2 S3 S4 S5 S6 S7]. split; cbn; try done.
    intros k c [[<- <-]|[_ Hk]]%lookup_insert_Some; [|eauto]. by exists d, p, t.
  - split; cbn; [by exists p| |done| |done].
    + exists d. split_and!; [done..|]. intros _. by rewrite lookup_insert_eq.
    + intros e t' b' Hin. destruct (Ho e t' b' Hin) as [He Hu]. split; [done|].
      intros Hun%Hu. cbn in Hun. rewrite lookup_insert_ne; [done|]. intros [= <-].
      by rewrite Hn in Hun.
  - intros r' (g' & -> & Hg')%list_elem_of_fmap Hne.
    destruct (proc_conn w g' Hw Hg') as [p' Hp']. rewrite Hp' in Hne |- *. cbn in Hne.
    apply frame_same; cbn; [done|done| |done].
    intros t'. rewrite lookup_insert_ne; [done|]. intros [= Heq _].
    apply Hne. by rewrite Heq.
Qed.

(** A packet is put into its queue. *)
Lemma inv_put w i r t b asked out d q cl :
  let g := Goroutine r (AtSend (CDns d r t) t b) asked out in
  dns_inv w -> d_procs w !! i = Some g ->
  objects (d_socks w) !! d = Some (DNSConn q cl) ->
  dns_inv (Dns (set_objects (<[d := DNSConn (Chan (c_cap q) (c_buf q ++ [b])%list false) cl]>
                  (objects (d_socks w))) (d_socks w))
             (<[i := Goroutine r AtRead asked (out ++ [(Some d, (t, b))])%list]> (d_procs w))
             (d_closers w) (d_made w) (d_taken w)).
Proof.
  intros g Hw Hi Hd. pose proof Hw as [Hs Hp].
  assert (Hg : g ∈ d_procs w) by by eapply list_elem_of_lookup_2.
  destruct (Hp g Hg) as [Hconn Hpc Ha Ho Hq]. cbn in Hconn, Hpc, Ha, Ho, Hq.
  destruct Hpc as (d' & [= <-] & Hm & Hu).
  assert (Hcont : forall e, contents (d_taken w)
    (set_objects (<[d := DNSConn (Chan (c_cap q) (c_buf q ++ [b])%list false) cl]>
       (objects (d_socks w))) (d_socks w)) e =
    (contents (d_taken w) (d_socks w) e ++ if decide (e = d) then [b] else [])%list).
  { intros e. unfold contents. rewrite buffered_insert.
    destruct (decide (e = d)) as [->|_]; [|by rewrite app_nil_r].
    unfold buffered. rewrite Hd. cbn. by rewrite app_assoc. }
  eapply inv_proc; [done|exact Hi|done|done| | |].
  - eapply (store_procs (Dns _ (d_procs w) _ _ _)); [|by eapply conns_insert].
    eapply store_tame; [exact Hs|]. eapply tame_queue; [done|exact Hd|done|]. by left.
  - split; cbn; [done|done| | |].
    + by rewrite fmap_app, app_nil_r, Ha.
    + intros e t' b' [Hin|[= -> -> ->]%list_elem_of_singleton]%elem_of_app; [by eapply Ho|done].
    + intros e t' He. rewrite Hcont, fmap_app, (Hq e t' He), put_in_app. f_equal.
      unfold put_in. rewrite filter_cons, filter_nil. cbn.
      destruct (decide (e = d)) as [->|Hne].
      * rewrite Hm in He. injection He as <-. by rewrite decide_True.
      * by rewrite decide_False by congruence.
  - intros r' _ Hne. apply frame_same; cbn; [done|done|done|].
    intros e t' He. rewrite Hcont, decide_False; [by rewrite app_nil_r|].
    intros ->. cbn in Hne. congruence.
Qed.

Context `{!KeepsDns next}.

Lemma inv_mproc w i r pc asked out pc' s' :
  dns_inv w -> d_procs w !! i = Some (Goroutine r pc asked out) ->
  dns_step r pc (d_socks w) = Ok (pc', s') ->
  dns_inv (Dns s' (<[i := Goroutine r pc' (asked ++ log_asked pc pc')%list
                                          (out ++ log_out pc pc')%list]> (d_procs w))
             (d_closers w) (log_made r pc' (d_made w)) (d_taken w)).
Proof.
  intros Hw Hi Hs. set (g := Goroutine r pc asked out) in Hi.
  assert (Hg : g ∈ d_procs w) by by eapply list_elem_of_lookup_2.
  destruct (proc_conn w g Hw Hg) as [p Hp]. cbn in Hp.
  destruct pc as [|t b|c t b|c t b|c t b|].
  - subst r. apply read_step_inv in Hs as [[x ->] Hpc'].
    assert (Hw1 := inv_kept w (set_binding x (d_socks w)) Hw ltac:(by apply kept_eq)).
    destruct Hpc' as [->|(t & b & ->)]; cbn [log_asked log_out log_made];
      rewrite ?app_nil_r; (apply (inv_pc _ _ _ _ _ i g); [exact Hw1|done|done|]);
      destruct (di_procs _ Hw1 g Hg) as [? ? Ha ? ?]; cbn in Ha; split; cbn; try done.
    by rewrite Ha, app_nil_r.
  - apply lookup_step_inv in Hs as [(c & Hc & -> & ->)|(d & Hc & Hd & -> & ->)];
      cbn [log_asked log_out log_made]; rewrite !app_nil_r.
    + by eapply inv_found.
    + by eapply inv_new.
  - cbn [dns_step] in Hs. revert Hs. unfold mbind, M_bind.
    pose proof (keeps_dns (P := next) c t (d_socks w)) as Hk.
    destruct (next c t (d_socks w)) as [[err s1]|]; [|done]. intros [= <- <-].
    assert (Hw1 := inv_kept w s1 Hw Hk).
    assert (Hmade : log_made r (if err then AtRead else AtInsert c t b) (d_made w) = d_made w)
      by by destruct err.
    rewrite Hmade. apply (inv_pc _ _ _ _ _ i g); [exact Hw1|done|done|].
    destruct (di_procs _ Hw1 g Hg) as [? Hpc Ha Ho Hq]. cbn in Hpc, Ha, Ho, Hq.
    destruct err; cbn [log_asked log_out]; rewrite ?app_nil_r; split; cbn; try done.
    + by rewrite fmap_app, app_nil_r, Ha.
    + intros d t' b' [?|[=]%list_elem_of_singleton]%elem_of_app. by eapply Ho.
    + intros d t' Hd. rewrite put_in_app, (Hq d t' Hd). unfold put_in at 3.
      rewrite filter_cons, filter_nil, decide_False by done. by rewrite app_nil_r.
  - injection Hs as <- <-. cbn [log_asked log_out log_made]. rewrite !app_nil_r.
    by apply inv_insert.
  - apply send_step_inv in Hs as (q & cl & Hd & _ & -> & ->).
    cbn [log_asked log_out log_made]. rewrite app_nil_r.
    destruct (po_pc _ _ (di_procs _ Hw g Hg)) as (d & Hc & _). subst g. cbn in Hc. subst c.
    by eapply inv_put.
  - done.
Qed.

Lemma dns_inv_move w mv w' : dns_inv w -> dns_move mv w = Ok w' -> dns_inv w'.
Proof.
  intros Hw. pose proof Hw as Hw0. destruct w as [s gs ks made taken].
  destruct mv as [i|p|d|j|d n|g|m]; cbn [dns_move].
  - destruct (gs !! i) as [[r pc asked out]|] eqn:Hi; [|done].
    destruct (dns_step r pc s) as [[pc' s']|] eqn:Hs; [|done]. intros [= <-].
    by apply (inv_mproc _ i r pc asked out pc' s' Hw).
  - case_decide as Hp; [done|]. unfold DNS_ProcConn, mbind, M_bind, modify.
    intros [= <-]. by apply (inv_start _ p _ Hw).
  - destruct (made !! d) as [[r t]|] eqn:Hd; [|done]. intros [= <-].
    by apply (inv_close_call _ d r t Hw).
  - destruct (ks !! j) as [[d key pc]|] eqn:Hj; [|done].
    destruct (close_dns_step d key pc s) as [[pc' s']|] eqn:Hs; [|done]. intros [= <-].
    by apply (inv_closer _ j d key pc pc' s' Hw).
  - destruct (DNSConn_Read d n s) as [[x s']|] eqn:Hr; [|done]. intros [= <-].
    by apply (inv_read _ d n x s' Hw).
  - intros [= <-]. by apply (inv_kept _ _ Hw), kept_eq.
  - intros [= <-]. by apply (inv_kept _ _ Hw), kept_eq.
Qed.

Lemma dns_inv_reachable w : dns_reachable w -> dns_inv w.
Proof.
  revert w. apply dns_reachable_ind; [|intros w mv w'; apply dns_inv_move].
  intros s (Ho & Hd & Hp). split; [split|]; cbn; rewrite ?Ho, ?Hd; try done.
  - intros d. rewrite !lookup_empty. split; [by intros []|by intros (? & ? & ?)].
  - intros d b ?%elem_of_nil. done.
  - intros k ?%elem_of_nil. done.
  - constructor.
  - intros g ?%elem_of_nil. done.
Qed.

(** ** What is read *)

(** The packets of a goroutine for one target. *)
Definition queries (t : string) (l : list (string * bytes)) : list bytes :=
  (filter (fun x => x.1 = t) l).*2.

(** While nobody closes a connection for [r] and [t] and none is refused, all
    packets go to one. *)
Lemma put_in_queries w g d t :
  dns_inv w -> g ∈ d_procs w -> unclosed (address (g_conn g), t) (d_closers w) ->
  (forall b, (None, (t, b)) ∉ g_out g) ->
  dns_conns (d_socks w) !! (address (g_conn g), t) = Some (CDns d (g_conn g) t) ->
  (put_in d (g_out g)).*2 = queries t (g_out g).*2.
Proof.
  intros Hw Hg Hu Hno Hd. destruct (di_procs _ Hw _ Hg) as [_ _ _ Ho _].
  assert (Hl : forall o t' b, (o, (t', b)) ∈ g_out g -> o = Some d <-> t' = t).
  { intros o t' b Hin. split.
    - intros ->. destruct (Ho _ _ _ Hin) as [Hm Hc].
      destruct (so_map _ (di_store _ Hw) _ _ Hd) as (e & p & t0 & [= <- Hp <-] & _ & Hm').
      rewrite Hp in Hm. congruence.
    - intros ->. destruct o as [e|]; [|by destruct (Hno b)].
      destruct (Ho _ _ _ Hin) as [_ Hc]. specialize (Hc Hu). congruence. }
  clear -Hl. unfold put_in, queries. induction (g_out g) as [|[o [t' b]] l IH]; [done|].
  assert (IH' := IH ltac:(intros; eapply Hl, list_elem_of_further; eassumption)).
  specialize (Hl o t' b (list_elem_of_here _ _)). rewrite fmap_cons, !filter_cons. cbn.
  repeat case_decide; try tauto. cbn. by rewrite IH'.
Qed.

(** C13: Queries are read once, in order, by whoever reads the connection of their
    target, in every interleaving of the goroutines of [DNSProcessor] with each
    other, with the goroutines that read from and close the [DNSConn]s, and with
    the rest of the program.  What a goroutine has read from its datagram
    connection is what it has put into queues, or dropped as a processor refused
    the new connection, and what it still holds; for each [DNSConn] that it made,
    what [Read] took out followed by the queue is what the goroutine put in, all
    of it for the target of that connection; and while nobody calls [Close] for a
    target of this connection and none is refused, these are all its queries for
    the target, in one connection. *)
Theorem dns_streams w g :
  dns_reachable w -> g ∈ d_procs w ->
  g_asked g = ((g_out g).*2 ++ pending (g_pc g))%list /\
  (forall d t, d_made w !! d = Some (g_conn g, t) ->
     pair t <$> (read_of d (d_taken w) ++ buffered (d_socks w) d)%list =
       put_in d (g_out g)) /\
  (forall t, unclosed (address (g_conn g), t) (d_closers w) ->
     (forall b, (None, (t, b)) ∉ g_out g) ->
     match dns_conns (d_socks w) !! (address (g_conn g), t) with
     | None => queries t (g_out g).*2 = []
     | Some c => exists d q cl, c = CDns d (g_conn g) t /\
         objects (d_socks w) !! d = Some (DNSConn q cl) /\
         (read_of d (d_taken w) ++ c_buf q)%list = queries t (g_out g).*2
     end).
Proof.
  intros Hw%dns_inv_reachable Hg. pose proof (di_procs _ Hw _ Hg) as [Hc _ Ha Ho Hq].
  split_and!; [done|exact Hq|]. intros t Hu Hno. destruct Hc as [p Hp].
  destruct (dns_conns _ !! _) as [c|] eqn:Hd.
  - destruct (so_map _ (di_store _ Hw) _ _ Hd) as (d & p' & t' & -> & [= Hpp <-] & Hm).
    rewrite Hp in Hpp, Hd. injection Hpp as <-.
    destruct (proj1 (so_made _ (di_store _ Hw) d) ltac:(eauto)) as (q & cl & Hob).
    exists d, q, cl. rewrite Hp. split_and!; [done..|].
    rewrite <- (put_in_queries w g d t) by (done || by rewrite Hp).
    rewrite <- (Hq d t) by by rewrite Hp. unfold contents, buffered. rewrite Hob.
    rewrite <- list_fmap_compose. cbn. by rewrite list_fmap_id.
  - unfold queries. rewrite filter_none; [done|]. intros [t' b] Hin Ht. cbn in Ht. subst t'.
    apply list_elem_of_fmap in Hin as ([[d|] [? ?]] & [= <- <-] & Hin).
    + apply Ho in Hin as [_ Hin]. specialize (Hin Hu). congruence.
    + by apply (Hno b).
Qed.

(** ** Who is to blame *)

(** What the goroutine reads next makes it panic: [Read] itself does, or the
    packet has no question, or the name no pattern. *)
Definition bad_read (r : conn) (s : socks) : Prop :=
  match conn_Read r 4096 s with
  | Fault f => f = Panicked
  | Ok ((data, err), s') => err = false /\ exists msg, Unpack data = Some msg /\
      (head (Question msg) ≫= Find range Compile (gfw s')) = None
  end.

(** Somebody's [Close] of the connection at [d] is past the point where the queue
    is closed. *)
Definition closed_by (d : ptr) (w : dns) (k : closer) : Prop :=
  k ∈ d_closers w /\ k_dns k = d /\ queue_closed (k_pc k) = true.

(** C24: No interleaving makes the program panic but for these: a packet that makes
    the reading goroutine panic by itself; a packet for a connection of which a
    [Close] is past the point where the queue is closed; and a [Close] that has
    looked at [closed] and is about to close the queue, where another one is past
    that point.  So nothing panics where nobody has called [Close] and the
    packets are good. *)
Theorem dns_panics_only w :
  dns_reachable w ->
  (forall i g, d_procs w !! i = Some g ->
     dns_step (g_conn g) (g_pc g) (d_socks w) = Fault Panicked ->
     g_pc g = AtRead /\ bad_read (g_conn g) (d_socks w) \/
     exists d t b k, g_pc g = AtSend (CDns d (g_conn g) t) t b /\ closed_by d w k) /\
  (forall j c, d_closers w !! j = Some c ->
     close_dns_step (k_dns c) (k_key c) (k_pc c) (d_socks w) = Fault Panicked ->
     k_pc c = CloseQueue /\ exists k, closed_by (k_dns c) w k).
Proof.
  intros Hw%dns_inv_reachable. pose proof (di_store _ Hw) as Hs. split.
  - intros i g Hi Hf. assert (Hg : g ∈ d_procs w) by by eapply list_elem_of_lookup_2.
    destruct (di_procs _ Hw g Hg) as [_ Hpc _ _ _].
    destruct (g_pc g) as [|t b|c t b|c t b|c t b|]; cbn [dns_step] in Hf.
    + left. split; [done|]. unfold bad_read. revert Hf. unfold mbind at 1, M_bind at 1.
      destruct (conn_Read _ _ _) as [[[data [|]] s']|f]; [done| |congruence].
      intros Hf. split; [done|]. destruct (Unpack data) as [msg|]; [|done].
      exists msg. split; [done|]. destruct (Question msg) as [|name qs]; [done|]. cbn.
      revert Hf. unfold mbind, M_bind, gets. cbn [id]. by destruct (Find _ _ _ _).
    + exfalso. revert Hf. unfold mbind at 1, M_bind at 1, gets. cbn [id].
      destruct (dns_conns _ !! _); [done|].
      destruct (NewDNSConn_run (g_conn g) t (d_socks w)) as (d & _ & Hn).
      by erewrite bind_Ok by exact Hn.
    + exfalso. revert Hf. unfold mbind, M_bind.
      pose proof (keeps_dns (P := next) c t (d_socks w)) as Hk.
      destruct (next _ _ _) as [[? ?]|]; [done|]. congruence.
    + done.
    + right. destruct Hpc as (d & -> & Hm & _).
      destruct (proj1 (so_made _ Hs d) ltac:(eauto)) as (q & cl & Ho).
      destruct (c_closed q) eqn:Hc.
      { destruct (so_closed _ Hs d q cl Ho Hc) as (k & Hk). by exists d, t, b, k. }
      exfalso. revert Hf. unfold mbind, M_bind, at_readQueued, at_dns, zoom, at_key.
      change (address (CDns d (g_conn g) t)).2 with d. rewrite Ho. cbn. unfold chan_send.
      rewrite Hc. by case_decide.
    + done.
  - intros j c Hj Hf. assert (Hc : c ∈ d_closers w) by by eapply list_elem_of_lookup_2.
    destruct (so_closers _ Hs c Hc) as (r & t & Hm & _).
    destruct (proj1 (so_made _ Hs (k_dns c)) ltac:(eauto)) as (q & cl & Ho).
    revert Hf. destruct (k_pc c); cbn [close_dns_step];
      unfold mbind, M_bind, at_readQueued, at_dns, zoom, at_key; rewrite ?Ho; cbn; try done.
    unfold chan_close. destruct (c_closed q) eqn:Hq; [|done]. intros _. split; [done|].
    by apply (so_closed _ Hs _ _ _ Ho Hq).
Qed.

(** ** A [Close] at the wrong time *)

(** All steps can be made, and then the last one panics. *)
Definition panics_after (mvs : list dns_act) (mv : dns_act) (w : dns) : Prop :=
  exists w', dns_moves mvs w = Ok w' /\ dns_move mv w' = Fault Panicked.

(** Somebody calls [Close] of the connection at [d] and runs it to its end; two
    goroutines call it, and the one that is ahead closes the queue. *)
Definition close_now (w : dns) (d : ptr) : list dns_act :=
  MClose d :: replicate 4 (MCloser (length (d_closers w))).
Definition close_both (w : dns) (d : ptr) : list dns_act :=
  let n := length (d_closers w) in
  [MClose d; MClose d; MCloser n; MCloser (S n); MCloser n; MCloser (S n); MCloser n].

Definition close_after (cl : bool) (pc : dns_close_pc) : dns_close_pc :=
  match pc with
  | CloseCheck => if cl then CloseEnd else CloseMark
  | CloseMark => CloseQueue
  | CloseQueue => CloseRemove
  | CloseRemove | CloseEnd => CloseEnd
  end.
Definition object_after (q : chan bytes) (cl : bool) (pc : dns_close_pc) : object :=
  match pc with
  | CloseMark => DNSConn q true
  | CloseQueue => DNSConn (Chan (c_cap q) (c_buf q) true) cl
  | _ => DNSConn q cl
  end.

Lemma close_dns_run d key pc s q cl :
  objects s !! d = Some (DNSConn q cl) -> pc <> CloseEnd ->
  (pc = CloseQueue -> c_closed q = false) ->
  exists s', close_dns_step d key pc s = Ok (close_after cl pc, s') /\
    objects s' !! d = Some (object_after q cl pc).
Proof.
  intros Ho Hne Hq. destruct pc; cbn [close_dns_step close_after object_after];
    unfold mbind, M_bind, at_readQueued, at_dns, zoom, at_key; rewrite ?Ho; cbn.
  - eexists. split; [by destruct cl|]. apply lookup_insert_eq.
  - eexists. split; [done|]. apply lookup_insert_eq.
  - unfold chan_close. rewrite Hq by done. eexists. split; [done|]. apply lookup_insert_eq.
  - by eexists.
  - done.
Qed.

(** The step of the last goroutine in [Close], or of the one before it. *)
Lemma closer_move s gs ks l made taken d key pc q cl :
  objects s !! d = Some (DNSConn q cl) -> pc <> CloseEnd ->
  (pc = CloseQueue -> c_closed q = false) ->
  exists s', dns_move (MCloser (length ks)) (Dns s gs (ks ++ Closer d key pc :: l) made taken) =
      Ok (Dns s' gs (ks ++ Closer d key (close_after cl pc) :: l) made taken) /\
    objects s' !! d = Some (object_after q cl pc).
Proof.
  intros Ho Hne Hq. destruct (close_dns_run d key pc s q cl Ho Hne Hq) as (s' & Hs & Ho').
  exists s'. split; [|done]. cbn [dns_move]. rewrite list_lookup_middle by done. rewrite Hs.
  rewrite insert_app_r_alt by lia. by rewrite Nat.sub_diag.
Qed.

Lemma close_call_run s gs ks made taken d r t :
  made !! d = Some (r, t) ->
  dns_move (MClose d) (Dns s gs ks made taken) =
    Ok (Dns s gs (ks ++ [Closer d (address r, t) CloseCheck]) made taken).
Proof. intros Hm. cbn [dns_move]. by rewrite Hm. Qed.

Lemma dns_moves_app l1 l2 w w' :
  dns_moves l1 w = Ok w' -> dns_moves (l1 ++ l2) w = dns_moves l2 w'.
Proof.
  revert w. induction l1 as [|mv l1 IH]; intros w; cbn; [by intros [= ->]|].
  destruct (dns_move mv w); [apply IH|done].
Qed.

Lemma panics_app l1 l2 mv w w' :
  dns_moves l1 w = Ok w' -> panics_after l2 mv w' -> panics_after (l1 ++ l2) mv w.
Proof. intros H1 (w2 & H2 & H). exists w2. split; [|done]. by rewrite (dns_moves_app _ _ _ _ H1). Qed.

Lemma close_now_run s gs ks made taken d r t q :
  made !! d = Some (r, t) -> objects s !! d = Some (DNSConn q false) -> c_closed q = false ->
  exists s' ks', dns_moves (close_now (Dns s gs ks made taken) d) (Dns s gs ks made taken) =
      Ok (Dns s' gs ks' made taken) /\
    objects s' !! d = Some (DNSConn (Chan (c_cap q) (c_buf q) true) true).
Proof.
  intros Hm Ho Hq. unfold close_now. cbn [replicate dns_moves d_closers].
  rewrite (close_call_run _ _ _ _ _ _ _ _ Hm).
  destruct (closer_move s gs ks [] made taken d (address r, t) CloseCheck q false Ho)
    as (s1 & -> & Ho1); [done..|]. cbn [close_after object_after] in *.
  destruct (closer_move s1 gs ks [] made taken d (address r, t) CloseMark q false Ho1)
    as (s2 & -> & Ho2); [done..|]. cbn [close_after object_after] in *.
  destruct (closer_move s2 gs ks [] made taken d (address r, t) CloseQueue _ _ Ho2)
    as (s3 & -> & Ho3); [done..|]. cbn [close_after object_after] in *.
  destruct (closer_move s3 gs ks [] made taken d (address r, t) CloseRemove _ _ Ho3)
    as (s4 & -> & Ho4); [done..|].
  by eexists _, _.
Qed.

Lemma close_both_run s gs ks made taken d r t q :
  made !! d = Some (r, t) -> objects s !! d = Some (DNSConn q false) -> c_closed q = false ->
  panics_after (close_both (Dns s gs ks made taken) d) (MCloser (S (length ks)))
    (Dns s gs ks made taken).
Proof.
  intros Hm Ho Hq. unfold panics_after, close_both. cbn [dns_moves d_closers].
  rewrite !(close_call_run _ _ _ _ _ _ _ _ Hm), <- app_assoc. cbn [app].
  set (key := (address r, t)).
  assert (Hn : forall pc, S (length ks) = length (ks ++ [Closer d key pc]))
    by (intros; rewrite length_app; cbn; lia).
  assert (Happ : forall pc l, (ks ++ Closer d key pc :: l)%list =
    ((ks ++ [Closer d key pc]) ++ l)%list) by (intros; by rewrite <- app_assoc).
  destruct (closer_move s gs ks [Closer d key CloseCheck] made taken d key CloseCheck q false Ho)
    as (s1 & -> & Ho1); [done..|]. cbn [close_after object_after] in *.
  rewrite (Happ CloseMark), (Hn CloseMark).
  destruct (closer_move s1 gs (ks ++ [Closer d key CloseMark]) [] made taken d key CloseCheck
    q false Ho1) as (s2 & -> & Ho2); [done..|]. cbn [close_after object_after] in *.
  rewrite <- (Happ CloseMark).
  destruct (closer_move s2 gs ks [Closer d key CloseMark] made taken d key CloseMark _ _ Ho2)
    as (s3 & -> & Ho3); [done..|]. cbn [close_after object_after] in *.
  rewrite (Happ CloseQueue). rewrite <- (Hn CloseMark), (Hn CloseQueue).
  destruct (closer_move s3 gs (ks ++ [Closer d key CloseQueue]) [] made taken d key CloseMark
    _ _ Ho3) as (s4 & -> & Ho4); [done..|]. cbn [close_after object_after] in *.
  rewrite <- (Happ CloseQueue).
  destruct (closer_move s4 gs ks [Closer d key CloseQueue] made taken d key CloseQueue _ _ Ho4)
    as (s5 & -> & Ho5); [done..|]. cbn [close_after object_after] in *.
  eexists. split; [done|]. rewrite <- (Hn CloseQueue), (Happ CloseRemove), (Hn CloseRemove).
  cbn [dns_move]. rewrite list_lookup_middle by done. cbn [close_dns_step].
  unfold mbind, M_bind, at_readQueued, at_dns, zoom, at_key. by rewrite Ho5.
Qed.

(** The step of [proc] that sends to a queue that is closed. *)
Lemma closed_send s gs ks made taken i g c t b q cl :
  gs !! i = Some g -> g_pc g = AtSend c t b ->
  objects s !! (address c).2 = Some (DNSConn q cl) -> c_closed q = true ->
  dns_move (MProc i) (Dns s gs ks made taken) = Fault Panicked.
Proof.
  intros Hi Hpc Ho Hq. cbn [dns_move]. rewrite Hi. destruct g as [r pc asked out].
  cbn in Hpc. subst pc. cbn [dns_step].
  unfold mbind, M_bind, at_readQueued, at_dns, zoom, at_key. rewrite Ho. cbn.
  unfold chan_send. by rewrite Hq.
Qed.

(** The one before it, which puts the connection into the map. *)
Lemma closed_insert s gs ks made taken i g c t b q cl :
  gs !! i = Some g -> g_pc g = AtInsert c t b ->
  objects s !! (address c).2 = Some (DNSConn q cl) -> c_closed q = true ->
  panics_after [MProc i] (MProc i) (Dns s gs ks made taken).
Proof.
  intros Hi Hpc Ho Hq. destruct g as [r pc asked out]. cbn in Hpc. subst pc.
  eexists. split.
  - cbn [dns_moves dns_move]. rewrite Hi. reflexivity.
  - eapply closed_send; [by apply list_lookup_insert_eq; eapply lookup_lt_Some|done|exact Ho|done].
Qed.

(** C35: A [Close] of a [DNSConn] at the wrong time makes the program panic, from
    whatever state that can be reached with the connection open.  When [proc] has
    found the connection and let the lock go, the [Close] closes the queue before
    the packet is sent to it; when [proc] has made the connection and
    [Next.ProcConn] runs or has returned, and the connection is not in the map
    yet, the [Close] takes nothing out: the closed connection is put there and
    the packet is sent to it; and two goroutines that call [Close] can both find
    [closed] unset, as nothing protects it, and close the queue twice. *)
Theorem dns_close_races w d q :
  dns_reachable w -> objects (d_socks w) !! d = Some (DNSConn q false) ->
  c_closed q = false ->
  (forall i g c t b, d_procs w !! i = Some g -> (address c).2 = d ->
     (g_pc g = AtSend c t b -> panics_after (close_now w d) (MProc i) w) /\
     (g_pc g = AtInsert c t b -> panics_after (close_now w d ++ [MProc i]) (MProc i) w) /\
     (g_pc g = AtProcConn c t b -> (forall s, exists s', next c t s = Ok (false, s')) ->
      panics_after (close_now w d ++ [MProc i; MProc i]) (MProc i) w)) /\
  panics_after (close_both w d) (MCloser (S (length (d_closers w)))) w.
Proof.
  intros Hw%dns_inv_reachable Ho Hq. destruct w as [s gs ks made taken]. cbn in Ho.
  destruct (proj2 (so_made _ (di_store _ Hw) d) ltac:(eauto)) as [[r t0] Hm]. cbn in Hm.
  split; [|by eapply close_both_run].
  intros i g c t b Hi <-.
  destruct (close_now_run s gs ks made taken _ r t0 q Hm Ho Hq) as (s1 & ks1 & Hrun & Ho1).
  cbn [d_procs] in Hi. split_and!; intros Hpc.
  - eexists. split; [exact Hrun|]. by eapply closed_send.
  - eapply panics_app; [exact Hrun|]. by eapply closed_insert.
  - intros Hnext. eapply panics_app; [exact Hrun|].
    destruct g as [r' pc asked out]. cbn in Hpc. subst pc.
    destruct (Hnext s1) as [s2 Hs2]. pose proof (keeps_dns (P := next) c t s1) as Hk.
    rewrite Hs2 in Hk.
    apply (panics_app [MProc i] [MProc i] _ _ (Dns s2
      (<[i := Goroutine r' (AtInsert c t b) asked out]> gs) ks1 made taken)).
    + cbn [dns_moves dns_move]. rewrite Hi. cbn [dns_step]. unfold mbind, M_bind.
      rewrite Hs2. unfold mret, M_ret. cbn [log_asked log_out log_made]. by rewrite !app_nil_r.
    + eapply closed_insert;
        [by apply list_lookup_insert_eq; eapply lookup_lt_Some|done
        |by apply (kp_objects _ _ Hk), Ho1|done].
Qed.

End machine.

(** ** Examples

    A datagram connection with four queries, for two targets. *)
Import Csocks.Example.

#[export] Instance processor_keeps : KeepsDns processor.
Proof. intros c t s. done. Qed.

Definition example_next : Processor := record_next processor processor parse.
Definition example (mvs : list dns_act) : outcome dns :=
  dns_moves unpack map_to_list compile example_next mvs (dns0 (state [[1]; [1]; [2]; [1]]%Z)).

(** The goroutine is started and makes a connection for the first query, which is
    at the address 1. *)
Definition made_first : list dns_act := [MStart 1; MProc 0; MProc 0].
(** It hands it to the processor and puts the query into its queue. *)
Definition first_query : list dns_act := made_first ++ [MProc 0; MProc 0; MProc 0].
(** It looks up the connection for the second one. *)
Definition second_found : list dns_act := first_query ++ [MProc 0; MProc 0].

(** The first query is about to be sent. *)
Definition found_state : dns :=
  match example second_found with Ok w => w | Fault _ => dns0 (state []) end.

Lemma found_reachable : dns_reachable unpack map_to_list compile example_next found_state.
Proof.
  exists (state [[1]; [1]; [2]; [1]]%Z), second_found. split; [done|]. vm_compute. reflexivity.
Qed.

Lemma dns_close_races_witness :
  panics_after unpack map_to_list compile example_next (close_now found_state 1) (MProc 0)
    found_state /\
  panics_after unpack map_to_list compile example_next (close_both found_state 1) (MCloser 1)
    found_state.
Proof.
  destruct (d_procs found_state) as [|g l] eqn:Hl; [by vm_compute in Hl|].
  assert (Hg : g_pc g = AtSend (CDns 1 (CPcb 1) "dns://proxy") "dns://proxy" [1%Z]).
  { vm_compute in Hl. by injection Hl as <- _. }
  destruct (dns_close_races unpack map_to_list compile example_next found_state 1
    (Chan QUEUE [[1]]%Z false) found_reachable) as [H1 H2]; [by vm_compute|done|].
  split; [|exact H2]. destruct (H1 0%nat g (CDns 1 (CPcb 1) "dns://proxy") "dns://proxy" [1%Z]) as (H & _);
    [by rewrite Hl|done|].
  by apply H.
Defined.

(** All four queries are put into queues, and one is read. *)
Definition all_queries : list dns_act :=
  second_found ++ [MProc 0; MProc 0; MProc 0; MProc 0; MProc 0; MProc 0;
                   MRead 1 512; MProc 0; MProc 0].
Definition all_state : dns :=
  match example all_queries with Ok w => w | Fault _ => dns0 (state []) end.

Lemma all_reachable : dns_reachable unpack map_to_list compile example_next all_state.
Proof.
  exists (state [[1]; [1]; [2]; [1]]%Z), all_queries. split; [done|]. vm_compute. reflexivity.
Qed.

Lemma dns_streams_witness :
  exists g, d_procs all_state = [g] /\ pending (g_pc g) = [("dns://proxy", [1])]%Z /\
    (read_of 1 (d_taken all_state) ++ buffered (d_socks all_state) 1)%list = [[1]; [1]]%Z /\
    read_of 1 (d_taken all_state) = [[1]]%Z /\
    (pair "dns://proxy" <$>
       (read_of 1 (d_taken all_state) ++ buffered (d_socks all_state) 1)%list) =
      put_in 1 (g_out g).
Proof.
  destruct (d_procs all_state) as [|g l] eqn:Hl; [by vm_compute in Hl|].
  exists g. assert (Hg : [g] = [g] /\ l = []) by (vm_compute in Hl; by injection Hl as _ <-).
  destruct Hg as [_ ->]. split; [done|].
  assert (Hin : g ∈ d_procs all_state) by (rewrite Hl; apply list_elem_of_here).
  destruct (dns_streams unpack map_to_list compile example_next all_state g all_reachable Hin) as (_ & H2 & _).
  assert (Hc : g_conn g = CPcb 1 /\ pending (g_pc g) = [("dns://proxy", [1])]%Z).
  { vm_compute in Hl. injection Hl as <-. split; vm_compute; reflexivity. }
  destruct Hc as [Hc Hp]. split_and!; [exact Hp|vm_compute; reflexivity..|].
  apply H2. rewrite Hc. vm_compute. reflexivity.
Defined.

(** The goroutine is about to send to a queue that a [Close] has closed. *)
Definition raced : list dns_act :=
  (second_found ++ [MClose 1; MCloser 0; MCloser 0; MCloser 0])%list.
Definition raced_state : dns :=
  match example raced with Ok w => w | Fault _ => dns0 (state []) end.

Lemma raced_reachable : dns_reachable unpack map_to_list compile example_next raced_state.
Proof.
  exists (state [[1]; [1]; [2]; [1]]%Z), raced. split; [done|]. vm_compute. reflexivity.
Qed.

Lemma dns_panics_only_witness :
  exists g, d_procs raced_state !! 0%nat = Some g /\
    dns_step unpack map_to_list compile example_next (g_conn g) (g_pc g) (d_socks raced_state)
      = Fault Panicked /\
    exists d t b k, g_pc g = AtSend (CDns d (g_conn g) t) t b /\ closed_by d raced_state k.
Proof.
  destruct (d_procs raced_state) as [|g l] eqn:Hl; [by vm_compute in Hl|].
  exists g. split; [done|].
  assert (Hg : g_pc g = AtSend (CDns 1 (CPcb 1) "dns://proxy") "dns://proxy" [1%Z] /\
    dns_step unpack map_to_list compile example_next (g_conn g) (g_pc g) (d_socks raced_state)
      = Fault Panicked).
  { vm_compute in Hl. injection Hl as <- _. split; vm_compute; reflexivity. }
  destruct Hg as [Hpc Hf]. split; [exact Hf|].
  destruct (dns_panics_only unpack map_to_list compile example_next raced_state raced_reachable)
    as [H _].
  destruct (H 0%nat g) as [[He _]|Hk]; [by rewrite Hl|exact Hf| |exact Hk].
  by rewrite Hpc in He.
Defined.
