(* ===== verification/Runs.v ===== *)
(** * Concrete runs

    The reference stack of [LwipRef.v] with a small application, device and
    network, and the echo server on it: concrete states in which the
    hypotheses of the theorems hold, and the theorems applied there. *)

From S2P Require Import Prelude Lwip Cs Tcp TcpSend LwipRef Config.
From S2P Require Import TcpConn Udp Netif Echo Bridge Mains.
Local Open Scope Z_scope.

(** ** The environment *)

#[export] Instance lwip_udp_ref : LwipUdp ref := {
  udp_new_ip_type := fun s => Ok (Some (50%positive, UdpPcb (IPv4 0) 0 0 0 0), s);
  udp_bind := fun _ _ s => Ok (r_bind s, s);
  udp_recv := fun _ _ s => Ok (tt, s);
  udp_remove := fun _ s => Ok (tt, s);
  udp_sendto_if_src := fun u p addr port nif src s =>
    Ok (ERR_OK, set_view (with_outbox (outbox (r_view s) ++
      [Datagram src (local_port u) addr port nif
         (ref_data (all_pbufs s) (pbufs (r_view s)) p)]) (r_view s)) s);
  netif_get_by_index := fun _ i => if 0 <? i then Some (Z.to_pos i) else None;
  ip_route := fun _ _ _ => Some 1%positive;
  ip4_route_src := fun _ _ _ => Some 2%positive;
  ip_addr_ismulticast := fun a =>
    match a with
    | IPv4 x => (224 <=? x mod 256) && (x mod 256 <? 240)
    | IPv6 x _ _ _ => x mod 256 =? 255
    end
}.

#[export] Instance lwip_udp_ref_laws : LwipUdpLaws ref.
Proof.
  split; try done.
  - intros s u p cs addr port nif src Ho Hh. unfold wpf. cbn.
    erewrite (ref_data_spec _ p cs); [done..|].
    unfold all_pbufs. pose proof (owned_size _ _ Ho) as Hs. cbn in Hs. lia.
Qed.

(** The application keeps the frames it wrote to its device; the device has
    one frame of four bytes to read. *)
Abbreviation W := (world ref (list bytes)).

#[export] Instance tap_ref : TapOs W := {
  os_open := fun w => Ok (3, w);
  os_tunsetiff := fun _ w => Ok (0, w);
  os_system := fun _ w => Ok (0, w);
  os_read := fun _ w => Ok ((4, [1; 2; 3; 4]), w);
  os_write := fun buf n w => Ok (n, with_app (app w ++ [buf]) w)
}.

#[export] Instance lwip_netif_ref : LwipNetif W := {
  lwip_init := fun w => Ok (tt, w);
  netif_add := fun n a m g st init w =>
    match init n (with_netifs (<[n := Netif st (0, 0) [] 0 0 None None None 0
                                        0 0 0 0]> (netifs w)) w) with
    | Ok (e, w') => Ok (bool_decide (e = ERR_OK), w')
    | Fault f => Fault f
    end;
  netif_set_up := fun _ w => Ok (tt, w);
  netif_set_link_up := fun _ w => Ok (tt, w);
  netif_set_default := fun _ w => Ok (tt, w);
  netif_poll_all := fun w => Ok (tt, w);
  netif_input := fun _ _ w => Ok (ERR_MEM, w);
  netif_ip4_gw := fun _ w => Ok (LWIP_PORT_INIT_GW, w);
  netif_ip4_netmask := fun _ w => Ok (LWIP_PORT_INIT_NETMASK, w)
}.

(** A Go program that refuses every packet. *)
#[export] Instance go_ref : GoExports W := {
  go_tcp_accept_h := fun _ _ _ w => Ok (0, w);
  go_tcp_recv_h := fun _ _ _ _ w => Ok (1, w);
  go_tcp_send_done_h := fun _ _ _ w => Ok (0, w);
  go_tcp_close_h := fun _ _ _ w => Ok (0, w);
  go_udp_recv_h := fun _ _ _ _ _ w => Ok (0, w);
  go_input_h := fun _ _ r w => Ok ((None, r), w)
}.

(** ** States *)

Definition run_fuel : nat := 10.

(** The table of the echo server is at address 9, its interface at 8. *)
Definition echo_table : cs_callback ref (list bytes) :=
  echo_back run_fuel false None 8%positive.
Definition echo_backs (p : ptr) : option (cs_callback ref (list bytes)) :=
  if decide (p = 9%positive) then Some echo_table else None.

Lemma echo_backs_ok p b :
  echo_backs p = Some b -> exists n, b = echo_back run_fuel false None n.
Proof. unfold echo_backs. case_decide; [|done]. intros [= <-]. by eexists. Qed.

#[export] Instance echo_backs_app_ok : AppOk echo_backs run_fuel no_fault.
Proof. by apply (echo_app_ok run_fuel false None), echo_backs_ok. Qed.

(** A listener0 at 1, the control block of a new connection at 2, a packet of
    two buffers at 20 and 21, and room for three bytes to send. *)
Definition listener0 : tcb := set_accept (Some Fn_cs_tcp_raw_accept)
                               (set_arg (Some 9%positive) tcb_new).
Definition packet : list (ptr * bytes) :=
  [(20%positive, [1; 2; 3]); (21%positive, [4; 5])].

Definition stack0 : ref :=
  Ref (View (<[20%positive := Pnode 1 (Some 21%positive) [1; 2; 3]]>
              {[21%positive := Pnode 1 None [4; 5]]})
            (<[1%positive := listener0]> {[2%positive := tcb_new]}) ∅ [])
      false 3 ERR_OK ERR_OK ERR_OK false.

Definition udp0 : udp_pcb := UdpPcb (IPv4 1) 7 0 0 0.
Definition netif0 : netif :=
  Netif (Some 9%positive) (116, 112) [] 0 0 None None None 1500 0 0 0 0.

Definition w0 : W :=
  World stack0 ∅ {[50%positive := udp0]} {[8%positive := netif0]} 0 [].

(** The state after a call. *)
Definition after {X} (m : M W X) (w : W) : W :=
  match m w with
  | Ok (_, w') => w'
  | Fault _ => w
  end.

Abbreviation ev_accept := (EvAccept 1 (Some 2%positive) ERR_OK).
Definition w1 : W := after (dispatch echo_backs run_fuel ev_accept listener0) w0.

(** The connection that was accepted. *)
Abbreviation e1 := 1%positive.
Definition es1 : cs_tcp_raw_state := EsState ES_ACCEPTED 0 2 None 9.
Definition tcb1 : tcb := wire e1 tcb_new.

Lemma packet_owned (w : W) :
  pbufs (view (lw w)) !! 20%positive = Some (Pnode 1 (Some 21%positive) [1; 2; 3]) ->
  pbufs (view (lw w)) !! 21%positive = Some (Pnode 1 None [4; 5]) ->
  owned (pbufs (view (lw w))) packet.
Proof. intros H1 H2. split; [done|]. by apply (bool_decide_unpack _). Qed.

Lemma w0_packet : owned (pbufs (view (lw w0))) packet.
Proof. by apply packet_owned. Qed.

Lemma w1_packet : owned (pbufs (view (lw w1))) packet.
Proof. by apply packet_owned. Qed.

Lemma w1_conn : es_heap w1 = {[e1 := es1]}.
Proof. by vm_compute. Qed.

(** Nobody has the packet in a queue. *)
Lemma w1_unqueued : unqueued w1 packet.
Proof.
  intros e r cs He [_ Hh]. rewrite w1_conn in He.
  apply lookup_singleton_Some in He as [_ <-].
  destruct cs as [|[]]; [|done]. intros q _ Hin. cbn in Hin. set_solver.
Qed.

Lemma w0_init : tcp_init echo_backs w0.
Proof.
  split; [done|]. intros pcb t Ht.
  change (tcps (view (lw w0))) with
    (<[1%positive := listener0]> {[2%positive := tcb_new]} : gmap ptr tcb) in Ht.
  apply lookup_insert_Some in Ht as [[_ <-]|[_ Ht]].
  - unfold idle_slots. cbn. split_and!; try done.
    exists 9%positive. split; [done|by eexists].
  - by apply lookup_singleton_Some in Ht as [_ <-].
Qed.

Lemma accept_event_ok : event_ok echo_backs w0 ev_accept listener0.
Proof. split; [done|]. split; [done|]. by exists tcb_new. Qed.

Lemma accept_run :
  dispatch echo_backs run_fuel ev_accept listener0 w0 = Ok (ERR_OK, w1).
Proof. by vm_compute. Qed.

Lemma w0_fuel : enough_fuel run_fuel w0.
Proof. unfold enough_fuel. vm_compute. lia. Qed.

Lemma w1_fuel : enough_fuel run_fuel w1.
Proof. unfold enough_fuel. vm_compute. lia. Qed.

Lemma w0_reachable : tcp_reachable echo_backs run_fuel w0.
Proof. exists w0. split; [apply w0_init|]. apply rtc_refl. Qed.

Lemma w1_reachable : tcp_reachable echo_backs run_fuel w1.
Proof.
  exists w0. split; [apply w0_init|]. eapply rtc_once, step_event.
  - apply accept_event_ok.
  - apply w0_fuel.
  - apply accept_run.
Qed.

Lemma data_event_ok : event_ok echo_backs w1 (EvData 2 20) tcb1.
Proof.
  split; [by vm_compute|]. split; [done|]. exists packet.
  split; [apply w1_packet|]. split; [done|apply w1_unqueued].
Qed.

Lemma w1_run : echo_run run_fuel echo_backs w1 (received w0 listener0 [] (fun _ => [])).
Proof.
  eapply run_event.
  - apply run_init. apply w0_init.
  - apply accept_event_ok.
  - apply w0_fuel.
  - intros tn Ht. by vm_compute in Ht; injection Ht as <-.
  - done.
  - apply accept_run.
Qed.

(** The state after the packet was received: three bytes are sent, two are
    queued. *)
Definition w2 : W := after (dispatch echo_backs run_fuel (EvData 2 20) tcb1) w1.
Definition es2 : cs_tcp_raw_state := EsState ES_RECEIVED 0 2 (Some 21%positive) 9.
Definition tcb2 : tcb := add_stream [1; 2; 3] tcb1.

Lemma data_run :
  dispatch echo_backs run_fuel (EvData 2 20) tcb1 w1 = Ok (ERR_OK, w2).
Proof. by vm_compute. Qed.

Lemma w2_reachable : tcp_reachable echo_backs run_fuel w2.
Proof.
  destruct w1_reachable as (w & Hi & Hr). exists w. split; [done|].
  eapply rtc_r; [exact Hr|]. eapply step_event.
  - apply data_event_ok.
  - apply w1_fuel.
  - apply data_run.
Qed.

Lemma w2_queue : queue w2 es2 [(21%positive, [4; 5])].
Proof.
  split; [|done]. split; [by vm_compute|]. by apply (bool_decide_unpack _).
Qed.

Definition received2 : ptr -> bytes :=
  received w1 tcb1 [1; 2; 3; 4; 5] (received w0 listener0 [] (fun _ => [])).

Lemma w2_run : echo_run run_fuel echo_backs w2 received2.
Proof.
  eapply run_event.
  - apply w1_run.
  - apply data_event_ok.
  - apply w1_fuel.
  - done.
  - exists packet. split; [apply w1_packet|]. split; [done|].
    split; [apply w1_unqueued|done].
  - apply data_run.
Qed.

(** A connection with the whole packet queued and nothing sent. *)
Definition w_queued : W :=
  with_es {[e1 := es_set_p (Some 20%positive) es1]} w1.

(** The control block of the connection is gone. *)
Definition w_dead : W := with_lw (del_tcb 2 (lw w1)) w1.

(** ** Witnesses for TcpSend.v and TcpConn.v *)

Lemma cs_tcp_raw_send_correct_witness :
  exists w', cs_tcp_raw_send run_fuel 2 e1 w_queued = Ok (tt, w') /\
    (t_stream <$> tcps (view (lw w')) !! 2%positive) = Some [1; 2; 3] /\
    (es_p <$> es_heap w' !! e1) = Some (Some 21%positive).
Proof.
  destruct (cs_tcp_raw_send_correct run_fuel 2 e1
    (es_set_p (Some 20%positive) es1) tcb1 packet w_queued)
    as (w' & sent & rest & s' & Hrun & _).
  - cbn. unfold run_fuel. lia.
  - reflexivity.
  - apply packet_owned; reflexivity.
  - reflexivity.
  - reflexivity.
  - exists w'. split; [exact Hrun|]. vm_compute in Hrun. injection Hrun as <-.
    split; reflexivity.
Defined.

Lemma cs_tcp_raw_send_terminates_witness :
  exists w', (forall fuel, (2 < fuel)%nat ->
      cs_tcp_raw_send fuel 2 e1 w_queued = Ok (tt, w')) /\
    (t_stream <$> tcps (view (lw w')) !! 2%positive) = Some [1; 2; 3].
Proof.
  destruct (cs_tcp_raw_send_terminates 2 e1
    (es_set_p (Some 20%positive) es1) tcb1 packet w_queued) as (w' & Hrun).
  - reflexivity.
  - apply packet_owned; reflexivity.
  - reflexivity.
  - reflexivity.
  - exists w'. split; [exact Hrun|].
    specialize (Hrun run_fuel ltac:(cbn; unfold run_fuel; lia)).
    vm_compute in Hrun. injection Hrun as <-. reflexivity.
Defined.

Lemma cs_tcp_char_send_correct_witness :
  exists res w',
    cs_tcp_char_send run_fuel 2 e1 [6; 7; 8; 9] 65539 w1 = Ok (res, w') /\
    res = 0 /\ (t_stream <$> tcps (view (lw w')) !! 2%positive) = Some [6; 7; 8].
Proof.
  destruct (cs_tcp_char_send_correct run_fuel 2 e1 es1 tcb1 [6; 7; 8; 9] 65539 w1)
    as (res & w' & Hrun & _).
  - vm_compute. lia.
  - vm_compute. discriminate.
  - reflexivity.
  - reflexivity.
  - exists res, w'. split; [exact Hrun|]. vm_compute in Hrun.
    injection Hrun as <- <-. split; reflexivity.
Defined.

Lemma tcp_callbacks_safe_witness :
  exists x w', dispatch echo_backs run_fuel (EvData 2 20) tcb1 w1 = Ok (x, w') /\
    inv echo_backs w'.
Proof.
  destruct (tcp_callbacks_safe echo_backs run_fuel w1 (EvData 2 20) tcb1)
    as [H|(x & _ & [])].
  - apply w1_reachable.
  - apply w1_fuel.
  - apply data_event_ok.
  - exact H.
Defined.


Lemma tcp_fin_discards_queue_witness :
  exists w', dispatch echo_backs run_fuel (EvFin 2) tcb2 w2 = Ok (ERR_OK, w') /\
    es_heap w' = delete e1 (es_heap w2) /\
    pbufs (view (lw w')) =
      without (pbufs (view (lw w2))) [(21%positive, [4; 5])] /\
    (forall t', tcps (view (lw w')) !! 2%positive = Some t' ->
       t_stream t' = [1; 2; 3]).
Proof.
  apply (tcp_fin_discards_queue echo_backs run_fuel w2 e1 es2 tcb2).
  - apply w2_reachable.
  - reflexivity.
  - apply w2_queue.
  - split; reflexivity.
Defined.

Lemma cs_tcp_raw_accept_correct_witness :
  exists x w', dispatch echo_backs run_fuel ev_accept listener0 w0 = Ok (x, w') /\
    inv echo_backs w' /\ (x = ERR_OK \/ x = ERR_MEM /\ es_heap w' = es_heap w0).
Proof.
  apply (cs_tcp_raw_accept_correct echo_backs run_fuel w0 1 (Some 2%positive)
           ERR_OK listener0).
  - apply w0_reachable.
  - apply w0_fuel.
  - apply accept_event_ok.
Defined.

Lemma cs_tcp_raw_error_use_after_free_witness :
  exists t, tcps (view (lw w1)) !! 2%positive = Some t /\
    cs_tcp_raw_error echo_backs (t_arg t) ERR_ABRT w_dead = Fault UB.
Proof.
  destruct (cs_tcp_raw_error_use_after_free echo_backs run_fuel w1 e1 es1 ERR_ABRT
              (del_tcb 2 (lw w1))) as (t & Ht & _ & Hrun).
  - apply w1_reachable.
  - by rewrite w1_conn.
  - reflexivity.
  - exists t. split; [exact Ht|exact Hrun].
Defined.

(** ** Witnesses for Udp.v and Netif.v *)

Lemma cs_get_current_netif_correct_witness :
  cs_get_current_netif true 50 (IPv4 224) 7 w0 = Ok (Some 1%positive, w0).
Proof.
  exact (cs_get_current_netif_correct true w0 50 udp0 (IPv4 224) 7 eq_refl).
Defined.

Lemma cs_udp_char_sendto_correct_witness :
  exists res s',
    cs_udp_char_sendto false 50 (IPv4 5) 70 (IPv4 6) 80 [1; 2] 2 w0 =
      Ok (res, with_lw s' w0) /\
    res = 0 /\
    outbox (view s') = [Datagram (IPv4 5) 70 (IPv4 6) 80 (Some 1%positive) [1; 2]].
Proof.
  destruct (cs_udp_char_sendto_correct false w0 50 udp0 (IPv4 5) 70 (IPv4 6) 80
              [1; 2] 2) as (res & s' & Hrun & _).
  - vm_compute. discriminate.
  - reflexivity.
  - exists res, s'. split; [exact Hrun|]. vm_compute in Hrun.
    injection Hrun as <- <-. split; reflexivity.
Defined.

Lemma cs_low_level_output_correct_witness :
  cs_low_level_output echo_backs 8 20 w0 =
    Ok (ERR_OK, upd_netif 8 (mib2_ifoutoctets 5 netif0)
                  (with_app [[1; 2; 3; 4; 5]] w0)).
Proof.
  refine (proj2 (cs_low_level_output_correct echo_backs 8 netif0 9 echo_table
    cs_output 20 packet w0 _ _ _ _ _ _) _ 5 _ netif0 _ _).
  - reflexivity.
  - reflexivity.
  - reflexivity.
  - reflexivity.
  - apply w0_packet.
  - reflexivity.
  - vm_compute. discriminate.
  - reflexivity.
  - reflexivity.
Defined.

(** The packet read from the device is in a fresh buffer, which is freed
    because the network refuses it. *)
Lemma cs_netif_input_correct_witness :
  exists w', cs_netif_input echo_backs 8 w0 = Ok (tt, w') /\
    pbufs (view (lw w')) = pbufs (view (lw w0)) /\ link_recv w' = 0.
Proof.
  assert (Hin : cs_input None 8 0 w0 =
    Ok ((Some 22%positive, 0), after (cs_input None 8 0) w0)) by by vm_compute.
  set (w3 := upd_netif 8 (mib2_ifinoctets 0 netif0) (after (cs_input None 8 0) w0)).
  assert (Hnet : netif_input 22 8 w3 = Ok (ERR_MEM, w3)) by reflexivity.
  destruct (cs_netif_input_correct echo_backs 8 netif0 9 echo_table cs_input w0
    (Some 22%positive) 0 (after (cs_input None 8 0) w0) netif0
    eq_refl eq_refl eq_refl eq_refl Hin eq_refl ERR_MEM w3 Hnet
    [(22%positive, [1; 2; 3; 4])]) as (s & Hrun & _).
  - apply owned_cons. split; [reflexivity|]. split; [|apply owned_nil].
    cbn. set_solver.
  - reflexivity.
  - eexists. split; [exact Hrun|]. vm_compute in Hrun. injection Hrun as <-.
    split; reflexivity.
Defined.

Lemma cs_ip_get_v4_roundtrip_witness :
  exists a b c d, cs_ip_get true (IPv4 LWIP_PORT_INIT_IPADDR) = [a; b; c; d] /\
    Z.of_nat (length (cs_ip_get true (IPv4 LWIP_PORT_INIT_IPADDR))) =
      cs_ip_len (IPv4 LWIP_PORT_INIT_IPADDR) /\
    (0 <= a < 256 /\ 0 <= b < 256 /\ 0 <= c < 256 /\ 0 <= d < 256) /\
    IP4_ADDR a b c d = LWIP_PORT_INIT_IPADDR.
Proof.
  apply (cs_ip_get_v4_roundtrip true LWIP_PORT_INIT_IPADDR).
  vm_compute. split; [discriminate|reflexivity].
Defined.

(** ** Witnesses for Echo.v *)

Lemma echo_sends_what_it_received_witness :
  exists cs, queue w2 es2 cs /\
    t_stream tcb2 ++ chain_data cs = [1; 2; 3; 4; 5].
Proof.
  apply (echo_sends_what_it_received run_fuel false None echo_backs echo_backs_ok
           w2 received2 e1 es2 tcb2).
  - apply w2_run.
  - reflexivity.
  - reflexivity.
Defined.

Lemma echo_run_progress_witness :
  exists x w',
    dispatch echo_backs run_fuel (EvPoll 2) tcb2 w2 = Ok (x, w') /\
    echo_run run_fuel echo_backs w' (received w2 tcb2 [] received2).
Proof.
  apply (echo_run_progress run_fuel false None echo_backs echo_backs_ok).
  - apply w2_run.
  - split; reflexivity.
  - unfold enough_fuel. vm_compute. lia.
  - exact I.
  - reflexivity.
Defined.

Lemma cs_udp_recv_echoes_witness :
  exists s', cs_udp_recv false None 50 20 (IPv4 6) 80 w0 =
      Ok (ERR_OK, with_lw s' w0) /\
    outbox (view s') =
      [Datagram (IPv4 1) 7 (IPv4 6) 80 (Some 1%positive) [1; 2; 3; 4; 5]].
Proof.
  destruct (cs_udp_recv_echoes false w0 None 50 udp0 20 packet (IPv4 6) 80)
    as (s' & Hrun & _).
  - reflexivity.
  - apply w0_packet.
  - reflexivity.
  - exists s'. split; [exact Hrun|]. vm_compute in Hrun. injection Hrun as <-.
    reflexivity.
Defined.

(** ** Witnesses for Bridge.v *)

Abbreviation go_gback :=
  (gback echo_backs run_fuel false true (fun _ _ w => Ok ((0, []), w))
     (fun _ _ n w => Ok (n, w)) 9%positive 8%positive).

Lemma go_cs_tcp_recv_h_frees_refused_witness :
  exists w', go_cs_tcp_recv_h (Some go_gback) None 2 20 e1 w1 =
      Ok (ERR_OTHER 1, w') /\
    (forall q, q ∈ (packet.*1) -> pbufs (view (lw w')) !! q = None) /\
    (1 = 1 -> ERR_OTHER 1 <> ERR_OK).
Proof.
  apply (go_cs_tcp_recv_h_frees_refused echo_backs run_fuel false true
    (fun _ _ w => Ok ((0, []), w)) (fun _ _ n w => Ok (n, w)) 9 8
    None 2 20 e1 packet 1 w1 w1).
  - reflexivity.
  - apply w1_packet.
  - reflexivity.
Defined.

Lemma go_cs_tcp_close_leaks_witness :
  exists w', go_cs_tcp_close (Some go_gback) 2 e1 w1 = Ok (0, w') /\
    es_heap w' !! e1 = Some es1 /\ tcps (view (lw w')) !! 2%positive = None /\
    ~ inv echo_backs w'.
Proof.
  apply (go_cs_tcp_close_leaks echo_backs run_fuel false true
    (fun _ _ w => Ok ((0, []), w)) (fun _ _ n w => Ok (n, w)) 9 8
    w1 e1 es1 (del_tcb 2 (lw w1))).
  - apply (reachable_inv echo_backs run_fuel), w1_reachable.
  - reflexivity.
  - vm_compute. reflexivity.
Defined.

(** ** Witnesses for Config.v *)

Lemma options_requirements_witness : options_sane 54 = true.
Proof. apply (options_requirements 54); lia. Defined.

(** The queued connection, with an empty send buffer. *)
Definition w_room : W := with_lw (set_sndbuf TCP_SND_BUF (lw w_queued)) w_queued.

Lemma pool_queue_progress_witness :
  exists w' t' rest, cs_tcp_raw_send run_fuel 2 e1 w_room = Ok (tt, w') /\
    tcps (view (lw w')) !! 2%positive = Some t' /\
    t_stream t' = t_stream tcb1 ++ [1; 2; 3] ++ rest.
Proof.
  apply (pool_queue_progress run_fuel 2 e1 (es_set_p (Some 20%positive) es1) tcb1
           20 [1; 2; 3] [(21%positive, [4; 5])] w_room).
  - cbn. unfold run_fuel. lia.
  - reflexivity.
  - apply packet_owned; reflexivity.
  - reflexivity.
  - reflexivity.
  - vm_compute. discriminate.
  - vm_compute. reflexivity.
  - intros bs Hbs. apply (ref_write_ok _ _ tcb1).
    + reflexivity.
    + reflexivity.
    + exact Hbs.
Defined.

(** ** Witnesses for the device and Mains.v *)

(** lwIP has added the interface. *)
Definition w_added : W :=
  after (netif_add 8 LWIP_PORT_INIT_IPADDR LWIP_PORT_INIT_NETMASK
           LWIP_PORT_INIT_GW (Some 9%positive) cs_netif_init) w0.

(** A Go program that returns at once. *)
#[export] Instance go_proc_ref : GoProc ref (list bytes) := {
  echo_go_cs_proc := fun _ _ w => Ok (tt, w);
  csocks_go_cs_proc := fun _ _ _ w => Ok (tt, w)
}.

Lemma added_run :
  netif_add 8 LWIP_PORT_INIT_IPADDR LWIP_PORT_INIT_NETMASK LWIP_PORT_INIT_GW
    (Some 9%positive) cs_netif_init w0 = Ok (true, w_added).
Proof. vm_compute. reflexivity. Qed.

Lemma echo_main_no_init_witness :
  echo_main run_fuel false true None 9 8 w0 = Fault UB.
Proof.
  apply (echo_main_no_init run_fuel false true None 9 8 w0 w0 w_added).
  - reflexivity.
  - apply added_run.
Defined.

Lemma csocks_main_starts_witness :
  exists l w7 u w', init_post 9 w_added l w7 /\ udp_init_post w7 u w' /\
    csocks_main run_fuel false true None 9 8 w0 = Ok (tt, w').
Proof.
  destruct (csocks_main_starts run_fuel false true None 9 8 w0 w0 true w_added)
    as [_ H].
  - reflexivity.
  - apply added_run.
  - apply (H w_added w_added w_added w_added); vm_compute; reflexivity.
Defined.

(** The device has the frame [1; 2; 3; 4]. *)
Lemma cs_input_delivers_witness :
  exists p s x', cs_low_level_input echo_backs 8 w0 =
      Ok (p, upd_netif 8 x' (with_lw s w0)) /\ n_ifinoctets x' = 0 /\
    match p with
    | Some p => exists cs, filled (view (lw w0)) (view s) p [1; 2; 3; 4] cs
    | None => view s = view (lw w0)
    end.
Proof.
  destruct (cs_input_delivers echo_backs 8 netif0 9 echo_table w0 4 [1; 2; 3; 4]
    w0 netif0) as (p & s & x' & Hrun & Hoct & Hp).
  - reflexivity.
  - reflexivity.
  - reflexivity.
  - reflexivity.
  - reflexivity.
  - lia.
  - reflexivity.
  - reflexivity.
  - exists p, s, x'. split; [exact Hrun|]. split; [exact Hoct|].
    destruct p as [p|]; [exact (proj2 (proj2 Hp))|exact (proj2 Hp)].
Defined.
