(* ===== verification/GoMulti.v ===== *)
(** * Many connections of the Go binding

    The machine of [GoConc] for any number of connections that lwIP accepts
    while it runs: the goroutines of the program call the methods of whichever
    connection they like, and all connections share the processing goroutine,
    the queues to it and the table [tcpPcbs].  Proved: what one connection
    sees of such a run is a run of [GoConc] in which it is the only one, so
    what is proved there holds for each of many; the table leads every live
    connection's state to its object; and what one connection can do to
    another: a close of one that is closed already closes the control block
    that another one got in the meantime. *)

From S2P Require Import Prelude Lwip GoChan GoBind GoApp GoConc.
Local Open Scope Z_scope.

(** ** The machine *)

(** The C side of a connection: the address of its state and of its control
    block, and what [GoConc] has as [queued], [live], [received], [taken] and
    [lost]. *)
Record link : Type := Link {
  l_state : ptr;
  l_pcb : ptr;
  l_queued : bool;
  l_live : bool;
  l_received : list bytes;
  l_taken : list bytes;
  l_lost : list (bytes * Z)
}.

Definition set_queued (q : bool) (l : link) : link :=
  Link (l_state l) (l_pcb l) q (l_live l) (l_received l) (l_taken l) (l_lost l).
Definition set_live (b : bool) (l : link) : link :=
  Link (l_state l) (l_pcb l) (l_queued l) b (l_received l) (l_taken l) (l_lost l).
Definition add_received (d : list bytes) (l : link) : link :=
  Link (l_state l) (l_pcb l) (l_queued l) (l_live l) (l_received l ++ d)
    (l_taken l) (l_lost l).
Definition add_taken (d : list bytes) (l : link) : link :=
  Link (l_state l) (l_pcb l) (l_queued l) (l_live l) (l_received l)
    (l_taken l ++ d) (l_lost l).
(** The result [res] of [cs_tcp_char_send] for [data], which leaves a queue if
    [q]. *)
Definition char_sent (data : bytes) (q : bool) (res : Z) (l : link) : link :=
  Link (l_state l) (l_pcb l) (if res =? 0 then q else l_queued l) (l_live l)
    (l_received l) (l_taken l) (refuse data res (l_lost l)).

(** [m_users] has for each goroutine the connection whose method it runs, or
    ran last; [m_proc] is [None] where [GoConc] has [PIdle]. *)
Record multi : Type := Multi {
  m_gst : go_state;
  m_users : list (ptr * user_pc);
  m_proc : option (ptr * proc_pc);
  m_conns : gmap ptr link
}.

Definition at_conn (p : ptr) (c : proc_pc) : option (ptr * proc_pc) :=
  match c with PIdle => None | _ => Some (p, c) end.

(** What lwIP may start in the processing goroutine for a connection. *)
Definition link_entry (l : link) (c : proc_pc) : bool :=
  match c with
  | PRecvFind (_ :: _) => l_live l
  | PDoneFind => l_live l && negb (l_queued l)
  | PCloseFind => l_live l
  | _ => false
  end.

(** The case of the [select] that takes an entry of one of its queues, and
    where the goroutine then is. *)
Definition take_entry (c : select_case) : G (option (ptr * proc_pc)) :=
  match c with
  | CaseSend => r ← on_sendQueue chan_recv; '(p, data) ← deref r;
                mret (Some (p, PSendErr data))
  | CaseRecved => r ← on_recvedQueue chan_recv; '(p, n) ← deref r;
                  mret (Some (p, PRecved n))
  | CaseClose => r ← on_closeQueue chan_recv; p ← deref r; mret (Some (p, PTcpClose))
  | CaseInput => mret None
  end.

(** [tcp_close] of the control block [pcb], whoever it belongs to. *)
Definition close_pcb (pcb : ptr) (cs : gmap ptr link) : gmap ptr link :=
  (fun l => if decide (l_pcb l = pcb) then set_live false l else l) <$> cs.

(** The steps that are Go's alone: not the wait in the [select], nor those in
    which C does its part. *)
Definition go_alone (c : proc_pc) : bool :=
  match c with
  | PIdle | PTake | PTakeRecved | PTakeClose | PTcpSend _ | PTcpClose
  | PCloseFind => false
  | _ => true
  end.

Inductive multi_next (m : multi) : multi -> Prop :=
| mnext_call t q u p u' :
    m_users m !! t = Some (q, u) -> returned u = true -> method_entry u' = true ->
    is_Some (m_conns m !! p) ->
    multi_next m (Multi (m_gst m) (<[t := (p, u')]> (m_users m)) (m_proc m) (m_conns m))
| mnext_user t p u u' g l :
    m_users m !! t = Some (p, u) -> returned u = false ->
    user_step p u (m_gst m) = Ok (u', g) -> m_conns m !! p = Some l ->
    multi_next m (Multi g (<[t := (p, u')]> (m_users m)) (m_proc m)
      (<[p := add_taken (takes p u (m_gst m)) l]> (m_conns m)))
| mnext_take c x g :
    m_proc m = None -> take_entry c (m_gst m) = Ok (x, g) ->
    multi_next m (Multi g (m_users m) x (m_conns m))
| mnext_event p l c :
    m_proc m = None -> m_conns m !! p = Some l -> link_entry l c = true ->
    multi_next m (Multi (m_gst m) (m_users m) (Some (p, c)) (m_conns m))
| mnext_sent p l :
    m_proc m = None -> m_conns m !! p = Some l ->
    multi_next m (Multi (m_gst m) (m_users m) None
      (<[p := set_queued false l]> (m_conns m)))
| mnext_proc p l c c' g :
    m_proc m = Some (p, c) -> m_conns m !! p = Some l -> go_alone c = true ->
    proc_step p (l_state l) c (m_gst m) = Ok (c', g) ->
    multi_next m (Multi g (m_users m) (at_conn p c')
      (<[p := add_received (puts c) l]> (m_conns m)))
| mnext_tcp_send p l data q res :
    m_proc m = Some (p, PTcpSend data) -> m_conns m !! p = Some l ->
    char_send_result (l_queued l) res = true ->
    multi_next m (Multi (m_gst m) (m_users m) None
      (<[p := char_sent data q res l]> (m_conns m)))
| mnext_tcp_close p l (closed : bool) :
    m_proc m = Some (p, PTcpClose) -> m_conns m !! p = Some l ->
    multi_next m (Multi (m_gst m) (m_users m) None
      (if closed then close_pcb (l_pcb l) (m_conns m) else m_conns m))
| mnext_closed p l c' g :
    m_proc m = Some (p, PCloseFind) -> m_conns m !! p = Some l ->
    proc_step p (l_state l) PCloseFind (m_gst m) = Ok (c', g) ->
    multi_next m (Multi g (m_users m) (at_conn p c')
      (<[p := set_live false l]> (m_conns m)))
| mnext_accept arg pcb e la ra lp rp p g :  (* go_tcp_accept_h *)
    m_proc m = None -> tcpPcbs (m_gst m) !! e = None ->
    (* memory that is in use is not given out again *)
    (forall q l, m_conns m !! q = Some l -> l_live l = true ->
       l_state l <> e /\ l_pcb l <> pcb) ->
    newPCB TCP arg pcb (Some e) la ra lp rp (m_gst m) = Ok (p, g) ->
    multi_next m (Multi (set_tcpPcbs (<[e := p]> (tcpPcbs g)) g) (m_users m) None
      (<[p := Link e pcb false true [] [] []]> (m_conns m))).

Definition multi_init (m : multi) : Prop :=
  m_gst m = go_state0 /\ Forall (fun x => x.2 = UIdle) (m_users m) /\
  m_proc m = None /\ m_conns m = ∅.

Definition multi_reachable (m : multi) : Prop :=
  exists m0, multi_init m0 /\ rtc multi_next m0 m.

(** ** What one connection sees of the state *)

Create HintDb sim discriminated.

(** The entries of a queue that belong to [p]. *)
Definition sub_chan {T} (p : ptr) (f : T -> ptr) (c d : chan T) : Prop :=
  c_cap d = c_cap c /\ c_closed d = c_closed c /\
  c_buf d = filter (fun x => f x = p) (c_buf c).

(** [g] is the state with all connections, [h] that of [GoConc] with [p]; the
    queue of received data has another address there. *)
Record view_rel (p e : ptr) (g h : go_state) : Prop := ViewRel {
  vr_obj : exists o c, pcbs g !! p = Some o /\
    pcbs h !! p = Some (with_recvQueued 1 o) /\
    bchans g !! recvQueued o = Some c /\ bchans h !! 1%positive = Some c;
  vr_tcp : tcpPcbs g !! e = Some p <-> tcpPcbs h !! e = Some p;
  vr_send : sub_chan p fst (sendQueue g) (sendQueue h);
  vr_recved : sub_chan p fst (recvedQueue g) (recvedQueue h);
  vr_close : sub_chan p id (closeQueue g) (closeQueue h)
}.

(** The connections have queues of their own. *)
Definition distinct (g : go_state) : Prop :=
  forall p1 p2 o1 o2, pcbs g !! p1 = Some o1 -> pcbs g !! p2 = Some o2 ->
    recvQueued o1 = recvQueued o2 -> p1 = p2.

(** The connections that the queues to the processing goroutine name. *)
Definition named (g : go_state) (q : ptr) : Prop :=
  q ∈ (c_buf (sendQueue g)).*1 \/ q ∈ (c_buf (recvedQueue g)).*1 \/
  q ∈ c_buf (closeQueue g).

Definition open_queue {T} (c : chan T) : Prop := c_cap c = QUEUE /\ c_closed c = false.
Definition open_queues (g : go_state) : Prop :=
  open_queue (sendQueue g) /\ open_queue (recvedQueue g) /\ open_queue (closeQueue g).

(** A step for [p] leaves to the others what they see. *)
Record others (p : ptr) (g g' : go_state) : Prop := Others {
  ot_distinct : distinct g';
  ot_dom : dom (pcbs g') = dom (pcbs g);
  ot_bdom : dom (bchans g') = dom (bchans g);
  ot_tcp : tcpPcbs g' = tcpPcbs g;
  ot_open : open_queues g -> open_queues g';
  ot_named : forall q, named g' q -> named g q \/ q = p;
  ot_view : forall q e h, q <> p -> view_rel q e g h -> view_rel q e g' h
}.

(** [m] with all connections does to [p] what [m'] does in [GoConc], unless it
    waits for room that others take. *)
Definition sim {X} (p e : ptr) (m m' : G X) : Prop :=
  forall g h, distinct g -> view_rel p e g h ->
    match m g with
    | Ok (x, g') => (exists h', m' h = Ok (x, h') /\ view_rel p e g' h') /\ others p g g'
    | Fault f => f = Blocked \/ m' h = Fault f
    end.

Lemma others_refl p g : distinct g -> others p g g.
Proof. intros Hd. split; try done. by left. Qed.

Lemma others_trans p g1 g2 g3 : others p g1 g2 -> others p g2 g3 -> others p g1 g3.
Proof.
  intros H1 H2. split.
  - apply H2.
  - by rewrite (ot_dom _ _ _ H2), (ot_dom _ _ _ H1).
  - by rewrite (ot_bdom _ _ _ H2), (ot_bdom _ _ _ H1).
  - by rewrite (ot_tcp _ _ _ H2), (ot_tcp _ _ _ H1).
  - intros ?. by apply H2, H1.
  - intros q [Hq|]%(ot_named _ _ _ H2); [|by right]. by apply H1.
  - intros q e h Hne Hv. by apply H2, H1.
Qed.

Section sim.
Context (p e : ptr).

Lemma sim_ret {X} (x : X) : sim p e (mret x) (mret x).
Proof. intros g h Hd Hv. split; [by exists h|by apply others_refl]. Qed.

Lemma sim_stop {X} f : sim p e (stop f : G X) (stop f).
Proof. intros g h Hd Hv. by right. Qed.

Lemma sim_bind {X Y} (m m' : G X) (k k' : X -> G Y) :
  sim p e m m' -> (forall x, sim p e (k x) (k' x)) -> sim p e (m ≫= k) (m' ≫= k').
Proof.
  intros Hm Hk g h Hd Hv. specialize (Hm g h Hd Hv).
  unfold mbind, M_bind. destruct (m g) as [[x g1]|f].
  - destruct Hm as [(h1 & Hh & Hv1) Ho]. rewrite Hh.
    specialize (Hk x g1 h1 (ot_distinct _ _ _ Ho) Hv1).
    destruct (k x g1) as [[y g2]|f]; [|done]. destruct Hk as [? Ho2].
    split; [done|]. by eapply others_trans.
  - destruct Hm as [->| ->]; [by left|by right].
Qed.

(** An operation on the object that does not look at the address of its
    queue. *)
Definition fields_only {X} (m : P X) : Prop :=
  forall q o, match m o with
            | Ok (x, o') => m (with_recvQueued q o) = Ok (x, with_recvQueued q o') /\
                            recvQueued o' = recvQueued o
            | Fault f => m (with_recvQueued q o) = Fault f
            end.

Lemma sim_at_pcb {X} (m : P X) :
  fields_only m -> sim p e (at_pcb p m) (at_pcb p m).
Proof.
  intros Hm g h Hd Hv. destruct (vr_obj _ _ _ _ Hv) as (o & c & Ho & Hho & Hc & Hhc).
  rewrite (at_pcb_at _ _ _ _ Ho), (at_pcb_at _ _ _ _ Hho). specialize (Hm 1%positive o).
  destruct (m o) as [[x o']|f]; [|by right; rewrite Hm]. destruct Hm as [-> Hq].
  split.
  - eexists. split; [done|]. split; cbn; try apply Hv.
    exists o', c. rewrite !lookup_insert_eq, Hq. by split_and!.
  - split; cbn; try done.
    + intros p1 p2 o1 o2 H1 H2. cbn in H1, H2.
      apply lookup_insert_Some in H1 as [[<- <-]|[? H1]];
        apply lookup_insert_Some in H2 as [[<- <-]|[? H2]]; rewrite ?Hq;
        [done|by eapply Hd..].
    + rewrite dom_insert_L. assert (p ∈ dom (pcbs g)) by by eapply elem_of_dom_2.
      set_solver.
    + by left.
    + intros q e' h' Hne Hv'.
      destruct (vr_obj _ _ _ _ Hv') as (o1 & c1 & Ho1 & Hho1 & Hc1 & Hhc1).
      split; cbn; try apply Hv'. exists o1, c1. rewrite lookup_insert_ne by done.
      by split_and!.
Qed.

Lemma sim_at_recvQueued {X} (m : M (chan bytes) X) :
  sim p e (at_recvQueued p m) (at_recvQueued p m).
Proof.
  intros g h Hd Hv. destruct (vr_obj _ _ _ _ Hv) as (o & c & Ho & Hho & Hc & Hhc).
  rewrite (at_recvQueued_run _ _ _ _ _ Ho Hc), (at_recvQueued_run _ _ _ _ _ Hho Hhc).
  destruct (m c) as [[x c']|f]; [|by right]. split.
  - eexists. split; [done|]. split; cbn; try apply Hv.
    exists o, c'. rewrite !lookup_insert_eq. by split_and!.
  - split; cbn; try done.
    + rewrite dom_insert_L. assert (recvQueued o ∈ dom (bchans g)) by by eapply elem_of_dom_2.
      set_solver.
    + by left.
    + intros q e' h' Hne Hv'.
      destruct (vr_obj _ _ _ _ Hv') as (o1 & c1 & Ho1 & Hho1 & Hc1 & Hhc1).
      split; cbn; try apply Hv'. exists o1, c1. rewrite lookup_insert_ne; [by split_and!|].
      intros Heq. apply Hne. by eapply Hd.
Qed.

Lemma sub_chan_own {T} (f : T -> ptr) c d x :
  sub_chan p f c d -> f x = p ->
  sub_chan p f (Chan (c_cap c) (c_buf c ++ [x]) false)
    (Chan (c_cap d) (c_buf d ++ [x]) false).
Proof.
  intros (H1 & H2 & H3) Hx. split_and!; [done|done|]. cbn.
  by rewrite filter_app, filter_cons_True, H3.
Qed.

Lemma sub_chan_other {T} q (f : T -> ptr) c d x :
  q <> p -> sub_chan q f c d -> f x = p -> c_closed c = false ->
  sub_chan q f (Chan (c_cap c) (c_buf c ++ [x]) false) d.
Proof.
  intros Hne (H1 & H2 & H3) Hx Hc. split_and!; cbn; [done|congruence|].
  rewrite filter_app, filter_cons_False, app_nil_r; [done|congruence].
Qed.

(** Sending to one of the queues. *)
Lemma sub_chan_send {T} (f : T -> ptr) c d x :
  sub_chan p f c d -> f x = p ->
  match chan_send x c with
  | Ok (u, c') => exists d', chan_send x d = Ok (u, d') /\ sub_chan p f c' d' /\
      c' = Chan (c_cap c) (c_buf c ++ [x]) false /\ c_closed c = false
  | Fault y => y = Blocked \/ chan_send x d = Fault y
  end.
Proof.
  intros Hs Hx. pose proof Hs as (H1 & H2 & H3). unfold chan_send. rewrite H2.
  destruct (c_closed c) eqn:Hc; [by right|]. case_decide; [|by left].
  rewrite decide_True.
  - eexists. split; [done|]. split; [by apply sub_chan_own|done].
  - rewrite H1, H3. pose proof (length_filter (fun x => f x = p) (c_buf c)). lia.
Qed.

(** The three queues have the same lemma, each about its own. *)
Ltac sim_queue lem :=
  intros g h Hd Hv; unfold zoom; pose proof (lem p e g h Hv) as Hs;
  match goal with
  | |- context [chan_send ?x _] =>
      let Hsend := fresh in
      pose proof (sub_chan_send _ _ _ x Hs eq_refl) as Hsend;
      destruct (chan_send x _) as [[[] c']|f];
      [destruct Hsend as (d' & -> & Hsub & -> & Hcl)
      |destruct Hsend as [->| ->]; [by left|by right]]
  end; split;
  [eexists; split; [done|]; split; cbn; try apply Hv; done
  |split; cbn; try done;
   [unfold open_queues, open_queue; cbn; naive_solver
   |intros q; unfold named; cbn; rewrite ?fmap_app, ?elem_of_app; set_solver
   |intros q e' h' Hne Hv'; split; cbn; try apply Hv';
    eapply sub_chan_other; [exact Hne|apply Hv'|done|done]]].

Lemma sim_sendQueue b :
  sim p e (on_sendQueue (chan_send (p, b))) (on_sendQueue (chan_send (p, b))).
Proof. unfold on_sendQueue. sim_queue vr_send. Qed.
Lemma sim_recvedQueue n :
  sim p e (on_recvedQueue (chan_send (p, n))) (on_recvedQueue (chan_send (p, n))).
Proof. unfold on_recvedQueue. sim_queue vr_recved. Qed.
Lemma sim_closeQueue :
  sim p e (on_closeQueue (chan_send p)) (on_closeQueue (chan_send p)).
Proof. unfold on_closeQueue. sim_queue vr_close. Qed.

(** Looking up the connection in the table. *)
Lemma sim_find {X} (k k' : X) :
  sim p e (g ← gets id; mret (if decide (tcpPcbs g !! e = Some p) then k else k'))
    (g ← gets id; mret (if decide (tcpPcbs g !! e = Some p) then k else k')).
Proof.
  intros g h Hd Hv. split; [|by apply others_refl]. exists h. split; [|done].
  unfold gets, mbind, M_bind, mret, M_ret. cbn. pose proof (vr_tcp _ _ _ _ Hv).
  do 2 case_decide; tauto || done.
Qed.

End sim.

#[export] Hint Resolve sim_ret sim_stop sim_at_pcb sim_at_recvQueued sim_sendQueue
  sim_recvedQueue sim_closeQueue sim_find : sim.

Lemma fields_gets {X} (f : PCB -> X) :
  (forall q o, f (with_recvQueued q o) = f o) -> fields_only (gets f).
Proof. intros Hf q o. unfold gets. by rewrite Hf. Qed.

Lemma fields_modify (f : PCB -> PCB) :
  (forall q o, f (with_recvQueued q o) = with_recvQueued q (f o)) ->
  (forall o, recvQueued (f o) = recvQueued o) -> fields_only (modify f).
Proof. intros Hf Hq q o. unfold modify. by rewrite Hf. Qed.

Lemma fields_lock : fields_only lock.
Proof. intros q o. unfold lock. cbn. by destruct (lck o). Qed.
Lemma fields_unlock : fields_only unlock.
Proof. intros q o. unfold unlock. cbn. by destruct (lck o). Qed.

Lemma fields_on_sendWait {X} f (m : M (chan Z) X) : fields_only (on_sendWait f m).
Proof.
  intros q o. unfold on_sendWait. cbn. destruct (sendWait o) as [c|]; [|done].
  by destruct (m c) as [[? ?]|].
Qed.

Lemma fields_sendWait_recv : fields_only sendWait_recv.
Proof.
  intros q o. unfold sendWait_recv, mbind, M_bind.
  pose proof (fields_on_sendWait Blocked chan_recv q o) as H.
  destruct (on_sendWait _ _ o) as [[? ?]|]; [|by rewrite H]. by destruct H as [-> ?].
Qed.

#[export] Hint Resolve fields_gets fields_modify fields_lock fields_unlock
  fields_on_sendWait fields_sendWait_recv : sim.

(** A computation, one operation after the other. *)
Ltac sim_go :=
  repeat match goal with
  | |- sim _ _ _ _ => solve [apply sim_find | auto with sim]
  | |- sim _ _ (_ ≫= _) (_ ≫= _) => apply sim_bind; [|intros ?]
  | |- sim _ _ (match ?x with _ => _ end) _ => destruct x
  end.

Section steps.
Context (p e : ptr).

Lemma sim_close k : sim p e (close_step p k) (close_step p k).
Proof. destruct k; cbn [close_step]; unfold sendWait_close; sim_go. Qed.

Lemma sim_user u : sim p e (user_step p u) (user_step p u).
Proof.
  pose proof sim_close. destruct u; cbn [user_step]; sim_go.
Qed.


(** Where the processing goroutine works on [p] alone. *)
Definition p_local (c : proc_pc) : bool :=
  match c with
  | PIdle | PTake | PTakeRecved | PTakeClose | PTcpSend _ | PTcpClose
  | PCloseDelete => false
  | _ => true
  end.

Lemma sim_proc c : p_local c = true -> sim p e (proc_step p e c) (proc_step p e c).
Proof.
  intros Hc. pose proof sim_close.
  destruct c; try done; cbn [proc_step select_step callback_step];
    unfold sendCount_add, sendWait_send; sim_go.
Qed.

Lemma sim_takes g h u : view_rel p e g h -> takes p u g = takes p u h.
Proof.
  intros Hv. destruct (vr_obj _ _ _ _ Hv) as (o & c & Ho & Hho & Hc & Hhc).
  unfold takes. destruct u; try done.
  rewrite (at_recvQueued_run _ _ _ _ _ Ho Hc), (at_recvQueued_run _ _ _ _ _ Hho Hhc).
  by destruct (chan_recv c) as [[[?|] ?]|].
Qed.

End steps.

(** Taking an entry from a queue to the processing goroutine. *)
Lemma sub_chan_pop {T} (f : T -> ptr) (c d : chan T) x l :
  c_buf c = x :: l -> sub_chan (f x) f c d ->
  exists r, c_buf d = x :: r /\
    sub_chan (f x) f (Chan (c_cap c) l (c_closed c)) (Chan (c_cap d) r (c_closed d)).
Proof.
  intros Hb (H1 & H2 & H3). rewrite Hb, filter_cons_True in H3 by done.
  eexists. split; [exact H3|]. by split_and!.
Qed.

Lemma sub_chan_pop_other {T} q (f : T -> ptr) (c d : chan T) x l :
  c_buf c = x :: l -> q <> f x -> sub_chan q f c d ->
  sub_chan q f (Chan (c_cap c) l (c_closed c)) d.
Proof.
  intros Hb Hne (H1 & H2 & H3). split_and!; [done|done|].
  rewrite H3, Hb, filter_cons_False; [done|congruence].
Qed.

(** The wait of the goroutine in [GoConc] for such an entry. *)
Definition take_pc (c : select_case) : proc_pc :=
  match c with
  | CaseSend => PTake
  | CaseRecved => PTakeRecved
  | CaseClose => PTakeClose
  | CaseInput => PIdle
  end.

(** The entry [x] is taken from a queue and leads to [pc] at [q]. *)
Record taken_entry (c : select_case) (g g' : go_state) (q : ptr) (pc : proc_pc)
    : Prop := TakenEntry {
  te_named : named g q;
  te_less : forall q', named g' q' -> named g q';
  te_pcbs : pcbs g' = pcbs g;
  te_bchans : bchans g' = bchans g;
  te_tcp : tcpPcbs g' = tcpPcbs g;
  te_open : open_queues g -> open_queues g';
  te_pc : pc <> PCloseDelete /\ take_pc c <> PCloseFind;
  te_own : forall e h, view_rel q e g h ->
    exists h', proc_step q e (take_pc c) h = Ok (pc, h') /\ view_rel q e g' h';
  te_other : forall p e h, p <> q -> view_rel p e g h -> view_rel p e g' h
}.

(** The three cases are the same proof, each about its queue. *)
Ltac take_case Hb Hcap Hcl vr :=
  split; cbn [pcbs bchans tcpPcbs]; try done;
  [ unfold named; rewrite Hb; cbn; set_solver
  | intros q''; unfold named; cbn; rewrite Hb; cbn; set_solver
  | unfold open_queues, open_queue; cbn; intros ?; destruct_and?; split_and!; congruence
  | intros e h Hv; destruct (sub_chan_pop _ _ _ _ _ Hb (vr _ _ _ _ Hv)) as (r & Hr & Hs);
    cbn [proc_step select_step take_pc]; unfold mbind, M_bind, on_recvedQueue,
      on_closeQueue, on_sendQueue, zoom, chan_recv;
    rewrite Hr; cbn; eexists; split; [done|]; split; cbn; try apply Hv;
    rewrite <- Hcap, <- Hcl in Hs; exact Hs
  | intros p'' e h Hne Hv; split; cbn; try apply Hv;
    pose proof (sub_chan_pop_other _ _ _ _ _ _ Hb Hne (vr _ _ _ _ Hv)) as Hs;
    rewrite <- Hcap, <- Hcl in Hs; exact Hs ].

Lemma take_entry_sim c x g g' :
  take_entry c g = Ok (x, g') ->
  (x = None /\ g' = g) \/ exists q pc, x = Some (q, pc) /\ taken_entry c g g' q pc.
Proof.
  intros H. destruct c; cbn [take_entry] in *; unfold mbind, M_bind in *.
  - destruct (on_recvedQueue chan_recv g) as [[r g1]|] eqn:E; [|done].
    apply zoom_inv in E as (d & Hr & ->). apply chan_recv_inv in Hr.
    destruct r as [[q n]|]; [|done]. destruct Hr as (Hb & Hcap & Hcl).
    injection H as <- <-. right. exists q, (PRecved n). split; [done|].
    destruct d. cbn in *. take_case Hb Hcap Hcl vr_recved.
  - destruct (on_closeQueue chan_recv g) as [[r g1]|] eqn:E; [|done].
    apply zoom_inv in E as (d & Hr & ->). apply chan_recv_inv in Hr.
    destruct r as [q|]; [|done]. destruct Hr as (Hb & Hcap & Hcl).
    injection H as <- <-. right. exists q, PTcpClose. split; [done|].
    destruct d. cbn in *. take_case Hb Hcap Hcl vr_close.
  - destruct (on_sendQueue chan_recv g) as [[r g1]|] eqn:E; [|done].
    apply zoom_inv in E as (d & Hr & ->). apply chan_recv_inv in Hr.
    destruct r as [[q b]|]; [|done]. destruct Hr as (Hb & Hcap & Hcl).
    injection H as <- <-. right. exists q, (PSendErr b). split; [done|].
    destruct d. cbn in *. take_case Hb Hcap Hcl vr_send.
  - left. by injection H as <- <-.
Qed.

(** ** The invariant *)

(** Where the processing goroutine is as [p] sees it. *)
Definition proc_at (p : ptr) (x : option (ptr * proc_pc)) : proc_pc :=
  match x with
  | Some (q, c) => if decide (q = p) then c else PIdle
  | None => PIdle
  end.

(** The goroutine is where it is in [GoConc], or outside of a method of [p]. *)
Definition user_corr (p : ptr) (x : ptr * user_pc) (v : user_pc) : Prop :=
  if decide (x.1 = p) then v = x.2 else returned v = true.

Record corr (p : ptr) (m : multi) (l : link) (s : sys) : Prop := Corr {
  cr_view : view_rel p (l_state l) (m_gst m) (gst s);
  cr_users : Forall2 (user_corr p) (m_users m) (users s);
  cr_proc : proc s = proc_at p (m_proc m);
  cr_queued : queued s = l_queued l;
  cr_live : l_live l = true -> live s = true;
  cr_received : received s = l_received l;
  cr_taken : taken s = l_taken l;
  cr_lost : lost s = l_lost l
}.

Record minv (m : multi) : Prop := MInv {
  mi_distinct : distinct (m_gst m);
  mi_open : open_queues (m_gst m);
  mi_dom : dom (pcbs (m_gst m)) = dom (m_conns m);
  mi_users : forall t q u, m_users m !! t = Some (q, u) ->
    u = UIdle \/ is_Some (m_conns m !! q);
  mi_named : forall q, named (m_gst m) q -> is_Some (m_conns m !! q);
  mi_table : forall p l, m_conns m !! p = Some l -> l_live l = true ->
    tcpPcbs (m_gst m) !! l_state l = Some p;
  mi_delete : forall p l, m_proc m = Some (p, PCloseDelete) ->
    m_conns m !! p = Some l ->
    l_live l = false /\ tcpPcbs (m_gst m) !! l_state l = Some p;
  mi_corr : forall p l, m_conns m !! p = Some l ->
    exists s, sys_reachable p (l_state l) s /\ corr p m l s
}.

(** The links of one connection change, and not its state's address. *)
Definition relink (m m' : multi) (p : ptr) : Prop :=
  exists l l', m_conns m !! p = Some l /\ m_conns m' = <[p := l']> (m_conns m) /\
    l_state l' = l_state l /\ (l_live l' = true -> l_live l = true).

Lemma users_corr_insert p us vs t x v :
  Forall2 (user_corr p) us vs -> user_corr p x v ->
  Forall2 (user_corr p) (<[t := x]> us) (<[t := v]> vs).
Proof. intros H1 H2. by apply Forall2_insert. Qed.

(** A goroutine that is elsewhere leaves [p] where it is. *)
Lemma users_corr_other p us vs t x y :
  Forall2 (user_corr p) us vs -> us !! t = Some x ->
  y.1 <> p -> (x.1 = p -> returned x.2 = true) ->
  Forall2 (user_corr p) (<[t := y]> us) vs.
Proof.
  intros Hc Hx Hy Hr. destruct (Forall2_lookup_l _ _ _ _ _ Hc Hx) as (v & Hv & Huv).
  rewrite <- (list_insert_id vs t v) by done. apply users_corr_insert; [done|].
  unfold user_corr in *. rewrite decide_False by done.
  case_decide; [|done]. subst v. auto.
Qed.

(** A step for [q] that other connections do not see. *)
Lemma corr_other p q m g us c cs l s :
  p <> q -> corr p m l s -> m_proc m = None \/ (exists x, m_proc m = Some (q, x)) ->
  (forall e h, view_rel p e (m_gst m) h -> view_rel p e g h) ->
  Forall2 (user_corr p) us (users s) -> c = None \/ (exists x, c = Some (q, x)) ->
  corr p (Multi g us c cs) l s.
Proof.
  intros Hne [] Hp Hv Hu Hc. split; cbn; try done; [by apply Hv|].
  rewrite cr_proc0. destruct Hp as [->|[x ->]], Hc as [->|[y ->]]; cbn; try done;
    by rewrite !decide_False by congruence.
Qed.

(** A step for [q] keeps the invariant when it does for [q]. *)
Lemma minv_step m m' q :
  minv m -> relink m m' q -> others q (m_gst m) (m_gst m') ->
  (m_proc m' = m_proc m \/ (m_proc m = None \/ (exists x, m_proc m = Some (q, x))) /\
     (m_proc m' = None \/ (exists x, m_proc m' = Some (q, x)))) ->
  (forall t p u, m_users m' !! t = Some (p, u) ->
     u = UIdle \/ p = q \/ m_users m !! t = Some (p, u)) ->
  (forall p s, p <> q -> Forall2 (user_corr p) (m_users m) (users s) ->
     Forall2 (user_corr p) (m_users m') (users s)) ->
  (forall l, m_proc m' = Some (q, PCloseDelete) -> m_conns m' !! q = Some l ->
     l_live l = false /\ tcpPcbs (m_gst m') !! l_state l = Some q) ->
  (forall l l' s, m_conns m !! q = Some l -> m_conns m' !! q = Some l' ->
     sys_reachable q (l_state l) s -> corr q m l s ->
     exists s', rtc (go_next q (l_state l)) s s' /\ corr q m' l' s') ->
  minv m'.
Proof.
  intros I (l0 & l0' & Hl0 & Hcs & Hst & Hlv) Ho Hp Hus Hot Hdel Hown.
  assert (Hin : forall p, is_Some (m_conns m !! p) -> is_Some (m_conns m' !! p)).
  { intros p [l Hl]. rewrite Hcs. destruct (decide (p = q)) as [->|Hne].
    - rewrite lookup_insert_eq. eauto.
    - rewrite lookup_insert_ne by done. eauto. }
  assert (Hself : m_conns m' !! q = Some l0') by by rewrite Hcs, lookup_insert_eq.
  assert (Hback : forall p l, p <> q -> m_conns m' !! p = Some l -> m_conns m !! p = Some l).
  { intros p l Hne. by rewrite Hcs, lookup_insert_ne. }
  split.
  - apply Ho.
  - apply Ho, I.
  - rewrite (ot_dom _ _ _ Ho), (mi_dom _ I), Hcs, dom_insert_L.
    apply elem_of_dom_2 in Hl0. set_solver.
  - intros t p u Hu. destruct (Hus _ _ _ Hu) as [|[->|Hu']]; [by left|right; eauto|].
    destruct (mi_users _ I _ _ _ Hu') as [|]; [by left|right; auto].
  - intros p [Hn| ->]%(ot_named _ _ _ Ho); [|eauto]. by apply Hin, (mi_named _ I).
  - intros p l Hl Hlive. rewrite (ot_tcp _ _ _ Ho). destruct (decide (p = q)) as [->|Hne].
    + rewrite Hself in Hl. injection Hl as <-. rewrite Hst. apply (mi_table _ I); auto.
    + apply (mi_table _ I); auto.
  - intros p l Hpd Hl. destruct (decide (p = q)) as [->|Hne]; [by apply Hdel|].
    rewrite (ot_tcp _ _ _ Ho). apply (mi_delete _ I); [|by auto].
    destruct Hp as [<-|[_ [Hp|[x Hp]]]]; congruence.
  - intros p l Hl. destruct (decide (p = q)) as [->|Hne].
    + destruct (mi_corr _ I _ _ Hl0) as (s & Hr & Hc). rewrite Hself in Hl.
      injection Hl as <-. destruct (Hown _ _ _ Hl0 Hself Hr Hc) as (s' & Hs & Hc').
      exists s'. rewrite Hst. split; [|done]. destruct Hr as (s0 & ? & ?).
      exists s0. split; [done|]. by etransitivity.
    + destruct (mi_corr _ I p l ltac:(auto)) as (s & Hr & Hc).
      exists s. split; [done|]. destruct Hp as [Hp|[Hp Hp']].
      * destruct Hc. split; try done; [by apply Ho|by apply Hot|by rewrite Hp].
      * destruct m' as [g' us' c' cs']. eapply (corr_other _ q m); try done.
        -- intros e h. by apply Ho.
        -- apply Hot; [done|apply Hc].
Qed.

(** A control block that is closed. *)
Lemma minv_close_pcb m pcb :
  minv m -> minv (Multi (m_gst m) (m_users m) (m_proc m) (close_pcb pcb (m_conns m))).
Proof.
  intros I. assert (Hl : forall p l, close_pcb pcb (m_conns m) !! p = Some l ->
    exists l0, m_conns m !! p = Some l0 /\ l_state l = l_state l0 /\
      (l_live l = true -> l_live l0 = true) /\ l_queued l = l_queued l0 /\
      l_received l = l_received l0 /\ l_taken l = l_taken l0 /\ l_lost l = l_lost l0).
  { intros p l. unfold close_pcb. rewrite lookup_fmap, fmap_Some.
    intros (l0 & Hl0 & ->). exists l0. by case_decide. }
  assert (Hs : forall p, is_Some (m_conns m !! p) ->
    is_Some (close_pcb pcb (m_conns m) !! p)).
  { intros p ?. unfold close_pcb. rewrite lookup_fmap. by apply fmap_is_Some. }
  split; cbn.
  - apply I.
  - apply I.
  - unfold close_pcb. rewrite dom_fmap_L. apply I.
  - intros t q u [|]%(mi_users _ I); [by left|right; auto].
  - intros q ?%(mi_named _ I). auto.
  - intros p l (l0 & Hl0 & -> & Hlive & _)%Hl ?. apply (mi_table _ I); auto.
  - intros p l Hp (l0 & Hl0 & -> & Hlive & _)%Hl.
    destruct (mi_delete _ I _ _ Hp Hl0) as [Hd ?]. split; [|done].
    destruct (l_live l); [|done]. rewrite Hd in Hlive. discriminate (Hlive eq_refl).
  - intros p l (l0 & Hl0 & Hst & Hlive & Hq & Hr & Ht & Hlo)%Hl.
    destruct (mi_corr _ I _ _ Hl0) as (s & Hreach & []). exists s.
    split; [by rewrite Hst|].
    split; cbn; [by rewrite Hst|done|done|congruence|auto|congruence..].
Qed.

Lemma relink_same m g us c p l :
  m_conns m !! p = Some l -> relink m (Multi g us c (m_conns m)) p.
Proof. intros Hl. exists l, l. cbn. by rewrite insert_id. Qed.

Lemma relink_set m g us c p l l' :
  m_conns m !! p = Some l -> l_state l' = l_state l ->
  (l_live l' = true -> l_live l = true) ->
  relink m (Multi g us c (<[p := l']> (m_conns m))) p.
Proof. intros Hl. by exists l, l'. Qed.

(** The goroutine of the program at [t]. *)
Lemma users_other m g c cs p t q u u' :
  m_users m !! t = Some (q, u) -> (q = p \/ returned u = true) ->
  forall p' s, p' <> p -> Forall2 (user_corr p') (m_users m) (users s) ->
    Forall2 (user_corr p') (m_users (Multi g (<[t := (p, u')]> (m_users m)) c cs)) (users s).
Proof.
  intros Hu Hq p' s Hne Hc. eapply users_corr_other; [done|exact Hu|done|].
  cbn. intros ->. by destruct Hq.
Qed.

Lemma users_idle m g c cs p t u' :
  forall t' q u, m_users (Multi g (<[t := (p, u')]> (m_users m)) c cs) !! t' = Some (q, u) ->
    u = UIdle \/ q = p \/ m_users m !! t' = Some (q, u).
Proof.
  cbn. intros t' q u [(<- & [= <- <-] & _)|[_ ?]]%list_lookup_insert_Some; auto.
Qed.

Lemma minv_call m t q u p u' :
  minv m -> m_users m !! t = Some (q, u) -> returned u = true ->
  method_entry u' = true -> is_Some (m_conns m !! p) ->
  minv (Multi (m_gst m) (<[t := (p, u')]> (m_users m)) (m_proc m) (m_conns m)).
Proof.
  intros I Hu Hret He [l Hl].
  eapply (minv_step m _ p); [done|by eapply relink_same|by apply others_refl, I|by left
    |apply users_idle|eapply users_other; [done|by right]|apply I|].
  intros l1 l1' s Hl1 [= Hl1'] Hr Hc. rewrite Hl1 in Hl1'. injection Hl1' as <-.
  destruct (Forall2_lookup_l _ _ _ _ _ (cr_users _ _ _ _ Hc) Hu) as (v & Hv & Huv).
  assert (returned v = true) as Hrv.
  { unfold user_corr in Huv. cbn in Huv. case_decide; congruence. }
  eexists. split; [by eapply rtc_once, next_call|]. destruct Hc. split; cbn; try done.
  apply users_corr_insert; [done|]. unfold user_corr. cbn. by rewrite decide_True.
Qed.

Lemma minv_user m t p u u' g l :
  minv m -> m_users m !! t = Some (p, u) -> returned u = false ->
  user_step p u (m_gst m) = Ok (u', g) -> m_conns m !! p = Some l ->
  minv (Multi g (<[t := (p, u')]> (m_users m)) (m_proc m)
    (<[p := add_taken (takes p u (m_gst m)) l]> (m_conns m))).
Proof.
  intros I Hu Hret Hs Hl. destruct (mi_corr _ I _ _ Hl) as (s0 & _ & Hc0).
  pose proof (sim_user p (l_state l) u _ _ (mi_distinct _ I) (cr_view _ _ _ _ Hc0)) as Hsim.
  rewrite Hs in Hsim. destruct Hsim as [_ Ho].
  eapply (minv_step m _ p); [done|by eapply relink_set|done|by left
    |apply users_idle|eapply users_other; [done|by left]| |].
  - cbn. rewrite lookup_insert_eq. intros l1 Hp [= <-]. cbn.
    rewrite (ot_tcp _ _ _ Ho). by apply (mi_delete _ I).
  - cbn. rewrite lookup_insert_eq. intros l1 l1' s Hl1 [= <-] Hr Hc.
    rewrite Hl in Hl1. injection Hl1 as <-.
    destruct (Forall2_lookup_l _ _ _ _ _ (cr_users _ _ _ _ Hc) Hu) as (v & Hv & Huv).
    unfold user_corr in Huv. cbn in Huv. rewrite decide_True in Huv by done. subst v.
    pose proof (sim_user p (l_state l) u _ _ (mi_distinct _ I) (cr_view _ _ _ _ Hc)) as Hsim.
    rewrite Hs in Hsim. destruct Hsim as [(h' & Hh & Hv') _].
    eexists. split; [by eapply rtc_once, next_user|].
    pose proof (sim_takes _ _ _ _ u (cr_view _ _ _ _ Hc)) as Htk.
    destruct Hc. split; cbn; try done; [|by rewrite cr_taken0, Htk].
    apply users_corr_insert; [done|]. unfold user_corr. cbn. by rewrite decide_True.
Qed.

(** A step of the processing goroutine. *)
Lemma minv_proc m g x p l l' :
  minv m -> m_conns m !! p = Some l ->
  (m_proc m = None \/ exists c, m_proc m = Some (p, c)) ->
  (x = None \/ exists c, x = Some (p, c)) ->
  l_state l' = l_state l -> (l_live l' = true -> l_live l = true) ->
  others p (m_gst m) g ->
  (x = Some (p, PCloseDelete) ->
     l_live l' = false /\ tcpPcbs g !! l_state l = Some p) ->
  (forall s, corr p m l s -> exists s', rtc (go_next p (l_state l)) s s' /\
     corr p (Multi g (m_users m) x (<[p := l']> (m_conns m))) l' s') ->
  minv (Multi g (m_users m) x (<[p := l']> (m_conns m))).
Proof.
  intros I Hl Hp Hx Hst Hlv Ho Hdel Hown.
  eapply (minv_step m _ p); cbn; [done|by eapply relink_set|done|by right|by auto|done|..].
  - rewrite lookup_insert_eq. intros l1 Hx' [= <-]. rewrite Hst. auto.
  - rewrite lookup_insert_eq. intros l1 l1' s Hl1 [= <-] _ Hc.
    rewrite Hl in Hl1. injection Hl1 as <-. auto.
Qed.

Lemma corr_idle p m l s : corr p m l s -> m_proc m = None -> proc s = PIdle.
Proof. intros [] Hp. by rewrite cr_proc0, Hp. Qed.

Lemma corr_at p m l s c : corr p m l s -> m_proc m = Some (p, c) -> proc s = c.
Proof. intros [] Hp. rewrite cr_proc0, Hp. cbn. by rewrite decide_True. Qed.

Lemma proc_at_conn p c : proc_at p (at_conn p c) = c.
Proof. destruct c; cbn; by rewrite ?decide_True. Qed.

Lemma at_conn_or p c : at_conn p c = None \/ exists c', at_conn p c = Some (p, c').
Proof. destruct c; cbn; eauto. Qed.

Lemma minv_take m c x g :
  minv m -> m_proc m = None -> take_entry c (m_gst m) = Ok (x, g) ->
  minv (Multi g (m_users m) x (m_conns m)).
Proof.
  intros I Hp [[-> ->]|(q & pc & -> & [Hn Hless Hpc Hbc Htc Hop [Hd Hf] Hown Hoth])]%take_entry_sim.
  { by rewrite <- Hp; destruct m. }
  destruct (mi_named _ I _ Hn) as [l Hl]. rewrite <- (insert_id _ _ _ Hl) at 1.
  apply (minv_proc m _ _ q l); [done|done|by left|by eauto|done|done| | |].
  - split; try done; [unfold distinct; rewrite Hpc; apply I|by rewrite Hpc|by rewrite Hbc|auto].
  - by intros [= ->].
  - intros s Hc. destruct (Hown _ _ (cr_view _ _ _ _ Hc)) as (h' & Hh & Hv').
    pose proof (corr_idle _ _ _ _ Hc Hp) as Hidle. destruct c.
    4: { injection Hh as <- <-. exists s. split; [done|]. destruct Hc.
         split; cbn; try done. by rewrite decide_True. }
    all: eexists; split;
      [match type of Hh with
       | proc_step _ _ ?pc' _ = _ =>
           eapply rtc_l; [by apply (next_event _ _ _ pc')|]
       end; eapply rtc_once; eapply next_proc; cbn; [reflexivity|done..|exact Hh]|].
    all: destruct Hc; split; cbn; rewrite ?decide_True, ?app_nil_r by done; done.
Qed.

Lemma minv_event m p l c :
  minv m -> m_proc m = None -> m_conns m !! p = Some l -> link_entry l c = true ->
  minv (Multi (m_gst m) (m_users m) (Some (p, c)) (m_conns m)).
Proof.
  intros I Hp Hl He. rewrite <- (insert_id _ _ _ Hl).
  apply (minv_proc m _ _ p l); [done|done|by left|by eauto|done|done| | |].
  - apply others_refl, I.
  - by intros [= ->].
  - intros s Hc. eexists. split.
    + eapply rtc_once, (next_event _ _ _ c); [by eapply corr_idle|].
      pose proof (cr_live _ _ _ _ Hc) as Hlv. pose proof (cr_queued _ _ _ _ Hc) as Hq.
      destruct c as [| | | | | | | | |[]| | | | | | | | | |]; try done; cbn in *; auto.
      apply andb_true_iff in He as [H1 H2]. by rewrite Hq, H2, Hlv.
    + destruct Hc. split; cbn; try done. by rewrite decide_True.
Qed.

Lemma minv_sent m p l :
  minv m -> m_proc m = None -> m_conns m !! p = Some l ->
  minv (Multi (m_gst m) (m_users m) None (<[p := set_queued false l]> (m_conns m))).
Proof.
  intros I Hp Hl.
  apply (minv_proc m _ _ p l); [done|done|by left|by left|done|done| |done|].
  - apply others_refl, I.
  - intros s Hc. eexists. split; [by eapply rtc_once, next_sent, corr_idle|].
    by destruct Hc.
Qed.

(** Deleting the connection from the table. *)
Lemma delete_sim p e g h :
  distinct g -> view_rel p e g h -> tcpPcbs g !! e = Some p ->
  view_rel p e (set_tcpPcbs (delete e (tcpPcbs g)) g) (set_tcpPcbs (delete e (tcpPcbs h)) h) /\
  forall q e' h', q <> p -> view_rel q e' g h' ->
    view_rel q e' (set_tcpPcbs (delete e (tcpPcbs g)) g) h'.
Proof.
  intros Hd Hv Ht. split.
  - split; cbn; try apply Hv. by rewrite !lookup_delete_eq.
  - intros q e' h' Hne Hv'. split; cbn; try apply Hv'. rewrite <- (vr_tcp _ _ _ _ Hv').
    destruct (decide (e' = e)) as [->|]; [|by rewrite lookup_delete_ne].
    rewrite lookup_delete_eq, Ht. split; [done|congruence].
Qed.

Lemma minv_delete m p l c' g :
  minv m -> m_proc m = Some (p, PCloseDelete) -> m_conns m !! p = Some l ->
  proc_step p (l_state l) PCloseDelete (m_gst m) = Ok (c', g) ->
  minv (Multi g (m_users m) (at_conn p c')
    (<[p := add_received (puts PCloseDelete) l]> (m_conns m))).
Proof.
  intros I Hp Hl [= <- <-]. destruct (mi_delete _ I _ _ Hp Hl) as [Hlv Ht].
  assert (add_received (puts PCloseDelete) l = l) as ->.
  { destruct l. unfold add_received. cbn. by rewrite app_nil_r. }
  rewrite (insert_id _ _ _ Hl).
  assert (Hd : forall q lq, m_conns m !! q = Some lq -> l_live lq = true ->
    l_state lq <> l_state l).
  { intros q lq Hq Hlive Heq. pose proof (mi_table _ I _ _ Hq Hlive). congruence. }
  split; cbn; try apply I.
  - intros q lq Hq Hlive. rewrite lookup_delete_ne; [by apply (mi_table _ I)|].
    apply not_eq_sym. eauto.
  - done.
  - intros q lq Hq. destruct (mi_corr _ I _ _ Hq) as (s & (s0 & Hi & Hr) & Hc).
    destruct (decide (q = p)) as [->|Hne].
    + rewrite Hl in Hq. injection Hq as <-.
      destruct (delete_sim _ _ _ _ (mi_distinct _ I) (cr_view _ _ _ _ Hc) Ht) as [Hv _].
      pose proof (corr_at _ _ _ _ _ Hc Hp) as Hpc. eexists. split.
      * exists s0. split; [done|]. eapply rtc_r; [done|].
        by eapply next_proc; [exact Hpc|..].
      * destruct Hc. split; cbn; try done; [by rewrite decide_True|].
        by rewrite app_nil_r.
    + exists s. split; [by exists s0|]. eapply (corr_other _ p m); [done|done|eauto| |
        apply Hc|eauto]. intros e h Hv.
      destruct (mi_corr _ I _ _ Hl) as (s1 & _ & Hc1).
      by apply (delete_sim _ _ _ _ (mi_distinct _ I) (cr_view _ _ _ _ Hc1) Ht).
Qed.

Lemma sim_proc_step m p l c c' g :
  minv m -> m_conns m !! p = Some l -> p_local c = true ->
  proc_step p (l_state l) c (m_gst m) = Ok (c', g) ->
  others p (m_gst m) g /\
  forall s, corr p m l s -> exists h', proc_step p (l_state l) c (gst s) = Ok (c', h') /\
    view_rel p (l_state l) g h'.
Proof.
  intros I Hl Hc Hs. pose proof (sim_proc p (l_state l) c Hc) as Hsim. split.
  - destruct (mi_corr _ I _ _ Hl) as (s & _ & Hcs).
    specialize (Hsim _ _ (mi_distinct _ I) (cr_view _ _ _ _ Hcs)).
    rewrite Hs in Hsim. apply Hsim.
  - intros s Hcs. specialize (Hsim _ _ (mi_distinct _ I) (cr_view _ _ _ _ Hcs)).
    rewrite Hs in Hsim. apply Hsim.
Qed.

Lemma close_pc_result p e c g c' g' :
  proc_step p e c g = Ok (c', g') -> c' = PCloseDelete -> c = PCloseFind \/ c = PCloseDelete.
Proof.
  intros H ->. destruct c; try (by auto);
    cbn [proc_step select_step callback_step] in H; unfold mbind, M_bind, mret, M_ret in H;
    repeat case_match; simplify_eq.
Qed.

Lemma minv_own m p l c c' g :
  minv m -> m_proc m = Some (p, c) -> m_conns m !! p = Some l -> go_alone c = true ->
  proc_step p (l_state l) c (m_gst m) = Ok (c', g) ->
  minv (Multi g (m_users m) (at_conn p c') (<[p := add_received (puts c) l]> (m_conns m))).
Proof.
  intros I Hp Hl Ha Hs.
  assert (c = PCloseDelete \/ c <> PCloseDelete /\ p_local c = true) as [->|[Hne Hc]]
    by (destruct c; (by left) || by right).
  { by apply minv_delete. }
  destruct (sim_proc_step _ _ _ _ _ _ I Hl Hc Hs) as [Ho Hsim].
  apply (minv_proc m _ _ p l); [done|done|by eauto|by apply at_conn_or|done|done|done| |].
  - intros Hx. exfalso.
    destruct (close_pc_result _ _ _ _ _ _ Hs) as [->|]; [by destruct c'; simplify_eq/=|done..].
  - intros s Hcs. destruct (Hsim _ Hcs) as (h' & Hh & Hv).
    pose proof (corr_at _ _ _ _ _ Hcs Hp) as Hpc. eexists. split.
    + eapply rtc_once, next_proc; [exact Hpc|by destruct c..|exact Hh].
    + destruct Hcs. split; cbn; try done; [by rewrite proc_at_conn|by rewrite cr_received0].
Qed.

Lemma minv_tcp_send m p l data q res :
  minv m -> m_proc m = Some (p, PTcpSend data) -> m_conns m !! p = Some l ->
  char_send_result (l_queued l) res = true ->
  minv (Multi (m_gst m) (m_users m) None (<[p := char_sent data q res l]> (m_conns m))).
Proof.
  intros I Hp Hl Hres.
  apply (minv_proc m _ _ p l); [done|done|by eauto|by left|done|done| |done|].
  - apply others_refl, I.
  - intros s Hc. eexists. split.
    + eapply rtc_once, (next_tcp_send _ _ _ data q res); [by eapply corr_at|].
      by rewrite (cr_queued _ _ _ _ Hc).
    + destruct Hc. split; cbn; try done; [by rewrite cr_queued0|by rewrite cr_lost0].
Qed.

Lemma minv_tcp_close m p l (closed : bool) :
  minv m -> m_proc m = Some (p, PTcpClose) -> m_conns m !! p = Some l ->
  minv (Multi (m_gst m) (m_users m) None
    (if closed then close_pcb (l_pcb l) (m_conns m) else m_conns m)).
Proof.
  intros I Hp Hl. destruct closed; cycle 1.
  { rewrite <- (insert_id (m_conns m) p l) by done.
    apply (minv_proc m _ _ p l); [done|done|by eauto|by left|done|done| |done|].
    - apply others_refl, I.
    - intros s Hc. eexists. split; [by eapply rtc_once, (next_tcp_close _ _ _ false), corr_at|].
      rewrite andb_true_r. by destruct Hc. }
  assert (minv (Multi (m_gst m) (m_users m) None
    (<[p := set_live false l]> (m_conns m)))) as I'.
  { apply (minv_proc m _ _ p l); [done|done|by eauto|by left|done|done| |done|].
    - apply others_refl, I.
    - intros s Hc. eexists. split; [by eapply rtc_once, (next_tcp_close _ _ _ true), corr_at|].
      by destruct Hc. }
  apply (minv_close_pcb _ (l_pcb l)) in I'. cbn in I'. unfold close_pcb in *.
  rewrite fmap_insert, insert_id in I'; [done|].
  rewrite lookup_fmap, Hl. cbn. by rewrite !decide_True.
Qed.

Lemma minv_closed m p l c' g :
  minv m -> m_proc m = Some (p, PCloseFind) -> m_conns m !! p = Some l ->
  proc_step p (l_state l) PCloseFind (m_gst m) = Ok (c', g) ->
  minv (Multi g (m_users m) (at_conn p c') (<[p := set_live false l]> (m_conns m))).
Proof.
  intros I Hp Hl Hs. destruct (sim_proc_step m p l PCloseFind c' g I Hl eq_refl Hs) as [Ho Hsim].
  apply (minv_proc m _ _ p l); [done|done|by eauto|by apply at_conn_or|done|done|done| |].
  - intros Hx. split; [done|]. injection Hs as <- <-. by case_decide.
  - intros s Hcs. destruct (Hsim _ Hcs) as (h' & Hh & Hv).
    pose proof (corr_at _ _ _ _ _ Hcs Hp) as Hpc. eexists. split.
    + eapply rtc_once, next_closed; [exact Hpc|exact Hh].
    + destruct Hcs. split; cbn; try done. by rewrite proc_at_conn.
Qed.

(** ** Accepting *)

Lemma sub_chan_nil {T} p (f : T -> ptr) c :
  p ∉ f <$> c_buf c -> c_cap c = QUEUE -> c_closed c = false ->
  sub_chan p f c (make_chan QUEUE).
Proof.
  intros Hn Hc Hcl. split_and!; cbn; [done|done|]. symmetry.
  clear -Hn. induction (c_buf c) as [|x l IH]; [done|]. cbn in Hn.
  rewrite filter_cons_False by set_solver. apply IH. set_solver.
Qed.

(** The new connection is as [GoConc] starts, and nobody else sees it. *)
Lemma accept_view g p q arg pcb e la ra lp rp :
  p ∉ dom (pcbs g) -> q ∉ dom (bchans g) -> open_queues g -> ~ named g p ->
  view_rel p e
    (set_tcpPcbs (<[e := p]> (tcpPcbs g))
      (set_pcbs (<[p := Pcb TCP arg pcb (Some e) la lp ra rp false false q
                          (Some (make_chan 1)) 0 false]> (pcbs g))
        (set_bchans (<[q := make_chan QUEUE]> (bchans g)) g)))
    (go_conn0 p e arg pcb la ra lp rp).
Proof.
  intros Hp Hq ((H1 & H2) & (H3 & H4) & H5 & H6) Hn. unfold named in Hn.
  split; cbn.
  - eexists _, (make_chan QUEUE). split; [apply lookup_insert_eq|].
    split; [apply lookup_singleton_eq|]. split; apply lookup_insert_eq.
  - rewrite lookup_insert_eq, lookup_singleton_eq. done.
  - apply sub_chan_nil; [set_solver|done..].
  - apply sub_chan_nil; [set_solver|done..].
  - apply sub_chan_nil; try done. rewrite list_fmap_id. set_solver.
Qed.

Lemma accept_other g p p' q e e' o h :
  p ∉ dom (pcbs g) -> q ∉ dom (bchans g) -> tcpPcbs g !! e = None -> p' <> p ->
  view_rel p' e' g h ->
  view_rel p' e'
    (set_tcpPcbs (<[e := p]> (tcpPcbs g))
      (set_pcbs (<[p := o]> (pcbs g)) (set_bchans (<[q := make_chan QUEUE]> (bchans g)) g))) h.
Proof.
  intros Hp Hq He Hne Hv. split; cbn; try apply Hv.
  - destruct (vr_obj _ _ _ _ Hv) as (o1 & c1 & Ho1 & Hho1 & Hc1 & Hhc1).
    exists o1, c1. rewrite (lookup_insert_ne (pcbs g)) by done.
    rewrite (lookup_insert_ne (bchans g)); [done|].
    intros ->. apply Hq. by eapply elem_of_dom_2.
  - rewrite <- (vr_tcp _ _ _ _ Hv). destruct (decide (e' = e)) as [->|].
    + rewrite lookup_insert_eq, He. split; [congruence|done].
    + by rewrite lookup_insert_ne.
Qed.

Lemma minv_accept m arg pcb e la ra lp rp p g :
  minv m -> m_proc m = None -> tcpPcbs (m_gst m) !! e = None ->
  (forall q l, m_conns m !! q = Some l -> l_live l = true ->
     l_state l <> e /\ l_pcb l <> pcb) ->
  newPCB TCP arg pcb (Some e) la ra lp rp (m_gst m) = Ok (p, g) ->
  minv (Multi (set_tcpPcbs (<[e := p]> (tcpPcbs g)) g) (m_users m) None
    (<[p := Link e pcb false true [] [] []]> (m_conns m))).
Proof.
  intros I Hp He Hfresh (Hpn & q & Hqn & ->)%newPCB_run.
  assert (Hc : m_conns m !! p = None).
  { apply not_elem_of_dom. by rewrite <- (mi_dom _ I). }
  assert (Hn : ~ named (m_gst m) p).
  { intros [l Hl]%(mi_named _ I). congruence. }
  assert (Hmono : forall p', is_Some (m_conns m !! p') ->
    is_Some (<[p := Link e pcb false true [] [] []]> (m_conns m) !! p')).
  { intros p' ?. rewrite lookup_insert_is_Some'. by right. }
  split; cbn.
  - intros p1 p2 o1 o2 H1 H2. cbn in H1, H2.
    assert (Hne : forall p' o', pcbs (m_gst m) !! p' = Some o' -> recvQueued o' <> q).
    { intros p' o' Ho' <-. apply Hqn. assert (is_Some (m_conns m !! p')) as [l Hl].
      { apply elem_of_dom. rewrite <- (mi_dom _ I). by eapply elem_of_dom_2. }
      destruct (mi_corr _ I _ _ Hl) as (s & _ & Hcs).
      destruct (vr_obj _ _ _ _ (cr_view _ _ _ _ Hcs)) as (o1' & c1 & Ho1 & _ & Hc1 & _).
      rewrite Ho' in Ho1. injection Ho1 as <-. by eapply elem_of_dom_2. }
    apply lookup_insert_Some in H1 as [[<- <-]|[? H1]];
      apply lookup_insert_Some in H2 as [[<- <-]|[? H2]]; cbn; try done.
    + intros Hq. by destruct (Hne _ _ H2).
    + intros Hq. by destruct (Hne _ _ H1).
    + by eapply (mi_distinct _ I).
  - apply I.
  - rewrite !dom_insert_L. f_equal. apply I.
  - intros t q' u [|]%(mi_users _ I); [by left|right; auto].
  - intros q' ?%(mi_named _ I). auto.
  - intros p' l [[<- <-]|[Hne Hl]]%lookup_insert_Some Hlive; cbn.
    + apply lookup_insert_eq.
    + rewrite lookup_insert_ne; [by apply (mi_table _ I)|].
      apply not_eq_sym. by eapply Hfresh.
  - done.
  - intros p' l [[<- <-]|[Hne Hl]]%lookup_insert_Some; cbn.
    + exists (Sys (go_conn0 p e arg pcb la ra lp rp) (replicate (length (m_users m)) UIdle)
        PIdle false true [] [] [] false).
      split.
      { eexists. split; [|apply rtc_refl]. split; [by repeat eexists|].
        split_and!; try done. cbn. apply Forall_forall.
        by intros u [-> _]%elem_of_replicate. }
      split; cbn; try done; [apply accept_view; [done..|apply I|done]|].
      apply Forall2_same_length_lookup_2; [by rewrite length_replicate|].
      intros i [q' u] v Hu [-> _]%lookup_replicate_1. unfold user_corr. cbn.
      case_decide as Hq'; [|done]. subst q'.
      destruct (mi_users _ I _ _ _ Hu) as [->|[l Hl]]; [done|congruence].
    + destruct (mi_corr _ I _ _ Hl) as (s & Hr & Hcs). exists s. split; [done|].
      eapply (corr_other _ p m); [by apply not_eq_sym|done|by left| |apply Hcs|by left].
      intros e' h. by apply accept_other, not_eq_sym.
Qed.

Lemma minv_next m m' : minv m -> multi_next m m' -> minv m'.
Proof.
  intros I [].
  - by eapply minv_call.
  - by eapply minv_user.
  - by eapply minv_take.
  - by eapply minv_event.
  - by eapply minv_sent.
  - by eapply minv_own.
  - by eapply minv_tcp_send.
  - by eapply minv_tcp_close.
  - by eapply minv_closed.
  - by eapply minv_accept.
Qed.

Lemma reachable_minv m : multi_reachable m -> minv m.
Proof.
  intros (m0 & (Hg & Hu & Hp & Hc) & Hr).
  eapply (rtc_invariant multi_next); [|exact Hr|]; [apply minv_next|].
  split; rewrite ?Hg, ?Hp, ?Hc; try done.
  - intros t q u Hl. left. by apply (Forall_lookup_1 _ _ _ _ Hu Hl).
  - intros q. unfold named. cbn. set_solver.
Qed.

(** ** Running the machine *)

(** A step by name: a goroutine calls a method or goes on, the processing
    goroutine takes an entry, lwIP starts a callback for a connection or takes
    what it has queued, the processing goroutine goes on, in Go or in C, where there
    is memory and [q] is whether data are left in a queue, and a connection is
    accepted. *)
Inductive move : Type :=
| MCall (t : nat) (p : ptr) (u : user_pc)
| MUser (t : nat)
| MTake (c : select_case)
| MEvent (p : ptr) (c : proc_pc)
| MSent (p : ptr)
| MGo
| MC (q : bool)
| MAccept (pcb e : ptr).

(** [Ok] is a step, anything else none. *)
Definition ok {X Y} (r : outcome X) (k : X -> option Y) : option Y :=
  match r with Ok x => k x | Fault _ => None end.

Definition fresh_for (cs : gmap ptr link) (pcb e : ptr) : bool :=
  bool_decide (map_Forall (fun _ l =>
    l_live l = false \/ l_state l <> e /\ l_pcb l <> pcb) cs).

Definition multi_exec (m : multi) (mv : move) : option multi :=
  match mv with
  | MCall t p u' =>
      '(q, u) ← m_users m !! t; l ← m_conns m !! p;
      if returned u && method_entry u'
      then Some (Multi (m_gst m) (<[t := (p, u')]> (m_users m)) (m_proc m) (m_conns m))
      else None
  | MUser t =>
      '(p, u) ← m_users m !! t; l ← m_conns m !! p;
      if returned u then None
      else ok (user_step p u (m_gst m)) (fun '(u', g) =>
        Some (Multi g (<[t := (p, u')]> (m_users m)) (m_proc m)
                (<[p := add_taken (takes p u (m_gst m)) l]> (m_conns m))))
  | MTake c =>
      match m_proc m with
      | None => ok (take_entry c (m_gst m)) (fun '(x, g) =>
                  Some (Multi g (m_users m) x (m_conns m)))
      | Some _ => None
      end
  | MEvent p c =>
      l ← m_conns m !! p;
      match m_proc m with
      | None => if link_entry l c
                then Some (Multi (m_gst m) (m_users m) (Some (p, c)) (m_conns m))
                else None
      | Some _ => None
      end
  | MSent p =>
      l ← m_conns m !! p;
      match m_proc m with
      | None => Some (Multi (m_gst m) (m_users m) None
                        (<[p := set_queued false l]> (m_conns m)))
      | Some _ => None
      end
  | MGo =>
      '(p, c) ← m_proc m; l ← m_conns m !! p;
      if go_alone c
      then ok (proc_step p (l_state l) c (m_gst m)) (fun '(c', g) =>
        Some (Multi g (m_users m) (at_conn p c')
                (<[p := add_received (puts c) l]> (m_conns m))))
      else None
  | MC q =>
      '(p, c) ← m_proc m; l ← m_conns m !! p;
      match c with
      | PTcpSend data =>
          Some (Multi (m_gst m) (m_users m) None
            (<[p := char_sent data q (if l_queued l then 100 else 0) l]> (m_conns m)))
      | PTcpClose =>
          Some (Multi (m_gst m) (m_users m) None (close_pcb (l_pcb l) (m_conns m)))
      | PCloseFind =>
          ok (proc_step p (l_state l) PCloseFind (m_gst m)) (fun '(c', g) =>
            Some (Multi g (m_users m) (at_conn p c')
                    (<[p := set_live false l]> (m_conns m))))
      | _ => None
      end
  | MAccept pcb e =>
      match m_proc m, tcpPcbs (m_gst m) !! e with
      | None, None =>
          if fresh_for (m_conns m) pcb e
          then ok (newPCB TCP None pcb (Some e) (IPv4 0) (IPv4 0) 7 8 (m_gst m))
            (fun '(p, g) => Some (Multi (set_tcpPcbs (<[e := p]> (tcpPcbs g)) g)
               (m_users m) None (<[p := Link e pcb false true [] [] []]> (m_conns m))))
          else None
      | _, _ => None
      end
  end.

Fixpoint multi_run (m : multi) (mvs : list move) : option multi :=
  match mvs with
  | [] => Some m
  | mv :: mvs => m' ← multi_exec m mv; multi_run m' mvs
  end.

Ltac open_exec H :=
  cbn [ok] in H;
  repeat match type of H with
  | Some _ = Some _ => injection H as <-
  | (_ ≫= _) = Some _ =>
      let x := fresh "x" in let E := fresh "E" in
      apply bind_Some in H as (x & E & H)
  | ok ?r _ = Some _ => destruct r as [?|] eqn:?; [cbn [ok] in H|discriminate H]
  | match ?x with _ => _ end = Some _ => destruct x eqn:?; try discriminate H
  end; subst.

Lemma multi_exec_sound m mv m' : multi_exec m mv = Some m' -> multi_next m m'.
Proof.
  destruct mv; intros H; unfold multi_exec in H; open_exec H.
  - apply andb_true_iff in Heqb as [? ?]. by eapply mnext_call.
  - by eapply mnext_user.
  - by eapply mnext_take.
  - by eapply mnext_event.
  - by eapply mnext_sent.
  - by eapply mnext_proc.
  - eapply mnext_tcp_send; [done..|]. by case_match.
  - by eapply (mnext_tcp_close _ _ _ true).
  - by eapply mnext_closed.
  - eapply mnext_accept; [done..| |done]. apply bool_decide_eq_true in Heqb.
    intros q l Hq Hl. destruct (Heqb q l Hq); [congruence|done].
Qed.

Lemma multi_run_reachable m mvs m' :
  multi_reachable m -> multi_run m mvs = Some m' -> multi_reachable m'.
Proof.
  revert m. induction mvs as [|mv mvs IH]; intros m Hr H; cbn in H.
  - by injection H as <-.
  - apply bind_Some in H as (m1 & H1%multi_exec_sound & H). eapply IH; [|done].
    destruct Hr as (m0 & ? & ?). exists m0. split; [done|]. by eapply rtc_r.
Qed.

(** ** Properties *)

(** C4: However many connections lwIP accepts and however the goroutines of the
    program use them, what each connection sees is a run of [GoConc] with that
    connection alone: its object, its queue of received data, its entries in
    the queues to the processing goroutine, the goroutines that are in its
    methods, and the processing goroutine where it works on it. *)
Theorem go_multi_refines m p l :
  multi_reachable m -> m_conns m !! p = Some l ->
  exists s, sys_reachable p (l_state l) s /\ corr p m l s.
Proof. intros I%reachable_minv. by apply I. Qed.

(** C6: With any number of connections, each one's packets are those that its
    own [Read]s took, in order, followed by those in its own queue; C never
    refuses data of one as "pending", only for want of memory; a state that lwIP
    still uses leads through the table [tcpPcbs] to the object of its own
    connection; and no method panics, but for a [Read] with a buffer that is too
    small. *)
Theorem go_multi_streams m p l :
  multi_reachable m -> m_conns m !! p = Some l ->
  exists o c, pcbs (m_gst m) !! p = Some o /\
    bchans (m_gst m) !! recvQueued o = Some c /\
    l_received l = l_taken l ++ c_buf c /\ Forall (fun x => x.2 = 1) (l_lost l) /\
    (l_live l = true -> tcpPcbs (m_gst m) !! l_state l = Some p) /\
    forall t u f, m_users m !! t = Some (p, u) ->
      user_step p u (m_gst m) = Fault f ->
      f = Blocked \/
      exists n b, u = RTake n /\ head (c_buf c) = Some b /\ (n < length b)%nat.
Proof.
  intros I%reachable_minv Hl. destruct (mi_corr _ I _ _ Hl) as (s & Hr & Hc).
  destruct (vr_obj _ _ _ _ (cr_view _ _ _ _ Hc)) as (o & c & Ho & Hho & Hb & Hhb).
  destruct (reachable_conc _ _ _ Hr) as (o' & c' & k & Is).
  assert (c' = c) as ->.
  { pose proof (co_obj _ _ _ _ _ Is) as Ho'. rewrite Hho in Ho'. injection Ho' as <-.
    pose proof (co_chan _ _ _ _ _ Is) as Hc'. cbn in Hc'. congruence. }
  exists o, c. split_and!; [done|done| | |by apply (mi_table _ I)|].
  - rewrite <- (cr_received _ _ _ _ Hc), <- (cr_taken _ _ _ _ Hc). apply Is.
  - rewrite <- (cr_lost _ _ _ _ Hc). apply Is.
  - intros t u f Hu Hs. destruct (Forall2_lookup_l _ _ _ _ _ (cr_users _ _ _ _ Hc) Hu)
      as (v & Hv & Huv). unfold user_corr in Huv. cbn in Huv.
    rewrite decide_True in Huv by done. subst v.
    pose proof (sim_user p (l_state l) u _ _ (mi_distinct _ I) (cr_view _ _ _ _ Hc)) as Hsim.
    rewrite Hs in Hsim. destruct Hsim as [->|Hf]; [by left|].
    by eapply user_fault.
Qed.

(** ** One connection and another *)

(** No connection yet, and [n] goroutines. *)
Definition multi0 (n : nat) : multi :=
  Multi go_state0 (replicate n (1%positive, UIdle)) None ∅.

Lemma multi0_reachable n : multi_reachable (multi0 n).
Proof.
  exists (multi0 n). split; [|apply rtc_refl]. split_and!; try done. cbn.
  apply Forall_forall. by intros x [-> _]%elem_of_replicate.
Qed.

Lemma multi0_run n mvs m : multi_run (multi0 n) mvs = Some m -> multi_reachable m.
Proof. apply multi_run_reachable, multi0_reachable. Qed.

(** The peer closes the first connection, lwIP gives its control block and the
    address of its state to the next one, and then the program closes the
    first one too. *)
Definition close_other : list move :=
  [MAccept 10 20; MEvent 1 PCloseFind; MC false] ++ replicate 7 MGo ++
  [MAccept 10 20; MCall 0 1 (UClose KLock)] ++ replicate 4 (MUser 0) ++
  [MTake CaseClose].

(** C31: Closing a connection in Go that the peer has closed before closes a
    control block that is not its own any more: there is a run in which the
    processing goroutine, for the close of one connection, closes another one
    that nobody has closed; to Go that one stays open, but lwIP will not call
    for it again. *)
Theorem go_close_hits_other :
  exists m m' p q o l l',
    multi_reachable m /\ m_proc m = Some (p, PTcpClose) /\ p <> q /\
    m_conns m !! q = Some l /\ l_live l = true /\
    multi_next m m' /\ m_conns m' !! q = Some l' /\ l_live l' = false /\
    pcbs (m_gst m') !! q = Some o /\ p_err o = false /\
    tcpPcbs (m_gst m') !! l_state l' = Some q.
Proof.
  destruct (multi_run (multi0 1) close_other) as [m|] eqn:Hm; [|by vm_compute in Hm].
  destruct (multi_exec m (MC false)) as [m'|] eqn:Hm';
    [|vm_compute in Hm; injection Hm as <-; by vm_compute in Hm'].
  exists m, m', 1%positive, 2%positive. do 3 eexists.
  split; [by eapply multi0_run|].
  pose proof (multi_exec_sound _ _ _ Hm') as Hn.
  vm_compute in Hm. injection Hm as <-. vm_compute in Hm'. injection Hm' as <-.
  split; [reflexivity|]. split; [done|]. split; [reflexivity|]. split; [reflexivity|].
  split; [exact Hn|]. by repeat split.
Qed.

(** ** Witnesses *)

(** Two connections get a packet each, and one of them is read. *)
Definition two_conns : list move :=
  [MAccept 10 20; MAccept 11 21; MEvent 1 (PRecvFind [1])] ++ replicate 3 MGo ++
  [MEvent 2 (PRecvFind [2; 3])] ++ replicate 3 MGo ++
  [MCall 0 2 (RInter 5)] ++ replicate 4 (MUser 0).

Lemma two_conns_run :
  exists m l1 l2, multi_reachable m /\ m_conns m !! 1%positive = Some l1 /\
    m_conns m !! 2%positive = Some l2 /\ l_received l1 = [[1]] /\ l_taken l1 = [] /\
    l_received l2 = [[2; 3]] /\ l_taken l2 = [[2; 3]].
Proof.
  destruct (multi_run (multi0 1) two_conns) as [m|] eqn:Hm; [|by vm_compute in Hm].
  exists m. do 2 eexists. split; [by eapply multi0_run|].
  vm_compute in Hm. injection Hm as <-. by repeat split.
Qed.

Lemma go_multi_refines_witness :
  exists e s1 s2, sys_reachable 1 e s1 /\ received s1 = [[1]] /\
    sys_reachable 2 (e + 1) s2 /\ taken s2 = [[2; 3]].
Proof.
  destruct (multi_run (multi0 1) two_conns) as [m|] eqn:Hm; [|by vm_compute in Hm].
  assert (multi_reachable m) as Hr by (exact (multi0_run _ _ _ Hm)).
  vm_compute in Hm. injection Hm as <-.
  destruct (go_multi_refines _ 1%positive _ Hr eq_refl) as (s1 & H1 & C1).
  destruct (go_multi_refines _ 2%positive _ Hr eq_refl) as (s2 & H2 & C2).
  exists 20%positive, s1, s2. split_and!.
  - exact H1.
  - rewrite (cr_received _ _ _ _ C1). reflexivity.
  - exact H2.
  - rewrite (cr_taken _ _ _ _ C2). reflexivity.
Defined.

Lemma go_multi_streams_witness :
  exists l1 l2 c1 c2, l_received l1 = [[1]] /\ l_received l2 = [[2; 3]] /\
    [[1]] = [] ++ c_buf c1 /\ [[2; 3]] = [[2; 3]] ++ c_buf c2.
Proof.
  destruct two_conns_run as (m & l1 & l2 & Hr & H1 & H2 & R1 & T1 & R2 & T2).
  destruct (go_multi_streams m 1%positive l1 Hr H1) as (o1 & c1 & _ & _ & E1 & _).
  destruct (go_multi_streams m 2%positive l2 Hr H2) as (o2 & c2 & _ & _ & E2 & _).
  rewrite R1, T1 in E1. rewrite R2, T2 in E2. by exists l1, l2, c1, c2.
Defined.
