(* ===== verification/GoLive.v ===== *)
(** * The whole program: C, the Go binding and its goroutines

    [TcpConn] has the connections of the C layer, [GoConc] and [GoMulti] the
    goroutines of the binding.  Here they run together: lwIP's calls into the
    layer with the binding as its application, the goroutines of the program
    in the methods of their connections, and the turns of the processing loop
    that send data and open the window.  Proved: a connection that is open in
    Go has a live state and a live control block in C, which the table leads
    back from; so these turns never touch memory that the layer has freed, and
    they do not panic.

    Closing from Go is left out: [go_cs_tcp_close] leaves the invariant of
    the layer behind (see [Bridge]), and may hit another connection
    ([GoMulti]).  A callback or turn of the processing goroutine is one step
    here; [GoConc] has the steps inside it. *)

From S2P Require Import Prelude Lwip Cs Tcp TcpSend TcpConn Udp Netif Bridge.
From S2P Require Import GoChan GoBind GoApp GoWf GoReach GoConc.
Local Open Scope Z_scope.

(** ** The objects and the states of the layer *)

(** [K] is the control block of each live state of the layer, [U] are the
    connections in whose methods goroutines are. *)
Record linked (U : ptr -> Prop) (K : gmap ptr ptr) (g : go_state) : Prop := Linked {
  lk_open : forall p o, pcbs g !! p = Some o -> p_type o = TCP -> p_err o = false ->
    exists e, p_state o = Some e /\ tcpPcbs g !! e = Some p /\ K !! e = Some (p_pcb o);
  lk_send : forall p b, (p, b) ∈ c_buf (sendQueue g) ->
    b <> [] /\ exists o, pcbs g !! p = Some o /\ p_type o = TCP;
  lk_recved : forall p n, (p, n) ∈ c_buf (recvedQueue g) ->
    exists o, pcbs g !! p = Some o /\ p_type o = TCP;
  lk_users : forall p, U p -> exists o, pcbs g !! p = Some o /\ p_type o = TCP;
  lk_queues : c_closed (sendQueue g) = false /\ c_closed (recvedQueue g) = false
}.

(** No object is added or opened, and the table and the queues stay. *)
Record narrows (g g' : go_state) : Prop := Narrow {
  na_obj : forall p o', pcbs g' !! p = Some o' -> exists o, pcbs g !! p = Some o /\
    p_type o' = p_type o /\ p_state o' = p_state o /\ p_pcb o' = p_pcb o /\
    (p_err o = true -> p_err o' = true);
  na_dom : dom (pcbs g) ⊆ dom (pcbs g');
  na_tcp : tcpPcbs g' = tcpPcbs g;
  na_send : sendQueue g' = sendQueue g;
  na_recved : recvedQueue g' = recvedQueue g
}.

#[export] Instance narrows_preorder : PreOrder narrows.
Proof.
  split.
  - intros g. split; eauto 10.
  - intros g1 g2 g3 [O1 D1 T1 S1 R1] [O2 D2 T2 S2 R2]. split; try congruence.
    + intros p o3 (o2 & Ho2 & ? & ? & ? & ?)%O2.
      destruct (O1 _ _ Ho2) as (o1 & Ho1 & ? & ? & ? & ?).
      exists o1. split_and!; [done|congruence..|auto].
    + by etransitivity.
Qed.

(** An object that was there still is, of the same type. *)
Lemma narrows_type g g' p o :
  narrows g g' -> pcbs g !! p = Some o ->
  exists o', pcbs g' !! p = Some o' /\ p_type o' = p_type o.
Proof.
  intros N Ho. assert (p ∈ dom (pcbs g')) as [o' Ho']%elem_of_dom.
  { apply (na_dom _ _ N). by eapply elem_of_dom_2. }
  exists o'. split; [done|]. destruct (na_obj _ _ N _ _ Ho') as (o1 & H1 & ? & _).
  congruence.
Qed.

Lemma linked_narrows U K g g' : narrows g g' -> linked U K g -> linked U K g'.
Proof.
  intros N [Ho Hs Hr Hu Hq]. split.
  - intros p o' Ho' Ht He. destruct (na_obj _ _ N _ _ Ho') as (o & H1 & H2 & H3 & H4 & H5).
    rewrite H3, H4, (na_tcp _ _ N). apply Ho; [done|congruence|].
    destruct (p_err o); [by rewrite H5 in He|done].
  - rewrite (na_send _ _ N). intros p b (Hb & o & H1 & H2)%Hs. split; [done|].
    destruct (narrows_type _ _ _ _ N H1) as (o' & ? & ?). exists o'. split; congruence.
  - rewrite (na_recved _ _ N). intros p n (o & H1 & H2)%Hr.
    destruct (narrows_type _ _ _ _ N H1) as (o' & ? & ?). exists o'. split; congruence.
  - intros p (o & H1 & H2)%Hu.
    destruct (narrows_type _ _ _ _ N H1) as (o' & ? & ?). exists o'. split; congruence.
  - by rewrite (na_send _ _ N), (na_recved _ _ N).
Qed.

(** Code that narrows. *)
Class Narrows {X} (m : G X) : Prop :=
  narrows_run g : wpf any m g (fun _ g' => narrows g g').

#[export] Instance narrows_ret {X} (x : X) : Narrows (mret x).
Proof. intros g. apply wp_ret. reflexivity. Qed.
#[export] Instance narrows_stop {X} f : Narrows (stop f : G X).
Proof. done. Qed.
#[export] Instance narrows_gets {X} (f : go_state -> X) : Narrows (gets f).
Proof. intros g. apply wp_gets. reflexivity. Qed.
#[export] Instance narrows_deref {X} (o : option X) : Narrows (deref o).
Proof. destruct o; [apply narrows_ret|apply narrows_stop]. Qed.
#[export] Instance narrows_bind {X Y} (m : G X) (f : X -> G Y) :
  Narrows m -> (forall x, Narrows (f x)) -> Narrows (m ≫= f).
Proof.
  intros Hm Hf g. apply wp_bind. eapply wpf_mono; [apply Hm|]. intros x g1 N1.
  eapply wpf_mono; [apply Hf|]. intros y g2 N2. etransitivity; [exact N1|exact N2].
Qed.

(** An operation on an object that keeps what it belongs to, and does not open
    it again. *)
Definition same_obj {X} (m : P X) : Prop :=
  forall o, wpf any m o (fun _ o' =>
    p_type o' = p_type o /\ p_state o' = p_state o /\ p_pcb o' = p_pcb o /\
    (p_err o = true -> p_err o' = true)).

Lemma narrows_at_pcb {X} p (m : P X) : same_obj m -> Narrows (at_pcb p m).
Proof.
  intros Hm g. destruct (pcbs g !! p) as [o|] eqn:Ho.
  - eapply wp_at_pcb; [done|]. eapply wpf_mono; [apply Hm|].
    cbn beta. intros x o' (H1 & H2 & H3 & H4). split; cbn; try done.
    + intros p1 o1 [[<- <-]|[_ Hp]]%lookup_insert_Some; eauto 10.
    + rewrite dom_insert. set_solver.
  - unfold wpf, at_pcb, zoom, at_key. by rewrite Ho.
Qed.

#[export] Instance narrows_at_recvQueued {X} p (m : M (chan bytes) X) :
  Narrows (at_recvQueued p m).
Proof.
  unfold at_recvQueued. apply narrows_bind; [by apply narrows_at_pcb|].
  intros q g. apply wp_zoom. unfold wpf, at_key.
  destruct (bchans g !! q) as [c|]; [|done]. destruct (m c) as [[x c']|]; [|done].
  split; cbn; eauto 10.
Qed.

#[export] Instance narrows_closeQueue {X} (m : M (chan ptr) X) :
  Narrows (on_closeQueue m).
Proof.
  intros g. apply wp_zoom. unfold wpf. destruct (m _) as [[x c']|]; [|done].
  split; cbn; eauto 10.
Qed.

Lemma same_gets {X} (f : PCB -> X) : same_obj (gets f).
Proof. by intros o. Qed.
Lemma same_lock : same_obj lock.
Proof. intros o. unfold wpf, lock. by destruct (lck o). Qed.
Lemma same_unlock : same_obj unlock.
Proof. intros o. unfold wpf, unlock. by destruct (lck o). Qed.
Lemma same_on_sendWait {X} f (m : M (chan Z) X) : same_obj (on_sendWait f m).
Proof.
  intros o. unfold wpf, on_sendWait. destruct (sendWait o) as [c|]; [|done].
  by destruct (m c) as [[? ?]|].
Qed.
Lemma same_sendWait_recv : same_obj sendWait_recv.
Proof.
  intros o. unfold sendWait_recv. apply wp_bind. eapply wpf_mono;
    [apply same_on_sendWait|]. by intros x o' ?.
Qed.
Lemma same_modify (f : PCB -> PCB) :
  (forall o, p_type (f o) = p_type o /\ p_state (f o) = p_state o /\
     p_pcb (f o) = p_pcb o /\ (p_err o = true -> p_err (f o) = true)) ->
  same_obj (modify f).
Proof. intros Hf o. apply wp_modify, Hf. Qed.

Create HintDb live discriminated.
#[export] Hint Resolve narrows_at_pcb narrows_at_recvQueued narrows_closeQueue
  same_gets same_lock same_unlock same_on_sendWait same_sendWait_recv same_modify
  narrows_ret narrows_stop narrows_gets narrows_deref : live.

Ltac narrows_go :=
  repeat match goal with
  | |- Narrows (_ ≫= _) => apply narrows_bind; [|intros ?]
  | |- Narrows (match ?x with _ => _ end) => destruct x
  | |- Narrows _ => solve [auto with live]
  end.

(** ** The operations of the binding *)

(** [close] closes the object, whoever closed it first. *)
Lemma close_narrows p g :
  wpf any (close p) g (fun _ g' => narrows g g' /\
    forall o', pcbs g' !! p = Some o' -> p_err o' = true).
Proof.
  unfold close. apply wp_bind. eapply wpf_mono; [apply narrows_at_pcb, same_lock|].
  cbn beta. intros [] g1 N1. apply wp_bind. destruct (pcbs g1 !! p) as [o|] eqn:Ho.
  2: { unfold wpf, at_pcb, zoom, at_key. by rewrite Ho. }
  eapply wp_pcb_get; [done|]. cbn [id].
  (* what follows narrows a state in which the object is closed *)
  assert (Hend : forall X (m : G X) g2, Narrows m -> narrows g g2 ->
    (forall o', pcbs g2 !! p = Some o' -> p_err o' = true) ->
    wpf any m g2 (fun _ g' => narrows g g' /\
      forall o', pcbs g' !! p = Some o' -> p_err o' = true)).
  { intros X m g2 Hm N2 He. eapply wpf_mono; [apply Hm|]. intros x g3 N3.
    split; [etransitivity; [exact N2|exact N3]|]. intros o' Ho'.
    destruct (na_obj _ _ N3 _ _ Ho') as (o2 & H2 & _ & _ & _ & Hc). eauto. }
  destruct (p_err o) eqn:He.
  - apply Hend; [narrows_go|done|]. intros o' Ho'. congruence.
  - apply wp_bind. eapply wp_at_pcb; [done|]. apply wp_modify.
    set (g2 := set_pcbs _ g1). assert (narrows g1 g2) as N2.
    { split; cbn; try done; [|rewrite dom_insert; set_solver].
      intros p1 o1 [[<- <-]|[_ H]]%lookup_insert_Some; eauto 10. }
    apply Hend; [|etransitivity; [exact N1|exact N2]|].
    + unfold sendWait_close. narrows_go.
    + cbn. intros o'. rewrite lookup_insert_eq. by intros [= <-].
Qed.

(** A goroutine of the program in a method. *)
Definition u_sends (u : user_pc) : bool :=
  match u with WPost _ | RTell _ => true | _ => false end.

Lemma narrows_close_step p k : Narrows (close_step p k).
Proof.
  destruct k; cbn [close_step]; unfold sendWait_close; narrows_go.
  apply narrows_at_pcb, same_modify. by intros o.
Qed.

Lemma narrows_user_step p u : u_sends u = false -> Narrows (user_step p u).
Proof.
  intros Hu. pose proof (narrows_close_step p).
  destruct u; try done; cbn [user_step]; narrows_go.
Qed.

(** The data that a goroutine carries. *)
Definition u_data (u : user_pc) : Prop :=
  match u with WCheck b | WLock b | WPost b => b <> [] | _ => True end.

Lemma linked_user_step U K p o u g :
  linked U K g -> pcbs g !! p = Some o -> p_type o = TCP -> u_data u ->
  wpf any (user_step p u) g (fun u' g' => linked U K g' /\ u_data u' /\
    exists o', pcbs g' !! p = Some o' /\ p_type o' = TCP).
Proof.
  intros L Ho Ht Hd.
  assert (Hobj : forall g', narrows g g' ->
    exists o', pcbs g' !! p = Some o' /\ p_type o' = TCP).
  { intros g' N. destruct (narrows_type _ _ _ _ N Ho) as (o' & ? & ?).
    exists o'. split; congruence. }
  assert (Hnext : wpf any (user_step p u) g (fun u' _ => u_data u')).
  { destruct u; cbn [user_step u_data] in *; unfold wpf, mbind, M_bind, mret, M_ret;
      repeat case_match; simplify_eq; done. }
  destruct (u_sends u) eqn:Hs.
  - destruct u; try done; cbn [user_step] in *.
    + apply wp_bind, wp_zoom, wp_chan_send; [done|done|]. intros Hcl. apply wp_ret.
      split; [|split; [done|by eauto]]. destruct L as [L1 L2 L3 LU [L4 L5]]. split; try done.
      cbn. intros p1 b1 [H|H]%elem_of_app; [by apply L2|].
      apply list_elem_of_singleton in H as [= -> ->]. eauto.
    + apply wp_bind, wp_zoom, wp_chan_send; [done|done|]. intros Hcl. apply wp_ret.
      split; [|split; [done|by eauto]]. destruct L as [L1 L2 L3 LU [L4 L5]]. split; try done.
      cbn. intros p1 b1 [H|H]%elem_of_app; [by eapply L3|].
      apply list_elem_of_singleton in H as [= -> ->]. eauto.
  - pose proof (narrows_user_step p u Hs g) as Hn. unfold wpf in *.
    destruct (user_step p u g) as [[u' g']|]; [|done].
    split_and!; [by eapply linked_narrows|done|auto].
Qed.

(** ** The layer *)

Definition keys {S A} (w : world S A) : gmap ptr ptr := es_pcb <$> es_heap w.

(** Code that touches neither the application nor which connections there
    are. *)
Class Quiet {S A X} (m : M (world S A) X) : Prop :=
  quiet_run w : wpf any m w (fun _ w' => app w' = app w /\ keys w' = keys w).

Section quiet.
Context {S A : Type}.
Abbreviation C := (M (world S A)).

#[global] Instance quiet_ret {X} (x : X) : Quiet (mret x : C X).
Proof. done. Qed.
#[global] Instance quiet_bind {X Y} (m : C X) (f : X -> C Y) :
  Quiet m -> (forall x, Quiet (f x)) -> Quiet (m ≫= f).
Proof.
  intros Hm Hf w. apply wp_bind. eapply wpf_mono; [apply Hm|].
  intros x w1 [<- <-]. apply Hf.
Qed.
#[global] Instance quiet_stop {X} f : Quiet (stop f : C X).
Proof. done. Qed.
#[global] Instance quiet_gets {X} (f : world S A -> X) : Quiet (gets f).
Proof. done. Qed.
#[global] Instance quiet_deref {X} (o : option X) : Quiet (deref o : C X).
Proof. intros w. by destruct o. Qed.
#[global] Instance quiet_assert b : Quiet (lwip_assert b : C unit).
Proof. intros w. by destruct b. Qed.
#[global] Instance quiet_lift {X} (m : M S X) : Quiet (lift m : C X).
Proof. intros w. unfold wpf, lift. by destruct (m (lw w)) as [[? ?]|]. Qed.
#[global] Instance quiet_es_get e : Quiet (es_get e : C _).
Proof. unfold es_get. apply _. Qed.

Lemma quiet_es_set e f : (forall r, es_pcb (f r) = es_pcb r) -> Quiet (es_set e f : C _).
Proof.
  intros Hf w. unfold es_set. apply wp_bind. destruct (es_heap w !! e) as [r|] eqn:He.
  - eapply wp_es_get; [done|]. apply wp_modify. split; [done|]. unfold keys. cbn.
    rewrite fmap_insert, Hf, insert_id; [done|]. by rewrite lookup_fmap, He.
  - unfold wpf, es_get, mbind, M_bind, gets. by rewrite He.
Qed.
#[global] Instance quiet_set_p e p : Quiet (es_set e (es_set_p p) : C _).
Proof. by apply quiet_es_set. Qed.
#[global] Instance quiet_set_state e x : Quiet (es_set e (es_set_state x) : C _).
Proof. by apply quiet_es_set. Qed.
#[global] Instance quiet_set_retries e n : Quiet (es_set e (es_set_retries n) : C _).
Proof. by apply quiet_es_set. Qed.
End quiet.

Ltac quiet_auto :=
  repeat first
    [ assumption | apply _ | apply quiet_bind; [|intros ?] | case_decide | case_match ].

Section layer.
Context {S A : Type} `{!Lwip S}.

#[global] Instance quiet_send_loop n err tpcb es :
  Quiet (send_loop n err tpcb es : M (world S A) unit).
Proof.
  revert err. induction n as [|n IH]; intros err; cbn; [apply _|]. quiet_auto; apply IH.
Qed.
#[global] Instance quiet_raw_send fuel tpcb es :
  Quiet (cs_tcp_raw_send fuel tpcb es : M (world S A) unit).
Proof. unfold cs_tcp_raw_send. quiet_auto. Qed.
#[global] Instance quiet_char_send fuel tpcb es buf len :
  Quiet (cs_tcp_char_send fuel tpcb es buf len : M (world S A) Z).
Proof. unfold cs_tcp_char_send. quiet_auto. Qed.
End layer.

(** A quiet call, then the rest. *)
Lemma wp_quiet {S A X Y} (m : M (world S A) X) (k : X -> M (world S A) Y) w
    (Q : Y -> world S A -> Prop) :
  Quiet m ->
  (forall x w', app w' = app w -> keys w' = keys w -> wpf any (k x) w' Q) ->
  wpf any (m ≫= k) w Q.
Proof.
  intros Hm Hk. apply wp_bind. eapply wpf_mono; [apply Hm|].
  intros x w' [? ?]. by apply Hk.
Qed.

Section live.
Context {S : Type} `{!Lwip S, !LwipLaws S, !LwipUdp S, !LwipTcpAddr S, !LwipTcpAddrLaws S}.
Context (go_cs_ : go_cs_callback S go_state) (Event : option (Handler S)).
Context (Hfree : g_pbuf_free go_cs_ = Some (fun p => lift (pbuf_free p))).
Context (Hcopy : g_pbuf_copy go_cs_ =
                 Some (fun p len off => lift (pbuf_copy_partial p len off))).

(** The handlers of the program only start goroutines. *)
Class EventQuiet : Prop := {
  eq_accept h p : Event = Some h -> Quiet (OnAccept h p);
  eq_close h p : Event = Some h -> Quiet (OnClose h p)
}.
Context `{!EventQuiet}.
Context (U : ptr -> Prop).

Abbreviation C := (M (world S go_state)).
Implicit Types (w : world S go_state).

Definition live w : Prop := linked U (keys w) (app w).

Lemma live_same w w' : app w' = app w -> keys w' = keys w -> live w -> live w'.
Proof. unfold live. by intros -> ->. Qed.

(** Go code on a live state. *)
Lemma live_go {X} (m : G X) w : Narrows m -> live w -> wpf any (go m) w (fun _ => live).
Proof.
  intros Hm L. apply wp_zoom. eapply wpf_mono; [apply Hm|]. intros x g N.
  exact (linked_narrows _ _ _ _ N L).
Qed.

(** Code after which the state is still live. *)
Definition Lives {X} (m : C X) : Prop := forall w, live w -> wpf any m w (fun _ => live).

Lemma lives_quiet {X} (m : C X) : Quiet m -> Lives m.
Proof. intros Hm w L. eapply wpf_mono; [apply Hm|]. intros x w' []. by eapply live_same. Qed.
Lemma lives_go {X} (m : G X) : Narrows m -> Lives (go m).
Proof. intros Hm w L. by apply live_go. Qed.
Lemma lives_bind {X Y} (m : C X) (f : X -> C Y) :
  Lives m -> (forall x, Lives (f x)) -> Lives (m ≫= f).
Proof.
  intros Hm Hf w L. apply wp_bind. eapply wpf_mono; [by apply Hm|].
  intros x w' L'. by apply Hf.
Qed.

Lemma quiet_member {X Y} (f : go_cs_callback S go_state -> option X) (k : X -> C Y) :
  (forall x, f go_cs_ = Some x -> Quiet (k x)) ->
  Quiet (x ← member (Some go_cs_) f; k x).
Proof.
  intros Hk w. apply wp_bind. unfold wpf at 1, member. erewrite bind_Ok by done.
  destruct (f go_cs_) eqn:Hf; [|done]. by apply Hk.
Qed.

#[local] Instance quiet_pbuf_bytes buf : Quiet (pbuf_bytes (Some go_cs_) buf).
Proof.
  unfold pbuf_bytes, go_cs_pbuf_len. apply quiet_bind; [apply _|intros n].
  case_match; [apply _|]. unfold go_cs_pbuf_copy. apply quiet_member.
  rewrite Hcopy. intros f [= <-]. apply _.
Qed.

Ltac lives_go_ :=
  repeat match goal with
  | |- Lives (_ ≫= _) => apply lives_bind; [|intros ?]
  | |- Lives (match ?x with _ => _ end) => destruct x
  | |- Lives (go _) => apply lives_go; unfold sendCount_add, sendWait_send; narrows_go
  | |- Lives _ => apply lives_quiet, _
  end.

Lemma recv_lives arg n e buf : Lives (go_tcp_recv_h (Some go_cs_) arg n e buf).
Proof. unfold go_tcp_recv_h. lives_go_. Qed.

Lemma send_done_lives arg n e : Lives (go_tcp_send_done_h arg n e).
Proof.
  unfold go_tcp_send_done_h. lives_go_. apply narrows_at_pcb, same_modify. by intros o.
Qed.

(** No open object has the state [e]. *)
Definition closed_at (e : ptr) (g : go_state) : Prop :=
  forall p o, pcbs g !! p = Some o -> p_type o = TCP -> p_err o = false ->
    p_state o <> Some e.

Lemma linked_delete K g e : linked U K g -> closed_at e g -> linked U (delete e K) g.
Proof.
  intros [Ho Hs Hr Hu Hq] Hc. split; [|done..]. intros p o H1 H2 H3.
  destruct (Ho _ _ H1 H2 H3) as (e' & He & Ht & HK). exists e'.
  split_and!; [done..|]. rewrite lookup_delete_ne; [done|]. intros <-. by eapply Hc.
Qed.

(** Out of the table, and then closed. *)
Lemma linked_close K g g' e p :
  linked U K g -> tcpPcbs g !! e = Some p ->
  narrows (set_tcpPcbs (delete e (tcpPcbs g)) g) g' ->
  (forall o, pcbs g' !! p = Some o -> p_err o = true) ->
  linked U K g' /\ closed_at e g'.
Proof.
  intros [Ho Hs Hr Hu Hq] Ht N Hp.
  assert (Hopen : forall p1 o', pcbs g' !! p1 = Some o' -> p_type o' = TCP ->
    p_err o' = false -> exists e', p_state o' = Some e' /\ e' <> e /\
      tcpPcbs g !! e' = Some p1 /\ K !! e' = Some (p_pcb o')).
  { intros p1 o' H1 H2 H3. destruct (na_obj _ _ N _ _ H1) as (o & Ho1 & I1 & I2 & I3 & I4).
    assert (p_err o = false) as He by (destruct (p_err o); [by rewrite I4 in H3|done]).
    destruct (Ho _ _ Ho1 ltac:(congruence) He) as (e' & E1 & E2 & E3).
    exists e'. split_and!; try congruence. intros ->.
    assert (p1 = p) as -> by congruence. by rewrite (Hp _ H1) in H3. }
  split; [split|].
  - intros p1 o' H1 H2 H3. destruct (Hopen _ _ H1 H2 H3) as (e' & E1 & E2 & E3 & E4).
    exists e'. split_and!; [done| |done]. rewrite (na_tcp _ _ N). cbn.
    by rewrite lookup_delete_ne.
  - rewrite (na_send _ _ N). intros p1 b (Hb & o & H1 & H2)%Hs. split; [done|].
    destruct (narrows_type _ _ p1 o N H1) as (o' & ? & ?). exists o'. split; congruence.
  - rewrite (na_recved _ _ N). intros p1 n (o & H1 & H2)%Hr.
    destruct (narrows_type _ _ p1 o N H1) as (o' & ? & ?). exists o'. split; congruence.
  - intros p1 (o & H1 & H2)%Hu.
    destruct (narrows_type _ _ p1 o N H1) as (o' & ? & ?). exists o'. split; congruence.
  - by rewrite (na_send _ _ N), (na_recved _ _ N).
  - intros p1 o' H1 H2 H3 H4. destruct (Hopen _ _ H1 H2 H3) as (e' & E1 & E2 & _). congruence.
Qed.

Lemma close_h_lives arg n e w :
  live w ->
  wpf any (go_tcp_close_h Event arg n e) w (fun _ w' =>
    live w' /\ closed_at e (app w')).
Proof.
  intros L. unfold go_tcp_close_h. apply wp_bind, wp_gets.
  destruct (tcpPcbs (app w) !! e) as [p|] eqn:Hp.
  - apply wp_bind, wp_zoom, wp_modify, wp_bind, wp_zoom.
    eapply wpf_mono; [apply (close_narrows p)|]. cbn beta. intros _ g [N He].
    destruct (linked_close _ _ _ _ _ L Hp N He) as [L' Hc].
    assert (Quiet (event Event OnClose p)) as Hq.
    { unfold event. destruct Event eqn:E; [by apply eq_close|apply _]. }
    apply wp_quiet; [exact Hq|]. intros [] w' Ha Hk. apply wp_ret.
    split; [by eapply live_same|by rewrite Ha].
  - apply wp_ret. split; [done|]. intros p o Ho Ht He Hs.
    destruct (lk_open _ _ _ L _ _ Ho Ht He) as (e' & H1 & H2 & _). congruence.
Qed.

(** A new object for a new state. *)
Lemma linked_accept K g p q e n o :
  linked U K g -> K !! e = None -> tcpPcbs g !! e = None -> p ∉ dom (pcbs g) ->
  p_type o = TCP -> p_state o = Some e -> p_pcb o = n ->
  linked U (<[e := n]> K)
    (set_tcpPcbs (<[e := p]> (tcpPcbs g))
      (set_pcbs (<[p := o]> (pcbs g)) (set_bchans q g))).
Proof.
  intros [Ho Hs Hr Hu Hq] HK Ht Hp Hot Hos Hon.
  assert (Hold : forall p1 o1, pcbs g !! p1 = Some o1 ->
    <[p := o]> (pcbs g) !! p1 = Some o1).
  { intros p1 o1 H1. rewrite lookup_insert_ne; [done|]. intros <-.
    apply Hp. by eapply elem_of_dom_2. }
  split; cbn; [| | | |done].
  - intros p1 o1 [[<- <-]|[Hne H1]]%lookup_insert_Some H2 H3.
    + exists e. rewrite !lookup_insert_eq. split_and!; [done..|congruence].
    + destruct (Ho _ _ H1 H2 H3) as (e' & E1 & E2 & E3). exists e'.
      rewrite !lookup_insert_ne by congruence. done.
  - intros p1 b (Hb & o1 & H1 & H2)%Hs. split; [done|]. exists o1. auto.
  - intros p1 m (o1 & H1 & H2)%Hr. exists o1. auto.
  - intros p1 (o1 & H1 & H2)%Hu. exists o1. auto.
Qed.

Lemma accept_h_lives arg n e w :
  (exists K, linked U K (app w) /\ K !! e = None /\ keys w = <[e := n]> K) ->
  wpf any (go_tcp_accept_h Event arg n e) w (fun _ => live).
Proof.
  intros (K & L & HK & Hkeys).
  assert (live w) as L0.
  { unfold live. rewrite Hkeys. destruct L as [Ho Hs Hr Hu Hq]. split; [|done..].
    intros p o H1 H2 H3. destruct (Ho _ _ H1 H2 H3) as (e' & E1 & E2 & E3).
    exists e'. split_and!; [done..|]. rewrite lookup_insert_ne; [done|]. congruence. }
  unfold go_tcp_accept_h. apply wp_bind, wp_gets.
  destruct (tcpPcbs (app w) !! e) as [p|] eqn:Hp; [by apply wp_ret|].
  apply wp_quiet; [apply _|]. intros la w1 A1 K1. apply wp_quiet; [apply _|].
  intros ra w2 A2 K2. apply wp_quiet; [apply _|]. intros lp w3 A3 K3.
  apply wp_quiet; [apply _|]. intros rp w4 A4 K4.
  assert (app w4 = app w /\ keys w4 = keys w) as [A K5] by (split; congruence).
  clear A1 K1 A2 K2 A3 K3 A4 K4 w1 w2 w3. apply wp_bind, wp_zoom.
  destruct (newPCB TCP arg n (Some e) la ra lp rp (app w4)) as [[p g]|] eqn:Hn.
  2: { unfold wpf. by rewrite Hn. }
  eapply wpf_Ok; [exact Hn|]. apply newPCB_run in Hn as (Hfp & q & Hfq & ->).
  assert (Quiet (event Event OnAccept p)) as Hq.
  { unfold event. destruct Event eqn:E; [by apply eq_accept|apply _]. }
  apply wp_bind, wp_zoom, wp_modify.
  apply wp_quiet; [exact Hq|]. intros [] w5 A5 K6. apply wp_ret. unfold live.
  rewrite A5, K6. unfold keys. cbn. fold (keys w4). rewrite K5, Hkeys, A.
  rewrite A in Hfp, Hfq. apply linked_accept; try done.
Qed.

(** ** The calls of lwIP *)

Context (backs : ptr -> option (cs_callback S go_state)) (fuel : nat).
Context (Hbacks : forall p b, backs p = Some b -> go_table go_cs_ Event b).

#[local] Instance quiet_callback_of r : Quiet (callback_of backs r).
Proof. unfold callback_of. apply _. Qed.

(** The call through the table. *)
Lemma wp_callback {X} r (k : cs_callback S go_state -> C X) w Q :
  (forall b, go_table go_cs_ Event b -> wpf any (k b) w Q) ->
  wpf any (cb ← callback_of backs r; k cb) w Q.
Proof.
  intros Hk. apply wp_bind. unfold callback_of.
  destruct (backs (es_callback r)) as [b|] eqn:Hb; [|done]. apply wp_ret. eauto.
Qed.

Lemma raw_close_lives tpcb e : Lives (cs_tcp_raw_close backs tpcb e).
Proof.
  intros w L. unfold cs_tcp_raw_close.
  do 6 (apply wp_quiet; [apply _|]; intros ? ? A K; eapply live_same in L; [|done..];
    clear A K).
  apply wp_callback. intros b T. rewrite (gt_close _ _ _ T). apply wp_bind, wp_ret.
  unfold go_cs_tcp_close_h. apply wp_bind, wp_bind.
  eapply wpf_mono; [by apply close_h_lives|]. cbn beta. intros _ w1 [L1 Hc]. apply wp_ret.
  apply wp_bind. unfold cs_tcp_raw_free. apply wp_quiet; [apply _|]. intros r w2 A2 K2.
  apply wp_quiet; [case_match; apply _|]. intros _ w3 A3 K3.
  apply wp_quiet; [apply _|]. intros _ w4 A4 K4. apply wp_modify.
  apply wp_quiet; [apply _|]. intros _ w5 A5 K5. apply wp_ret. unfold live.
  assert (app w4 = app w1 /\ keys w4 = keys w1) as [A K] by (split; congruence).
  rewrite A5, K5. unfold keys. cbn. rewrite fmap_delete. fold (keys w4).
  rewrite A, K. by apply linked_delete.
Qed.

Lemma call_recv_lives tpcb p e : Lives (call_tcp_recv backs tpcb p e).
Proof.
  intros w L. unfold call_tcp_recv. apply wp_quiet; [apply _|]. intros r w1 A K.
  eapply live_same in L; [|done..]. apply wp_callback. intros b T.
  rewrite (gt_recv _ _ _ T). apply wp_bind, wp_ret. unfold go_cs_tcp_recv_h.
  apply lives_bind; [apply recv_lives| |done]. intros ret. apply lives_quiet, quiet_member.
  rewrite Hfree. intros f [= <-]. apply _.
Qed.

Lemma sent_lives arg tpcb n : Lives (cs_tcp_send backs fuel arg tpcb n).
Proof.
  unfold cs_tcp_send. do 4 (apply lives_bind; [apply lives_quiet, _|intros ?]).
  apply lives_bind; [|intros; apply lives_quiet, _]. destruct (es_p _).
  - apply lives_quiet, _.
  - intros w L. apply wp_callback. intros b T. rewrite (gt_send_done _ _ _ T).
    apply wp_bind, wp_ret. apply lives_bind; [| |done].
    + unfold go_cs_tcp_send_done_h. apply lives_bind; [apply send_done_lives|].
      intros ?. apply lives_quiet, _.
    + intros ?. apply lives_bind; [apply lives_quiet, _|]. intros r.
      case_decide; [apply raw_close_lives|apply lives_quiet, _].
Qed.

Lemma poll_lives arg tpcb : Lives (cs_tcp_raw_poll backs fuel arg tpcb).
Proof.
  unfold cs_tcp_raw_poll. apply lives_bind; [apply lives_quiet, _|intros ?].
  destruct arg as [e|]; [|apply lives_quiet, _].
  apply lives_bind; [apply lives_quiet, _|intros r].
  apply lives_bind; [|intros; apply lives_quiet, _]. destruct (es_p r).
  - apply lives_quiet, _.
  - case_decide; [apply raw_close_lives|apply lives_quiet, _].
Qed.

Lemma recv_call_lives arg tpcb p err : Lives (cs_tcp_raw_recv backs arg tpcb p err).
Proof.
  unfold cs_tcp_raw_recv. do 2 (apply lives_bind; [apply lives_quiet, _|intros ?]).
  destruct p as [p|].
  - case_decide; [apply lives_quiet, _|].
    apply lives_bind; [apply lives_quiet, _|intros r].
    case_decide; [|case_decide].
    + apply lives_bind; [apply lives_quiet, _|intros ?]. apply call_recv_lives.
    + apply call_recv_lives.
    + apply lives_quiet. quiet_auto.
  - apply lives_bind; [apply lives_quiet, _|intros ?].
    apply lives_bind; [apply raw_close_lives|intros ?]. apply lives_quiet, _.
Qed.

Lemma accept_lives w arg n err :
  live w -> inv backs w ->
  match n with Some n => is_Some (tcps (view (lw w)) !! n) | None => True end ->
  wpf any (cs_tcp_raw_accept backs arg n err) w (fun _ => live).
Proof.
  intros L I Hn. unfold cs_tcp_raw_accept. destruct (decide _); [by apply wp_ret|].
  destruct n as [n|]; [|by apply wp_ret]. destruct Hn as [tn Hn].
  destruct arg as [b|]; [|by apply wp_ret].
  apply wp_bind, wp_lift. eapply wp_mono; [by eapply tcp_setprio_law|].
  cbn beta. intros _ s1 H1. apply wp_bind, wp_lift. cbn [lw with_lw].
  eapply wp_mono; [apply mem_malloc_law|]. rewrite H1. cbn beta.
  intros [e|] s2; [|intros _; by apply wp_ret]. intros [He _].
  apply wp_bind, wp_modify.
  assert (keys w !! e = None) as Hk.
  { unfold keys. rewrite lookup_fmap. destruct (es_heap w !! e) as [r|] eqn:Hr; [|done].
    by destruct (inv_conn _ _ I _ _ Hr) as (_ & Hb & _). }
  set (w3 := with_es _ _).
  assert (app w3 = app w /\ keys w3 = <[e := n]> (keys w)) as [A3 K3].
  { split; [done|]. unfold keys. cbn. by rewrite fmap_insert. }
  clearbody w3. clear Hn H1.
  do 5 (apply wp_quiet; [apply _|]; intros [] w4 A4 K4; rewrite <- A4 in A3;
    rewrite <- K4 in K3; clear A4 K4 w3; rename w4 into w3).
  apply wp_bind. destruct (backs b) as [cb|] eqn:Hb; [|done]. apply wp_ret.
  rewrite (gt_accept _ _ _ (Hbacks _ _ Hb)). apply wp_bind, wp_ret. apply wp_bind.
  unfold go_cs_tcp_accept_h. apply wp_bind. eapply wpf_mono; [apply accept_h_lives|].
  - exists (keys w). by rewrite A3.
  - intros x w6 L6. apply wp_ret, wp_ret. done.
Qed.

(** Every call of lwIP. *)
Lemma dispatch_lives w ev t :
  live w -> inv backs w -> event_ok backs w ev t ->
  wpf any (dispatch backs fuel ev t) w (fun _ => live).
Proof.
  intros L I [Ht Hev]. destruct ev as [pcb n|pcb|pcb p|pcb|l n err]; cbn.
  - by apply sent_lives.
  - by apply poll_lives.
  - by apply recv_call_lives.
  - by apply recv_call_lives.
  - apply accept_lives; [done|done|]. destruct n as [n|]; [|done].
    destruct Hev as [_ (tn & Hn & _)]. by exists tn.
Qed.
End live.

(** ** The whole program *)

Record prog (S : Type) : Type := Prog {
  p_world : world S go_state;
  p_users : list (ptr * user_pc)
}.
Arguments Prog {S}.
Arguments p_world {S}.
Arguments p_users {S}.

Section prog.
Context {S : Type} `{!Lwip S, !LwipLaws S, !LwipUdp S, !LwipTcpAddr S, !LwipTcpAddrLaws S}.
Context (go_cs_ : go_cs_callback S go_state) (Event : option (Handler S)).
Context (Hfree : g_pbuf_free go_cs_ = Some (fun p => lift (pbuf_free p))).
Context (Hcopy : g_pbuf_copy go_cs_ =
                 Some (fun p len off => lift (pbuf_copy_partial p len off))).
Context `{!EventQuiet Event, !EventOk Event}.
Context (backs : ptr -> option (cs_callback S go_state)) (fuel : nat).
Context (Hbacks : forall p b, backs p = Some b -> go_table go_cs_ Event b).
Context (Hsend : g_tcp_send go_cs_ = Some (cs_tcp_char_send fuel)).
Context (Hrecved : g_tcp_recved go_cs_ = Some (fun p n => lift (tcp_recved p n))).
Implicit Types (s : prog S) (w : world S go_state).

(** The fuel is enough for the data that the goroutines have queued. *)
Definition send_fuel w : Prop :=
  forall p b, (p, b) ∈ c_buf (sendQueue (app w)) ->
    (Datatypes.S (Z.to_nat (u16 (Z.of_nat (length b)))) < fuel)%nat.

(** What lwIP does on its own, a call of lwIP, a goroutine that calls a method
    or goes on in one, and a turn of the processing loop that sends data or
    opens the window. *)
Inductive prog_step s : prog S -> Prop :=
| pstep_env w' :
    env_step backs (p_world s) w' -> app w' = app (p_world s) ->
    prog_step s (Prog w' (p_users s))
| pstep_event ev t x w' :
    event_ok backs (p_world s) ev t -> enough_fuel fuel (p_world s) ->
    dispatch backs fuel ev t (p_world s) = Ok (x, w') ->
    prog_step s (Prog w' (p_users s))
| pstep_call t q u p o u' :
    p_users s !! t = Some (q, u) -> returned u = true -> method_entry u' = true ->
    pcbs (app (p_world s)) !! p = Some o -> p_type o = TCP ->
    prog_step s (Prog (p_world s) (<[t := (p, u')]> (p_users s)))
| pstep_user t p u u' g :
    p_users s !! t = Some (p, u) -> returned u = false ->
    user_step p u (app (p_world s)) = Ok (u', g) ->
    prog_step s (Prog (with_app g (p_world s)) (<[t := (p, u')]> (p_users s)))
| pstep_turn netif c w' :
    c = CaseSend \/ c = CaseRecved -> send_fuel (p_world s) ->
    proc_turn (Some go_cs_) netif c (p_world s) = Ok (tt, w') ->
    prog_step s (Prog w' (p_users s)).

Definition prog_init s : Prop :=
  tcp_init backs (p_world s) /\ app (p_world s) = go_state0 /\
  Forall (fun x => x.2 = UIdle) (p_users s).

Definition prog_reachable s : Prop :=
  exists s0, prog_init s0 /\ rtc prog_step s0 s.

(** ** The invariant *)

Definition in_method (us : list (ptr * user_pc)) (p : ptr) : Prop :=
  exists t u, us !! t = Some (p, u) /\ returned u = false.

Record prog_inv s : Prop := ProgInv {
  pi_inv : inv backs (p_world s);
  pi_live : linked (in_method (p_users s)) (keys (p_world s)) (app (p_world s));
  pi_data : forall t p u, p_users s !! t = Some (p, u) -> returned u = false -> u_data u
}.

Lemma linked_users U U' K g :
  linked U K g -> (forall p, U' p -> U p \/ exists o, pcbs g !! p = Some o /\ p_type o = TCP) ->
  linked U' K g.
Proof. intros [] HU. split; try done. intros p [|]%HU; auto. Qed.

Lemma in_method_insert us t x p :
  in_method (<[t := x]> us) p -> in_method us p \/ p = x.1.
Proof.
  intros (t' & u & [(<- & [= ->] & _)|[_ Hu]]%list_lookup_insert_Some & Hr); [by right|].
  left. by exists t', u.
Qed.

Lemma users_data (us : list (ptr * user_pc)) t q v :
  (forall t p u, us !! t = Some (p, u) -> returned u = false -> u_data u) ->
  u_data v ->
  forall t' p u, <[t := (q, v)]> us !! t' = Some (p, u) -> returned u = false -> u_data u.
Proof.
  intros Hd Hv t' p u [(_ & [= <- <-] & _)|[_ Hu]]%list_lookup_insert_Some; eauto.
Qed.

(** ** Turns of the loop *)

Lemma wp_and {St X} F (m : M St X) st Q Q' :
  wpf F m st Q -> wpf any m st Q' -> wpf F m st (fun x st' => Q x st' /\ Q' x st').
Proof. unfold wpf. by destruct (m st) as [[x st']|]. Qed.

(** The connection of an open object. *)
Lemma linked_conn U w p o :
  inv backs w -> linked U (keys w) (app w) -> pcbs (app w) !! p = Some o ->
  p_type o = TCP -> p_err o = false ->
  exists e r t, p_state o = Some e /\ tcpPcbs (app w) !! e = Some p /\
    es_heap w !! e = Some r /\ es_pcb r = p_pcb o /\
    tcps (view (lw w)) !! p_pcb o = Some t /\ t_arg t = Some e.
Proof.
  intros I L Ho Ht He. destruct (lk_open _ _ _ L _ _ Ho Ht He) as (e & H1 & H2 & H3).
  unfold keys in H3. rewrite lookup_fmap, fmap_Some in H3. destruct H3 as (r & Hr & Hp).
  destruct (inv_conn _ _ I _ _ Hr) as (_ & _ & _ & (t & Ht' & Ha & _) & _).
  exists e, r, t. rewrite Hp. by split_and!.
Qed.

Lemma tcpSend_wp w e r data :
  inv backs w -> es_heap w !! e = Some r -> data <> [] ->
  (Datatypes.S (Z.to_nat (u16 (Z.of_nat (length data)))) < fuel)%nat ->
  wp (tcpSend (Some go_cs_) (es_pcb r) e data) w (fun _ w' =>
    inv backs w' /\ app w' = app w /\ keys w' = keys w).
Proof.
  intros I Hr Hd Hf. unfold tcpSend. destruct data as [|z data]; [done|].
  unfold go_cs_tcp_send. apply wp_bind. eapply wpf_Ok; [by apply member_run|].
  eapply wp_and; [|apply quiet_char_send].
  eapply inv_char_send; [done|done|exact Hf|]. apply Z.mod_le; lia.
Qed.

Lemma turn_send U netif w p b l :
  inv backs w -> linked U (keys w) (app w) -> send_fuel w ->
  c_buf (sendQueue (app w)) = (p, b) :: l ->
  wp (proc_turn (Some go_cs_) netif CaseSend) w (fun _ w' =>
    inv backs w' /\ linked U (keys w') (app w')).
Proof.
  intros I L Hf Hb. cbn [proc_turn].
  assert (Hin : (p, b) ∈ c_buf (sendQueue (app w))) by (rewrite Hb; by left).
  destruct (lk_send _ _ _ L _ _ Hin) as (Hne & o & Ho & Ht).
  apply wp_bind, wp_zoom, wp_zoom. unfold chan_recv, wpf at 1. rewrite Hb.
  apply wp_bind, wp_ret. cbv zeta beta iota.
  set (g1 := set_sendQueue _ _). assert (linked U (keys w) g1) as L1.
  { destruct L. split; cbn; try done. intros p1 b1 H1. apply lk_send0. rewrite Hb. by right. }
  unfold Send. apply wp_bind.
  eapply wpf_Ok; [apply (go_get_run p o); exact Ho|].
  destruct (p_err o) eqn:He; [apply wp_ret; by split; [apply inv_app|]|].
  rewrite decide_True by done. apply wp_bind, wp_zoom. eapply wp_at_pcb; [exact Ho|].
  apply wp_modify. set (w2 := with_app _ _).
  assert (linked U (keys w2) (app w2)) as L2.
  { apply (linked_narrows _ _ g1); [|exact L1]. split; cbn; try done.
    - intros p1 o1 [[<- <-]|[_ H1]]%lookup_insert_Some; eauto 10.
    - rewrite dom_insert. set_solver. }
  assert (inv backs w2) as I2 by by apply inv_app, inv_app.
  destruct (linked_conn U w2 p (with_sendCount (sendCount o + 1) o) I2 L2)
    as (e & r & t & H1 & H2 & H3 & H4 & _); [apply lookup_insert_eq|done|done|].
  cbn in H1, H4. rewrite H1. apply wp_bind, wp_ret, wp_bind. rewrite <- H4.
  eapply wpf_mono; [apply tcpSend_wp; [done|done|done|by eapply Hf]|].
  cbn beta. intros _ w3 (I3 & A3 & K3). apply wp_ret. by rewrite A3, K3.
Qed.

Lemma turn_recved U netif w p n l :
  inv backs w -> linked U (keys w) (app w) ->
  c_buf (recvedQueue (app w)) = (p, n) :: l ->
  wp (proc_turn (Some go_cs_) netif CaseRecved) w (fun _ w' =>
    inv backs w' /\ linked U (keys w') (app w')).
Proof.
  intros I L Hb. cbn [proc_turn].
  assert (Hin : (p, n) ∈ c_buf (recvedQueue (app w))) by (rewrite Hb; by left).
  destruct (lk_recved _ _ _ L _ _ Hin) as (o & Ho & Ht).
  apply wp_bind, wp_zoom, wp_zoom. unfold chan_recv, wpf at 1. rewrite Hb.
  apply wp_bind, wp_ret. cbv zeta beta iota.
  set (w1 := with_app _ _). assert (linked U (keys w1) (app w1)) as L1.
  { destruct L. split; cbn; try done. intros p1 n1 H1. apply (lk_recved0 _ n1).
    rewrite Hb. by right. }
  assert (inv backs w1) as I1 by by apply inv_app.
  apply wp_bind. eapply wpf_Ok; [apply (go_get_run p o); exact Ho|].
  destruct (p_err o) eqn:He; [by apply wp_ret|].
  destruct (linked_conn U w1 p o I1 L1) as (e & r & t & H1 & H2 & H3 & H4 & H5 & _);
    [done..|].
  unfold go_cs_tcp_recved. apply wp_bind. eapply wpf_Ok; [by apply member_run|].
  apply wp_lift. eapply wp_mono; [by eapply tcp_recved_law|]. cbn beta.
  intros _ s' Hs. split; [by apply inv_same_view|exact L1].
Qed.

(** ** Every step keeps it *)

#[local] Instance go_keeps_promises : AppOk backs fuel go_fault.
Proof. by eapply (go_app_ok go_cs_ Event). Qed.

Lemma prog_step_inv s s' : prog_inv s -> prog_step s s' -> prog_inv s'.
Proof.
  intros [I L D] Hn.
  destruct Hn as [w' Henv Ha|ev t x w' Hev Hf Hd|t q u p o u' Hu Hr He Ho Ht
    |t p u u' g Hu Hr Hs|netif c w' Hc Hf Ht]; cbn.
  - split; cbn; [by eapply inv_env| |done]. unfold keys in *.
    by rewrite Ha, (env_es _ _ _ Henv).
  - split; cbn; [| |done].
    + pose proof (dispatch_inv backs fuel (F := go_fault) _ _ _ I Hf Hev) as Hwp.
      unfold wpf in Hwp. by rewrite Hd in Hwp.
    + eapply (wpf_run _ _ _ _ (fun _ w' => live _ w') Hd), dispatch_lives; eauto.
  - split; cbn; [done| |].
    + eapply linked_users; [exact L|]. intros p' [?| ->]%in_method_insert; [by left|].
      right. by exists o.
    + apply users_data; [done|]. by destruct u' as [|[]| | | | | | | | | | | | | | |].
  - destruct (lk_users _ _ _ L p) as (o & Ho & Ht); [by exists t, u|].
    pose proof (linked_user_step _ _ _ _ _ _ L Ho Ht (D _ _ _ Hu Hr)) as Hwp.
    unfold wpf in Hwp. rewrite Hs in Hwp. destruct Hwp as (L' & D' & o' & Ho' & Ht').
    split; cbn; [by apply inv_app| |by apply users_data].
    eapply linked_users; [exact L'|]. intros p' [?| ->]%in_method_insert; [by left|].
    right. by exists o'.
  - assert (inv backs w' /\ linked (in_method (p_users s)) (keys w') (app w')) as [].
    { destruct Hc as [->| ->].
      - destruct (c_buf (sendQueue (app (p_world s)))) as [|[p b] l] eqn:Hb.
        + cbn [proc_turn] in Ht. unfold mbind, M_bind, go, zoom, on_sendQueue, zoom, chan_recv in Ht.
          rewrite Hb, (proj1 (lk_queues _ _ _ L)) in Ht. done.
        + pose proof (turn_send _ netif _ _ _ _ I L Hf Hb) as Hwp.
          unfold wpf in Hwp. by rewrite Ht in Hwp.
      - destruct (c_buf (recvedQueue (app (p_world s)))) as [|[p n] l] eqn:Hb.
        + cbn [proc_turn] in Ht. unfold mbind, M_bind, go, zoom, on_recvedQueue, zoom, chan_recv in Ht.
          rewrite Hb, (proj2 (lk_queues _ _ _ L)) in Ht. done.
        + pose proof (turn_recved _ netif _ _ _ _ I L Hb) as Hwp.
          unfold wpf in Hwp. by rewrite Ht in Hwp. }
    by split.
Qed.

Lemma reachable_prog_inv s : prog_reachable s -> prog_inv s.
Proof.
  intros (s0 & ((Hes & Ht) & Ha & Hu) & Hr).
  eapply (rtc_invariant prog_step); [apply prog_step_inv|exact Hr|].
  assert (Hidle : forall t p u, p_users s0 !! t = Some (p, u) -> u = UIdle).
  { intros t p u Hl. by apply (Forall_lookup_1 _ _ _ _ Hu Hl). }
  split.
  - apply (reachable_inv backs fuel (F := go_fault)). by exists (p_world s0).
  - rewrite Ha. split; cbn; try done; try (by intros ? ? ?%elem_of_nil).
    intros p (t & u & Hl & Hret). by rewrite (Hidle _ _ _ Hl) in Hret.
  - intros t p u Hl Hret. by rewrite (Hidle _ _ _ Hl) in Hret.
Qed.

(** ** Properties *)

(** C3: In every state of the whole program, as long as it does not close from
    Go, a connection that is open in Go has a live state in C, to which the
    table leads it back and whose control block is the one that Go has; that
    control block is live too and leads back to the state. *)
Theorem go_open_is_live s p o :
  prog_reachable s -> pcbs (app (p_world s)) !! p = Some o -> p_type o = TCP ->
  p_err o = false ->
  exists e r t, p_state o = Some e /\ tcpPcbs (app (p_world s)) !! e = Some p /\
    es_heap (p_world s) !! e = Some r /\ es_pcb r = p_pcb o /\
    tcps (view (lw (p_world s))) !! p_pcb o = Some t /\ t_arg t = Some e.
Proof. intros [I L _]%reachable_prog_inv. by eapply linked_conn. Qed.

(** C12: From every such state a turn of the processing loop that sends what a
    [Write] has queued, or opens the window for what a [Read] has taken, runs
    to its end: it finds the object that the entry names, does not use memory
    that the layer or lwIP has freed, does not fail an assertion or panic, and
    keeps the invariant of the layer; also when the connection was closed
    while the entry was in the queue. *)
Theorem go_loop_safe s netif c :
  prog_reachable s -> send_fuel (p_world s) ->
  match c with
  | CaseSend => c_buf (sendQueue (app (p_world s))) <> []
  | CaseRecved => c_buf (recvedQueue (app (p_world s))) <> []
  | _ => False
  end ->
  exists w', proc_turn (Some go_cs_) netif c (p_world s) = Ok (tt, w') /\
    inv backs w' /\ prog_reachable (Prog w' (p_users s)).
Proof.
  intros Hr Hf Hq. pose proof (reachable_prog_inv _ Hr) as [I L _].
  assert (exists w', proc_turn (Some go_cs_) netif c (p_world s) = Ok (tt, w') /\
    inv backs w') as (w' & Hrun & I').
  { destruct c; try done.
    - destruct (c_buf (recvedQueue _)) as [|[p n] l] eqn:Hb; [done|].
      destruct (proj1 (wp_Ok _ _ _) (turn_recved _ netif _ _ _ _ I L Hb))
        as ([] & w' & ? & ? & _). by exists w'.
    - destruct (c_buf (sendQueue _)) as [|[p b] l] eqn:Hb; [done|].
      destruct (proj1 (wp_Ok _ _ _) (turn_send _ netif _ _ _ _ I L Hf Hb))
        as ([] & w' & ? & ? & _). by exists w'. }
  exists w'. split_and!; [done|done|]. destruct Hr as (s0 & ? & ?). exists s0.
  split; [done|]. eapply rtc_r; [done|]. eapply pstep_turn; [|done|done].
  destruct c; by auto.
Qed.

End prog.
