(* ===== verification/GoRuns.v ===== *)
(** * Concrete runs of the Go binding

    The reference stack with the binding of src/lwipcs.go on it: states in
    which the hypotheses of the theorems about the binding hold, and the
    theorems applied there. *)

From S2P Require Import Prelude Lwip Cs Tcp TcpSend LwipRef TcpConn Udp Netif Bridge.
From S2P Require Import GoChan GoBind GoApp GoWf GoReach GoConc GoLive Runs.
Local Open Scope Z_scope.

(** ** The environment *)

Abbreviation GW := (world ref go_state).

#[export] Instance lwip_tcp_addr_ref : LwipTcpAddr ref := {
  tcp_local_ip := fun _ s => Ok (IPv4 11, s);
  tcp_local_port := fun _ s => Ok (7, s);
  tcp_remote_ip := fun _ s => Ok (IPv4 12, s);
  tcp_remote_port := fun _ s => Ok (5000, s)
}.

#[export] Instance lwip_tcp_addr_ref_laws : LwipTcpAddrLaws ref.
Proof. split; by repeat eexists. Qed.

#[export] Instance lwip_netif_go : LwipNetif GW := {
  lwip_init := fun w => Ok (tt, w);
  netif_add := fun _ _ _ _ _ _ w => Ok (true, w);
  netif_set_up := fun _ w => Ok (tt, w);
  netif_set_link_up := fun _ w => Ok (tt, w);
  netif_set_default := fun _ w => Ok (tt, w);
  netif_poll_all := fun w => Ok (tt, w);
  netif_input := fun _ _ w => Ok (ERR_OK, w);
  netif_ip4_gw := fun _ w => Ok (LWIP_PORT_INIT_GW, w);
  netif_ip4_netmask := fun _ w => Ok (LWIP_PORT_INIT_NETMASK, w)
}.

(** The table for Go, and the table for C at address 9; no handler of
    events. *)
Definition gc : go_cs_callback ref go_state :=
  gback (fun _ => None) run_fuel false true (fun _ _ w => Ok ((0, []), w))
    (fun _ _ n w => Ok (n, w)) 9%positive 8%positive.
Definition no_event : option (Handler ref) := None.
Abbreviation gexports := (go_exports (Some gc) no_event).

Definition go_tbl : cs_callback ref go_state :=
  go_cs_init_handle (GoExports0 := gexports) (Some gc)
    (CsCallback (Some 9%positive) (Some 8%positive) None None None None None None None None).
Definition go_backs (p : ptr) : option (cs_callback ref go_state) :=
  if decide (p = 9%positive) then Some go_tbl else None.

#[export] Instance no_event_ok : EventOk no_event.
Proof. by split. Qed.

Lemma go_backs_table p b : go_backs p = Some b -> go_table gc no_event b.
Proof. unfold go_backs. case_decide; [|done]. by intros [= <-]. Qed.

(** ** States *)

Definition gw0 : GW :=
  World stack0 ∅ {[50%positive := udp0]} {[8%positive := netif0]} 0 go_state0.

Definition gafter {X} (m : M GW X) (w : GW) : GW :=
  match m w with
  | Ok (_, w') => w'
  | Fault _ => w
  end.

Definition gw1 : GW := gafter (dispatch go_backs run_fuel ev_accept listener0) gw0.

Lemma gw0_init : tcp_init go_backs gw0.
Proof.
  split; [done|]. intros pcb t Ht.
  change (tcps (view (lw gw0))) with
    (<[1%positive := listener0]> {[2%positive := tcb_new]} : gmap ptr tcb) in Ht.
  apply lookup_insert_Some in Ht as [[_ <-]|[_ Ht]].
  - unfold idle_slots. cbn. split_and!; try done.
    exists 9%positive. split; [done|by eexists].
  - by apply lookup_singleton_Some in Ht as [_ <-].
Qed.

Lemma gaccept_run :
  dispatch go_backs run_fuel ev_accept listener0 gw0 = Ok (ERR_OK, gw1).
Proof. vm_compute. reflexivity. Qed.

Lemma gaccept_event_ok : event_ok go_backs gw0 ev_accept listener0.
Proof. split; [done|]. split; [done|]. by exists tcb_new. Qed.

Lemma gw1_reachable : tcp_reachable go_backs run_fuel gw1.
Proof.
  exists gw0. split; [apply gw0_init|]. eapply rtc_once, step_event.
  - apply gaccept_event_ok.
  - unfold enough_fuel. vm_compute. lia.
  - apply gaccept_run.
Qed.

Lemma gw1_conn : es_heap gw1 = {[e1 := es1]}.
Proof. vm_compute. reflexivity. Qed.

Lemma gw1_packet : owned (pbufs (view (lw gw1))) packet.
Proof. split; [split; vm_compute; repeat split|]. by apply (bool_decide_unpack _). Qed.

Lemma gw1_unqueued : unqueued gw1 packet.
Proof.
  intros e r cs He [_ Hh]. rewrite gw1_conn in He.
  apply lookup_singleton_Some in He as [_ <-].
  destruct cs as [|[]]; [|done]. intros q _ Hin. cbn in Hin. set_solver.
Qed.

(** ** Witnesses for GoApp.v *)

Lemma go_callbacks_safe_witness :
  exists x w', dispatch go_backs run_fuel (EvData 2 20) tcb1 gw1 = Ok (x, w') /\
    inv go_backs w'.
Proof.
  destruct (go_callbacks_safe gc no_event eq_refl eq_refl go_backs run_fuel
    go_backs_table gw1 (EvData 2 20) tcb1) as [H|(x & Hx & _)].
  - apply gw1_reachable.
  - unfold enough_fuel. vm_compute. lia.
  - split; [vm_compute; reflexivity|]. split; [done|]. exists packet.
    split; [apply gw1_packet|]. split; [done|apply gw1_unqueued].
  - exact H.
  - vm_compute in Hx. discriminate Hx.
Defined.

(** The object of the connection and its queue. *)
Definition gp : ptr := default 1%positive (tcpPcbs (app gw1) !! e1).
Definition gobj : PCB := default (Pcb TCP None 1 None (IPv4 0) 0 (IPv4 0) 0 true true 1 None 0 false)
                         (pcbs (app gw1) !! gp).

Lemma go_recv_delivers_witness :
  exists w', dispatch go_backs run_fuel (EvData 2 20) tcb1 gw1 = Ok (ERR_OK, w') /\
    pbufs (view (lw w')) = ∅ /\
    exists g', Read gp 1518 (app w') = Ok (([1; 2; 3; 4; 5], false), g').
Proof.
  destruct (go_recv_delivers gc no_event eq_refl eq_refl go_backs run_fuel
    go_backs_table gw1 e1 es1 tcb1 gp gobj (make_chan QUEUE) packet 20)
    as (s' & Hrun & Hv & Hread).
  - apply gw1_reachable.
  - vm_compute. reflexivity.
  - vm_compute. reflexivity.
  - apply gw1_packet.
  - reflexivity.
  - discriminate.
  - vm_compute. reflexivity.
  - vm_compute. reflexivity.
  - vm_compute. reflexivity.
  - vm_compute. reflexivity.
  - reflexivity.
  - vm_compute. lia.
  - eexists. split; [exact Hrun|]. split.
    + cbn [lw with_app with_lw]. rewrite Hv. vm_compute. reflexivity.
    + apply Hread; [vm_compute; reflexivity..|vm_compute; lia|vm_compute; lia].
Defined.

(** A datagram from the host [IPv4 6] makes a connection; the buffers stay. *)
Definition gw_udp : GW :=
  gafter (go_udp_recv_h (Some gc) no_event (Some 9%positive) 50 (IPv4 6) 80 20) gw0.
Definition up : ptr :=
  default 1%positive (udpPcbs (app gw_udp) !! host_key (cs_ip_get true) (IPv4 6) 80).
Definition uo : PCB := default gobj (pcbs (app gw_udp) !! up).
Definition uq : chan bytes := default (make_chan 0) (bchans (app gw_udp) !! recvQueued uo).

Lemma gw_udp_packet : owned (pbufs (view (lw gw_udp))) packet.
Proof. split; [split; vm_compute; repeat split|]. by apply (bool_decide_unpack _). Qed.

Lemma go_udp_recv_after_close_panics_witness :
  exists g', Close up (app gw_udp) = Ok (false, g') /\
    go_udp_recv_h (Some gc) no_event (Some 9%positive) 50 (IPv4 6) 80 20
      (with_app g' gw_udp) = Fault Panicked.
Proof.
  apply (go_udp_recv_after_close_panics gc no_event eq_refl (cs_ip_get true) eq_refl
    (Some 9%positive) 50 (IPv4 6) 80 20 gw_udp packet up uo uq);
    try (vm_compute; reflexivity).
  - apply gw_udp_packet.
  - discriminate.
  - vm_compute. lia.
Defined.

(** The same stack with a packet that has no data. *)
Definition gw_empty : GW :=
  with_lw (set_view (with_pbufs {[20%positive := Pnode 1 None []]} (view stack0)) stack0) gw0.

Lemma go_udp_empty_panics_witness :
  cs_udp_raw_recv go_backs (Some 9%positive) 50 (Some 20%positive) (IPv4 6) 80 gw_empty =
    Fault Panicked.
Proof.
  apply (go_udp_empty_panics gc no_event eq_refl go_backs 9 50 (IPv4 6) 80 20 gw_empty
    [(20%positive, [])] go_tbl); try reflexivity.
  apply owned_cons. split; [reflexivity|]. split; [apply not_elem_of_nil|apply owned_nil].
Defined.

(** Two hosts that differ only in bytes that [cs_ip_get] drops. *)
Definition gw_udp6 : GW :=
  gafter (go_udp_recv_h (Some gc) no_event (Some 9%positive) 50 (IPv6 1 2 3 4) 80 20) gw0.
Definition up6 : ptr :=
  default 1%positive
    (udpPcbs (app gw_udp6) !! host_key (cs_ip_get true) (IPv6 1 2 3 4) 80).
Definition uo6 : PCB := default gobj (pcbs (app gw_udp6) !! up6).
Definition uq6 : chan bytes := default (make_chan 0) (bchans (app gw_udp6) !! recvQueued uo6).

Lemma go_udp_v6_mixup_witness :
  exists w', go_udp_recv_h (Some gc) no_event (Some 9%positive) 50 (IPv6 257 2 3 4) 80 20
      gw_udp6 = Ok (0, w') /\
    c_buf <$> bchans (app w') !! recvQueued uo6 = Some [[1; 2; 3; 4; 5]; [1; 2; 3; 4; 5]].
Proof.
  eexists. split.
  - apply (go_udp_v6_mixup gc no_event eq_refl (cs_ip_get true) eq_refl true
      (Some 9%positive) 50 1 2 3 4 257 2 3 4 80 20 gw_udp6 packet up6 uo6 uq6).
    + reflexivity.
    + vm_compute. reflexivity.
    + split; [split; vm_compute; repeat split|]. by apply (bool_decide_unpack _).
    + reflexivity.
    + discriminate.
    + vm_compute. reflexivity.
    + vm_compute. reflexivity.
    + vm_compute. reflexivity.
    + vm_compute. reflexivity.
    + vm_compute. lia.
  - vm_compute. reflexivity.
Defined.

(** ** Witnesses for GoWf.v and GoReach.v *)

#[export] Instance no_event_keeps get : EventKeeps get no_event.
Proof. by split. Qed.
#[export] Instance gc_keeps : TableKeeps gc.
Proof. apply gback_keeps. by intros o k w. Qed.

(** One connection, made by [newPCB]. *)
Definition g1 : go_state :=
  match newPCB TCP None 2 (Some e1) (IPv4 11) (IPv4 12) 7 5000 go_state0 with
  | Ok (_, g) => g
  | Fault _ => go_state0
  end.

Lemma g1_wf get : go_wf get g1.
Proof.
  assert (wpf any (newPCB TCP None 2 (Some e1) (IPv4 11) (IPv4 12) 7 5000) go_state0
    (fun _ => go_wf get)) as H.
  { eapply wpf_mono; [apply newPCB_wf; [apply go_wf_init|done]|]. by intros ? ? []. }
  exact H.
Qed.

(** The connection after a [Close], with a channel of the program. *)
Definition g1_closed : go_state :=
  match run_method 1 MClose g1 with
  | Ok (_, g) => set_bchans (<[9%positive := make_chan 5]> (bchans g)) g
  | Fault _ => go_state0
  end.


(** [Intercept] of a connection that is closed panics. *)
Lemma g1_closed_panics : run_method 1 (MIntercept 9) g1_closed = Fault Panicked.
Proof. vm_compute. reflexivity. Qed.

Definition gw_acc : GW := gafter (go_tcp_accept_h no_event None 2 e1) gw0.

Lemma gw_acc_run : go_tcp_accept_h no_event None 2 e1 gw0 = Ok (0, gw_acc).
Proof. vm_compute. reflexivity. Qed.

Lemma go_wf_reachable_witness :
  go_wf (cs_ip_get true) (app gw_acc) /\ is_Some (tcpPcbs (app gw_acc) !! e1).
Proof.
  split.
  - apply (go_wf_reachable (cs_ip_get true) gc no_event eq_refl gw0).
    + reflexivity.
    + apply rtc_once. eapply step_accept. apply gw_acc_run.
  - vm_compute. eexists. reflexivity.
Defined.

(** ** Witnesses for GoLive.v *)

#[export] Instance no_event_quiet : EventQuiet no_event.
Proof. by split. Qed.

Abbreviation gprog_step := (prog_step gc go_backs run_fuel).
Abbreviation gprog_reachable := (prog_reachable gc go_backs run_fuel).

(** A goroutine at [u], and the step it takes. *)
Definition gstep (u : user_pc) (g : go_state) : user_pc * go_state :=
  match user_step gp u g with
  | Ok x => x
  | Fault _ => (u, g)
  end.

Lemma gstep_next w u u' g g' :
  returned u = false -> user_step gp u g = Ok (u', g') ->
  gprog_reachable (Prog (with_app g w) [(gp, u)]) ->
  gprog_reachable (Prog (with_app g' w) [(gp, u')]).
Proof.
  intros Hr Hu (s0 & Hi & Hs). exists s0. split; [exact Hi|]. eapply rtc_r; [exact Hs|].
  by eapply (pstep_user _ _ _ (Prog (with_app g w) [(gp, u)]) 0%nat).
Qed.

Lemma with_app_id {S A} (w : world S A) : with_app (app w) w = w.
Proof. by destruct w. Qed.

(** After a connection is accepted a goroutine writes to it. *)
Definition gx1 := gstep (WCheck [1; 2; 3]) (app gw1).
Definition gx2 := gstep (WLock [1; 2; 3]) gx1.2.
Definition gx3 := gstep (WPost [1; 2; 3]) gx2.2.
Definition gw_write : prog ref := Prog (with_app gx3.2 gw1) [(gp, WWait [1; 2; 3])].

Lemma gw1_prog : gprog_reachable (Prog gw1 [(gp, WCheck [1; 2; 3])]).
Proof.
  exists (Prog gw0 [(1%positive, UIdle)]). split.
  - split; [apply gw0_init|]. split; [reflexivity|]. by repeat constructor.
  - eapply rtc_l; [eapply (pstep_event _ _ _ (Prog gw0 [(1%positive, UIdle)]))|].
    + apply gaccept_event_ok.
    + unfold enough_fuel. vm_compute. lia.
    + apply gaccept_run.
    + apply rtc_once.
      eapply (pstep_call _ _ _ (Prog gw1 [(1%positive, UIdle)]) 0%nat _ _ gp gobj);
        [reflexivity|reflexivity|reflexivity|vm_compute; reflexivity|vm_compute; reflexivity].
Qed.

Lemma gw_write_reachable : gprog_reachable gw_write.
Proof.
  apply (gstep_next gw1 (WPost [1; 2; 3]) _ gx2.2); [reflexivity|vm_compute; reflexivity|].
  apply (gstep_next gw1 (WLock [1; 2; 3]) _ gx1.2); [reflexivity|vm_compute; reflexivity|].
  apply (gstep_next gw1 (WCheck [1; 2; 3]) _ (app gw1));
    [reflexivity|vm_compute; reflexivity|].
  rewrite with_app_id. apply gw1_prog.
Qed.

Lemma go_loop_safe_witness :
  c_buf (sendQueue (app (p_world gw_write))) = [(gp, [1; 2; 3])] /\
  exists w', proc_turn (Some gc) 8 CaseSend (p_world gw_write) = Ok (tt, w') /\
    inv go_backs w'.
Proof.
  split; [vm_compute; reflexivity|].
  destruct (go_loop_safe gc no_event eq_refl eq_refl go_backs run_fuel go_backs_table
    eq_refl eq_refl gw_write 8 CaseSend) as (w' & H & I & _).
  - exact gw_write_reachable.
  - intros p b Hin. assert (c_buf (sendQueue (app (p_world gw_write))) = [(gp, [1; 2; 3])])
      as E by (vm_compute; reflexivity).
    rewrite E in Hin. apply list_elem_of_singleton in Hin.
    apply (f_equal snd) in Hin. cbn [snd] in Hin. rewrite Hin. vm_compute. lia.
  - vm_compute. discriminate.
  - exists w'. split; [exact H|exact I].
Defined.

Lemma go_open_is_live_witness :
  exists e r, tcpPcbs (app gw1) !! e = Some gp /\ es_heap gw1 !! e = Some r /\
    es_pcb r = p_pcb gobj.
Proof.
  destruct (go_open_is_live gc no_event eq_refl eq_refl go_backs run_fuel go_backs_table
    eq_refl eq_refl (Prog gw1 [(gp, WCheck [1; 2; 3])]) gp gobj)
    as (e & r & t & _ & H1 & H2 & H3 & _).
  - exact gw1_prog.
  - vm_compute. reflexivity.
  - vm_compute. reflexivity.
  - vm_compute. reflexivity.
  - exists e, r. split; [exact H1|]. split; [exact H2|exact H3].
Defined.
