(* ===== verification/Port.v ===== *)
(** * The headers of the port, through the preprocessor
    (src/src/arch/cc.h, src/src/lwipopts.h, src/src/lwipcfg.h,
    src/src/arch/sys_arch.h, the conditional parts of src/src/sys.c and src/src/test.c)

    The directives of these files as data, and what the C preprocessor makes of
    them.  Proved: which platform [cc.h] finds; that whatever else is defined
    the options of [lwipopts.h], read for the first time and not as a test of the
    options, come out with the values of [Config]; which functions of [sys.c] such a build has; and
    the command that the device functions give to the system. *)

From S2P Require Import Prelude SysTime Config.
From stdpp Require Import strings pretty.
From Stdlib Require Import Ascii.
Local Open Scope Z_scope.

(** ** The preprocessor *)

(** Expressions, with the operators that the files use. *)
Inductive expr : Type :=
| Num (n : Z)
| Id (x : string)
| Defined (x : string)
| Not (e : expr)
| And (e f : expr)
| Or (e f : expr)
| Eq (e f : expr)
| Gt (e f : expr)
| Lt (e f : expr)
| Add (e f : expr)
| Sub (e f : expr)
| Mul (e f : expr)
| Div (e f : expr).

(** What macros stand for: an expression (all of those here are single tokens or
    in parentheses, so that what is put in place of them keeps its structure),
    nothing, string literals and names side by side, a call, [IP4_ADDR] with
    four numbers, a list in braces, an if without a result, the options of the
    debug types, or text that is not well formed. *)
Inductive body : Type :=
| BExpr (e : expr)
| BEmpty
| BText (l : list (string + string))
| BCall (f : string)
| BIP4 (a b c d : Z)
| BBytes (l : list Z)
| BUnless
| BFlags (l : list string)
| BBroken.

(** The lines of a file: a definition, a conditional with its two parts, and a
    function that is compiled. *)
Inductive directive : Type :=
| Define (x : string) (b : body)
| If (c : expr) (yes no : list directive)
| Function (f : string).

(** What is defined, the last definition first. *)
Abbreviation macros := (list (string * body)).

Fixpoint find_macro (x : string) (m : macros) : option body :=
  match m with
  | [] => None
  | (y, b) :: m => if String.eqb x y then Some b else find_macro x m
  end.
Definition is_defined (x : string) (m : macros) : bool :=
  match find_macro x m with Some _ => true | None => false end.

(** The value of an expression; [undef] is that of a name that is no macro or
    stands for no number, which in a condition is 0; [n] bounds the depth. *)
Fixpoint value (undef : option Z) (m : macros) (n : nat) (e : expr) : option Z :=
  match n with
  | O => None
  | S n =>
      let v := value undef m n in
      let op f e1 e2 := a ← v e1; b ← v e2; Some (f a b) in
      match e with
      | Num z => Some z
      | Id x => match find_macro x m with Some (BExpr e) => v e | _ => undef end
      | Defined x => Some (Z.b2z (is_defined x m))
      | Not e => a ← v e; Some (Z.b2z (a =? 0))
      | And e f => op (fun a b => Z.b2z (negb (a =? 0) && negb (b =? 0))) e f
      | Or e f => op (fun a b => Z.b2z (negb (a =? 0) || negb (b =? 0))) e f
      | Eq e f => op (fun a b => Z.b2z (a =? b)) e f
      | Gt e f => op (fun a b => Z.b2z (b <? a)) e f
      | Lt e f => op (fun a b => Z.b2z (a <? b)) e f
      | Add e f => op Z.add e f
      | Sub e f => op Z.sub e f
      | Mul e f => op Z.mul e f
      | Div e f => op Z.quot e f
      end
  end.

(** No expression here nests names and operators deeper. *)
Definition DEPTH : nat := 16.
Definition condition (m : macros) (c : expr) : bool :=
  match value (Some 0) m DEPTH c with Some z => negb (z =? 0) | None => false end.

(** A file: the macros after it and the functions compiled. *)
Fixpoint line_cpp (d : directive) (m : macros) : macros * list string :=
  let all := fix all (l : list directive) (m : macros) : macros * list string :=
    match l with
    | [] => (m, [])
    | d :: l => let '(m1, fs) := line_cpp d m in
                let '(m2, gs) := all l m1 in (m2, fs ++ gs)
    end in
  match d with
  | Define x b => ((x, b) :: m, [])
  | Function f => (m, [f])
  | If c yes no => if condition m c then all yes m else all no m
  end.
Fixpoint cpp (l : list directive) (m : macros) : macros * list string :=
  match l with
  | [] => (m, [])
  | d :: l => let '(m1, fs) := line_cpp d m in
              let '(m2, gs) := cpp l m1 in (m2, fs ++ gs)
  end.

(** [#ifdef], [#ifndef], and [#define] of a number and of another name. *)
Definition Ifdef (x : string) (yes no : list directive) : directive := If (Defined x) yes no.
Definition Ifndef (x : string) (l : list directive) : directive := If (Not (Defined x)) l [].
Definition def (x : string) (n : Z) : directive := Define x (BExpr (Num n)).
Definition alias (x y : string) : directive := Define x (BExpr (Id y)).

(** The number that an option has, and the text of one that is text. *)
Definition option_value (m : macros) (x : string) : option Z := value None m DEPTH (Id x).
Fixpoint text (m : macros) (n : nat) (x : string) : option string :=
  match n with
  | O => None
  | S n =>
      match find_macro x m with
      | Some (BText l) =>
          foldr (fun p acc =>
            s ← match p with inl s => Some s | inr y => text m n y end;
            t ← acc; Some (s +:+ t)) (Some "") l
      | _ => None
      end
  end.

(** ** arch/cc.h *)

Definition cc_platform : list directive := [
  If (Defined "__ANDROID__") [Define "LWIP_UNIX_ANDROID" BEmpty]
  [If (Defined "__linux__") [Define "LWIP_UNIX_LINUX" BEmpty]
  [If (Defined "__APPLE__") [Define "LWIP_UNIX_MACH" BEmpty]
  [If (Defined "__OpenBSD__") [Define "LWIP_UNIX_OPENBSD" BEmpty]
  [If (And (Defined "__FreeBSD_kernel__") (Id "__GLIBC__")) [Define "LWIP_UNIX_KFREEBSD" BEmpty]
  [If (Defined "__CYGWIN__") [Define "LWIP_UNIX_CYGWIN" BEmpty]
  [If (Defined "__GNU__") [Define "LWIP_UNIX_HURD" BEmpty] []]]]]]]
]%string.
Definition cc_settings : list directive := [
  def "LWIP_TIMEVAL_PRIVATE" 0;
  Define "LWIP_ERRNO_INCLUDE" (BText [inl "<errno.h>"]);
  If (Or (Or (Defined "LWIP_UNIX_LINUX") (Defined "LWIP_UNIX_HURD"))
         (Defined "LWIP_UNIX_KFREEBSD"))
    [def "LWIP_ERRNO_STDINCLUDE" 1] [];
  Define "LWIP_RAND" (BCall "lwip_port_rand");
  Ifdef "LWIP_NOASSERT_ON_ERROR" [Define "LWIP_ERROR" BUnless] [];
  If (Defined "LWIP_UNIX_MACH") [Define "LWIP_DONT_PROVIDE_BYTEORDER_FUNCTIONS" BEmpty] [];
  Define "sio_fd_t" (BText [inl "sio_status_t*"]);
  Define "__sio_fd_t_defined" BEmpty
]%string.
Definition cc_h : list directive := cc_platform ++ cc_settings.

(** ** lwipopts.h *)

Definition lwipopts_features : list directive := [
  def "LWIP_IPV4" 1; def "LWIP_IPV6" 1; def "NO_SYS" 1;
  Define "LWIP_SOCKET" (BExpr (Eq (Id "NO_SYS") (Num 0)));
  Define "LWIP_NETCONN" (BExpr (Eq (Id "NO_SYS") (Num 0)));
  Define "LWIP_NETIF_API" (BExpr (Eq (Id "NO_SYS") (Num 0)));
  alias "LWIP_IGMP" "LWIP_IPV4"; alias "LWIP_ICMP" "LWIP_IPV4";
  alias "LWIP_SNMP" "LWIP_UDP"; alias "MIB2_STATS" "LWIP_SNMP";
  Ifdef "LWIP_HAVE_MBEDTLS" [alias "LWIP_SNMP_V3" "LWIP_SNMP"] [];
  alias "LWIP_DNS" "LWIP_UDP"; alias "LWIP_MDNS_RESPONDER" "LWIP_UDP";
  alias "LWIP_NUM_NETIF_CLIENT_DATA" "LWIP_MDNS_RESPONDER";
  def "LWIP_HAVE_LOOPIF" 1; def "LWIP_NETIF_LOOPBACK" 1; def "LWIP_LOOPBACK_MAX_PBUFS" 10;
  def "TCP_LISTEN_BACKLOG" 1;
  def "LWIP_COMPAT_SOCKETS" 1; def "LWIP_SO_RCVTIMEO" 1; def "LWIP_SO_RCVBUF" 1;
  def "LWIP_TCPIP_CORE_LOCKING" 1;
  def "LWIP_NETIF_LINK_CALLBACK" 1; def "LWIP_NETIF_STATUS_CALLBACK" 1;
  def "LWIP_NETIF_EXT_STATUS_CALLBACK" 1
]%string.

(** The modules with a debug flag. *)
Definition debug_flags : list string :=
  ["PPP_DEBUG"; "MEM_DEBUG"; "MEMP_DEBUG"; "PBUF_DEBUG"; "API_LIB_DEBUG"; "API_MSG_DEBUG";
   "TCPIP_DEBUG"; "NETIF_DEBUG"; "SOCKETS_DEBUG"; "DNS_DEBUG"; "AUTOIP_DEBUG"; "DHCP_DEBUG";
   "IP_DEBUG"; "IP_REASS_DEBUG"; "ICMP_DEBUG"; "IGMP_DEBUG"; "UDP_DEBUG"; "TCP_DEBUG";
   "TCP_INPUT_DEBUG"; "TCP_OUTPUT_DEBUG"; "TCP_RTO_DEBUG"; "TCP_CWND_DEBUG"; "TCP_WND_DEBUG";
   "TCP_FR_DEBUG"; "TCP_QLEN_DEBUG"; "TCP_RST_DEBUG"]%string.
Definition lwipopts_debug : list directive := [
  Ifdef "LWIP_DEBUG"
    (def "LWIP_DBG_MIN_LEVEL" 0 :: ((fun x => alias x "LWIP_DBG_OFF") <$> debug_flags)) [];
  Define "LWIP_DBG_TYPES_ON"
    (BFlags ["LWIP_DBG_ON"; "LWIP_DBG_TRACE"; "LWIP_DBG_STATE"; "LWIP_DBG_FRESH";
             "LWIP_DBG_HALT"])
]%string.

Definition lwipopts_memory : list directive := [
  def "MEM_ALIGNMENT" 4; def "MEM_SIZE" 10240; def "MEMP_NUM_PBUF" 16;
  def "MEMP_NUM_RAW_PCB" 3; def "MEMP_NUM_UDP_PCB" 4; def "MEMP_NUM_TCP_PCB" 5;
  def "MEMP_NUM_TCP_PCB_LISTEN" 8; def "MEMP_NUM_TCP_SEG" 16;
  def "MEMP_NUM_SYS_TIMEOUT" 17; def "MEMP_NUM_NETBUF" 2; def "MEMP_NUM_NETCONN" 10;
  def "MEMP_NUM_TCPIP_MSG_API" 16; def "MEMP_NUM_TCPIP_MSG_INPKT" 16;
  def "PBUF_POOL_SIZE" 120; def "PBUF_POOL_BUFSIZE" 256;
  Define "SYS_LIGHTWEIGHT_PROT" (BExpr (Eq (Id "NO_SYS") (Num 0)))
]%string.

Definition lwipopts_tcp : list directive := [
  def "LWIP_TCP" 1; def "TCP_TTL" 255; alias "LWIP_ALTCP" "LWIP_TCP";
  Ifdef "LWIP_HAVE_MBEDTLS"
    [alias "LWIP_ALTCP_TLS" "LWIP_TCP"; alias "LWIP_ALTCP_TLS_MBEDTLS" "LWIP_TCP"] [];
  def "TCP_QUEUE_OOSEQ" 1; def "TCP_MSS" 1024; def "TCP_SND_BUF" 2048;
  Define "TCP_SND_QUEUELEN"
    (BExpr (Div (Mul (Num 4) (Id "TCP_SND_BUF")) (Id "TCP_MSS")));
  Define "TCP_SNDLOWAT" (BExpr (Div (Id "TCP_SND_BUF") (Num 2)));
  Define "TCP_WND" (BExpr (Mul (Num 20) (Num 1024)));
  def "TCP_MAXRTX" 12; def "TCP_SYNMAXRTX" 4
]%string.

Definition lwipopts_ip : list directive := [
  def "LWIP_ARP" 1; def "ARP_TABLE_SIZE" 10; def "ARP_QUEUEING" 1; def "IP_FORWARD" 1;
  def "IP_REASSEMBLY" 1;
  Define "IP_REASS_MAX_PBUFS" (BExpr (Mul (Num 10)
    (Div (Sub (Add (Num 1500) (Id "PBUF_POOL_BUFSIZE")) (Num 1)) (Id "PBUF_POOL_BUFSIZE"))));
  alias "MEMP_NUM_REASSDATA" "IP_REASS_MAX_PBUFS";
  def "IP_FRAG" 1; def "IPV6_FRAG_COPYHEADER" 1; def "ICMP_TTL" 255;
  alias "LWIP_DHCP" "LWIP_UDP"; alias "DHCP_DOES_ARP_CHECK" "LWIP_DHCP";
  alias "LWIP_AUTOIP" "LWIP_DHCP";
  Define "LWIP_DHCP_AUTOIP_COOP" (BExpr (And (Id "LWIP_DHCP") (Id "LWIP_AUTOIP")));
  def "LWIP_UDP" 1; alias "LWIP_UDPLITE" "LWIP_UDP"; def "UDP_TTL" 255; def "LWIP_RAW" 1
]%string.

Definition lwipopts_stats : list directive := [
  def "LWIP_STATS" 1; def "LWIP_STATS_DISPLAY" 1;
  If (Id "LWIP_STATS")
    [def "LINK_STATS" 1; def "IP_STATS" 1; def "ICMP_STATS" 1; def "IGMP_STATS" 1;
     def "IPFRAG_STATS" 1; def "UDP_STATS" 1; def "TCP_STATS" 1; def "MEM_STATS" 1;
     def "MEMP_STATS" 1; def "PBUF_STATS" 1; def "SYS_STATS" 1] [];
  def "LWIP_NETBIOS_RESPOND_NAME_QUERY" 1
]%string.

Definition lwipopts_ppp : list directive := [
  def "PPP_SUPPORT" 0;
  If (Id "PPP_SUPPORT")
    [def "NUM_PPP" 1; def "PPPOE_SUPPORT" 1; def "PPPOS_SUPPORT" 1; def "PAP_SUPPORT" 1;
     def "CHAP_SUPPORT" 1; def "MSCHAP_SUPPORT" 0; def "CBCP_SUPPORT" 0; def "CCP_SUPPORT" 0;
     def "VJ_SUPPORT" 1; def "MD5_SUPPORT" 1] []
]%string.

(** What is defined in either mode. *)
Definition lwipopts_locking : list directive := [
  If (Or (Not (Defined "NO_SYS")) (Not (Id "NO_SYS")))
    [Define "LWIP_ASSERT_CORE_LOCKED" (BCall "sys_check_core_locking");
     Define "LWIP_MARK_TCPIP_THREAD" (BCall "sys_mark_tcpip_thread");
     If (Or (Not (Defined "LWIP_TCPIP_CORE_LOCKING")) (Id "LWIP_TCPIP_CORE_LOCKING"))
       [Define "LOCK_TCPIP_CORE" (BCall "sys_lock_tcpip_core");
        Define "UNLOCK_TCPIP_CORE" (BCall "sys_unlock_tcpip_core")] []] []
]%string.

(** The file, with its guard against being included twice; [opttest] is what is
    included instead in the mode for tests of the options. *)
Definition lwipopts_h (opttest : list directive) : list directive :=
  [Ifndef "LWIP_LWIPOPTS_H"
     (Define "LWIP_LWIPOPTS_H" BEmpty ::
      [Ifdef "LWIP_OPTTEST_FILE" opttest
         (lwipopts_features ++ lwipopts_debug ++ lwipopts_memory ++ lwipopts_tcp ++
          lwipopts_ip ++ lwipopts_stats ++ lwipopts_ppp)] ++ lwipopts_locking)]%string.

(** ** arch/sys_arch.h, the threading options *)
Definition sys_arch_h : list directive := [
  Define "LWIP_EXAMPLE_APP_ABORT" (BCall "lwip_unix_keypressed");
  Define "LWIP_MARK_TCPIP_THREAD" (BCall "sys_mark_tcpip_thread");
  If (Id "LWIP_TCPIP_CORE_LOCKING")
    [Define "LOCK_TCPIP_CORE" (BCall "sys_lock_tcpip_core");
     Define "UNLOCK_TCPIP_CORE" (BCall "sys_unlock_tcpip_core")] []
]%string.

(** ** lwipcfg.h, which no file includes *)
Definition lwipcfg_h : list directive := [
  Define "PPP_USERNAME" (BText [inl "Admin"]); Define "PPP_PASSWORD" (BText [inl "pass"]);
  def "PACKET_LIB_ADAPTER_NR" 1;
  Define "LWIP_PORT_INIT_IPADDR" (BIP4 192 168 100 200);
  Define "LWIP_PORT_INIT_GW" (BIP4 192 168 100 1);
  Define "LWIP_PORT_INIT_NETMASK" (BIP4 255 255 255 0);
  Define "LWIP_MAC_ADDR_BASE" (BBytes [0; 1; 2; 3; 4; 5]);
  Ifdef "USE_SLIPIF"
    [If (Id "USE_SLIPIF")
       [Define "LWIP_PORT_INIT_SLIP1_IPADDR" (BIP4 192 168 2 2);
        Define "LWIP_PORT_INIT_SLIP1_GW" (BIP4 192 168 2 1);
        Define "LWIP_PORT_INIT_SLIP1_NETMASK" (BIP4 255 255 255 0);
        If (Gt (Id "USE_SLIPIF") (Num 1))
          [Define "LWIP_PORT_INIT_SLIP2_IPADDR" (BIP4 192 168 2 1);
           Define "LWIP_PORT_INIT_SLIP2_GW" (BIP4 0 0 0 0);
           (* the text ends with the end of a comment that has no start *)
           Define "LWIP_PORT_INIT_SLIP2_NETMASK" BBroken] []] []] [];
  def "LWIP_CHARGEN_APP" 0; def "LWIP_DNS_APP" 0; def "LWIP_HTTPD_APP" 0;
  def "LWIP_NETBIOS_APP" 0; def "LWIP_NETIO_APP" 0; def "LWIP_MDNS_APP" 0;
  def "LWIP_MQTT_APP" 0; def "LWIP_PING_APP" 0; def "LWIP_RTP_APP" 0; def "LWIP_SHELL_APP" 0;
  def "LWIP_SNMP_APP" 0; def "LWIP_SNTP_APP" 0; def "LWIP_SOCKET_EXAMPLES_APP" 0;
  def "LWIP_TCPECHO_APP" 1; def "LWIP_TFTP_APP" 0; def "LWIP_UDPECHO_APP" 1;
  def "LWIP_LWIPERF_APP" 0; def "USE_DHCP" 0; def "USE_AUTOIP" 0
]%string.

(** ** The functions of sys.c *)
Definition sys_c : list directive := [
  Function "lwip_port_rand"; Function "get_monotonic_time";
  If (Not (Id "NO_SYS"))
    [Function "introduce_thread"; Function "thread_wrapper"; Function "sys_thread_new";
     If (Id "LWIP_TCPIP_CORE_LOCKING")
       [Function "sys_lock_tcpip_core"; Function "sys_unlock_tcpip_core"] [];
     Function "sys_mark_tcpip_thread"; Function "sys_check_core_locking";
     Function "sys_mbox_new"; Function "sys_mbox_free"; Function "sys_mbox_trypost";
     Function "sys_mbox_trypost_fromisr"; Function "sys_mbox_post";
     Function "sys_arch_mbox_tryfetch"; Function "sys_arch_mbox_fetch";
     Function "sys_sem_new_internal"; Function "sys_sem_new"; Function "cond_wait";
     Function "sys_arch_sem_wait"; Function "sys_sem_signal";
     Function "sys_sem_free_internal"; Function "sys_sem_free";
     Function "sys_mutex_new"; Function "sys_mutex_lock"; Function "sys_mutex_unlock";
     Function "sys_mutex_free"] [];
  Function "sys_now"; Function "sys_jiffies"; Function "sys_init";
  If (Id "SYS_LIGHTWEIGHT_PROT") [Function "sys_arch_protect"; Function "sys_arch_unprotect"] [];
  If (Not (Id "NO_SYS")) [Function "lwip_unix_keypressed"] []
]%string.

(** The platform conditions in the functions of [sys.c], as [SysTime] has them. *)
Definition port_of (m : macros) : port :=
  SysTime.Port (condition m (Defined "LWIP_UNIX_MACH"))
    (condition m (Defined "LWIP_UNIX_HURD"))
    (condition m (And (Defined "LWIP_UNIX_ANDROID") (Lt (Id "__ANDROID_API__") (Num 21)))).

(** ** The device macros of the test programs *)
Definition linux_device : list directive := [
  Ifndef "DEVTAP_DEFAULT_IF" [Define "DEVTAP_DEFAULT_IF" (BText [inl "tap0"])];
  Ifndef "DEVTAP" [Define "DEVTAP" (BText [inl "/dev/net/tun"])]
]%string.
Definition device_platform : directive :=
  If (Defined "LWIP_UNIX_LINUX")
    (linux_device ++
     [Define "NETMASK_ARGS" (BText [inl "netmask %d.%d.%d.%d"]);
      Define "IFCONFIG_ARGS" (BText [inl "tap0 inet %d.%d.%d.%d "; inr "NETMASK_ARGS"])])
    [If (Defined "LWIP_UNIX_OPENBSD")
       [Define "DEVTAP" (BText [inl "/dev/tun0"]);
        Define "NETMASK_ARGS" (BText [inl "netmask %d.%d.%d.%d"]);
        Define "IFCONFIG_ARGS"
          (BText [inl "tun0 inet %d.%d.%d.%d "; inr "NETMASK_ARGS"; inl " link0"])]
       [Define "DEVTAP" (BText [inl "/dev/tap0"]);
        Define "NETMASK_ARGS" (BText [inl "netmask %d.%d.%d.%d"]);
        Define "IFCONFIG_ARGS" (BText [inl "tap0 inet %d.%d.%d.%d "; inr "NETMASK_ARGS"])]]
  %string.
Definition device_names : list directive := [
  def "IFNAME0" 116; def "IFNAME1" 112;
  Ifndef "TAPIF_DEBUG" [alias "TAPIF_DEBUG" "LWIP_DBG_OFF"]
]%string.
Definition device_macros : list directive :=
  [Define "IFCONFIG_BIN" (BText [inl "/sbin/ifconfig "])]%string ++
  [device_platform] ++ device_names.

(** ** Lemmas *)

Lemma line_cpp_If c yes no m :
  line_cpp (If c yes no) m = cpp (if condition m c then yes else no) m.
Proof. cbn. by destruct (condition m c). Qed.

Lemma cpp_app l k m :
  cpp (l ++ k) m = ((cpp k (cpp l m).1).1, (cpp l m).2 ++ (cpp k (cpp l m).1).2).
Proof.
  revert m. induction l as [|d l IH]; intros m; cbn; [by destruct (cpp k m)|].
  destruct (line_cpp d m) as [m1 fs]. rewrite IH.
  destruct (cpp l m1) as [m2 gs], (cpp k m2). cbn. by rewrite <- app_assoc.
Qed.

Lemma cpp_cons d l m :
  cpp (d :: l) m =
    ((cpp l (line_cpp d m).1).1, (line_cpp d m).2 ++ (cpp l (line_cpp d m).1).2).
Proof.
  cbn [cpp]. destruct (line_cpp d m) as [m1 fs]. cbn [fst snd].
  by destruct (cpp l m1) as [m2 gs].
Qed.

Lemma value_Id u m n x :
  value u m (S n) (Id x) =
    match find_macro x m with Some (BExpr e) => value u m n e | _ => u end.
Proof. done. Qed.
Lemma value_Num u m n z : value u m (S n) (Num z) = Some z.
Proof. done. Qed.

(** Whether a line can define [x], on any branch. *)
Fixpoint defines (x : string) (d : directive) : bool :=
  let any := fix any (l : list directive) : bool :=
    match l with [] => false | d :: l => defines x d || any l end in
  match d with
  | Define y _ => String.eqb x y
  | If _ yes no => any yes || any no
  | Function _ => false
  end.

Lemma directive_nested_ind (P : directive -> Prop) :
  (forall x b, P (Define x b)) -> (forall f, P (Function f)) ->
  (forall c yes no, Forall P yes -> Forall P no -> P (If c yes no)) ->
  forall d, P d.
Proof.
  intros Hd Hf Hi. fix IH 1. intros [x b|c yes no|f]; [apply Hd| |apply Hf].
  apply Hi; [induction yes|induction no]; constructor; auto.
Qed.

(** A name that is not defined keeps its meaning. *)
Lemma line_cpp_other x d m :
  defines x d = false -> find_macro x (line_cpp d m).1 = find_macro x m.
Proof.
  revert m. induction d as [y b|f|c yes no Hyes Hno] using directive_nested_ind; intros m.
  - cbn. by intros ->.
  - done.
  - assert (Hall : forall l,
      Forall (fun d => forall m, defines x d = false ->
        find_macro x (line_cpp d m).1 = find_macro x m) l ->
      existsb (defines x) l = false -> forall m, find_macro x (cpp l m).1 = find_macro x m).
    { intros l Hl. induction Hl as [|d l Hd _ IH]; [done|].
      intros [H1 H2]%orb_false_iff m'. rewrite cpp_cons. cbn [fst]. rewrite IH by done.
      by apply Hd. }
    change (defines x (If c yes no)) with (existsb (defines x) yes || existsb (defines x) no).
    intros [Hy Hn]%orb_false_iff. rewrite line_cpp_If.
    destruct (condition m c); by apply Hall.
Qed.

Lemma cpp_other x l m :
  existsb (defines x) l = false -> find_macro x (cpp l m).1 = find_macro x m.
Proof.
  revert m. induction l as [|d l IH]; intros m; [done|].
  intros [Hd Hl]%orb_false_iff. rewrite cpp_cons. cbn [fst]. rewrite IH by done.
  by apply line_cpp_other.
Qed.

(** What a file makes of [#ifdef x] when it is known whether [x] is defined. *)
Fixpoint resolve (x : string) (b : bool) (l : list directive) : list directive :=
  match l with
  | [] => []
  | If (Defined y) yes no as d :: l =>
      (if String.eqb x y then if b then yes else no else [d]) ++ resolve x b l
  | d :: l => d :: resolve x b l
  end.

Lemma cpp_resolve x b l m :
  existsb (defines x) l = false -> is_defined x m = b -> cpp l m = cpp (resolve x b l) m.
Proof.
  revert m. induction l as [|d l IH]; intros m; [done|].
  intros [Hd Hl]%orb_false_iff Hb.
  assert (Hm : is_defined x (line_cpp d m).1 = b)
    by (unfold is_defined in *; by rewrite line_cpp_other).
  assert (Hcons : cpp (d :: l) m = cpp (d :: resolve x b l) m)
    by by rewrite !cpp_cons, IH.
  destruct d as [y bd|c yes no|f]; cbn [resolve]; try exact Hcons.
  destruct c as [|x'|y| | | | | | | | | |]; try exact Hcons.
  destruct (String.eqb_spec x y) as [<-|_]; [|exact Hcons].
  rewrite cpp_app, Hcons, cpp_cons, line_cpp_If.
  unfold condition, value, DEPTH. cbn. rewrite Hb. by destruct b.
Qed.

Lemma cpp_ifndef x yes no k m :
  is_defined x m = false -> cpp ([Ifdef x yes no] ++ k) m = cpp (no ++ k) m.
Proof.
  intros Hx. rewrite !cpp_app. unfold Ifdef. rewrite cpp_cons, line_cpp_If.
  replace (condition m (Defined x)) with false.
  - cbn [cpp fst snd]. by rewrite app_nil_r.
  - unfold condition, DEPTH. cbn [value]. by rewrite Hx.
Qed.

(** A file that is included for the first time. *)
Lemma cpp_guard x k m :
  is_defined x m = false ->
  cpp [Ifndef x (Define x BEmpty :: k)] m = cpp k ((x, BEmpty) :: m).
Proof.
  intros Hx. unfold Ifndef. rewrite cpp_cons, line_cpp_If.
  replace (condition m (Not (Defined x))) with true.
  - rewrite cpp_cons. cbn [line_cpp cpp fst snd app].
    rewrite app_nil_r. by destruct (cpp k _).
  - unfold condition, DEPTH. cbn [value]. unfold mbind, option_bind. by rewrite Hx.
Qed.

(** ** The options *)

(** What is defined where the file begins: [base], and the guard. *)
Definition included (base : macros) : macros := ("LWIP_LWIPOPTS_H", BEmpty) :: base.

(** The file is read for the first time, and it is no test of the options. *)
Definition in_use (base : macros) : Prop :=
  is_defined "LWIP_LWIPOPTS_H" base = false /\ is_defined "LWIP_OPTTEST_FILE" base = false.

(** The options with their values in [Config]. *)
Definition config : list (string * Z) := [
  ("LWIP_IPV4", LWIP_IPV4); ("LWIP_IPV6", LWIP_IPV6); ("NO_SYS", NO_SYS);
  ("LWIP_SOCKET", LWIP_SOCKET); ("LWIP_NETCONN", LWIP_NETCONN);
  ("LWIP_NETIF_API", LWIP_NETIF_API); ("LWIP_IGMP", LWIP_IGMP); ("LWIP_ICMP", LWIP_ICMP);
  ("LWIP_SNMP", LWIP_SNMP); ("MIB2_STATS", MIB2_STATS); ("LWIP_DNS", LWIP_DNS);
  ("LWIP_MDNS_RESPONDER", LWIP_MDNS_RESPONDER);
  ("LWIP_NUM_NETIF_CLIENT_DATA", LWIP_NUM_NETIF_CLIENT_DATA);
  ("LWIP_HAVE_LOOPIF", LWIP_HAVE_LOOPIF); ("LWIP_NETIF_LOOPBACK", LWIP_NETIF_LOOPBACK);
  ("LWIP_LOOPBACK_MAX_PBUFS", LWIP_LOOPBACK_MAX_PBUFS);
  ("TCP_LISTEN_BACKLOG", TCP_LISTEN_BACKLOG); ("LWIP_COMPAT_SOCKETS", LWIP_COMPAT_SOCKETS);
  ("LWIP_SO_RCVTIMEO", LWIP_SO_RCVTIMEO); ("LWIP_SO_RCVBUF", LWIP_SO_RCVBUF);
  ("LWIP_TCPIP_CORE_LOCKING", LWIP_TCPIP_CORE_LOCKING);
  ("LWIP_NETIF_LINK_CALLBACK", LWIP_NETIF_LINK_CALLBACK);
  ("LWIP_NETIF_STATUS_CALLBACK", LWIP_NETIF_STATUS_CALLBACK);
  ("LWIP_NETIF_EXT_STATUS_CALLBACK", LWIP_NETIF_EXT_STATUS_CALLBACK);
  ("MEM_ALIGNMENT", MEM_ALIGNMENT); ("MEM_SIZE", MEM_SIZE); ("MEMP_NUM_PBUF", MEMP_NUM_PBUF);
  ("MEMP_NUM_RAW_PCB", MEMP_NUM_RAW_PCB); ("MEMP_NUM_UDP_PCB", MEMP_NUM_UDP_PCB);
  ("MEMP_NUM_TCP_PCB", MEMP_NUM_TCP_PCB);
  ("MEMP_NUM_TCP_PCB_LISTEN", MEMP_NUM_TCP_PCB_LISTEN);
  ("MEMP_NUM_TCP_SEG", MEMP_NUM_TCP_SEG); ("MEMP_NUM_SYS_TIMEOUT", MEMP_NUM_SYS_TIMEOUT);
  ("MEMP_NUM_NETBUF", MEMP_NUM_NETBUF); ("MEMP_NUM_NETCONN", MEMP_NUM_NETCONN);
  ("MEMP_NUM_TCPIP_MSG_API", MEMP_NUM_TCPIP_MSG_API);
  ("MEMP_NUM_TCPIP_MSG_INPKT", MEMP_NUM_TCPIP_MSG_INPKT);
  ("PBUF_POOL_SIZE", PBUF_POOL_SIZE); ("PBUF_POOL_BUFSIZE", PBUF_POOL_BUFSIZE);
  ("SYS_LIGHTWEIGHT_PROT", SYS_LIGHTWEIGHT_PROT);
  ("LWIP_TCP", LWIP_TCP); ("TCP_TTL", TCP_TTL); ("LWIP_ALTCP", LWIP_ALTCP);
  ("TCP_QUEUE_OOSEQ", TCP_QUEUE_OOSEQ); ("TCP_MSS", TCP_MSS); ("TCP_SND_BUF", TCP_SND_BUF);
  ("TCP_SND_QUEUELEN", TCP_SND_QUEUELEN); ("TCP_SNDLOWAT", TCP_SNDLOWAT);
  ("TCP_WND", TCP_WND); ("TCP_MAXRTX", TCP_MAXRTX); ("TCP_SYNMAXRTX", TCP_SYNMAXRTX);
  ("LWIP_ARP", LWIP_ARP); ("ARP_TABLE_SIZE", ARP_TABLE_SIZE); ("ARP_QUEUEING", ARP_QUEUEING);
  ("IP_FORWARD", IP_FORWARD); ("IP_REASSEMBLY", IP_REASSEMBLY);
  ("IP_REASS_MAX_PBUFS", IP_REASS_MAX_PBUFS); ("MEMP_NUM_REASSDATA", MEMP_NUM_REASSDATA);
  ("IP_FRAG", IP_FRAG); ("IPV6_FRAG_COPYHEADER", IPV6_FRAG_COPYHEADER);
  ("ICMP_TTL", ICMP_TTL); ("LWIP_DHCP", LWIP_DHCP);
  ("DHCP_DOES_ARP_CHECK", DHCP_DOES_ARP_CHECK); ("LWIP_AUTOIP", LWIP_AUTOIP);
  ("LWIP_DHCP_AUTOIP_COOP", LWIP_DHCP_AUTOIP_COOP); ("LWIP_UDP", LWIP_UDP);
  ("LWIP_UDPLITE", LWIP_UDPLITE); ("UDP_TTL", UDP_TTL); ("LWIP_RAW", LWIP_RAW);
  ("LWIP_STATS", LWIP_STATS); ("LWIP_STATS_DISPLAY", LWIP_STATS_DISPLAY);
  ("LINK_STATS", LINK_STATS); ("IP_STATS", IP_STATS); ("ICMP_STATS", ICMP_STATS);
  ("IGMP_STATS", IGMP_STATS); ("IPFRAG_STATS", IPFRAG_STATS); ("UDP_STATS", UDP_STATS);
  ("TCP_STATS", TCP_STATS); ("MEM_STATS", MEM_STATS); ("MEMP_STATS", MEMP_STATS);
  ("PBUF_STATS", PBUF_STATS); ("SYS_STATS", SYS_STATS);
  ("LWIP_NETBIOS_RESPOND_NAME_QUERY", LWIP_NETBIOS_RESPOND_NAME_QUERY);
  ("PPP_SUPPORT", PPP_SUPPORT)
]%string.

(** The file for a build that is no test of the options: what it depends on is
    whether debugging and the TLS library are wanted. *)
Definition options (tls debug : bool) : list directive :=
  resolve "LWIP_HAVE_MBEDTLS" tls (resolve "LWIP_DEBUG" debug
    (lwipopts_features ++ lwipopts_debug ++ lwipopts_memory ++ lwipopts_tcp ++ lwipopts_ip ++
     lwipopts_stats ++ lwipopts_ppp ++ lwipopts_locking)).

Lemma lwipopts_options opttest base :
  in_use base ->
  (cpp (lwipopts_h opttest) base).1 =
  (cpp (options (is_defined "LWIP_HAVE_MBEDTLS" base) (is_defined "LWIP_DEBUG" base))
    (included base)).1.
Proof.
  intros [Hg Ho]. unfold options. rewrite <- (cpp_resolve "LWIP_HAVE_MBEDTLS") by
    (done || (destruct (is_defined "LWIP_DEBUG" base); vm_compute; reflexivity)).
  rewrite <- cpp_resolve by (done || (vm_compute; reflexivity)).
  unfold lwipopts_h. rewrite cpp_guard, cpp_ifndef by done. by rewrite <- !app_assoc.
Qed.

Definition has_value (f : string -> option Z) (xv : string * Z) : bool :=
  match f xv.1 with Some z => z =? xv.2 | None => false end.

Lemma fmap_eq_elem {A B} (f g : A -> B) (l : list A) :
  f <$> l = g <$> l -> forall x, x ∈ l -> f x = g x.
Proof.
  induction l as [|y l IH]; intros Hl x; [by intros ?%elem_of_nil|].
  injection Hl as Hy Hl. intros [->|Hx]%elem_of_cons; auto.
Qed.

Lemma has_value_all f l :
  forallb (has_value f) l = true -> Forall (fun '(x, v) => f x = Some v) l.
Proof.
  intros Hall. apply Forall_forall. intros [x v] Hin%list_elem_of_In.
  rewrite forallb_forall in Hall. specialize (Hall (x, v) Hin). unfold has_value in Hall.
  cbn [fst snd] in Hall. destruct (f x); [|done]. by apply Z.eqb_eq in Hall as ->.
Qed.

Lemma options_config tls dbg base :
  forallb (has_value (option_value (cpp (options tls dbg) base).1)) config = true.
Proof. destruct tls, dbg; vm_compute; reflexivity. Qed.

Lemma options_debug tls base :
  (fun x => find_macro x (cpp (options tls true) base).1) <$> debug_flags =
  (fun _ => Some (BExpr (Id "LWIP_DBG_OFF"))) <$> debug_flags.
Proof. destruct tls; vm_compute; reflexivity. Qed.

Lemma options_off tls dbg base :
  find_macro "LWIP_DBG_OFF" (cpp (options tls dbg) base).1 = find_macro "LWIP_DBG_OFF" base.
Proof. destruct tls, dbg; vm_compute; reflexivity. Qed.

Lemma alias_value u m n x y z :
  find_macro x m = Some (BExpr (Id y)) -> find_macro y m = Some (BExpr (Num z)) ->
  value u m (S (S (S n))) (Id x) = Some z.
Proof. intros Hx Hy. by rewrite value_Id, Hx, value_Id, Hy. Qed.

(** Names that the file leaves as they are. *)
Definition left_alone : list string :=
  ["LWIP_ASSERT_CORE_LOCKED"; "LOCK_TCPIP_CORE"; "UNLOCK_TCPIP_CORE"; "NUM_PPP";
   "PPPOE_SUPPORT"; "PPPOS_SUPPORT"]%string.

Lemma options_alone tls dbg base :
  (fun x => find_macro x (cpp (options tls dbg) base).1) <$> left_alone =
  (fun x => find_macro x base) <$> left_alone.
Proof. destruct tls, dbg; vm_compute; reflexivity. Qed.

(** The names of [lwipopts.h] and of [Config] agree: for whatever is defined by the
    compiler and on its command line, where the file is read for the first time and
    it is no test of the options, it gives every option the value of its namesake in
    [Config]; with debugging on, every module's flag is that of no debug output; and
    as [NO_SYS] is set and PPP is not, the macros for the core lock and those of
    PPP keep the meaning that they had, so nothing checks who is in the core. *)
Theorem lwipopts_config opttest base :
  in_use base ->
  let m := (cpp (lwipopts_h opttest) base).1 in
  Forall (fun '(x, v) => option_value m x = Some v) config /\
  (forall off, is_defined "LWIP_DEBUG" base = true ->
     find_macro "LWIP_DBG_OFF" base = Some (BExpr (Num off)) ->
     Forall (fun x => option_value m x = Some off) debug_flags) /\
  Forall (fun x => find_macro x m = find_macro x base) left_alone.
Proof.
  intros Ho m. unfold m. rewrite lwipopts_options by done. clear m Ho. split_and!.
  - apply has_value_all, options_config.
  - intros off -> Hoff. apply Forall_forall. intros x Hin. unfold option_value, DEPTH. eapply alias_value.
    + exact (fmap_eq_elem _ _ _ (options_debug _ (included base)) x Hin).
    + by rewrite options_off.
  - apply Forall_forall. intros x Hin.
    rewrite (fmap_eq_elem _ _ _ (options_alone _ _ (included base)) x Hin).
    exact (fmap_eq_elem (fun x => find_macro x (included base)) (fun x => find_macro x base)
      left_alone eq_refl x Hin).
Qed.

Lemma options_sys_c tls dbg base :
  (cpp sys_c (cpp (options tls dbg) base).1).2 =
    ["lwip_port_rand"; "get_monotonic_time"; "sys_now"; "sys_jiffies"; "sys_init"]%string.
Proof. destruct tls, dbg; vm_compute; reflexivity. Qed.

(** What a build with these options has of [sys.c]: the clock and the random
    numbers.  The semaphores, mailboxes, threads, mutexes and critical sections
    are for a build with an operating system layer, [NO_SYS] being 0. *)
Theorem sys_c_functions opttest base :
  in_use base ->
  (cpp sys_c (cpp (lwipopts_h opttest) base).1).2 =
    ["lwip_port_rand"; "get_monotonic_time"; "sys_now"; "sys_jiffies"; "sys_init"]%string.
Proof.
  intros Ho. rewrite lwipopts_options by done. apply options_sys_c.
Qed.

(** ** The platform *)

Definition platforms : list string :=
  ["LWIP_UNIX_ANDROID"; "LWIP_UNIX_LINUX"; "LWIP_UNIX_MACH"; "LWIP_UNIX_OPENBSD";
   "LWIP_UNIX_KFREEBSD"; "LWIP_UNIX_CYGWIN"; "LWIP_UNIX_HURD"]%string.

(** The first that fits what the compiler defines. *)
Definition platform (m : macros) : option string :=
  if is_defined "__ANDROID__" m then Some "LWIP_UNIX_ANDROID"
  else if is_defined "__linux__" m then Some "LWIP_UNIX_LINUX"
  else if is_defined "__APPLE__" m then Some "LWIP_UNIX_MACH"
  else if is_defined "__OpenBSD__" m then Some "LWIP_UNIX_OPENBSD"
  else if condition m (And (Defined "__FreeBSD_kernel__") (Id "__GLIBC__"))
  then Some "LWIP_UNIX_KFREEBSD"
  else if is_defined "__CYGWIN__" m then Some "LWIP_UNIX_CYGWIN"
  else if is_defined "__GNU__" m then Some "LWIP_UNIX_HURD" else None.

Lemma value_Defined u m n x : value u m (S n) (Defined x) = Some (Z.b2z (is_defined x m)).
Proof. done. Qed.

Lemma value_And u m n e f :
  value u m (S n) (And e f) =
    a ← value u m n e; b ← value u m n f; Some (Z.b2z (negb (a =? 0) && negb (b =? 0))).
Proof. done. Qed.

Lemma condition_defined m x : condition m (Defined x) = is_defined x m.
Proof. unfold condition, DEPTH. rewrite value_Defined. by destruct (is_defined x m). Qed.

Lemma value_and_false m n x e :
  is_defined x m = false ->
  match value (Some 0) m (S (S n)) (And (Defined x) e) with
  | Some z => negb (z =? 0)
  | None => false
  end = false.
Proof.
  intros Hx. rewrite value_And, value_Defined, Hx.
  by destruct (value (Some 0) m (S n) e).
Qed.

Lemma condition_and_false m x e :
  is_defined x m = false -> condition m (And (Defined x) e) = false.
Proof. exact (value_and_false m 14 x e). Qed.

Lemma is_defined_other x l m :
  existsb (defines x) l = false -> is_defined x (cpp l m).1 = is_defined x m.
Proof. intros H. unfold is_defined. by rewrite cpp_other. Qed.

Lemma cpp_cons_macros d l m : (cpp (d :: l) m).1 = (cpp l (line_cpp d m).1).1.
Proof. by rewrite cpp_cons. Qed.
Lemma cpp_nil m : (cpp [] m).1 = m.
Proof. done. Qed.
Lemma cpp_one_define x b m : (cpp [Define x b] m).1 = (x, b) :: m.
Proof. done. Qed.
Lemma cpp_if_swap (b : bool) yes no m :
  (cpp (if b then yes else no) m).1 = if b then (cpp yes m).1 else (cpp no m).1.
Proof. by destruct b. Qed.
Lemma cpp_one_if c yes no m :
  (cpp [If c yes no] m).1 = if condition m c then (cpp yes m).1 else (cpp no m).1.
Proof. rewrite cpp_cons_macros, cpp_nil, line_cpp_If. apply cpp_if_swap. Qed.

(** What the first lines of [cc.h] define. *)
Lemma cc_h_first m :
  (cpp cc_platform m).1 = match platform m with Some p => (p, BEmpty) :: m | None => m end.
Proof.
  unfold cc_platform, platform.
  rewrite !cpp_one_if, !cpp_one_define, cpp_nil, !condition_defined.
  repeat (match goal with |- context [if ?b then _ else _] => destruct b end;
    [reflexivity|]). reflexivity.
Qed.

Lemma port_of_linux m :
  is_defined "LWIP_UNIX_MACH" m = false -> is_defined "LWIP_UNIX_HURD" m = false ->
  is_defined "LWIP_UNIX_ANDROID" m = false -> port_of m = linux.
Proof.
  intros H1 H2 H3. unfold port_of, linux.
  by rewrite !condition_defined, H1, H2, condition_and_false.
Qed.

(** On every platform [cc.h] defines the one name that fits first, and no other
    name; lwIP brings its own byte order functions everywhere but on Darwin, and
    [sys.c] is compiled as [SysTime] has it for Linux where it is none of Darwin,
    the Hurd and Android. *)
Theorem cc_h_platform m :
  Forall (fun p => is_defined p m = false) platforms ->
  let m' := (cpp cc_h m).1 in
  Forall (fun p => is_defined p m' = bool_decide (platform m = Some p)) platforms /\
  (platform m <> Some "LWIP_UNIX_MACH"%string -> platform m <> Some "LWIP_UNIX_HURD"%string ->
   platform m <> Some "LWIP_UNIX_ANDROID"%string -> port_of m' = linux).
Proof.
  intros Hm m'.
  assert (Hp : Forall (fun p => is_defined p m' = bool_decide (platform m = Some p)) platforms).
  { apply Forall_forall. intros p Hin. rewrite Forall_forall in Hm.
    unfold m', cc_h. rewrite cpp_app. cbn [fst].
    rewrite is_defined_other.
    - rewrite cc_h_first. specialize (Hm p Hin). destruct (platform m) as [q|].
      + unfold is_defined in *. cbn [find_macro]. destruct (String.eqb_spec p q) as [->|Hne].
        * by rewrite bool_decide_eq_true_2.
        * rewrite Hm, bool_decide_eq_false_2; congruence.
      + by rewrite Hm, bool_decide_eq_false_2.
    - unfold platforms in Hin. repeat (apply elem_of_cons in Hin as [->|Hin];
        [vm_compute; reflexivity|]). by apply elem_of_nil in Hin. }
  clearbody m'. split; [done|]. intros H1 H2 H3. rewrite Forall_forall in Hp.
  assert (Hno : forall p, p ∈ platforms -> platform m <> Some p -> is_defined p m' = false).
  { intros p Hin Hne. rewrite (Hp p Hin). by apply bool_decide_eq_false_2. }
  apply port_of_linux; apply Hno; try done; unfold platforms; set_solver.
Qed.

(** ** The command for the system

    [snprintf] of a format with [%d]s only, and the command that the device
    functions build of the address of the gateway and the netmask. *)
Fixpoint sprintf (f : string) (args : list string) : option string :=
  match f with
  | EmptyString => match args with [] => Some "" | _ => None end
  | String c f =>
      let other := t ← sprintf f args; Some (String c t) in
      if Ascii.eqb c "%" then
        match f with
        | String d f =>
            if Ascii.eqb d "d" then
              match args with
              | a :: args => t ← sprintf f args; Some (a +:+ t)
              | [] => None
              end
            else other
        | EmptyString => other
        end
      else other
  end%string.

Definition ifconfig (m : macros) (args : list Z) : option string :=
  bin ← text m DEPTH "IFCONFIG_BIN"; fmt ← text m DEPTH "IFCONFIG_ARGS";
  sprintf (bin +:+ fmt) (pretty <$> args).

Lemma text_BText m n x l :
  find_macro x m = Some (BText l) ->
  text m (S n) x =
    foldr (fun p acc => s ← match p with inl s => Some s | inr y => text m n y end;
                        t ← acc; Some (s +:+ t)) (Some "") l.
Proof. intros Hx. cbn [text]. by rewrite Hx. Qed.

(** What the names of the command stand for. *)
Definition command_names (m : macros) (args : list (string + string)) : Prop :=
  find_macro "IFCONFIG_BIN" m = Some (BText [inl "/sbin/ifconfig "]) /\
  find_macro "NETMASK_ARGS" m = Some (BText [inl "netmask %d.%d.%d.%d"]) /\
  find_macro "IFCONFIG_ARGS" m = Some (BText args).

Lemma command_names_text m args n :
  command_names m args ->
  text m (S n) "IFCONFIG_BIN" = Some "/sbin/ifconfig "%string /\
  text m (S n) "NETMASK_ARGS" = Some "netmask %d.%d.%d.%d"%string /\
  text m (S (S n)) "IFCONFIG_ARGS" =
    foldr (fun p acc => s ← match p with inl s => Some s | inr y => text m (S n) y end;
                        t ← acc; Some (s +:+ t)) (Some "") args.
Proof.
  intros (H1 & H2 & H3). rewrite (text_BText _ _ _ _ H1), (text_BText _ _ _ _ H2).
  by rewrite (text_BText _ _ _ _ H3).
Qed.

Lemma command_names_other l m args :
  existsb (defines "IFCONFIG_BIN") l || existsb (defines "NETMASK_ARGS") l ||
    existsb (defines "IFCONFIG_ARGS") l = false ->
  command_names m args -> command_names (cpp l m).1 args.
Proof.
  intros [[H1 H2]%orb_false_iff H3]%orb_false_iff (? & ? & ?).
  split_and!; by rewrite cpp_other.
Qed.

Lemma device_commands m :
  exists args, command_names (cpp device_macros m).1 args /\
    (args = [inl "tap0 inet %d.%d.%d.%d "; inr "NETMASK_ARGS"]%string \/
     args = [inl "tun0 inet %d.%d.%d.%d "; inr "NETMASK_ARGS"; inl " link0"]%string).
Proof.
  unfold device_macros. rewrite !cpp_app. cbn [fst]. rewrite cpp_one_define.
  set (m1 := _ :: m).
  assert (H1 : find_macro "IFCONFIG_BIN" m1 = Some (BText [inl "/sbin/ifconfig "%string]))
    by reflexivity.
  clearbody m1. unfold device_platform. rewrite !cpp_one_if.
  destruct (condition m1 _); [|destruct (condition m1 _)].
  - rewrite cpp_app. cbn [fst].
    assert (H2 := cpp_other "IFCONFIG_BIN" linux_device m1 eq_refl). rewrite H1 in H2.
    generalize dependent (cpp linux_device m1).1. intros m2 H2. eexists.
    split; [apply command_names_other; [reflexivity|]|left; reflexivity].
    by split_and!.
  - eexists. split; [apply command_names_other; [reflexivity|]|right; reflexivity].
    by split_and!.
  - eexists. split; [apply command_names_other; [reflexivity|]|left; reflexivity].
    by split_and!.
Qed.

Lemma pretty_byte z : 0 <= z < 256 -> (String.length (pretty z) <= 3)%nat.
Proof.
  intros Hz.
  assert (Hall : forallb (fun z => Nat.leb (String.length (pretty z)) 3) (seqZ 0 256) = true)
    by (vm_compute; reflexivity).
  rewrite forallb_forall in Hall. apply Nat.leb_le, Hall.
  apply list_elem_of_In, elem_of_seqZ. lia.
Qed.

Lemma length_append (s t : string) :
  String.length (s +:+ t) = (String.length s + String.length t)%nat.
Proof.
  induction s as [|c s IH]; [done|].
  change (String c s +:+ t) with (String c (s +:+ t)). cbn. by rewrite IH.
Qed.

Lemma sprintf_tap a b c d e f g h :
  sprintf "/sbin/ifconfig tap0 inet %d.%d.%d.%d netmask %d.%d.%d.%d" [a; b; c; d; e; f; g; h] =
  Some ("/sbin/ifconfig tap0 inet " +:+ a +:+ "." +:+ b +:+ "." +:+ c +:+ "." +:+ d +:+
        " netmask " +:+ e +:+ "." +:+ f +:+ "." +:+ g +:+ "." +:+ h +:+ "")%string.
Proof. vm_compute. reflexivity. Qed.
Lemma sprintf_tun a b c d e f g h :
  sprintf "/sbin/ifconfig tun0 inet %d.%d.%d.%d netmask %d.%d.%d.%d link0"
    [a; b; c; d; e; f; g; h] =
  Some ("/sbin/ifconfig tun0 inet " +:+ a +:+ "." +:+ b +:+ "." +:+ c +:+ "." +:+ d +:+
        " netmask " +:+ e +:+ "." +:+ f +:+ "." +:+ g +:+ "." +:+ h +:+ " link0")%string.
Proof. vm_compute. reflexivity. Qed.

(** On every platform the format takes the eight bytes that the device functions
    pass, and the command, with the NUL at its end, fits the buffer of 1024
    bytes. *)
Theorem ifconfig_fits m args :
  length args = 8%nat -> Forall (fun a => 0 <= a < 256) args ->
  exists cmd, ifconfig (cpp device_macros m).1 args = Some cmd /\
    (S (String.length cmd) <= 1024)%nat.
Proof.
  intros Hl Ha. do 8 (destruct args as [|? args]; [done|]). destruct args; [|done].
  repeat (apply Forall_cons in Ha as [?%pretty_byte Ha]). clear Hl Ha.
  destruct (device_commands m) as (l & Hn & Hl).
  destruct (command_names_text _ _ 14 Hn) as (_ & Hnm & Hargs).
  destruct (command_names_text _ _ 15 Hn) as (Hbin & _ & _).
  unfold ifconfig. change DEPTH with 16%nat. rewrite Hbin, Hargs.
  cbn [mbind option_bind fmap list_fmap].
  destruct Hl as [-> | ->]; cbn [foldr mbind option_bind]; rewrite Hnm; cbn [mbind option_bind].
  - change (_ +:+ (_ +:+ _))%string with
      "/sbin/ifconfig tap0 inet %d.%d.%d.%d netmask %d.%d.%d.%d"%string.
    rewrite sprintf_tap. eexists. split; [reflexivity|]. rewrite !length_append. cbn. lia.
  - change (_ +:+ (_ +:+ _))%string with
      "/sbin/ifconfig tun0 inet %d.%d.%d.%d netmask %d.%d.%d.%d link0"%string.
    rewrite sprintf_tun. eexists. split; [reflexivity|]. rewrite !length_append. cbn. lia.
Qed.

(** A build with debugging on, for which lwIP has a flag of 0 for no output. *)
Definition debug_build : macros :=
  [("LWIP_DEBUG", BEmpty); ("LWIP_DBG_OFF", BExpr (Num 0))]%string.

Lemma lwipopts_config_witness :
  let m := (cpp (lwipopts_h []) debug_build).1 in
  option_value m "TCP_SND_QUEUELEN" = Some TCP_SND_QUEUELEN /\
  Forall (fun x => option_value m x = Some 0) debug_flags /\
  find_macro "LOCK_TCPIP_CORE" m = None.
Proof.
  intros m. destruct (lwipopts_config [] debug_build (conj eq_refl eq_refl)) as (H1 & H2 & H3).
  split_and!.
  - rewrite Forall_forall in H1. apply (H1 ("TCP_SND_QUEUELEN"%string, TCP_SND_QUEUELEN)).
    by apply (list_elem_of_lookup_2 _ 46).
  - by apply H2.
  - rewrite Forall_forall in H3. apply (H3 "LOCK_TCPIP_CORE"%string).
    by apply (list_elem_of_lookup_2 _ 1).
Defined.
