(* ===== verification/EchoConn.v ===== *)
(** * The loopback connection of the client's main package (src/csocks/pc/pc.go)

    [EchoConn], a connection that gives back what is written to it, and the
    choice of [EchoDialer]; no code of the repository uses them.  Modelled with
    the channels of [GoChan].  Proved: what is written is read, packet by packet
    and in order; what a [Close] leaves; and that a second one panics. *)

From S2P Require Import Prelude GoChan.
From stdpp Require Import strings.

(** [EchoConn], and [NewEchoConn]. *)
Record echo_conn : Type := EchoConn { e_buf : chan bytes; e_closed : bool }.
Definition NewEchoConn : echo_conn := EchoConn (make_chan 1024) false.

Abbreviation E := (M echo_conn).
Definition on_buf {X} (m : M (chan bytes) X) : E X :=
  zoom e_buf (fun b e => EchoConn b (e_closed e)) m.

(** The methods; the last part of a result is whether there is an error. *)
Definition EchoConn_Read (n : nat) : E (bytes * bool) :=
  closed ← gets e_closed;
  if closed : bool then mret ([], true)
  else
    c ← on_buf chan_recv;
    match c with
    | None => mret ([], true)
    | Some c => if decide (n < length c)%nat then stop Panicked else mret (c, false)
    end.

Definition EchoConn_Write (b : bytes) : E (nat * bool) :=
  closed ← gets e_closed;
  if closed : bool then mret (O, true)
  else on_buf (chan_send b);; mret (length b, false).

Definition EchoConn_Close : E unit :=
  modify (fun e => EchoConn (e_buf e) true);; on_buf chan_close.

(** [EchoDialer.Dial]; [dial] is what [net.Dial] gives. *)
Definition EchoDialer_Dial {X} (dial new : X) (address : string) : X :=
  if decide (address = "114.114.114.114:53"%string) then dial else new.

(** Writes of packets one after the other, and reads into buffers of [n] bytes. *)
Fixpoint write_all (l : list bytes) : E unit :=
  match l with
  | [] => mret tt
  | b :: l => _ ← EchoConn_Write b; write_all l
  end.
Fixpoint read_all (n k : nat) : E (list bytes) :=
  match k with
  | O => mret []
  | S k => '(b, err) ← EchoConn_Read n;
           if err : bool then mret [] else l ← read_all n k; mret (b :: l)
  end.

(** An open connection with these packets in it. *)
Definition holds (e : echo_conn) (l : list bytes) : Prop :=
  exists cap, e = EchoConn (Chan cap l false) false /\ cap = 1024%nat.

Lemma write_all_run l k e :
  holds e k -> (length k + length l <= 1024)%nat ->
  exists e', write_all l e = Ok (tt, e') /\ holds e' (k ++ l).
Proof.
  revert k e. induction l as [|b l IH]; intros k e (cap & -> & ->) Hl; cbn in Hl.
  { eexists. split; [reflexivity|]. exists 1024%nat. by rewrite app_nil_r. }
  destruct (IH (k ++ [b]) (EchoConn (Chan 1024 (k ++ [b]) false) false)) as (e' & He & Hh).
  - by exists 1024%nat.
  - rewrite length_app. cbn. lia.
  - exists e'. rewrite <- app_assoc in Hh. split; [|exact Hh].
    cbn [write_all]. erewrite bind_Ok; [exact He|]. unfold EchoConn_Write.
    erewrite bind_Ok by done. cbn [e_closed]. unfold on_buf, zoom, mbind, M_bind. cbn [e_buf].
    by rewrite chan_send_run by (done || (cbn [c_buf c_cap]; lia)).
Qed.

Lemma read_all_run n l k e :
  holds e (l ++ k) -> Forall (fun b => length b <= n)%nat l ->
  exists e', read_all n (length l) e = Ok (l, e') /\ holds e' k.
Proof.
  revert e. induction l as [|b l IH]; intros e (cap & -> & ->) Hf.
  { eexists. split; [reflexivity|]. by exists 1024%nat. }
  apply Forall_cons in Hf as [Hb Hf].
  destruct (IH (EchoConn (Chan 1024 (l ++ k) false) false)) as (e' & He & Hh);
    [by exists 1024%nat|done|].
  exists e'. split; [|exact Hh]. cbn [length read_all]. erewrite bind_Ok.
  2: { unfold EchoConn_Read. erewrite bind_Ok by done. cbn [e_closed].
       erewrite bind_Ok by reflexivity. cbn beta iota. destruct (decide _); [lia|reflexivity]. }
  cbn beta iota. by erewrite bind_Ok by exact He.
Qed.

(** What is written, up to the size of the channel, is read, packet by packet and
    in order; after a [Close] what is left is lost, as reads and writes look at
    [closed] first; and a second [Close] closes the channel again, a panic. *)
Theorem echo_conn_loopback n l k :
  (length (l ++ k) <= 1024)%nat -> Forall (fun b => length b <= n)%nat l ->
  exists e e' e'', write_all (l ++ k) NewEchoConn = Ok (tt, e) /\
    read_all n (length l) e = Ok (l, e') /\ holds e' k /\
    EchoConn_Close e' = Ok (tt, e'') /\ EchoConn_Read n e'' = Ok (([], true), e'') /\
    (forall b, EchoConn_Write b e'' = Ok ((O, true), e'')) /\
    EchoConn_Close e'' = Fault Panicked.
Proof.
  intros Hl Hf.
  destruct (write_all_run (l ++ k) [] NewEchoConn) as (e & He & Hh); [by exists 1024%nat|done|].
  destruct (read_all_run n l k e Hh Hf) as (e' & He' & (cap & -> & ->)).
  eexists e, _, _. do 2 (split; [done|]). split; [by exists 1024%nat|].
  split; [reflexivity|]. by split_and!.
Qed.
