(* ===== verification/GoUdp.v ===== *)
(** * Datagram connections of the Go binding, run by many goroutines

    [go_udp_recv_h], the cases of the processing loop and the methods [Read],
    [Write] and [Close] of the datagram connections of src/lwipcs.go: any number
    of connections and of goroutines that use them, in steps between which
    others can run.  The table [udpPcbs] belongs to the processing goroutine;
    the objects, their channels and the queues to that goroutine are shared, and so
    is the memory: [Write] leaves the caller's slice in [sendQueue] and returns,
    and its bytes are read when the loop sends them, so whoever writes there in
    between - a [Read] into the same buffer, or any other code - changes what is
    sent.  Reading and writing a slice is one step here, and what is sent is what
    is handed to C, which can still be without memory for it.  The channels of the
    connections are their own: nobody calls [Intercept].
    Proved, for hosts told apart as the code does, by address bytes and port (of
    two IPv6 hosts both can be the same): what such a host sends is cut into
    consecutive pieces, one for each of the connections that were accepted for it
    in turn, and each piece is read once and in order; the slices posted for a
    connection are sent to its address, in order; a host loses its connection only
    to a [Close]; who is to blame for a panic; when everything can come to a stop;
    and that a connection closed twice takes the datagrams from the one that came
    after it. *)

From S2P Require Import Prelude Lwip Cs Udp Netif Bridge GoChan GoBind GoApp.
Local Open Scope Z_scope.

(** ** Memory

    The bytes of the program by address, and a slice as [Read] and [Write] get
    it.  A [Write] of a datagram connection leaves the slice itself in
    [sendQueue], so the bytes that are sent are those that are there when the
    loop gets to it. *)
Definition mem : Type := Z -> Z.

Record slice : Type := Slice { sl_ptr : Z; sl_len : nat }.

Definition load (m : mem) (b : slice) : bytes :=
  (fun i => m (sl_ptr b + Z.of_nat i)) <$> seq 0 (sl_len b).

Definition store (a : Z) (data : bytes) (m : mem) : mem := fun x =>
  match data !! Z.to_nat (x - a) with
  | Some v => if decide (a <= x) then v else m x
  | None => m x
  end.

Lemma store_nil a m : store a [] m = m.
Proof. reflexivity. Qed.

(** What the goroutines share: the objects, channels and tables of the binding,
    but for [sendQueue], whose entries are slices here; [sendQueue]; and the
    memory. *)
Record shared : Type := Shared {
  dg_go :> go_state;
  dg_sq : chan (ptr * slice);
  dg_mem : mem
}.

Definition shared0 : shared := Shared go_state0 (make_chan QUEUE) (fun _ => 0).

Definition set_go (g : go_state) (s : shared) : shared := Shared g (dg_sq s) (dg_mem s).
Definition set_sq q (s : shared) : shared := Shared (dg_go s) q (dg_mem s).
Definition set_mem (m : mem) (s : shared) : shared := Shared (dg_go s) (dg_sq s) m.

Definition on_go {X} (m : G X) : M shared X := zoom dg_go set_go m.
Definition on_sq {X} (m : M (chan (ptr * slice)) X) : M shared X := zoom dg_sq set_sq m.

(** ** The machine *)

(** Where a goroutine of the program is, with the operation that comes next.
    [DgIdle], [DgWrote], [DgRead] and [DgClosed] are outside of a method, the
    last three with the results of one. *)
Inductive dg_user : Type :=
| DgIdle
| DgWErr (b : slice)          (* Write: p.err == nil *)
| DgWPost (b : slice)         (* sendQueue <- *)
| DgWDone (b : slice)         (* err = p.err *)
| DgWrote (l : Z) (err : bool)
| DgRInter (b : slice)        (* Read: p.recvInter *)
| DgRErr (b : slice)          (* p.err != nil *)
| DgRTake (b : slice)         (* <-p.recvQueued; copy(b, recevied) *)
| DgRNil                      (* err = p.err *)
| DgRead (l : nat) (err : bool)
| DgCLock                     (* Close: p.lck.Lock() *)
| DgCErr                      (* p.err != nil *)
| DgCSet                      (* p.err = fmt.Errorf(...) *)
| DgCChan                     (* close(p.recvQueued) *)
| DgCUnlock (err : bool)      (* p.lck.Unlock() *)
| DgCPost (err : bool)        (* closeQueue <- p *)
| DgClosed (err : bool).

(** What [go_udp_recv_h] is called with: the first two arguments, the local
    address and port of the control block, the address and port of the host,
    and the bytes of the packet. *)
Record datagram : Type := Datagram {
  dg_arg : option ptr;
  dg_upcb : ptr;
  dg_laddr : ip_addr;
  dg_lport : Z;
  dg_addr : ip_addr;
  dg_port : Z;
  dg_data : bytes
}.

(** Where the processing goroutine is: in its [select] or in code of lwIP, in
    [go_udp_recv_h], or in a case of the [select]. *)
Inductive dg_pc : Type :=
| XIdle
| XFind (d : datagram)                (* data[0]; udpPcbs[key] *)
| XNew (d : datagram)                 (* newPCB; udpPcbs[key] = pcb; OnAccept *)
| XPut (d : datagram) (p : ptr)       (* pcb.recvQueued <- data *)
| XSendErr (p : ptr) (data : slice)   (* Send: s.PCB.err *)
| XUdpSend (p : ptr) (data : slice)   (* udpSend *)
| XDelete (p : ptr).                  (* delete(udpPcbs, key) *)

(** What was sent for a connection, that is, handed to C by [udpSend] - which may
    have no memory for it; nobody looks at the result: to which address, of which
    slice, and with which bytes; and, a ghost, how many datagrams its [Read]s had
    taken by then. *)
Record sending : Type := Sending {
  sg_to : ip_addr * Z;
  sg_slice : slice;
  sg_data : bytes;
  sg_taken : nat
}.

(** Ghosts: the datagrams that came, by host; the connections that were
    accepted, by host; the datagrams that were put into the queue of a
    connection, and those that its [Read]s took; the slices that its [Write]s
    posted, what was sent for it, and the slices that were dropped as it was
    closed; the connections of which [Close] was called, and those of which
    the loop has taken an entry of [closeQueue]. *)
Record dg_log : Type := DgLog {
  came : list ((bytes * Z) * bytes);
  made : list ((bytes * Z) * ptr);
  put : list (ptr * bytes);
  taken : list (ptr * bytes);
  posted : list (ptr * slice);
  sent : list (ptr * sending);
  dropped : list (ptr * slice);
  calls : list ptr;
  forgot : list ptr
}.

Definition dg_log0 : dg_log := DgLog [] [] [] [] [] [] [] [] [].

(** [dg_users] has for each goroutine the connection whose method it runs, or
    ran last. *)
Record dg : Type := Dg {
  dg_gst : shared;
  dg_users : list (ptr * dg_user);
  dg_proc : dg_pc;
  dg_logs : dg_log
}.

(** What of a log is about [k]. *)
Definition about {A B} `{EqDecision A} (k : A) (l : list (A * B)) : list B :=
  (filter (fun x => x.1 = k) l).*2.
Arguments about {A B _} k l : simpl never.

(** Outside of a method, and the entry of one; [Write] of nothing has no step. *)
Definition dg_returned (u : dg_user) : bool :=
  match u with
  | DgIdle | DgWrote _ _ | DgRead _ _ | DgClosed _ => true
  | _ => false
  end.
Definition dg_entry (u : dg_user) : bool :=
  match u with
  | DgWErr b => bool_decide (sl_len b <> 0%nat)
  | DgRInter _ | DgCLock => true
  | _ => false
  end.

(** A step of a goroutine in a method of [p]. *)
Definition dg_user_step (p : ptr) (u : dg_user) : M shared dg_user :=
  match u with
  | DgWErr b => err ← on_go (at_pcb p (gets p_err));
                mret (if err : bool then DgWDone b else DgWPost b)
  | DgWPost b => on_sq (chan_send (p, b));; mret (DgWDone b)
  | DgWDone b => err ← on_go (at_pcb p (gets p_err));
                 mret (DgWrote (Z.of_nat (sl_len b)) err)
  | DgRInter b => inter ← on_go (at_pcb p (gets recvInter));
                  if inter : bool then stop Panicked else mret (DgRErr b)
  | DgRErr b => err ← on_go (at_pcb p (gets p_err));
                mret (if err : bool then DgRead 0 true else DgRTake b)
  | DgRTake b =>
      recevied ← on_go (at_recvQueued p chan_recv);
      match recevied with
      | None | Some [] => mret DgRNil
      | Some data =>
          if decide (sl_len b < length data)%nat then stop Panicked
          else
            modify (fun s => set_mem (store (sl_ptr b) data (dg_mem s)) s);;
            mret (DgRead (length data) false)
      end
  | DgRNil => err ← on_go (at_pcb p (gets p_err)); mret (DgRead 0 err)
  | DgCLock => on_go (at_pcb p lock);; mret DgCErr
  | DgCErr => err ← on_go (at_pcb p (gets p_err));
              mret (if err : bool then DgCUnlock true else DgCSet)
  | DgCSet => on_go (at_pcb p (modify (with_err true)));; mret DgCChan
  | DgCChan => on_go (at_recvQueued p chan_close);; mret (DgCUnlock false)
  | DgCUnlock err => on_go (at_pcb p unlock);; mret (DgCPost err)
  | DgCPost err => on_go (on_closeQueue (chan_send p));; mret (DgClosed err)
  | DgIdle | DgWrote _ _ | DgRead _ _ | DgClosed _ => stop Blocked
  end.

(** The [case]s of the [select].  [recvedQueue] has nothing for datagrams, and
    [inputQueue] is where the calls of [go_udp_recv_h] come from. *)
Definition dg_take (c : select_case) : M shared dg_pc :=
  match c with
  | CaseSend => r ← on_sq chan_recv; '(p, data) ← deref r;
                mret (XSendErr p data)
  | CaseClose => r ← on_go (on_closeQueue chan_recv); p ← deref r; mret (XDelete p)
  | CaseRecved | CaseInput => stop Blocked
  end.

Section machine.
(** [go_cs_ip_get]. *)
Context (get : ip_addr -> bytes).

Definition dg_key (d : datagram) : bytes * Z := host_key get (dg_addr d) (dg_port d).

(** A step of the processing goroutine.  Nobody else sees a new object before
    [OnAccept] gets it. *)
Definition dg_proc_step (c : dg_pc) : M shared dg_pc :=
  match c with
  | XIdle => stop Blocked
  | XFind d =>
      if decide (dg_data d = []) then stop Panicked
      else
        g ← gets dg_go;
        mret (match udpPcbs g !! dg_key d with
              | Some p => XPut d p
              | None => XNew d
              end)
  | XNew d =>
      p ← on_go (newPCB UDP (dg_arg d) (dg_upcb d) None (dg_laddr d) (dg_addr d)
                   (dg_lport d) (dg_port d));
      on_go (modify (fun g => set_udpPcbs (<[dg_key d := p]> (udpPcbs g)) g));;
      mret (XPut d p)
  | XPut d p => on_go (at_recvQueued p (chan_send (dg_data d)));; mret XIdle
  | XSendErr p data => err ← on_go (at_pcb p (gets p_err));
                       mret (if err : bool then XIdle else XUdpSend p data)
  | XUdpSend p data => if decide (sl_len data = 0%nat) then stop Panicked else mret XIdle
  | XDelete p =>
      o ← on_go (at_pcb p (gets id));
      on_go (modify (fun g => set_udpPcbs
        (delete (host_key get (remoteIP o) (remotePort o)) (udpPcbs g)) g));;
      mret XIdle
  end.

(** What a step adds to the logs. *)
Definition took (p : ptr) (u : dg_user) (g : go_state) : list (ptr * bytes) :=
  match u with
  | DgRTake _ =>
      match at_recvQueued p chan_recv g with Ok (Some b, _) => [(p, b)] | _ => [] end
  | _ => []
  end.
Definition user_log (p : ptr) (u : dg_user) (g : shared) (l : dg_log) : dg_log :=
  DgLog (came l) (made l) (put l) (taken l ++ took p u g)
    (posted l ++ match u with DgWPost b => [(p, b)] | _ => [] end)
    (sent l) (dropped l) (calls l) (forgot l).
Definition call_log (p : ptr) (u : dg_user) (l : dg_log) : dg_log :=
  DgLog (came l) (made l) (put l) (taken l) (posted l) (sent l) (dropped l)
    (calls l ++ match u with DgCLock => [p] | _ => [] end) (forgot l).
Definition came_log (d : datagram) (l : dg_log) : dg_log :=
  DgLog (came l ++ [(dg_key d, dg_data d)]) (made l) (put l) (taken l) (posted l)
    (sent l) (dropped l) (calls l) (forgot l).
Definition proc_log (c c' : dg_pc) (g : shared) (l : dg_log) : dg_log :=
  match c, c' with
  | XNew d, XPut _ p =>
      DgLog (came l) (made l ++ [(dg_key d, p)]) (put l) (taken l) (posted l)
        (sent l) (dropped l) (calls l) (forgot l)
  | XPut d p, _ =>
      DgLog (came l) (made l) (put l ++ [(p, dg_data d)]) (taken l) (posted l)
        (sent l) (dropped l) (calls l) (forgot l)
  | XSendErr p data, XIdle =>
      DgLog (came l) (made l) (put l) (taken l) (posted l)
        (sent l) (dropped l ++ [(p, data)]) (calls l) (forgot l)
  | XUdpSend p data, _ =>
      DgLog (came l) (made l) (put l) (taken l) (posted l)
        (sent l ++ match pcbs g !! p with
                   | Some o => [(p, Sending (remoteIP o, u16 (remotePort o)) data
                                      (load (dg_mem g) data) (length (about p (taken l))))]
                   | None => []
                   end) (dropped l) (calls l) (forgot l)
  | XDelete p, _ =>
      DgLog (came l) (made l) (put l) (taken l) (posted l)
        (sent l) (dropped l) (calls l) (forgot l ++ [p])
  | _, _ => l
  end.

(** What happens next: a goroutine that is outside of a method calls one of a
    connection that was accepted; one that is in a method makes a step; the loop
    takes an entry of a queue; lwIP calls [go_udp_recv_h]; the processing
    goroutine makes a step; or other code of the program writes to memory. *)
Inductive dg_act : Type :=
| DgCall (t : nat) (p : ptr) (u : dg_user)
| DgStep (t : nat)
| DgTake (c : select_case)
| DgCome (d : datagram)
| DgProc
| DgStore (a : Z) (data : bytes).

Definition dg_move (a : dg_act) (w : dg) : outcome dg :=
  let '(Dg g us c l) := w in
  match a with
  | DgCall t p u =>
      match us !! t with
      | Some (_, v) =>
          if dg_returned v && dg_entry u && bool_decide (p ∈ (made l).*2)
          then Ok (Dg g (<[t := (p, u)]> us) c (call_log p u l))
          else Fault Blocked
      | None => Fault Blocked
      end
  | DgStep t =>
      match us !! t with
      | Some (p, u) =>
          match dg_user_step p u g with
          | Ok (u', g') => Ok (Dg g' (<[t := (p, u')]> us) c (user_log p u g l))
          | Fault f => Fault f
          end
      | None => Fault Blocked
      end
  | DgTake k =>
      match c with
      | XIdle =>
          match dg_take k g with
          | Ok (c', g') => Ok (Dg g' us c' l)
          | Fault f => Fault f
          end
      | _ => Fault Blocked
      end
  | DgCome d =>
      match c with
      | XIdle => Ok (Dg g us (XFind d) (came_log d l))
      | _ => Fault Blocked
      end
  | DgProc =>
      match dg_proc_step c g with
      | Ok (c', g') => Ok (Dg g' us c' (proc_log c c' g l))
      | Fault f => Fault f
      end
  | DgStore x data => Ok (Dg (set_mem (store x data (dg_mem g)) g) us c l)
  end.

Fixpoint dg_moves (acts : list dg_act) (w : dg) : outcome dg :=
  match acts with
  | [] => Ok w
  | a :: acts => match dg_move a w with Ok w => dg_moves acts w | Fault f => Fault f end
  end.

(** No connection yet, and [n] goroutines. *)
Definition dg0 (n : nat) : dg :=
  Dg shared0 (replicate n (1%positive, DgIdle)) XIdle dg_log0.
Definition dg_reachable (w : dg) : Prop := exists n acts, dg_moves acts (dg0 n) = Ok w.

Lemma dg_reachable_ind (I : dg -> Prop) :
  (forall n, I (dg0 n)) ->
  (forall w a w', I w -> dg_move a w = Ok w' -> I w') ->
  forall w, dg_reachable w -> I w.
Proof.
  intros H0 Hstep w (n & acts & Hm). specialize (H0 n). revert Hm H0.
  generalize (dg0 n). induction acts as [|a acts IH]; intros w0; cbn; [by intros [= <-]|].
  destruct (dg_move a w0) as [w1|] eqn:Ha; [|done]. eauto.
Qed.

(** ** The invariant *)

(** The goroutines in a method of [p] at a place where [f]. *)
Definition in_conn (f : dg_user -> bool) (p : ptr) (us : list (ptr * dg_user)) : nat :=
  count_if (fun x => bool_decide (x.1 = p) && f x.2) us.
Arguments in_conn f p us : simpl never.

(** How often [p] is in a list. *)
Definition times (p : ptr) (l : list ptr) : nat := count_if (fun q => bool_decide (q = p)) l.
Arguments times p l : simpl never.

Definition dg_holds (u : dg_user) : bool :=
  match u with DgCErr | DgCSet | DgCChan | DgCUnlock _ => true | _ => false end.
Definition at_set (u : dg_user) : bool := match u with DgCSet => true | _ => false end.
Definition at_chan (u : dg_user) : bool := match u with DgCChan => true | _ => false end.
(** In [Close], and there behind the assignment to [p.err]. *)
Definition closing (u : dg_user) : bool :=
  match u with DgCLock | DgCPost _ => true | _ => dg_holds u end.
Definition past_err (u : dg_user) : bool :=
  match u with DgCChan | DgCUnlock _ | DgCPost _ => true | _ => false end.

(** What the processing goroutine has in hand. *)
Definition hand_recv (k : bytes * Z) (c : dg_pc) : list bytes :=
  match c with
  | XFind d | XNew d | XPut d _ => if decide (dg_key d = k) then [dg_data d] else []
  | _ => []
  end.
Definition hand_send (p : ptr) (c : dg_pc) : list slice :=
  match c with
  | XSendErr q data | XUdpSend q data => if decide (q = p) then [data] else []
  | _ => []
  end.
Definition hand_close (p : ptr) (c : dg_pc) : nat :=
  match c with XDelete q => Nat.b2n (bool_decide (q = p)) | _ => 0 end.

(** The host of a connection. *)
Definition key_of (o : PCB) : bytes * Z := host_key get (remoteIP o) (remotePort o).

(** The object [o] of the connection [p] and its channel [ch]. *)
Record dg_conn (us : list (ptr * dg_user)) (c : dg_pc) (l : dg_log)
    (sq : list (ptr * slice)) (cq : list ptr) (p : ptr) (o : PCB) (ch : chan bytes)
    : Prop := DgConn {
  dc_type : p_type o = UDP;
  dc_inter : recvInter o = false;
  dc_lock : in_conn dg_holds p us = Nat.b2n (lck o);
  dc_set : (0 < in_conn at_set p us)%nat -> p_err o = false;
  dc_chan : (Nat.b2n (c_closed ch) + in_conn at_chan p us = Nat.b2n (p_err o))%nat;
  dc_err : (0 < in_conn past_err p us + times p cq + hand_close p c + times p (forgot l))%nat ->
    p_err o = true;
  dc_calls : (times p (calls l) =
    in_conn closing p us + times p cq + hand_close p c + times p (forgot l))%nat;
  dc_cap : c_cap ch = QUEUE;
  dc_queue : about p (put l) = about p (taken l) ++ c_buf ch;
  dc_posted : about p (posted l) =
    (sg_slice <$> about p (sent l)) ++ about p (dropped l) ++ hand_send p c ++ about p sq;
  dc_dropped : about p (dropped l) <> [] -> p_err o = true;
  dc_hand : (exists data, c = XUdpSend p data) -> about p (dropped l) = [];
  dc_to : Forall (fun x => sg_to x = (remoteIP o, u16 (remotePort o))) (about p (sent l))
}.

(** Where no connection is. *)
Record dg_none (l : dg_log) (p : ptr) : Prop := DgNone {
  dn_put : about p (put l) = [];
  dn_taken : about p (taken l) = [];
  dn_posted : about p (posted l) = [];
  dn_sent : about p (sent l) = [];
  dn_dropped : about p (dropped l) = [];
  dn_calls : times p (calls l) = 0%nat;
  dn_forgot : times p (forgot l) = 0%nat
}.

Definition registered (g : go_state) (k : bytes * Z) (p : ptr) : Prop :=
  udpPcbs g !! k = Some p.

(** What the place of the processing goroutine says. *)
Definition proc_ok (c : dg_pc) (g : go_state) (l : dg_log) : Prop :=
  match c with
  | XIdle | XFind _ => True
  | XNew d => udpPcbs g !! dg_key d = None
  | XPut d p => registered g (dg_key d) p
  | XSendErr p data | XUdpSend p data => p ∈ (made l).*2 /\ sl_len data <> 0%nat
  | XDelete p => p ∈ (made l).*2
  end.

Definition open_queue {T} (c : chan T) : Prop := c_cap c = QUEUE /\ c_closed c = false.

Definition writes_some (u : dg_user) : Prop :=
  match u with DgWErr b | DgWPost b => sl_len b <> 0%nat | _ => True end.

Record dg_inv (w : dg) : Prop := DgInv {
  di_sendq : open_queue (dg_sq (dg_gst w));
  di_closeq : open_queue (closeQueue (dg_gst w));
  di_nodup : NoDup (made (dg_logs w)).*2;
  di_conn k p : (k, p) ∈ made (dg_logs w) ->
    exists o ch, pcbs (dg_gst w) !! p = Some o /\
      bchans (dg_gst w) !! recvQueued o = Some ch /\ key_of o = k /\
      dg_conn (dg_users w) (dg_proc w) (dg_logs w) (c_buf (dg_sq (dg_gst w)))
        (c_buf (closeQueue (dg_gst w))) p o ch;
  di_dom p : is_Some (pcbs (dg_gst w) !! p) -> p ∈ (made (dg_logs w)).*2;
  di_distinct p1 p2 o1 o2 :
    pcbs (dg_gst w) !! p1 = Some o1 -> pcbs (dg_gst w) !! p2 = Some o2 ->
    recvQueued o1 = recvQueued o2 -> p1 = p2;
  di_users t p u : dg_users w !! t = Some (p, u) -> dg_returned u = false ->
    p ∈ (made (dg_logs w)).*2;
  di_send_named : Forall (fun x => x.1 ∈ (made (dg_logs w)).*2 /\ sl_len x.2 <> 0%nat)
    (c_buf (dg_sq (dg_gst w)));
  di_write t p u : dg_users w !! t = Some (p, u) -> writes_some u;
  di_close_named : Forall (fun p => p ∈ (made (dg_logs w)).*2)
    (c_buf (closeQueue (dg_gst w)));
  di_none p : p ∉ (made (dg_logs w)).*2 -> dg_none (dg_logs w) p;
  di_proc : proc_ok (dg_proc w) (dg_gst w) (dg_logs w);
  di_table k p : registered (dg_gst w) k p -> last (about k (made (dg_logs w))) = Some p;
  di_came k : about k (came (dg_logs w)) =
    concat ((fun p => about p (put (dg_logs w))) <$> about k (made (dg_logs w))) ++
    hand_recv k (dg_proc w);
  di_left k p : (k, p) ∈ made (dg_logs w) ->
    registered (dg_gst w) k p \/ (0 < times p (forgot (dg_logs w)))%nat \/
    exists p', (k, p') ∈ made (dg_logs w) /\ (2 <= times p' (calls (dg_logs w)))%nat
}.

(** Lemmas on logs. *)
Section about.
Context {A B : Type} `{EqDecision A}.
Implicit Types (k : A) (l : list (A * B)).

Lemma about_app k l1 l2 : about k (l1 ++ l2) = about k l1 ++ about k l2.
Proof. unfold about. by rewrite filter_app, fmap_app. Qed.
Lemma about_here k (x : B) : about k [(k, x)] = [x].
Proof. unfold about. by rewrite filter_cons_True. Qed.
Lemma about_other k k' (x : B) : k' <> k -> about k [(k', x)] = [].
Proof. intros. unfold about. by rewrite filter_cons_False. Qed.
Lemma about_cons k k' (x : B) l :
  about k ((k', x) :: l) = (if decide (k' = k) then [x] else []) ++ about k l.
Proof.
  unfold about. case_decide; [by rewrite filter_cons_True|by rewrite filter_cons_False].
Qed.
Lemma elem_of_about k x l : x ∈ about k l <-> (k, x) ∈ l.
Proof.
  unfold about. rewrite list_elem_of_fmap. split.
  - intros ([k' y] & -> & [Hk Hin]%list_elem_of_filter). cbn in *. by subst.
  - intros Hin. exists (k, x). by rewrite list_elem_of_filter.
Qed.
End about.

Lemma times_app p l1 l2 : times p (l1 ++ l2) = (times p l1 + times p l2)%nat.
Proof. unfold times. induction l1 as [|x l1 IH]; cbn; [done|]. rewrite IH. lia. Qed.

Lemma times_nil p : times p [] = 0%nat.
Proof. done. Qed.
Lemma times_here p : times p [p] = 1%nat.
Proof. unfold times. cbn. by rewrite bool_decide_true. Qed.
Lemma times_other p q : q <> p -> times p [q] = 0%nat.
Proof. intros. unfold times. cbn. by rewrite bool_decide_false. Qed.

Lemma in_conn_insert f p us t q u q' u' :
  us !! t = Some (q, u) ->
  (in_conn f p (<[t := (q', u')]> us) + Nat.b2n (bool_decide (q = p) && f u) =
   in_conn f p us + Nat.b2n (bool_decide (q' = p) && f u'))%nat.
Proof.
  intros Hu.
  exact (count_if_insert (fun x => bool_decide (x.1 = p) && f x.2) _ _ _ (q', u') Hu).
Qed.

Lemma in_conn_sub f f' p us :
  (forall u, f u = true -> f' u = true) -> (in_conn f p us <= in_conn f' p us)%nat.
Proof. intros H. apply count_if_mono. intros [q u]. rewrite !andb_true_iff. naive_solver. Qed.

Lemma in_conn_same f p us t q u q' u' :
  us !! t = Some (q, u) -> (q = p -> f u = false) -> (q' = p -> f u' = false) ->
  in_conn f p (<[t := (q', u')]> us) = in_conn f p us.
Proof.
  intros Hu H H'. pose proof (in_conn_insert f p _ _ _ _ q' u' Hu).
  do 2 case_bool_decide; cbn in *; rewrite ?H, ?H' in * by done; cbn in *; lia.
Qed.

(** The counts of the invariant, of goroutines in a method. *)
Definition in_method (f : dg_user -> bool) : Prop :=
  forall u, dg_returned u = true -> f u = false.

Lemma in_method_all :
  in_method dg_holds /\ in_method at_set /\ in_method at_chan /\
  in_method closing /\ in_method past_err.
Proof. split_and!; by intros []. Qed.

(** Of a connection nothing changes. *)
Lemma dg_conn_frame us us' c c' l l' sq sq' cq cq' p o ch :
  (forall f, in_method f -> in_conn f p us' = in_conn f p us) ->
  hand_send p c' = hand_send p c -> hand_close p c' = hand_close p c ->
  ((exists data, c' = XUdpSend p data) -> exists data, c = XUdpSend p data) ->
  about p (put l') = about p (put l) -> about p (taken l') = about p (taken l) ->
  about p (posted l') = about p (posted l) -> about p (sent l') = about p (sent l) ->
  about p (dropped l') = about p (dropped l) ->
  times p (calls l') = times p (calls l) -> times p (forgot l') = times p (forgot l) ->
  about p sq' = about p sq -> times p cq' = times p cq ->
  dg_conn us c l sq cq p o ch -> dg_conn us' c' l' sq' cq' p o ch.
Proof.
  destruct in_method_all as (M1 & M2 & M3 & M4 & M5).
  intros Hu Hs Hc Hx E1 E2 E3 E4 E5 E6 E7 E8 E9 [].
  split; rewrite ?Hu, ?Hs, ?Hc, ?E1, ?E2, ?E3, ?E4, ?E5, ?E6, ?E7, ?E8, ?E9 by done; auto.
Qed.

(** ** Steps of the program's goroutines *)

Definition push {T} (x : list T) (c : chan T) : chan T :=
  Chan (c_cap c) (c_buf c ++ x) (c_closed c).
Definition posts (p : ptr) (u : dg_user) : list (ptr * slice) :=
  match u with DgWPost b => [(p, b)] | _ => [] end.
Definition closes (p : ptr) (u : dg_user) : list ptr :=
  match u with DgCPost _ => [p] | _ => [] end.

(** What a [Read] writes to memory. *)
Definition copied (u : dg_user) (ch : chan bytes) (m : mem) : mem :=
  match u, c_buf ch with
  | DgRTake b, ((_ :: _) as data) :: _ => store (sl_ptr b) data m
  | _, _ => m
  end.

(** The state after a step in a method of [p]. *)
Definition upd (p q : ptr) (o' : PCB) (ch' : chan bytes) (ps : list (ptr * slice))
    (cs : list ptr) (m : mem) (g : shared) : shared :=
  Shared (GoState (<[p := o']> (pcbs g)) (<[q := ch']> (bchans g)) (tcpPcbs g) (udpPcbs g)
    (inputQueue g) (inputQueue2 g) (recvedQueue g) (sendQueue g)
    (push cs (closeQueue g)) (runnning g)) (push ps (dg_sq g)) m.

(** What a step does to the object and its channel. *)
Definition user_moves (u : dg_user) (o : PCB) (ch : chan bytes)
    (u' : dg_user) (o' : PCB) (ch' : chan bytes) : Prop :=
  match u with
  | DgWErr b => (o', ch') = (o, ch) /\ u' = if p_err o then DgWDone b else DgWPost b
  | DgWPost b => (o', ch') = (o, ch) /\ u' = DgWDone b
  | DgWDone b => (o', ch') = (o, ch) /\ u' = DgWrote (Z.of_nat (sl_len b)) (p_err o)
  | DgRInter b => (o', ch') = (o, ch) /\ u' = DgRErr b
  | DgRErr b => (o', ch') = (o, ch) /\ u' = if p_err o then DgRead 0 true else DgRTake b
  | DgRTake b =>
      (o', ch') = (o, Chan (c_cap ch) (tail (c_buf ch)) (c_closed ch)) /\
      u' = match c_buf ch with
           | ((_ :: _) as data) :: _ => DgRead (length data) false
           | _ => DgRNil
           end /\
      (forall data l, c_buf ch = data :: l -> (length data <= sl_len b)%nat)
  | DgRNil => (o', ch') = (o, ch) /\ u' = DgRead 0 (p_err o)
  | DgCLock => lck o = false /\ (o', ch') = (with_lck true o, ch) /\ u' = DgCErr
  | DgCErr => (o', ch') = (o, ch) /\ u' = if p_err o then DgCUnlock true else DgCSet
  | DgCSet => (o', ch') = (with_err true o, ch) /\ u' = DgCChan
  | DgCChan => c_closed ch = false /\
      (o', ch') = (o, Chan (c_cap ch) (c_buf ch) true) /\ u' = DgCUnlock false
  | DgCUnlock err => lck o = true /\ (o', ch') = (with_lck false o, ch) /\ u' = DgCPost err
  | DgCPost err => (o', ch') = (o, ch) /\ u' = DgClosed err
  | DgIdle | DgWrote _ _ | DgRead _ _ | DgClosed _ => False
  end.

Lemma push_nil {T} (c : chan T) : push [] c = c.
Proof. destruct c. unfold push. cbn. by rewrite app_nil_r. Qed.

Lemma upd_same p o ch g sq m :
  pcbs g !! p = Some o -> bchans g !! recvQueued o = Some ch ->
  upd p (recvQueued o) o ch [] [] m (Shared g sq m) = Shared g sq m.
Proof.
  intros Ho Hc. unfold upd. cbn. rewrite !push_nil, !insert_id by done. by destruct g.
Qed.

Lemma upd_bchan p o ch' g sq m m' :
  pcbs g !! p = Some o ->
  Shared (set_bchans (<[recvQueued o := ch']> (bchans g)) g) sq m' =
  upd p (recvQueued o) o ch' [] [] m' (Shared g sq m).
Proof.
  intros Ho. unfold upd. cbn. rewrite !push_nil, (insert_id (pcbs g)) by done. by destruct g.
Qed.

Lemma upd_pcb p o o' ch g sq m :
  bchans g !! recvQueued o = Some ch ->
  Shared (set_pcbs (<[p := o']> (pcbs g)) g) sq m =
  upd p (recvQueued o) o' ch [] [] m (Shared g sq m).
Proof.
  intros Hc. unfold upd. cbn. rewrite !push_nil, (insert_id (bchans g)) by done.
  by destruct g.
Qed.

Lemma chan_send_open {T} (x : T) c :
  match chan_send x c with
  | Ok (_, c') => c' = push [x] c
  | Fault f => f = Blocked /\ (c_cap c <= length (c_buf c))%nat \/
               f = Panicked /\ c_closed c = true
  end.
Proof.
  unfold chan_send, push. destruct (c_closed c); [by right|]. case_decide; [done|left].
  split; [done|lia].
Qed.

Lemma on_go_eq {X} (m : G X) (s : shared) :
  on_go m s = match m s with Ok (x, g') => Ok (x, set_go g' s) | Fault f => Fault f end.
Proof. done. Qed.

Lemma on_go_run {X} (m : G X) g sq mm :
  on_go m (Shared g sq mm) =
  match m g with Ok (x, g') => Ok (x, Shared g' sq mm) | Fault f => Fault f end.
Proof. done. Qed.

(** The outcome of a step. *)
Lemma dg_user_run p u o ch (g : shared) :
  pcbs g !! p = Some o -> bchans g !! recvQueued o = Some ch ->
  match dg_user_step p u g with
  | Ok (u', g') => exists o' ch',
      g' = upd p (recvQueued o) o' ch' (posts p u) (closes p u) (copied u ch (dg_mem g)) g /\
      user_moves u o ch u' o' ch' /\
      took p u g = match u with DgRTake _ => (p,.) <$> take 1 (c_buf ch) | _ => [] end
  | Fault f =>
      match u with
      | DgIdle | DgWrote _ _ | DgRead _ _ | DgClosed _ => f = Blocked
      | DgWPost _ => f = Blocked /\ (c_cap (dg_sq g) <= length (c_buf (dg_sq g)))%nat \/
                     f = Panicked /\ c_closed (dg_sq g) = true
      | DgCPost _ => f = Blocked /\ (c_cap (closeQueue g) <= length (c_buf (closeQueue g)))%nat \/
                     f = Panicked /\ c_closed (closeQueue g) = true
      | DgRInter _ => recvInter o = true
      | DgRTake b =>
          f = Blocked /\ c_buf ch = [] /\ c_closed ch = false \/
          f = Panicked /\ exists data l, c_buf ch = data :: l /\ (sl_len b < length data)%nat
      | DgCLock => f = Blocked /\ lck o = true
      | DgCChan => c_closed ch = true
      | DgCUnlock _ => lck o = false
      | DgWErr _ | DgWDone _ | DgRErr _ | DgRNil | DgCErr | DgCSet => False
      end
  end.
Proof.
  destruct g as [g sq m]. cbn [dg_go dg_sq dg_mem]. intros Ho Hc.
  pose proof (fun X m => at_pcb_at (X := X) p o m g Ho) as Hp.
  pose proof (fun X m => at_recvQueued_run (X := X) p o ch m g Ho Hc) as Hq.
  assert (set_pcbs (<[p := o]> (pcbs g)) g = g) as Hid
    by (rewrite insert_id by done; by destruct g).
  pose proof (upd_same _ _ _ _ sq m Ho Hc) as Hs.
  destruct u; cbn [dg_user_step]; unfold mbind, M_bind, mret, M_ret;
    rewrite ?on_go_run, ?Hp, ?Hq; cbn -[take]; rewrite ?Hid; try done;
    try (by exists o, ch; rewrite Hs).
  - unfold on_sq, zoom. pose proof (chan_send_open (p, b) sq) as Hx. cbn [dg_sq].
    destruct (chan_send _ _) as [[v c']|]; [|done]. subst c'. exists o, ch.
    split; [|done]. unfold upd. cbn. rewrite !insert_id, push_nil by done. by destruct g.
  - destruct (recvInter o); [done|]. by exists o, ch; rewrite Hs.
  - rewrite ?Hq. unfold chan_recv. destruct (c_buf ch) as [|d l] eqn:Hb; cbn -[take].
    + destruct (c_closed ch) eqn:Hcl; [|by left]. exists o, ch.
      split; [|split; [|done]; split; [|done]; f_equal; destruct ch; cbn in *; by subst].
      rewrite <- (upd_bchan p o) by done. done.
    + destruct d as [|x d].
      * eexists o, _. rewrite <- (upd_bchan p o) by done. split; [done|]. split; [|done].
        split_and!; [done..|]. intros ? ? [= <- <-]. cbn. lia.
      * destruct (decide _) as [Hn|Hn]; [right; eauto|]. eexists o, _.
        unfold modify, mret, M_ret. rewrite <- (upd_bchan p o) by done. split; [done|].
        split; [|done]. split_and!; [done..|]. intros ? ? [= <- <-]. lia.
  - unfold lock. destruct (lck o) eqn:Hl; [done|]. eexists _, ch.
    by rewrite (upd_pcb _ _ _ _ _ _ _ Hc).
  - unfold modify. eexists _, ch. by rewrite (upd_pcb _ _ _ _ _ _ _ Hc).
  - unfold chan_close. destruct (c_closed ch) eqn:Hl; [done|]. eexists o, _.
    by rewrite (upd_bchan p o _ g sq m).
  - unfold unlock. destruct (lck o) eqn:Hl; [|done]. eexists _, ch.
    by rewrite (upd_pcb _ _ _ _ _ _ _ Hc).
  - unfold on_closeQueue, zoom. pose proof (chan_send_open p (closeQueue g)) as Hx.
    destruct (chan_send _ _) as [[v c']|]; [|done]. subst c'. exists o, ch.
    split; [|done]. unfold upd. cbn. rewrite !insert_id, push_nil by done. by destruct g.
Qed.
(** What a step of one of its goroutines does to a connection. *)
Lemma conn_user us c l sq cq p o ch t u u' o' ch' (g : shared) :
  us !! t = Some (p, u) -> user_moves u o ch u' o' ch' ->
  took p u g = match u with DgRTake _ => (p,.) <$> take 1 (c_buf ch) | _ => [] end ->
  dg_conn us c l sq cq p o ch ->
  dg_conn (<[t := (p, u')]> us) c (user_log p u g l) (sq ++ posts p u) (cq ++ closes p u)
    p o' ch'.
Proof.
  intros Hu Hm Ht [].
  pose proof (in_conn_sub dg_holds closing p us ltac:(by intros [])) as S1.
  pose proof (in_conn_sub at_set dg_holds p us ltac:(by intros [])) as S2.
  pose proof (in_conn_sub at_chan dg_holds p us ltac:(by intros [])) as S3.
  pose proof (in_conn_insert dg_holds p _ _ _ _ p u' Hu) as C1.
  pose proof (in_conn_insert at_set p _ _ _ _ p u' Hu) as C2.
  pose proof (in_conn_insert at_chan p _ _ _ _ p u' Hu) as C3.
  pose proof (in_conn_insert closing p _ _ _ _ p u' Hu) as C4.
  pose proof (in_conn_insert past_err p _ _ _ _ p u' Hu) as C5.
  rewrite bool_decide_true in C1, C2, C3, C4, C5 by done. cbn [andb] in *.
  assert (Hle : (Nat.b2n (lck o) <= 1)%nat) by (destruct (lck o); cbn; lia).
  assert (Hcl : (Nat.b2n (c_closed ch) <= 1)%nat) by (destruct (c_closed ch); cbn; lia).
  assert (He : (Nat.b2n (p_err o) <= 1)%nat) by (destruct (p_err o); cbn; lia).
  set (us' := <[t := (p, u')]> us) in *. clearbody us'.
  unfold user_log. destruct u; cbn in Hm; try done; destruct_and?; simplify_eq;
    rewrite ?Ht; clear Ht Hu;
    try match type of C1 with
    | context [c_buf ch] => destruct (c_buf ch) as [|[|] ?] eqn:Hb; rewrite ?Hb in *
    end;
    try match type of C1 with
    | context [if p_err o then _ else _] =>
        destruct (p_err o) eqn:Heo; cbn in He, dc_chan0
    end;
    cbn in C1, C2, C3, C4, C5, Hle, Hcl.
  all: split; cbn [posts closes came made put taken posted sent dropped calls forgot
    p_type recvInter lck p_err remoteIP remotePort with_lck with_err c_closed c_cap c_buf
    fmap list_fmap firstn take] in *;
    rewrite ?Heo, ?times_app, ?about_app, ?app_nil_r, ?about_here; try done.
  all: rewrite ?times_here, ?times_nil; try (cbn; lia).
  all: try (intros; first [apply dc_set0|apply dc_err0]; cbn in *; lia).
  all: try (by rewrite dc_posted0, <- !app_assoc).
  all: try (rewrite dc_queue0; rewrite ?about_cons, ?decide_True by done;
    by rewrite <- ?app_assoc).
  - by rewrite dc_queue0, app_nil_r.
  - match goal with H : lck o = false |- _ => rewrite H in * end. cbn in *. lia.
  - rewrite dc_set0 in * by lia. cbn in *. lia.
Qed.

Lemma user_moves_same u o ch u' o' ch' :
  user_moves u o ch u' o' ch' ->
  recvQueued o' = recvQueued o /\ key_of o' = key_of o /\ dg_returned u = false.
Proof. destruct u; cbn; intros; destruct_and?; simplify_eq; done. Qed.

Lemma open_push {T} (x : list T) c : open_queue c -> open_queue (push x c).
Proof. done. Qed.

(** A method adds to the logs of its own connection only. *)
Lemma user_others p p' u (g : shared) :
  p' <> p -> about p' (took p u g) = [] /\ about p' (posts p u) = [] /\
  times p' (closes p u) = 0%nat.
Proof.
  intros Hne. split_and!.
  - destruct u; try done. unfold took. destruct (at_recvQueued _ _ _) as [[[data|] ?]|]; [|done..].
    by rewrite about_other.
  - destruct u; try done. by apply about_other.
  - destruct u; try done. by apply times_other.
Qed.

(** An accepted connection. *)
Lemma inv_obj w p : dg_inv w -> p ∈ (made (dg_logs w)).*2 ->
  exists o ch, pcbs (dg_gst w) !! p = Some o /\
    bchans (dg_gst w) !! recvQueued o = Some ch /\
    dg_conn (dg_users w) (dg_proc w) (dg_logs w) (c_buf (dg_sq (dg_gst w)))
      (c_buf (closeQueue (dg_gst w))) p o ch.
Proof.
  intros I ([k q] & -> & Hin)%list_elem_of_fmap. cbn.
  destruct (di_conn _ I _ _ Hin) as (o & ch & ? & ? & _ & ?). eauto.
Qed.

Lemma made_fst k p l : (k, p) ∈ made l -> p ∈ (made l).*2.
Proof. intros. apply list_elem_of_fmap. by exists (k, p). Qed.

Lemma dg_user_inv w t p u u' g' :
  dg_inv w -> dg_users w !! t = Some (p, u) -> dg_user_step p u (dg_gst w) = Ok (u', g') ->
  dg_inv (Dg g' (<[t := (p, u')]> (dg_users w)) (dg_proc w)
            (user_log p u (dg_gst w) (dg_logs w))).
Proof.
  destruct w as [g us c l]. cbn. intros I Hu Hst.
  assert (Hret : dg_returned u = false) by by destruct u.
  pose proof (di_users _ I _ _ _ Hu Hret) as Hp. cbn in Hp.
  destruct (inv_obj _ _ I Hp) as (o & ch & Ho & Hc & Hconn). cbn in Ho, Hc, Hconn.
  pose proof (dg_user_run p u o ch g Ho Hc) as Hrun. rewrite Hst in Hrun.
  destruct Hrun as (o' & ch' & -> & Hm & Ht).
  destruct (user_moves_same _ _ _ _ _ _ Hm) as (Hq & Hk & _).
  pose proof (conn_user _ _ _ _ _ _ _ _ _ _ _ _ _ g Hu Hm Ht Hconn) as Hown.
  pose proof (di_distinct _ I) as Hdist. cbn in Hdist.
  split; cbn [dg_gst dg_users dg_proc dg_logs upd dg_go dg_sq dg_mem closeQueue pcbs bchans udpPcbs
    user_log came made put taken posted sent dropped calls forgot].
  - apply open_push, I.
  - apply open_push, I.
  - apply I.
  - intros k p' Hin. destruct (decide (p' = p)) as [->|Hne].
    + exists o', ch'. rewrite lookup_insert_eq, Hq, lookup_insert_eq, Hk.
      destruct (di_conn _ I _ _ Hin) as (o1 & ch1 & Ho1 & _ & Hk1 & _). cbn in Ho1.
      split_and!; try done. congruence.
    + destruct (di_conn _ I _ _ Hin) as (o1 & ch1 & Ho1 & Hc1 & Hk1 & Hc2). cbn in *.
      exists o1, ch1. rewrite lookup_insert_ne by done. split; [done|].
      rewrite lookup_insert_ne by (intros Heq; apply Hne; symmetry; by eapply Hdist).
      destruct (user_others p p' u g Hne) as (A1 & A2 & A3).
      split_and!; [done..|]. revert Hc2. apply dg_conn_frame; cbn; try done.
      * intros f Hf. apply (in_conn_same _ _ _ _ _ _ _ _ Hu); by intros ->.
      * by rewrite about_app, A1, app_nil_r.
      * fold (posts p u). by rewrite about_app, A2, app_nil_r.
      * by rewrite about_app, A2, app_nil_r.
      * rewrite times_app, A3. lia.
  - intros p'. rewrite lookup_insert_is_Some. intros [<-|[_ ?]]; [done|by apply (di_dom _ I)].
  - intros p1 p2 o1 o2 H1 H2.
    apply lookup_insert_Some in H1 as [[<- <-]|[? H1]];
      apply lookup_insert_Some in H2 as [[<- <-]|[? H2]]; rewrite ?Hq; eauto.
  - intros t' q v [(<- & [= <- <-] & _)|[_ ?]]%list_lookup_insert_Some ?; [done|].
    by eapply (di_users _ I).
  - apply Forall_app. split; [apply I|]. destruct u; cbn; constructor; [|done].
    split; [done|]. exact (di_write _ I _ _ _ Hu).
  - intros t' q v [(<- & [= <- <-] & _)|[_ ?]]%list_lookup_insert_Some;
      [|by eapply (di_write _ I)].
    pose proof (di_write _ I _ _ _ Hu) as Hw. destruct u; cbn in Hm, Hw; try done;
      destruct_and?; subst; try done; try (by destruct (p_err o)).
    by destruct (c_buf ch) as [|[|] ?].
  - apply Forall_app. split; [apply I|]. destruct u; cbn; constructor; done.
  - intros p' Hp'. destruct (di_none _ I _ Hp'). cbn in *.
    assert (p' <> p) as Hne by by intros ->.
    destruct (user_others p p' u g Hne) as (A1 & A2 & _).
    split; cbn; try done; rewrite about_app; [by rewrite A1, app_nil_r|].
    fold (posts p u). by rewrite A2, app_nil_r.
  - pose proof (di_proc _ I) as Hx. by destruct c.
  - apply I.
  - apply I.
  - apply I.
Qed.
(** A call of a method. *)
Lemma call_inv w t q v p u :
  dg_inv w -> dg_users w !! t = Some (q, v) -> dg_returned v = true -> dg_entry u = true ->
  p ∈ (made (dg_logs w)).*2 ->
  dg_inv (Dg (dg_gst w) (<[t := (p, u)]> (dg_users w)) (dg_proc w) (call_log p u (dg_logs w))).
Proof.
  destruct w as [g us c l]. cbn. intros I Hu Hv He Hp.
  assert (Hcalls : forall p', times p' (match u with DgCLock => [p] | _ => [] end) =
                     Nat.b2n (bool_decide (p = p') && closing u)).
  { intros p'. destruct u; try done; cbn; rewrite ?andb_false_r; try done.
    case_bool_decide; [subst; by rewrite times_here|by rewrite times_other]. }
  split; cbn; try apply I.
  - intros k p' Hin. destruct (di_conn _ I _ _ Hin) as (o & ch & Ho & Hc & Hk & Hconn).
    exists o, ch. split_and!; try done. cbn in Hconn.
    assert (Hin0 : forall f, in_method f -> f u = false ->
      in_conn f p' (<[t := (p, u)]> us) = in_conn f p' us).
    { intros f Hf Hfu. by apply (in_conn_same _ _ _ _ _ _ _ _ Hu); [intros; apply Hf|]. }
    destruct in_method_all as (M1 & M2 & M3 & M4 & M5).
    pose proof (in_conn_insert closing p' _ _ _ _ p u Hu) as C4.
    rewrite (M4 v Hv), andb_false_r in C4.
    destruct Hconn. split; cbn; rewrite ?(Hin0 dg_holds), ?(Hin0 at_set), ?(Hin0 at_chan),
      ?(Hin0 past_err), ?times_app, ?Hcalls by (done || by destruct u); try done.
    cbn in C4. lia.
  - intros t' q' v' [(<- & [= <- <-] & _)|[_ ?]]%list_lookup_insert_Some ?; [done|].
    by eapply (di_users _ I).
  - intros t' q' v' [(<- & [= <- <-] & _)|[_ ?]]%list_lookup_insert_Some;
      [destruct u; try done; by apply bool_decide_eq_true in He|by eapply (di_write _ I)].
  - intros p' Hp'. destruct (di_none _ I _ Hp'). split; cbn; try done.
    rewrite times_app, Hcalls, bool_decide_false by (by intros ->). cbn in *. lia.
  - intros k p' Hin. destruct (di_left _ I _ _ Hin) as [?|[?|(p2 & ? & ?)]]; cbn in *; eauto.
    right. right. exists p2. split; [done|]. rewrite times_app. lia.
Qed.

(** An entry that goes from a queue into the processing goroutine's hand. *)
Lemma conn_hand us c c' l sq sq' cq cq' p o ch :
  hand_send p c' ++ about p sq' = hand_send p c ++ about p sq ->
  (hand_close p c' + times p cq' = hand_close p c + times p cq)%nat ->
  (forall data, c' = XUdpSend p data -> p_err o = false) ->
  dg_conn us c l sq cq p o ch -> dg_conn us c' l sq' cq' p o ch.
Proof.
  intros Hs Hc Hx []. split; try done.
  - intros. apply dc_err0. lia.
  - rewrite dc_calls0. lia.
  - by rewrite Hs.
  - intros [data Hd]. specialize (Hx _ Hd).
    destruct (about p (dropped l)); [done|]. by rewrite dc_dropped0 in Hx.
Qed.

Lemma take_inv w k c' g' :
  dg_inv w -> dg_proc w = XIdle -> dg_take k (dg_gst w) = Ok (c', g') ->
  dg_inv (Dg g' (dg_users w) c' (dg_logs w)).
Proof.
  destruct w as [g us c l]. cbn. intros I -> Ht.
  destruct k; try done; unfold dg_take, mbind, M_bind in Ht.
  - unfold on_go, on_closeQueue, zoom in Ht.
    destruct (chan_recv (closeQueue g)) as [[r q']|] eqn:Hr; [|done].
    apply chan_recv_inv in Hr. destruct r as [p|]; [|done]. destruct Hr as (Hb & Hcap & Hcl).
    injection Ht as <- <-. pose proof (di_close_named _ I) as Hn. cbn in Hn. rewrite Hb in Hn.
    apply Forall_cons in Hn as [Hp Hn].
    split; cbn; try done; try apply I.
    + split; [rewrite Hcap|rewrite Hcl]; apply I.
    + intros k p' Hin. destruct (di_conn _ I _ _ Hin) as (o & ch & ? & ? & ? & Hconn).
      exists o, ch. split_and!; try done. revert Hconn. apply conn_hand; cbn; try done.
      rewrite Hb. change (p :: c_buf q') with ([p] ++ c_buf q'). rewrite times_app.
      destruct (decide (p = p')) as [->|Hne].
      * by rewrite bool_decide_true, times_here.
      * by rewrite bool_decide_false, times_other.
  - unfold on_sq, zoom in Ht.
    destruct (chan_recv (dg_sq g)) as [[r q']|] eqn:Hr; [|done].
    apply chan_recv_inv in Hr. destruct r as [[p data]|]; [|done].
    destruct Hr as (Hb & Hcap & Hcl).
    injection Ht as <- <-. pose proof (di_send_named _ I) as Hn. cbn in Hn. rewrite Hb in Hn.
    apply Forall_cons in Hn as [Hp Hn].
    split; cbn; try done; try apply I.
    + split; [rewrite Hcap|rewrite Hcl]; apply I.
    + intros k p' Hin. destruct (di_conn _ I _ _ Hin) as (o & ch & ? & ? & ? & Hconn).
      exists o, ch. split_and!; try done. revert Hconn. apply conn_hand; cbn; try done.
      by rewrite Hb, about_cons.
Qed.

Lemma come_inv w d :
  dg_inv w -> dg_proc w = XIdle ->
  dg_inv (Dg (dg_gst w) (dg_users w) (XFind d) (came_log d (dg_logs w))).
Proof.
  destruct w as [g us c l]. cbn. intros I ->. split; cbn; try done; try apply I.
  - intros k p' Hin. destruct (di_conn _ I _ _ Hin) as (o & ch & ? & ? & ? & Hconn).
    exists o, ch. split_and!; try done. revert Hconn.
    apply dg_conn_frame; try done. by intros [].
  - intros p' Hp'. by destruct (di_none _ I _ Hp').
  - intros k. pose proof (di_came _ I k) as Hc. cbn in Hc.
    by rewrite about_app, Hc, app_nil_r, about_cons, app_nil_r.
Qed.
(** ** Steps of the processing goroutine *)

(** The host of a connection does not change. *)
Lemma made_host (l : dg_log) k k' p :
  NoDup (made l).*2 -> (k, p) ∈ made l -> (k', p) ∈ made l -> k = k'.
Proof.
  generalize (made l). intros m. induction m as [|[k1 p1] m IH]; cbn; [by intros _ ?%not_elem_of_nil|].
  intros [Hn Hd]%NoDup_cons [[= -> ->]|H1]%elem_of_cons [[= ]|H2]%elem_of_cons; subst; auto.
  - destruct Hn. apply list_elem_of_fmap. by exists (k', p1).
  - destruct Hn. apply list_elem_of_fmap. by exists (k, p1).
Qed.

Lemma about_nodup {A B} `{EqDecision A} (k : A) (l : list (A * B)) :
  NoDup l.*2 -> NoDup (about k l).
Proof.
  induction l as [|[k1 p1] m IH]; cbn; [by constructor|].
  intros [Hn Hd]%NoDup_cons. rewrite about_cons. case_decide; cbn; [|auto].
  constructor; [|auto]. rewrite elem_of_about. intros Hin. destruct Hn.
  apply list_elem_of_fmap. by exists (k, p1).
Qed.

(** A datagram more for [p]. *)
Lemma puts_other p x (l : list (ptr * bytes)) (ps : list ptr) :
  p ∉ ps ->
  (fun q => about q (l ++ [(p, x)])) <$> ps = (fun q => about q l) <$> ps.
Proof.
  intros Hp. induction ps as [|q ps IH]; cbn; [done|].
  rewrite not_elem_of_cons in Hp. rewrite IH by apply Hp.
  by rewrite about_app, about_other, app_nil_r by apply Hp.
Qed.

Lemma in_conn_pos f p us :
  (0 < in_conn f p us)%nat -> exists t u, us !! t = Some (p, u) /\ f u = true.
Proof.
  intros (t & [q u] & Hu & [Hq Hfu]%andb_true_iff)%count_if_pos_inv.
  apply bool_decide_eq_true in Hq. cbn in *. subst q. by exists t, u.
Qed.

(** Nobody is in a method of a connection that is not there. *)
Lemma in_conn_none w f p :
  dg_inv w -> p ∉ (made (dg_logs w)).*2 -> in_method f -> in_conn f p (dg_users w) = 0%nat.
Proof.
  intros I Hp Hf. destruct (decide (0 < in_conn f p (dg_users w))%nat) as [Hpos|]; [|lia].
  apply in_conn_pos in Hpos as (t & u & Hu & Hfu). destruct Hp.
  apply (di_users _ I _ _ _ Hu). destruct (dg_returned u) eqn:Hr; [|done].
  by rewrite (Hf u Hr) in Hfu.
Qed.

(** The goroutine goes on and leaves everything as it is. *)
Lemma pc_inv w c' :
  dg_inv w -> proc_ok c' (dg_gst w) (dg_logs w) ->
  (forall p, hand_send p c' = hand_send p (dg_proc w)) ->
  (forall p, hand_close p c' = hand_close p (dg_proc w)) ->
  (forall k, hand_recv k c' = hand_recv k (dg_proc w)) ->
  (forall p data o, c' = XUdpSend p data -> pcbs (dg_gst w) !! p = Some o ->
     p_err o = false) ->
  dg_inv (Dg (dg_gst w) (dg_users w) c' (dg_logs w)).
Proof.
  destruct w as [g us c l]. cbn. intros I Hok Hs Hc Hr Hx.
  split; cbn; try done; try apply I.
  - intros k p Hin. destruct (di_conn _ I _ _ Hin) as (o & ch & ? & ? & ? & Hconn).
    exists o, ch. split_and!; try done. revert Hconn. apply conn_hand; cbn; [by rewrite Hs..| |].
    + by rewrite Hc.
    + intros data ->. by eapply Hx.
  - intros k. rewrite Hr. apply (di_came _ I).
Qed.

Lemma find_inv w d :
  dg_inv w -> dg_proc w = XFind d ->
  dg_inv (Dg (dg_gst w) (dg_users w)
    match udpPcbs (dg_gst w) !! dg_key d with Some p => XPut d p | None => XNew d end
    (dg_logs w)).
Proof.
  intros I Hp. apply pc_inv; [done|..]; destruct (udpPcbs _ !! _) eqn:Ht; rewrite ?Hp; done.
Qed.

Lemma new_inv w d c' g' :
  dg_inv w -> dg_proc w = XNew d -> dg_proc_step (XNew d) (dg_gst w) = Ok (c', g') ->
  dg_inv (Dg g' (dg_users w) c' (proc_log (XNew d) c' (dg_gst w) (dg_logs w))).
Proof.
  destruct w as [g us c l]. cbn [dg_gst dg_users dg_proc dg_logs]. intros I -> [= <- <-].
  set (p := fresh (dom (pcbs g))). set (q := fresh (dom (bchans g))).
  assert (Hp : pcbs g !! p = None) by apply not_elem_of_dom, is_fresh.
  assert (Hq : bchans g !! q = None) by apply not_elem_of_dom, is_fresh.
  assert (Hnew : p ∉ (made l).*2).
  { intros (o & ch & Ho & _)%(inv_obj _ _ I). cbn in Ho. congruence. }
  pose proof (di_proc _ I) as Hnone. cbn in Hnone.
  assert (Hold : forall p' o, pcbs g !! p' = Some o -> p' <> p /\ recvQueued o <> q).
  { intros p' o Ho. split; [by intros ->; congruence|]. intros Heq.
    destruct (inv_obj _ _ I (di_dom _ I _ (mk_is_Some _ _ Ho))) as (o1 & ch & Ho1 & Hc & _).
    cbn in *. congruence. }
  clearbody p q. destruct (di_none _ I p Hnew). cbn in *.
  assert (Hsq : about p (c_buf (dg_sq g)) = []).
  { destruct (about p (c_buf (dg_sq g))) as [|b bs] eqn:Hb; [done|].
    assert ((p, b) ∈ c_buf (dg_sq g)) as Hin by (apply elem_of_about; rewrite Hb; left).
    pose proof (di_send_named _ I) as Hn. rewrite Forall_forall in Hn.
    by destruct (Hn _ Hin). }
  assert (Hcq : times p (c_buf (closeQueue g)) = 0%nat).
  { destruct (decide (0 < times p (c_buf (closeQueue g)))%nat) as [Hpos|]; [|lia].
    apply count_if_pos_inv in Hpos as (i & p' & Hi & ->%bool_decide_eq_true).
    pose proof (di_close_named _ I) as Hn. rewrite Forall_forall in Hn.
    destruct Hnew. by eapply Hn, list_elem_of_lookup_2. }
  destruct in_method_all as (M1 & M2 & M3 & M4 & M5).
  pose proof (fun f => in_conn_none _ f p I Hnew) as Hin0. cbn in Hin0.
  split; cbn; try done; try apply I.
  - rewrite fmap_app. apply NoDup_app. split; [apply I|]. split; [|by apply NoDup_singleton].
    intros x Hx ->%list_elem_of_singleton. done.
  - intros k p' [Hin|[= -> ->]%list_elem_of_singleton]%elem_of_app.
    + destruct (di_conn _ I _ _ Hin) as (o & ch & Ho & Hc & Hk & Hconn). cbn in *.
      destruct (Hold _ _ Ho) as [Hn1 Hn2]. exists o, ch. rewrite !lookup_insert_ne by done.
      split_and!; try done. revert Hconn. apply dg_conn_frame; try done. by intros [].
    + eexists _, _. rewrite lookup_insert_eq. split; [done|]. cbn. rewrite lookup_insert_eq.
      split_and!; try done. split; cbn; rewrite ?Hin0, ?Hcq, ?Hsq by done; try done;
        rewrite ?dn_put0, ?dn_taken0, ?dn_posted0, ?dn_sent0, ?dn_dropped0, ?dn_calls0,
          ?dn_forgot0; try done; lia.
  - intros p' Hp'. rewrite fmap_app, elem_of_app.
    apply lookup_insert_is_Some in Hp' as [<-|[_ Hp']].
    + right. by left.
    + left. by apply (di_dom _ I).
  - intros p1 p2 o1 o2 H1 H2.
    apply lookup_insert_Some in H1 as [[<- <-]|[? H1]];
      apply lookup_insert_Some in H2 as [[<- <-]|[? H2]]; cbn; try done.
    + intros Heq. by destruct (Hold _ _ H2) as [_ []].
    + intros Heq. by destruct (Hold _ _ H1) as [_ []].
    + by apply (di_distinct _ I).
  - intros t p' u Hu Hr. rewrite fmap_app, elem_of_app. left. by eapply (di_users _ I).
  - eapply Forall_impl; [apply I|]. cbn. intros x [? ?]. rewrite fmap_app, elem_of_app. auto.
  - eapply Forall_impl; [apply I|]. cbn. intros x ?. rewrite fmap_app, elem_of_app. auto.
  - intros p'. rewrite fmap_app, not_elem_of_app. intros [Hp' _].
    by destruct (di_none _ I _ Hp').
  - unfold registered. cbn. by rewrite lookup_insert_eq.
  - intros k p' Hr. unfold registered in Hr. cbn in Hr. rewrite about_app.
    apply lookup_insert_Some in Hr as [[<- <-]|[Hne Hr]].
    + by rewrite about_here, last_snoc.
    + rewrite about_other, app_nil_r by done. by apply (di_table _ I).
  - intros k. rewrite (di_came _ I). cbn. rewrite about_app, fmap_app, concat_app.
    destruct (decide (dg_key d = k)) as [->|Hne].
    + rewrite about_here. cbn. by rewrite dn_put0, !app_nil_r.
    + rewrite about_other by done. cbn. by rewrite !app_nil_r.
  - intros k p' [Hin|[= -> ->]%list_elem_of_singleton]%elem_of_app.
    + unfold registered. cbn. destruct (di_left _ I _ _ Hin) as [Hr|[?|(p2 & ? & ?)]]; cbn in *.
      * left. rewrite lookup_insert_ne; [done|]. unfold registered in Hr. congruence.
      * auto.
      * right. right. exists p2. rewrite elem_of_app. auto.
    + left. unfold registered. cbn. by rewrite lookup_insert_eq.
Qed.
Lemma put_inv w d p c' g' :
  dg_inv w -> dg_proc w = XPut d p -> dg_proc_step (XPut d p) (dg_gst w) = Ok (c', g') ->
  dg_inv (Dg g' (dg_users w) c' (proc_log (XPut d p) c' (dg_gst w) (dg_logs w))).
Proof.
  destruct w as [g us c l]. cbn [dg_gst dg_users dg_proc dg_logs]. intros I -> Hst.
  pose proof (di_proc _ I) as Hreg. cbn in Hreg.
  pose proof (di_table _ I _ _ Hreg) as Hlast. cbn in Hlast.
  apply last_Some in Hlast as [ps Hps].
  assert (Hin : (dg_key d, p) ∈ made l) by (apply elem_of_about; rewrite Hps; set_solver).
  destruct (di_conn _ I _ _ Hin) as (o & ch & Ho & Hc & Hk & Hconn). cbn in Ho, Hc, Hconn.
  cbn in Hst. unfold mbind, M_bind in Hst.
  rewrite on_go_eq, (at_recvQueued_run _ _ _ _ _ Ho Hc) in Hst.
  destruct (chan_send _ _) as [[[] ch']|] eqn:Hs; [|done]. injection Hst as <- <-.
  apply chan_send_inv in Hs as (Hcl & Hlen & ->).
  pose proof (di_nodup _ I) as Hnd. cbn in Hnd.
  split; cbn; try done; try apply I.
  - intros k p' Hin'. destruct (di_conn _ I _ _ Hin') as (o1 & ch1 & Ho1 & Hc1 & Hk1 & Hconn1).
    cbn in *. destruct (decide (p' = p)) as [->|Hne].
    + assert (o1 = o) as -> by congruence. eexists o, _. rewrite lookup_insert_eq.
      split_and!; try done. destruct Hconn. split; cbn; try done; try lia.
      * by rewrite Hcl in dc_chan0.
      * by rewrite about_app, about_here, dc_queue0, app_assoc.
      * by intros [].
    + exists o1, ch1. rewrite lookup_insert_ne
        by (intros Heq; apply Hne; symmetry; by eapply (di_distinct _ I)).
      split_and!; try done. revert Hconn1. apply dg_conn_frame; try done; [by intros []|].
      cbn. by rewrite about_app, about_other, app_nil_r.
  - intros p' Hp'. destruct (di_none _ I _ Hp'). split; try done. cbn.
    rewrite about_app, about_other, app_nil_r; [done|]. intros <-.
    by apply Hp', (made_fst (dg_key d)).
  - intros k. rewrite (di_came _ I). cbn. rewrite app_nil_r.
    destruct (decide (dg_key d = k)) as [<-|Hne].
    + rewrite Hps, !fmap_app, !concat_app. cbn.
      pose proof (about_nodup (dg_key d) _ Hnd) as Hn. rewrite Hps in Hn.
      apply NoDup_app in Hn as (_ & Hn & _).
      rewrite puts_other by (intros Hi; apply (Hn _ Hi); left).
      by rewrite about_app, about_here, !app_nil_r, <- app_assoc.
    + rewrite puts_other, app_nil_r; [done|]. rewrite elem_of_about. intros Hi. destruct Hne.
      by eapply made_host.
Qed.

Lemma send_err_inv w p data o :
  dg_inv w -> dg_proc w = XSendErr p data -> pcbs (dg_gst w) !! p = Some o ->
  p_err o = true ->
  dg_inv (Dg (dg_gst w) (dg_users w) XIdle
            (proc_log (XSendErr p data) XIdle (dg_gst w) (dg_logs w))).
Proof.
  destruct w as [g us c l]. cbn. intros I -> Ho He.
  pose proof (di_proc _ I) as [Hp _]. cbn in Hp.
  split; cbn; try done; try apply I.
  - intros k p' Hin. destruct (di_conn _ I _ _ Hin) as (o1 & ch & Ho1 & Hc & Hk & Hconn).
    cbn in *. exists o1, ch. split_and!; try done. destruct (decide (p' = p)) as [->|Hne].
    + assert (o1 = o) as -> by congruence. destruct Hconn. split; cbn in *; try done.
      * rewrite dc_posted0, decide_True by done. by rewrite about_app, about_here, <- app_assoc.
      * by intros [].
    + revert Hconn. apply dg_conn_frame; try done; cbn.
      * by rewrite decide_False.
      * by intros [].
      * by rewrite about_app, about_other, app_nil_r.
  - intros p' Hp'. destruct (di_none _ I _ Hp'). split; try done. cbn.
    rewrite about_app, about_other, app_nil_r; [done|]. by intros <-.
Qed.

Lemma udp_send_inv w p data :
  dg_inv w -> dg_proc w = XUdpSend p data ->
  dg_inv (Dg (dg_gst w) (dg_users w) XIdle
            (proc_log (XUdpSend p data) XIdle (dg_gst w) (dg_logs w))).
Proof.
  destruct w as [g us c l]. cbn [dg_gst dg_users dg_proc dg_logs]. intros I ->.
  pose proof (di_proc _ I) as [Hp _]. cbn in Hp.
  destruct (inv_obj _ _ I Hp) as (o & _ & Ho & _). cbn in Ho. unfold proc_log. rewrite Ho.
  split; cbn; try done; try apply I.
  - intros k p' Hin. destruct (di_conn _ I _ _ Hin) as (o1 & ch & Ho1 & Hc & Hk & Hconn).
    cbn in *. exists o1, ch. split_and!; try done. destruct (decide (p' = p)) as [->|Hne].
    + assert (o1 = o) as -> by congruence. destruct Hconn. cbn in *.
      rewrite dc_hand0 in * by eauto. rewrite decide_True in dc_posted0 by done.
      split; cbn in *; try done.
      * rewrite dc_posted0, about_app, about_here, fmap_app, dc_hand0 by eauto.
        by rewrite <- app_assoc.
      * by rewrite dc_hand0 by eauto.
      * by intros [].
      * rewrite about_app, about_here. apply Forall_app. split; [done|]. by repeat constructor.
    + revert Hconn. apply dg_conn_frame; try done; cbn.
      * by rewrite decide_False.
      * by intros [].
      * by rewrite about_app, about_other, app_nil_r.
  - intros p' Hp'. destruct (di_none _ I _ Hp'). split; try done. cbn.
    rewrite about_app, about_other, app_nil_r; [done|]. by intros <-.
Qed.

Lemma delete_inv w p o :
  dg_inv w -> dg_proc w = XDelete p -> pcbs (dg_gst w) !! p = Some o ->
  dg_inv (Dg (set_go (set_udpPcbs (delete (key_of o) (udpPcbs (dg_gst w))) (dg_gst w))
            (dg_gst w)) (dg_users w) XIdle (proc_log (XDelete p) XIdle (dg_gst w) (dg_logs w))).
Proof.
  destruct w as [g us c l]. cbn. intros I -> Ho.
  pose proof (di_proc _ I) as Hp. cbn in Hp.
  apply list_elem_of_fmap in Hp as ([k0 p0] & Heq & Hin0). cbn in Heq. subst p0.
  destruct (di_conn _ I _ _ Hin0) as (o1 & ch1 & Ho1 & _ & Hk0 & Hconn0). cbn in Ho1, Hconn0.
  assert (o1 = o) as -> by congruence.
  assert (Hmono : forall p', (times p' (forgot l) <= times p' (forgot l ++ [p]))%nat)
    by (intros; rewrite times_app; lia).
  split; cbn; try done; try apply I.
  - intros k p' Hin. destruct (di_conn _ I _ _ Hin) as (o2 & ch & Ho2 & Hc & Hk & Hconn).
    cbn in *. exists o2, ch. split_and!; try done. destruct (decide (p' = p)) as [->|Hne].
    + destruct Hconn. cbn in *. rewrite bool_decide_true in * by done. cbn in *.
      split; cbn; try done; rewrite ?times_app, ?times_here; try lia; [|by intros []].
      intros. apply dc_err0. lia.
    + revert Hconn. apply dg_conn_frame; try done; cbn.
      * by rewrite bool_decide_false.
      * by intros [].
      * rewrite times_app, times_other by done. lia.
  - intros p' Hp'. destruct (di_none _ I _ Hp'). cbn in *. split; try done. cbn.
    rewrite times_app, times_other; [lia|]. intros <-. by apply Hp', (made_fst k0).
  - intros k p' Hr. unfold registered in Hr. cbn in Hr.
    apply lookup_delete_Some in Hr as [_ ?]. by apply (di_table _ I).
  - intros k p' Hin. unfold registered. cbn. rewrite lookup_delete.
    destruct (di_left _ I _ _ Hin) as [Hr|[?|?]]; cbn in *;
      [|right; left; specialize (Hmono p'); lia|auto].
    unfold registered in Hr. cbn in Hr. rewrite Hk0. case_decide as Hkk; [|auto]. subst k0.
    right. destruct (decide (p' = p)) as [->|Hne].
    { left. rewrite times_app, times_here. lia. }
    rewrite Hkk in Hin0. right.
    destruct (di_left _ I _ _ Hin0) as [Hr'|[Hf|?]]; cbn in *; [|exists p|done].
    + unfold registered in Hr'. cbn in Hr'. congruence.
    + split; [done|]. destruct Hconn0. cbn in dc_calls0.
      rewrite bool_decide_true in dc_calls0 by done. cbn in dc_calls0. lia.
Qed.
Lemma dg_proc_inv w c' g' :
  dg_inv w -> dg_proc_step (dg_proc w) (dg_gst w) = Ok (c', g') ->
  dg_inv (Dg g' (dg_users w) c' (proc_log (dg_proc w) c' (dg_gst w) (dg_logs w))).
Proof.
  intros I Hst. destruct (dg_proc w) as [|d|d|d p|p data|p data|p] eqn:Hp.
  - done.
  - cbn in Hst. destruct (decide _); [done|]. injection Hst as <- <-.
    pose proof (find_inv w d I Hp) as H. by destruct (udpPcbs _ !! _).
  - by apply new_inv.
  - by apply put_inv.
  - pose proof (di_proc _ I) as Hok. rewrite Hp in Hok. destruct Hok as [Hin Hd].
    destruct (inv_obj _ _ I Hin) as (o & _ & Ho & _).
    cbn in Hst. unfold mbind, M_bind in Hst.
    rewrite on_go_eq, (at_pcb_at _ _ _ _ Ho) in Hst.
    cbn in Hst. rewrite insert_id in Hst by done.
    replace (set_go (set_pcbs (pcbs (dg_gst w)) (dg_gst w)) (dg_gst w)) with (dg_gst w)
      in Hst by by destruct (dg_gst w) as [[]].
    injection Hst as <- <-. destruct (p_err o) eqn:He; [by eapply send_err_inv|].
    apply pc_inv; rewrite ?Hp; try done. intros p' data' o' [= <- <-] Ho'. congruence.
  - cbn in Hst. destruct (decide _); [done|]. injection Hst as <- <-. by apply udp_send_inv.
  - pose proof (di_proc _ I) as Hin. rewrite Hp in Hin. cbn in Hin.
    destruct (inv_obj _ _ I Hin) as (o & _ & Ho & _).
    cbn in Hst. unfold mbind, M_bind in Hst.
    rewrite on_go_eq, (at_pcb_get_run _ _ _ Ho) in Hst.
    injection Hst as <- <-. by apply (delete_inv w p o).
Qed.

Lemma dg_inv_init n : dg_inv (dg0 n).
Proof.
  split; cbn; try done.
  - by constructor.
  - by intros k p ?%not_elem_of_nil.
  - by intros p [? ?].
  - by intros t p u [[= -> ->] _]%lookup_replicate.
  - by intros t p u [[= -> ->] _]%lookup_replicate.
  - by intros k p ?%not_elem_of_nil.
Qed.

Lemma move_inv w a w' : dg_inv w -> dg_move a w = Ok w' -> dg_inv w'.
Proof.
  intros I. destruct w as [g us c l], a as [t p u|t|k|d| |x data]; cbn [dg_move].
  - destruct (us !! t) as [[q v]|] eqn:Hu; [|done]. case_match eqn:Hc; [|done].
    apply andb_true_iff in Hc as [[Hv He]%andb_true_iff Hp%bool_decide_eq_true].
    intros [= <-]. by apply (call_inv (Dg g us c l) t q v p u).
  - destruct (us !! t) as [[p u]|] eqn:Hu; [|done].
    destruct (dg_user_step p u g) as [[u' g']|] eqn:Hst; [|done].
    intros [= <-]. by apply (dg_user_inv (Dg g us c l) t p u).
  - destruct c; try done. destruct (dg_take k g) as [[c' g']|] eqn:Ht; [|done].
    intros [= <-]. by apply (take_inv (Dg g us XIdle l) k).
  - destruct c; try done. intros [= <-]. by apply (come_inv (Dg g us XIdle l)).
  - destruct (dg_proc_step c g) as [[c' g']|] eqn:Hst; [|done].
    intros [= <-]. by apply (dg_proc_inv (Dg g us c l)).
  - intros [= <-]. destruct I. by split.
Qed.

Lemma dg_reachable_inv w : dg_reachable w -> dg_inv w.
Proof. apply dg_reachable_ind; [apply dg_inv_init|intros ??? I; by apply move_inv]. Qed.

(** ** Properties *)

(** What is in the queue of a connection. *)
Definition queue_of (g : go_state) (p : ptr) : list bytes :=
  match pcbs g !! p with
  | Some o => from_option c_buf [] (bchans g !! recvQueued o)
  | None => []
  end.

(** C7: In every run of any number of goroutines over any number of datagram
    connections, with "host" for what the code takes for one, the address bytes of
    [go_cs_ip_get] and a port: what a host has sent is, in order, what was put into
    the queues of the connections accepted for it, one connection after the other,
    and the datagram in hand; what was put into the queue of a connection is what
    its [Read]s took and what is still in the queue; a connection is accepted once;
    and the one in the table is the last that was accepted.  (Two IPv6 hosts with
    the same port and the same bytes in [go_cs_ip_get] are one host here, as they
    are in the code.) *)
Theorem go_udp_streams w :
  dg_reachable w ->
  (forall k, about k (came (dg_logs w)) =
     concat ((fun p => about p (put (dg_logs w))) <$> about k (made (dg_logs w))) ++
     hand_recv k (dg_proc w)) /\
  (forall p, p ∈ (made (dg_logs w)).*2 ->
     about p (put (dg_logs w)) = about p (taken (dg_logs w)) ++ queue_of (dg_gst w) p) /\
  NoDup (made (dg_logs w)).*2 /\
  (forall k p, udpPcbs (dg_gst w) !! k = Some p ->
     last (about k (made (dg_logs w))) = Some p).
Proof.
  intros I%dg_reachable_inv. split_and!; try apply I.
  intros p (o & ch & Ho & Hc & [])%(inv_obj _ _ I). unfold queue_of. by rewrite Ho, Hc.
Qed.

(** What is sent for a connection goes to the address from which its first
    datagram came; the slices it is read from are, in order, a first part of what
    its [Write]s have posted, which is the whole of it but for what waits and, once
    the connection is closed, what was dropped. *)
Theorem go_udp_sends w p o :
  dg_reachable w -> p ∈ (made (dg_logs w)).*2 -> pcbs (dg_gst w) !! p = Some o ->
  Forall (fun x => sg_to x = (remoteIP o, u16 (remotePort o))) (about p (sent (dg_logs w))) /\
  (key_of o, p) ∈ made (dg_logs w) /\
  about p (posted (dg_logs w)) =
    (sg_slice <$> about p (sent (dg_logs w))) ++ about p (dropped (dg_logs w)) ++
    hand_send p (dg_proc w) ++ about p (c_buf (dg_sq (dg_gst w))) /\
  (p_err o = false -> about p (dropped (dg_logs w)) = []).
Proof.
  intros I%dg_reachable_inv ([k q] & -> & Hin)%list_elem_of_fmap Ho. cbn in Ho.
  destruct (di_conn _ I _ _ Hin) as (o' & ch & Ho' & _ & Hk & []). cbn.
  assert (o' = o) as -> by congruence. rewrite Hk. split_and!; try done.
  intros He. destruct (about q (dropped _)); [done|]. by rewrite dc_dropped0 in He.
Qed.

(** A host keeps its connection, and the datagrams it sends go there, until
    somebody closes it - or closes another connection of that host twice. *)
Theorem go_udp_forgets w k p o :
  dg_reachable w -> (k, p) ∈ made (dg_logs w) -> pcbs (dg_gst w) !! p = Some o ->
  udpPcbs (dg_gst w) !! k = Some p \/ p_err o = true \/
  exists p', (k, p') ∈ made (dg_logs w) /\ (2 <= times p' (calls (dg_logs w)))%nat.
Proof.
  intros I%dg_reachable_inv Hin Ho.
  destruct (di_conn _ I _ _ Hin) as (o' & ch & Ho' & _ & _ & []).
  assert (o' = o) as -> by congruence.
  destruct (di_left _ I _ _ Hin) as [?|[?|?]]; [by left| |by right; right].
  right. left. apply dc_err0. lia.
Qed.

(** Where a goroutine of the program waits. *)
Definition user_waits (w : dg) (p : ptr) (u : dg_user) : Prop :=
  match u with
  | DgIdle | DgWrote _ _ | DgRead _ _ | DgClosed _ => True
  | DgWPost _ => (QUEUE <= length (c_buf (dg_sq (dg_gst w))))%nat
  | DgCPost _ => (QUEUE <= length (c_buf (closeQueue (dg_gst w))))%nat
  | DgRTake _ => queue_of (dg_gst w) p = [] /\
      exists o ch, pcbs (dg_gst w) !! p = Some o /\
        bchans (dg_gst w) !! recvQueued o = Some ch /\ c_closed ch = false
  | DgCLock => (0 < in_conn dg_holds p (dg_users w))%nat
  | _ => False
  end.

Lemma user_faults w t p u f :
  dg_inv w -> dg_users w !! t = Some (p, u) -> dg_user_step p u (dg_gst w) = Fault f ->
  f = Blocked /\ user_waits w p u \/
  f = Panicked /\ exists b data l,
    u = DgRTake b /\ queue_of (dg_gst w) p = data :: l /\ (sl_len b < length data)%nat.
Proof.
  intros I Hu Hst. destruct (dg_returned u) eqn:Hr.
  { left. destruct u; try done; cbn in Hst; by injection Hst as <-. }
  destruct (inv_obj _ _ I (di_users _ I _ _ _ Hu Hr)) as (o & ch & Ho & Hc & []).
  pose proof (dg_user_run p u o ch _ Ho Hc) as Hrun. rewrite Hst in Hrun.
  pose proof (in_conn_insert dg_holds p _ _ _ _ p DgIdle Hu) as C1.
  pose proof (in_conn_insert at_chan p _ _ _ _ p DgIdle Hu) as C3.
  rewrite !bool_decide_true in C1, C3 by done.
  destruct (di_sendq _ I) as [Hs1 Hs2], (di_closeq _ I) as [Hk1 Hk2].
  destruct u; cbn in C1, C3, Hrun |- *; try done; unfold queue_of; rewrite ?Ho, ?Hc.
  - rewrite Hs1, Hs2 in Hrun. left. by destruct Hrun as [?|[_ ?]].
  - congruence.
  - destruct Hrun as [(-> & Hb & Hcl)|[-> (data & bs & Hb & Hn)]]; cbn; [left|right].
    + split_and!; [done|done|]. eauto.
    + split; [done|]. by exists b, data, bs.
  - left. destruct Hrun as [-> Hl]. rewrite Hl in dc_lock0. cbn in dc_lock0. split; [done|lia].
  - rewrite Hrun in dc_chan0. destruct (p_err o); cbn in *; lia.
  - rewrite Hrun in dc_lock0. cbn in *; lia.
  - rewrite Hk1, Hk2 in Hrun. left. by destruct Hrun as [?|[_ ?]].
Qed.

Lemma proc_faults w f :
  dg_inv w -> dg_proc_step (dg_proc w) (dg_gst w) = Fault f ->
  f = Blocked /\ (dg_proc w = XIdle \/ exists d p, dg_proc w = XPut d p /\
    (QUEUE <= length (queue_of (dg_gst w) p))%nat) \/
  f = Panicked /\
    ((exists d, dg_proc w = XFind d /\ dg_data d = []) \/
     exists d p o, dg_proc w = XPut d p /\ udpPcbs (dg_gst w) !! dg_key d = Some p /\
       pcbs (dg_gst w) !! p = Some o /\ p_err o = true).
Proof.
  intros I Hst. pose proof (di_proc _ I) as Hok.
  destruct (dg_proc w) as [|d|d|d p|p data|p data|p] eqn:Hp; cbn in Hok.
  - cbn in Hst. left. injection Hst as <-. split; [done|by left].
  - cbn in Hst. destruct (decide _); [|done]. injection Hst as <-. right. eauto.
  - done.
  - assert (Hin : p ∈ (made (dg_logs w)).*2).
    { apply (made_fst (dg_key d)), elem_of_about.
      destruct (proj1 (last_Some _ _) (di_table _ I _ _ Hok)) as [ps ->]. set_solver. }
    destruct (inv_obj _ _ I Hin) as (o & ch & Ho & Hc & []). cbn in Hst.
    unfold mbind, M_bind in Hst.
    rewrite on_go_eq, (at_recvQueued_run _ _ _ _ _ Ho Hc) in Hst.
    pose proof (chan_send_open (dg_data d) ch) as Hs.
    destruct (chan_send _ ch) as [[? ?]|f']; [done|]. injection Hst as ->.
    destruct Hs as [[-> Hl]|[-> Hcl]].
    + left. split; [done|]. right. exists d, p. unfold queue_of. rewrite Ho, Hc. cbn.
      split; [done|]. lia.
    + right. split; [done|]. right. exists d, p, o. split_and!; try done.
      rewrite Hcl in dc_chan0. destruct (p_err o); [done|]. cbn in *; lia.
  - destruct Hok as [Hin _]. destruct (inv_obj _ _ I Hin) as (o & _ & Ho & _).
    cbn in Hst. unfold mbind, M_bind in Hst.
    by rewrite on_go_eq, (at_pcb_at _ _ _ _ Ho) in Hst.
  - destruct Hok as [_ Hd]. cbn in Hst. by rewrite decide_False in Hst.
  - destruct (inv_obj _ _ I Hok) as (o & _ & Ho & _).
    cbn in Hst. unfold mbind, M_bind in Hst.
    by rewrite on_go_eq, (at_pcb_at _ _ _ _ Ho) in Hst.
Qed.

Lemma take_faults w k f :
  dg_inv w -> dg_take k (dg_gst w) = Fault f ->
  f = Blocked /\
  match k with
  | CaseSend => c_buf (dg_sq (dg_gst w)) = []
  | CaseClose => c_buf (closeQueue (dg_gst w)) = []
  | _ => True
  end.
Proof.
  intros I Ht. destruct (di_sendq _ I) as [_ Hs], (di_closeq _ I) as [_ Hk].
  destruct k; cbn in Ht; try (by injection Ht as <-);
    unfold mbind, M_bind, on_go, on_closeQueue, on_sq, zoom, chan_recv in Ht.
  - destruct (c_buf (closeQueue _)); [|done]. rewrite Hk in Ht. by injection Ht as <-.
  - destruct (c_buf (dg_sq _)) as [|[? ?] ?]; [|done]. rewrite Hs in Ht.
    by injection Ht as <-.
Qed.

(** C17: Nothing but Go's waits and panics stops a step, and there are three places
    where one panics: the processing goroutine at a datagram without data and at
    one for a connection that was closed and that it has not forgotten yet, and a
    [Read] whose buffer is too small. *)
Theorem go_udp_panics_only w a f :
  dg_reachable w -> dg_move a w = Fault f ->
  f = Blocked \/
  f = Panicked /\
  ((exists d, a = DgProc /\ dg_proc w = XFind d /\ dg_data d = []) \/
   (exists d p o, a = DgProc /\ dg_proc w = XPut d p /\
      udpPcbs (dg_gst w) !! dg_key d = Some p /\
      pcbs (dg_gst w) !! p = Some o /\ p_err o = true) \/
   (exists t p b data l, a = DgStep t /\ dg_users w !! t = Some (p, DgRTake b) /\
      queue_of (dg_gst w) p = data :: l /\ (sl_len b < length data)%nat)).
Proof.
  intros I%dg_reachable_inv. destruct w as [g us c l], a as [t p u|t|k|d| |x data]; cbn [dg_move].
  - repeat case_match; intros [= <-]; by left.
  - destruct (us !! t) as [[p u]|] eqn:Hu; [|intros [= <-]; by left].
    destruct (dg_user_step p u g) as [[u' g']|f'] eqn:Hst; [done|intros [= <-]].
    destruct (user_faults _ t p u _ I Hu Hst) as [[-> _]|(-> & b & data & bs & -> & ? & ?)];
      [by left|]. right. split; [done|]. right. right. by exists t, p, b, data, bs.
  - destruct c; try (intros [= <-]; by left).
    destruct (dg_take k g) as [[? ?]|f'] eqn:Ht; [done|intros [= <-]].
    left. by eapply (take_faults (Dg g us XIdle l)).
  - destruct c; intros [= <-]; by left.
  - destruct (dg_proc_step c g) as [[? ?]|f'] eqn:Hst; [done|intros [= <-]].
    destruct (proc_faults _ _ I Hst) as [[-> _]|(-> & [(d & ?)|(d & p & o & ?)])];
      [by left|right; split; [done|]..].
    + left. by exists d.
    + right. left. by exists d, p, o.
  - done.
Qed.

(** Steps of goroutines that are in a method, and of the processing goroutine. *)
Definition internal (a : dg_act) : bool :=
  match a with DgStep _ | DgTake _ | DgProc => true | _ => false end.

(** C22: When no goroutine can go on, then either the processing goroutine waits for
    room in the full queue of a connection that nobody is reading, or it is in its
    [select], the queues to it are empty and everybody who is in a method waits in
    a [Read] for a datagram that has not come.  So while somebody is reading every
    connection nothing comes to a stop, whoever calls [Write] and [Close]. *)
Theorem go_udp_no_deadlock w :
  dg_reachable w ->
  (forall a, internal a = true -> dg_move a w = Fault Blocked) ->
  (exists d p, dg_proc w = XPut d p /\ (QUEUE <= length (queue_of (dg_gst w) p))%nat /\
     forall t b, dg_users w !! t <> Some (p, DgRTake b)) \/
  (dg_proc w = XIdle /\ c_buf (dg_sq (dg_gst w)) = [] /\
   c_buf (closeQueue (dg_gst w)) = [] /\
   forall t p u, dg_users w !! t = Some (p, u) -> dg_returned u = false ->
     (exists b, u = DgRTake b) /\ queue_of (dg_gst w) p = [] /\
     exists o, pcbs (dg_gst w) !! p = Some o /\ p_err o = false).
Proof.
  intros I%dg_reachable_inv Hstuck. destruct w as [g us c l].
  assert (Husers : forall t p u, us !! t = Some (p, u) -> user_waits (Dg g us c l) p u).
  { intros t p u Hu. pose proof (Hstuck (DgStep t) eq_refl) as Hb. cbn in Hb. rewrite Hu in Hb.
    destruct (dg_user_step p u g) as [[? ?]|f] eqn:Hst; [done|]. injection Hb as ->.
    by destruct (user_faults _ t p u _ I Hu Hst) as [[_ ?]|[? _]]. }
  pose proof (Hstuck DgProc eq_refl) as Hproc. cbn in Hproc.
  destruct (dg_proc_step c g) as [[? ?]|f] eqn:Hst; [done|]. injection Hproc as ->.
  destruct (proc_faults _ _ I Hst) as [[_ [Hc|(d & p & Hc & Hfull)]]|[? _]]; [..|done];
    cbn in Hc; subst c.
  - right. assert (Hq : forall k, dg_take k g = Fault Blocked).
    { intros k. pose proof (Hstuck (DgTake k) eq_refl) as Ht. cbn in Ht.
      destruct (dg_take k g) as [[? ?]|]; [done|congruence]. }
    destruct (take_faults _ _ _ I (Hq CaseSend)) as [_ Hs].
    destruct (take_faults _ _ _ I (Hq CaseClose)) as [_ Hk]. cbn in Hs, Hk.
    split_and!; try done. intros t p u Hu Hr. pose proof (Husers _ _ _ Hu) as Hw.
    destruct u; cbn in Hw; try done.
    + rewrite Hs in Hw. cbn in Hw. unfold QUEUE in Hw. lia.
    + destruct Hw as (Hw & o & ch & Ho & Hc & Hcl). split_and!; [eauto|done|].
      destruct (inv_obj _ _ I (di_users _ I _ _ _ Hu Hr)) as (o' & ch' & Ho' & Hc' & []).
      cbn in *. assert (o' = o) as -> by congruence. assert (ch' = ch) as -> by congruence.
      exists o. split; [done|]. destruct (p_err o); [|done]. exfalso.
      rewrite Hcl in dc_chan0. cbn in dc_chan0.
      destruct (in_conn_pos at_chan p us ltac:(lia)) as (t' & u & Hu' & Hat).
      pose proof (Husers _ _ _ Hu') as Hx. by destruct u.
    + destruct (in_conn_pos _ _ _ Hw) as (t' & u & Hu' & Hat).
      pose proof (Husers _ _ _ Hu') as Hx. by destruct u.
    + rewrite Hk in Hw. cbn in Hw. unfold QUEUE in Hw. lia.
  - left. exists d, p. split_and!; [done..|]. cbn in *. intros t n Hu.
    destruct (Husers _ _ _ Hu) as [He _]. cbn in He. rewrite He in Hfull.
    cbn in Hfull. unfold QUEUE in Hfull. lia.
Qed.
(** A connection that is not the last one of its host gets nothing any more. *)
Definition outdated (k : bytes * Z) (p : ptr) (l : dg_log) : Prop :=
  (k, p) ∈ made l /\ last (about k (made l)) <> Some p.

Lemma outdated_move w a w' k p :
  dg_inv w -> dg_move a w = Ok w' -> outdated k p (dg_logs w) ->
  about p (put (dg_logs w')) = about p (put (dg_logs w)) /\ outdated k p (dg_logs w').
Proof.
  intros I Ha [Hin Hl]. pose proof (move_inv _ _ _ I Ha) as I'.
  destruct w as [g us c l], a as [t q u|t|n|d| |x data]; cbn [dg_move] in Ha.
  - repeat case_match; try done. by injection Ha as <-.
  - repeat case_match; try done. by injection Ha as <-.
  - repeat case_match; try done. by injection Ha as <-.
  - repeat case_match; try done. by injection Ha as <-.
  - destruct (dg_proc_step c g) as [[c' g']|] eqn:Hst; [|done]. injection Ha as <-.
    destruct c as [|d|d|d q|q data|q data|q]; try done; cbn [dg_logs dg_proc] in *.
    + cbn in Hst. injection Hst as <- _. cbn in *.
      split; [done|]. split; cbn; [apply elem_of_app; by left|].
      rewrite about_app. destruct (decide (dg_key d = k)) as [<-|Hne].
      * rewrite about_here, last_snoc. intros [= Heq].
        pose proof (di_nodup _ I') as Hnd. cbn in Hnd. rewrite fmap_app in Hnd.
        apply NoDup_app in Hnd as (_ & Hnd & _). eapply (Hnd p).
        -- by eapply (made_fst (dg_key d)).
        -- rewrite <- Heq. by left.
      * by rewrite about_other, app_nil_r.
    + cbn. split; [|done]. rewrite about_app, about_other, app_nil_r; [done|]. intros ->.
      pose proof (di_proc _ I) as Hr. cbn in Hr. pose proof (di_table _ I _ _ Hr) as Ht.
      cbn in Ht. assert (dg_key d = k) as <-; [|done].
      apply (made_host l _ _ p (di_nodup _ I)); [|done].
      apply elem_of_about. destruct (proj1 (last_Some _ _) Ht) as [ps ->]. set_solver.
    + cbn. by destruct c'.
  - by injection Ha as <-.
Qed.

Lemma outdated_moves acts w w' k p :
  dg_inv w -> dg_moves acts w = Ok w' -> outdated k p (dg_logs w) ->
  about p (put (dg_logs w')) = about p (put (dg_logs w)).
Proof.
  revert w. induction acts as [|a acts IH]; intros w I; cbn; [by intros [= ->]|].
  destruct (dg_move a w) as [w1|] eqn:Ha; [|done]. intros Hm Ho.
  destruct (outdated_move _ _ _ _ _ I Ha Ho) as [<- Ho1].
  apply IH; [by eapply move_inv|done..].
Qed.

End machine.

(** ** Run alone

    The steps of one goroutine together are the methods and functions of
    [GoBind]; there the entries of [sendQueue] have the bytes that the slices have
    now. *)
Definition loaded (m : mem) (c : chan (ptr * slice)) : chan (ptr * bytes) :=
  Chan (c_cap c) ((fun x => (x.1, load m x.2)) <$> c_buf c) (c_closed c).
Definition binding (s : shared) : go_state :=
  set_sendQueue (loaded (dg_mem s) (dg_sq s)) (dg_go s).

(** What a run of steps is in the binding. *)
Definition bound {X} (r : outcome (X * shared)) : outcome (X * go_state) :=
  match r with Ok (x, s) => Ok (x, binding s) | Fault f => Fault f end.

(** What does not use [sendQueue] is the same there. *)
Lemma bound_at_pcb {X} p (m : P X) s : at_pcb p m (binding s) = bound (on_go (at_pcb p m) s).
Proof.
  destruct s as [[] sq mm]. unfold bound, on_go, at_pcb, zoom, at_key. cbn.
  destruct (_ !! p) as [o|]; [|done]. by destruct (m o) as [[]|].
Qed.

Lemma bound_at_recvQueued {X} p (m : M (chan bytes) X) s :
  at_recvQueued p m (binding s) = bound (on_go (at_recvQueued p m) s).
Proof.
  destruct s as [[] sq mm]. unfold bound, on_go, at_recvQueued, mbind, M_bind, at_pcb, at_bchan,
    zoom, at_key. cbn.
  destruct (_ !! p) as [o|]; [|done]. cbn. destruct (_ !! recvQueued o) as [c|]; [|done].
  by destruct (m c) as [[]|].
Qed.

Lemma bound_on_closeQueue {X} (m : M (chan ptr) X) s :
  on_closeQueue m (binding s) = bound (on_go (on_closeQueue m) s).
Proof.
  destruct s as [[] sq mm]. unfold bound, on_go, on_closeQueue, zoom. cbn.
  by destruct (m _) as [[]|].
Qed.

Lemma bound_newPCB t arg u st la ra lp rp s :
  newPCB t arg u st la ra lp rp (binding s) = bound (on_go (newPCB t arg u st la ra lp rp) s).
Proof. by destruct s as [[] sq mm]. Qed.

Lemma bound_send p b s :
  on_sendQueue (chan_send (p, load (dg_mem s) b)) (binding s) =
    bound (on_sq (chan_send (p, b)) s).
Proof.
  destruct s as [[] sq mm]. unfold bound, on_sq, on_sendQueue, zoom, chan_send. cbn.
  rewrite length_fmap. destruct (c_closed sq); [done|]. case_decide; [|done].
  cbn. unfold binding, loaded. cbn. by rewrite fmap_app.
Qed.

Lemma bound_bind {X Y} (m : M shared X) (k : X -> M shared Y) (m' : G X) (k' : X -> G Y) s :
  m' (binding s) = bound (m s) ->
  (forall x s', m s = Ok (x, s') -> k' x (binding s') = bound (k x s')) ->
  (m' ≫= k') (binding s) = bound ((m ≫= k) s).
Proof.
  intros Hm Hk. unfold mbind, M_bind. rewrite Hm. destruct (m s) as [[x s']|]; [|done].
  by apply Hk.
Qed.

Section alone.
Context (p : ptr).

Fixpoint dg_user_alone (n : nat) (u : dg_user) : M shared dg_user :=
  match n with
  | O => mret u
  | S n => if dg_returned u then mret u else u' ← dg_user_step p u; dg_user_alone n u'
  end.

Lemma dg_alone_S n u s :
  dg_returned u = false ->
  dg_user_alone (S n) u s =
    match dg_user_step p u s with
    | Ok (u', s') => dg_user_alone n u' s'
    | Fault f => Fault f
    end.
Proof. intros Hr. cbn [dg_user_alone]. by rewrite Hr. Qed.

Lemma at_pcb_field {X} (f : PCB -> X) g :
  at_pcb p (gets f) g =
    match at_pcb p (gets id) g with
    | Ok (o, g') => Ok (f o, g')
    | Fault x => Fault x
    end.
Proof. unfold at_pcb, zoom, at_key. by destruct (pcbs g !! p). Qed.

Ltac dg_next :=
  rewrite ?dg_alone_S by done; cbn [dg_user_step]; unfold mbind, M_bind, mret, M_ret;
  rewrite ?on_go_run, ?(at_pcb_field p_err), ?(at_pcb_field recvInter); cbn beta iota.

(** [Write] of some data for a datagram connection. *)
Lemma Write_some b o (s : shared) :
  pcbs s !! p = Some o -> p_type o = UDP -> b <> [] ->
  (x ← Write p b; mret (DgWrote x.1 x.2)) (binding s) =
    ((if p_err o then mret tt else on_sendQueue (chan_send (p, b)));;
     err ← at_pcb p (gets p_err); mret (DgWrote (Z.of_nat (length b)) err)) (binding s).
Proof.
  intros Ho Ht Hb. assert (Hn : p_type o <> TCP) by by rewrite Ht.
  destruct b as [|z b]; [done|]. unfold Write. set (l := Z.of_nat _). clearbody l.
  unfold mbind, M_bind. rewrite (at_pcb_get_run _ _ (binding s) Ho).
  destruct (p_err o); unfold mret, M_ret.
  - rewrite (at_pcb_field p_err). by destruct (at_pcb p (gets id) _) as [[]|].
  - rewrite !(decide_False _ _ Hn). destruct (on_sendQueue _ _) as [[[] g]|]; [|done].
    rewrite (at_pcb_field p_err). by destruct (at_pcb p (gets id) _) as [[]|].
Qed.

(** A goroutine that runs [Write], [Read] or [Close] of a datagram connection to
    its end, or to where it waits or panics, without a step of another one, does
    what the method does as a whole. *)
Theorem go_udp_write_alone o b (s : shared) :
  pcbs s !! p = Some o -> p_type o = UDP -> sl_len b <> 0%nat ->
  bound (dg_user_alone 3 (DgWErr b) s) =
    (x ← Write p (load (dg_mem s) b); mret (DgWrote x.1 x.2)) (binding s).
Proof.
  intros Ho Ht Hb. assert (Hn : p_type o <> TCP) by by rewrite Ht.
  assert (Hl : length (load (dg_mem s) b) = sl_len b)
    by (unfold load; by rewrite length_fmap, length_seq).
  assert (Hfirst : dg_user_step p (DgWErr b) s =
    Ok (if p_err o then DgWDone b else DgWPost b, s)).
  { cbn [dg_user_step]. unfold mbind, M_bind.
    rewrite on_go_eq, at_pcb_field, (at_pcb_get_run _ _ _ Ho). cbn. by destruct s. }
  assert (Hdone : forall n s', bound (dg_user_alone (S n) (DgWDone b) s') =
    (err ← at_pcb p (gets p_err); mret (DgWrote (Z.of_nat (sl_len b)) err)) (binding s')).
  { intros n s'. rewrite dg_alone_S by done. cbn [dg_user_step].
    unfold mbind, M_bind. rewrite bound_at_pcb.
    destruct (on_go _ s') as [[]|]; [by destruct n|done]. }
  assert (Hne : load (dg_mem s) b <> []) by (intros He; by rewrite He in Hl).
  rewrite (Write_some _ o s Ho Ht Hne), Hl, dg_alone_S, Hfirst by done.
  destruct (p_err o); rewrite ?dg_alone_S by done.
  - specialize (Hdone 1%nat s). by rewrite dg_alone_S in Hdone.
  - cbn [dg_user_step]. unfold mbind, M_bind in *. rewrite bound_send.
    destruct (on_sq _ s) as [[[] s']|]; [|done]. apply Hdone.
Qed.

Theorem go_udp_read_alone o b (s : shared) :
  pcbs s !! p = Some o -> p_type o = UDP -> recvInter o = false ->
  dg_user_alone 4 (DgRInter b) s =
    match Read p (sl_len b) (dg_go s) with
    | Ok ((data, err), g) =>
        Ok (DgRead (length data) err, Shared g (dg_sq s) (store (sl_ptr b) data (dg_mem s)))
    | Fault f => Fault f
    end.
Proof.
  intros Ho Ht Hi. assert (Hn : p_type o <> TCP) by by rewrite Ht.
  destruct s as [g sq m]. cbn [dg_go dg_sq dg_mem] in *. unfold Read. dg_next.
  rewrite !(at_pcb_get_run _ _ _ Ho), Hi. dg_next.
  rewrite !(at_pcb_get_run _ _ _ Ho).
  destruct (p_err o); [by rewrite store_nil|]. dg_next.
  destruct (at_recvQueued p chan_recv g) as [[r g1]|]; [|done].
  destruct r as [[|z b']|]; dg_next.
  - destruct (at_pcb p (gets id) g1) as [[? ?]|]; [|done]. by rewrite store_nil.
  - case_decide; [done|]. by rewrite (decide_False _ _ Hn).
  - destruct (at_pcb p (gets id) g1) as [[? ?]|]; [|done]. by rewrite store_nil.
Qed.

Theorem go_udp_close_alone o (s : shared) :
  pcbs s !! p = Some o -> p_type o = UDP -> recvInter o = false ->
  dg_user_alone 6 DgCLock s = on_go (x ← Close p; mret (DgClosed x)) s.
Proof.
  intros Ho Ht Hi. assert (Hn : p_type o <> TCP) by by rewrite Ht.
  destruct s as [g sq m]. cbn in Ho. unfold Close, close. dg_next.
  rewrite !(at_pcb_at p o lock _ Ho). unfold lock. destruct (lck o); [done|].
  dg_next. rewrite !(at_pcb_get_run p (with_lck true o)) by apply lookup_insert_eq.
  cbn [p_err with_lck]. destruct (p_err o).
  { dg_next. destruct (at_pcb p unlock _) as [[[] g1]|]; [|done]. dg_next.
    by destruct (on_closeQueue _ g1) as [[[] g2]|]. }
  dg_next.
  destruct (at_pcb p (modify (with_err true)) _) as [[[] g1]|]; [|done]. dg_next.
  cbn [recvInter p_type with_lck]. rewrite Hi, !(decide_False _ _ Hn).
  destruct (at_recvQueued p chan_close g1) as [[[] g2]|]; [|done]. dg_next.
  destruct (at_pcb p unlock g2) as [[[] g4]|]; [|done]. dg_next.
  by destruct (on_closeQueue _ g4) as [[[] g5]|].
Qed.
End alone.

Fixpoint dg_proc_alone (get : ip_addr -> bytes) (n : nat) (c : dg_pc) : M shared dg_pc :=
  match n, c with
  | O, _ | _, XIdle => mret c
  | S n, _ => c' ← dg_proc_step get c; dg_proc_alone get n c'
  end.

Lemma dg_proc_alone_S get n c s :
  c <> XIdle ->
  dg_proc_alone get (S n) c s =
    match dg_proc_step get c s with
    | Ok (c', s') => dg_proc_alone get n c' s'
    | Fault f => Fault f
    end.
Proof. by destruct c. Qed.

Section calls.
Context {St : Type} `{!Lwip St, !LwipLaws St, !LwipUdp St, !LwipTcpAddr St}.
Context (go_cs_ : go_cs_callback St go_state).
Context (Hcopy : g_pbuf_copy go_cs_ =
  Some (fun p len off => lift (pbuf_copy_partial p len off))).
Context (get : ip_addr -> bytes) (Hget : g_ip_get go_cs_ = Some get).

(** What a run of Go's steps is in a run of the program. *)
Definition on_binding {X Y} (x : X) (r : outcome (Y * shared)) (w : world St go_state)
    : outcome (X * world St go_state) :=
  match r with
  | Ok (_, s) => Ok (x, with_app (binding s) w)
  | Fault f => Fault f
  end.

Lemma run_go {X} (m : G X) (w : world St go_state) r g :
  m (app w) = Ok (r, g) -> go m w = Ok (r, with_app g w).
Proof. intros Hm. unfold go, zoom. by rewrite Hm. Qed.

(** A datagram goes into the queue of its connection. *)
Lemma put_alone n d p s (w : world St go_state) :
  (go (at_recvQueued p (chan_send (dg_data d)));; mret 0) (with_app (binding s) w) =
    on_binding 0 (dg_proc_alone get (Datatypes.S n) (XPut d p) s) w.
Proof.
  rewrite dg_proc_alone_S by done. cbn [dg_proc_step]. unfold mbind, M_bind, go, zoom.
  cbn [app with_app]. rewrite bound_at_recvQueued.
  destruct (on_go _ s) as [[[] s']|]; [by destruct n|done].
Qed.

(** [go_udp_recv_h] on a packet that lwIP hands over, without a handler of
    events. *)
Theorem go_udp_recv_alone arg u a port buf w s cs r :
  owned (pbufs (view (lw w))) cs -> chain_head cs = Some buf -> udps w !! u = Some r ->
  app w = binding s ->
  go_udp_recv_h (Some go_cs_) None arg u a port buf w =
    on_binding 0 (dg_proc_alone get 3 (XFind (Datagram arg u (local_ip r) (local_port r)
      a port (chain_data cs))) s) w.
Proof.
  intros Hown Hh Hu Hs. unfold go_udp_recv_h. set (d := Datagram _ _ _ _ _ _ _).
  pose proof (pbuf_bytes_run go_cs_ Hcopy _ _ _ Hown Hh) as Hp.
  assert (Hw : with_app (binding s) w = w) by (rewrite <- Hs; by destruct w).
  assert (Hgu : upcb_get u w = Ok (r, w)).
  { unfold upcb_get. erewrite bind_Ok by done. by rewrite Hu. }
  assert (Hfind : dg_proc_step get (XFind d) s =
    if decide (chain_data cs = []) then Fault Panicked
    else Ok (match udpPcbs (app w) !! host_key get a port with
             | Some p => XPut d p
             | None => XNew d
             end, s)) by (rewrite Hs; cbn; by destruct (decide _)).
  rewrite dg_proc_alone_S, Hfind by done. destruct (decide (chain_data cs = [])) as [He|He].
  { by rewrite (bind_Fault _ _ _ _ Hp). }
  rewrite (bind_Ok _ _ _ _ _ Hp). erewrite bind_Ok by (by apply ip_bytes_run).
  erewrite bind_Ok by done. fold (host_key get a port).
  destruct (udpPcbs (app w) !! host_key get a port) as [p|].
  - erewrite bind_Ok by done. rewrite <- Hw at 1. apply (put_alone 1 d).
  - rewrite dg_proc_alone_S by done.
    set (f := fun p (g : go_state) => set_udpPcbs (<[host_key get a port := p]> (udpPcbs g)) g).
    pose proof (bound_newPCB UDP arg u None (local_ip r) a (local_port r) port s) as Hnew.
    assert (Hstep : dg_proc_step get (XNew d) s =
      match on_go (newPCB UDP arg u None (local_ip r) a (local_port r) port) s with
      | Ok (p, s') => Ok (XPut d p, set_go (f p s') s')
      | Fault x => Fault x
      end) by done.
    rewrite Hstep. destruct (on_go _ s) as [[p s1]|] eqn:Hon; [|done]. cbn [bound] in Hnew.
    rewrite <- Hs in Hnew. rewrite <- (put_alone 0).
    pose proof (run_go _ _ _ _ Hnew) as Hgo.
    unfold go_cs_udp_local_ip, go_cs_udp_local_port.
    erewrite bind_Ok; [reflexivity|].
    erewrite bind_Ok by (by erewrite bind_Ok by exact Hgu).
    erewrite bind_Ok by (by erewrite bind_Ok by exact Hgu).
    by erewrite bind_Ok by exact Hgo.
Qed.

(** The turns of the loop that take an entry of a datagram connection: the one of
    [closeQueue], and the one of [sendQueue], which reads the slice as it calls C. *)
Definition udp_at (p : ptr) (g : go_state) : Prop :=
  exists o, pcbs g !! p = Some o /\ p_type o = UDP.

Theorem go_udp_close_turn netif w s :
  app w = binding s -> Forall (fun p => udp_at p s) (c_buf (closeQueue s)) ->
  proc_turn (Some go_cs_) netif CaseClose w =
    on_binding tt ((c ← dg_take CaseClose; dg_proc_alone get 1 c) s) w.
Proof.
  intros Hs Hk. unfold proc_turn, dg_take.
  pose proof (bound_on_closeQueue chan_recv s) as Hr. rewrite <- Hs in Hr.
  destruct (c_buf (closeQueue s)) as [|p l] eqn:Hb.
  { assert (Hf : on_go (on_closeQueue chan_recv) s =
      if c_closed (closeQueue s) then on_go (on_closeQueue chan_recv) s else Fault Blocked).
    { unfold on_go, on_closeQueue, zoom, chan_recv. rewrite Hb. by destruct (c_closed _). }
    unfold mbind, M_bind, go, zoom. rewrite Hr. unfold on_go, on_closeQueue, zoom, chan_recv.
    rewrite Hb. by destruct (c_closed (closeQueue s)). }
  apply Forall_cons in Hk as [(o & Ho & Ht) _].
  set (s1 := set_go (set_closeQueue
    (Chan (c_cap (closeQueue s)) l (c_closed (closeQueue s))) s) s).
  assert (Hr1 : on_go (on_closeQueue chan_recv) s = Ok (Some p, s1))
    by (unfold on_go, on_closeQueue, zoom, chan_recv; by rewrite Hb).
  rewrite Hr1 in Hr. cbn [bound] in Hr. assert (Hog : pcbs (binding s1) !! p = Some o) by done.
  erewrite bind_Ok by (apply run_go, Hr). erewrite bind_Ok by done.
  erewrite bind_Ok by (by apply go_get_run). rewrite decide_False by by rewrite Ht.
  unfold RemoteAddr.
  erewrite bind_Ok.
  2: { erewrite bind_Ok by (by apply go_get_run). by erewrite bind_Ok by (by apply ip_bytes_run). }
  unfold on_binding.
  erewrite (bind_Ok (c ← _; _)); [|by erewrite bind_Ok by exact Hr1].
  cbn [dg_proc_alone dg_proc_step]. unfold mbind, M_bind.
  by rewrite on_go_eq, (at_pcb_get_run p o).
Qed.

Theorem go_udp_send_turn netif w s :
  app w = binding s -> Forall (fun x => udp_at x.1 s) (c_buf (dg_sq s)) ->
  proc_turn (Some go_cs_) netif CaseSend w =
    match (c ← dg_take CaseSend; dg_proc_step get c) s with
    | Ok (XUdpSend p data, s') =>
        (o ← go (at_pcb p (gets id));
         _ ← udpSend (Some go_cs_) (p_pcb o) (localIP o) (localPort o) (remoteIP o)
               (remotePort o) (load (dg_mem s') data);
         mret tt) (with_app (binding s') w)
    | Ok (_, s') => Ok (tt, with_app (binding s') w)
    | Fault f => Fault f
    end.
Proof.
  intros Hs Hq. unfold proc_turn, dg_take.
  destruct (c_buf (dg_sq s)) as [|[p data] l] eqn:Hb.
  { unfold mbind, M_bind, go, on_sendQueue, on_sq, zoom, chan_recv. rewrite Hs. cbn.
    rewrite Hb. cbn. by destruct (c_closed (dg_sq s)). }
  apply Forall_cons in Hq as [(o & Ho & Ht) _]. cbn in Ho.
  set (s1 := set_sq (Chan (c_cap (dg_sq s)) l (c_closed (dg_sq s))) s).
  assert (Hr1 : on_sq chan_recv s = Ok (Some (p, data), s1))
    by (unfold on_sq, zoom, chan_recv; by rewrite Hb).
  assert (Hr : on_sendQueue chan_recv (app w) =
    Ok (Some (p, load (dg_mem s1) data), binding s1)).
  { rewrite Hs. unfold on_sendQueue, zoom, chan_recv. cbn. by rewrite Hb. }
  assert (Hog : pcbs (binding s1) !! p = Some o) by done.
  erewrite bind_Ok by (apply run_go, Hr). erewrite bind_Ok by done.
  unfold Send. erewrite bind_Ok by (by apply go_get_run).
  assert (Hst : (c ← (r ← on_sq chan_recv; '(p, data) ← deref r; mret (XSendErr p data));
      dg_proc_step get c) s = Ok (if p_err o then XIdle else XUdpSend p data, s1)).
  { erewrite bind_Ok by (by erewrite bind_Ok by exact Hr1).
    cbn [dg_proc_step]. unfold mbind, M_bind. rewrite on_go_eq, (at_pcb_at p o) by done.
    cbn. rewrite insert_id by done. unfold mret, M_ret. f_equal. f_equal.
    by destruct s as [[]]. }
  rewrite Hst. destruct (p_err o); [done|].
  rewrite decide_False by by rewrite Ht. by erewrite (bind_Ok (go _)) by (by apply go_get_run).
Qed.
End calls.

(** ** A connection that is closed twice

    Two goroutines may both close a connection - or one goroutine, a second time in a
    deferred call: every [Close] leaves an entry in [closeQueue], and the loop
    deletes whatever connection the host has when it takes the entry. *)
Definition test_get : ip_addr -> bytes := cs_ip_get true.

(** A datagram from 6.0.0.0, port 80, for a connection that is there and for a new
    one; a [Close] of the first connection, and one when it is closed already. *)
Definition test_datagram (x : Z) : datagram :=
  Datagram None 50 (IPv4 1) 53 (IPv4 6) 80 [x].
Definition come_known (x : Z) : list dg_act := [DgCome (test_datagram x); DgProc; DgProc].
Definition come_new (x : Z) : list dg_act := come_known x ++ [DgProc].
Definition close_first : list dg_act := DgCall 0 1 DgCLock :: replicate 6 (DgStep 0).
Definition close_again : list dg_act := DgCall 0 1 DgCLock :: replicate 4 (DgStep 0).
Definition forget : list dg_act := [DgTake CaseClose; DgProc].

Definition twice_acts : list dg_act :=
  come_new 1 ++ close_first ++ close_again ++ forget ++ come_new 2 ++ forget ++ come_new 3.
Definition run_acts (acts : list dg_act) : dg :=
  match dg_moves test_get acts (dg0 1) with Ok w => w | Fault _ => dg0 1 end.

Lemma run_acts_reachable acts :
  (if dg_moves test_get acts (dg0 1) is Ok _ then true else false) = true ->
  dg_reachable test_get (run_acts acts).
Proof.
  unfold run_acts. destruct (dg_moves _ acts _) as [w|] eqn:Hm; [|done].
  intros _. by exists 1%nat, acts.
Qed.

(** C32: Closing at the wrong time takes datagrams from others or brings the program
    down.  When a connection is closed twice the loop can forget the connection
    that its host got in between: that one is open, nobody has closed it, and
    whatever happens it never gets another datagram; those of its host go to a
    third connection.  And a datagram that comes between a [Close] and the turn of
    the loop that forgets the connection makes the goroutine that runs the stack
    panic. *)
Theorem go_udp_close_races :
  (exists w k p1 p2 p3 o, dg_reachable test_get w /\
     about k (made (dg_logs w)) = [p1; p2; p3] /\
     pcbs (dg_gst w) !! p2 = Some o /\ p_err o = false /\
     times p2 (calls (dg_logs w)) = 0%nat /\
     udpPcbs (dg_gst w) !! k = Some p3 /\
     forall acts w', dg_moves test_get acts w = Ok w' ->
       about p2 (put (dg_logs w')) = about p2 (put (dg_logs w))) /\
  (exists w, dg_reachable test_get w /\ Forall (fun x => x.2 <> []) (came (dg_logs w)) /\
     dg_move test_get DgProc w = Fault Panicked).
Proof.
  split.
  - set (k := dg_key test_get (test_datagram 1)).
    assert (Hr : dg_reachable test_get (run_acts twice_acts))
      by (apply run_acts_reachable; by vm_compute).
    eexists (run_acts twice_acts), k, 1%positive, 2%positive, 3%positive, _.
    split; [done|]. split; [by vm_compute|]. split; [vm_compute; reflexivity|].
    split; [done|]. split; [by vm_compute|].
    split; [by vm_compute|]. intros acts w' Hm. eapply outdated_moves; [|done|].
    + by apply dg_reachable_inv.
    + instantiate (1 := k). split; [refine (bool_decide_unpack _ _)|]; by vm_compute.
  - exists (run_acts (come_new 1 ++ close_first ++ [DgCome (test_datagram 2); DgProc])).
    split; [apply run_acts_reachable; by vm_compute|]. split; [|by vm_compute].
    vm_compute. by repeat constructor.
Qed.

(** ** Witnesses *)

(** Two datagrams, of which one is read, then a [Close] and two more; and a
    goroutine that waits in a [Read]. *)
Definition read_one : list dg_act := DgCall 0 1 (DgRInter (Slice 0 1518)) :: replicate 3 (DgStep 0).
Definition test_acts : list dg_act :=
  come_new 1 ++ come_known 2 ++ read_one ++ close_first ++ forget ++
  come_new 3 ++ [DgCome (test_datagram 4); DgProc].
Definition wait_acts : list dg_act := come_new 1 ++ read_one ++ take 3 read_one.
Definition empty_acts : list dg_act :=
  [DgCome (Datagram None 50 (IPv4 1) 53 (IPv4 6) 80 [])].

Definition test_key : bytes * Z := dg_key test_get (test_datagram 1).

Lemma test_acts_run :
  let w := run_acts test_acts in
  about test_key (made (dg_logs w)) = [1%positive; 2%positive] /\
  about 1%positive (taken (dg_logs w)) = [[1]] /\
  queue_of (dg_gst w) 1%positive = [[2]] /\ queue_of (dg_gst w) 2%positive = [[3]] /\
  hand_recv test_get test_key (dg_proc w) = [[4]].
Proof. by vm_compute. Qed.

Lemma go_udp_streams_witness :
  let w := run_acts test_acts in
  dg_reachable test_get w /\
  about test_key (came (dg_logs w)) =
    concat ((fun p => about p (put (dg_logs w))) <$> about test_key (made (dg_logs w))) ++
    hand_recv test_get test_key (dg_proc w).
Proof.
  cbn zeta. assert (H : dg_reachable test_get (run_acts test_acts))
    by (apply run_acts_reachable; by vm_compute).
  split; [exact H|]. apply (go_udp_streams test_get (run_acts test_acts) H).
Defined.

Lemma go_udp_panics_only_witness :
  let w := run_acts empty_acts in
  dg_move test_get DgProc w = Fault Panicked /\
  (Panicked = Blocked \/
   Panicked = Panicked /\
   ((exists d, DgProc = DgProc /\ dg_proc w = XFind d /\ dg_data d = []) \/
    (exists d p o, DgProc = DgProc /\ dg_proc w = XPut d p /\
       udpPcbs (dg_gst w) !! dg_key test_get d = Some p /\
       pcbs (dg_gst w) !! p = Some o /\ p_err o = true) \/
    (exists t p b data l, DgProc = DgStep t /\ dg_users w !! t = Some (p, DgRTake b) /\
       queue_of (dg_gst w) p = data :: l /\ (sl_len b < length data)%nat))).
Proof.
  cbn zeta. assert (Hm : dg_move test_get DgProc (run_acts empty_acts) = Fault Panicked)
    by by vm_compute.
  split; [exact Hm|].
  apply (go_udp_panics_only test_get (run_acts empty_acts) DgProc Panicked); [|exact Hm].
  apply run_acts_reachable. by vm_compute.
Defined.

Lemma go_udp_no_deadlock_witness :
  let w := run_acts wait_acts in
  (exists d p, dg_proc w = XPut d p /\ (QUEUE <= length (queue_of (dg_gst w) p))%nat /\
     forall t b, dg_users w !! t <> Some (p, DgRTake b)) \/
  (dg_proc w = XIdle /\ c_buf (dg_sq (dg_gst w)) = [] /\
   c_buf (closeQueue (dg_gst w)) = [] /\
   forall t p u, dg_users w !! t = Some (p, u) -> dg_returned u = false ->
     (exists b, u = DgRTake b) /\ queue_of (dg_gst w) p = [] /\
     exists o, pcbs (dg_gst w) !! p = Some o /\ p_err o = false).
Proof.
  apply (go_udp_no_deadlock test_get (run_acts wait_acts)).
  - apply run_acts_reachable. by vm_compute.
  - intros [?|[|t]|[]| | |?] H; try discriminate H; by vm_compute.
Defined.
