(* ===== verification/GoUdpEcho.v ===== *)
(** * The echo application in Go, for datagrams

    [OnAccept] of src/echo/echo.go starts the same goroutine for a datagram
    connection as for a TCP one: [io.Copy(pcb, pcb)].  Here each connection of the
    machine of [GoUdp] has its goroutine, which calls what [io.Copy] calls, with
    the one buffer that [io.Copy] has, and nobody closes a connection.  What is sent
    back is what [udpSend] hands to C, which may drop it for want of memory.  Proved: each
    host has one connection, and as many datagrams as it has sent, of the same
    lengths, are sent back to it or on their way; what is sent is what the buffer
    has by then, which is the datagram itself for a host that waits for each echo;
    one that does not can get a later datagram in the place of an earlier one; and
    one that sends fast enough brings the whole stack to a stop. *)

From S2P Require Import Prelude Lwip Cs Udp Netif GoChan GoBind GoApp GoConc GoEcho GoUdp.
Local Open Scope Z_scope.

#[export] Instance slice_eq_dec : EqDecision slice.
Proof. solve_decision. Defined.

#[export] Instance dg_user_eq_dec : EqDecision dg_user.
Proof. solve_decision. Defined.

(** Each call of [io.Copy] has a buffer of its own, which it uses from the start for
    every [Read] and [Write]. *)
Definition copy_at (t : nat) : Z := Z.of_nat t * Z.of_nat copy_buffer.

(** The next call of [io.Copy] in the goroutine of [OnAccept], number [t], if any:
    with data the loop writes them before it looks at the error of [Read], and an
    error of either ends it. *)
Definition OnAccept_udp_next (t : nat) (u : dg_user) : option dg_user :=
  match u with
  | DgIdle => Some (DgRInter (Slice (copy_at t) copy_buffer))
  | DgRead (S l) _ => Some (DgWErr (Slice (copy_at t) (S l)))
  | DgRead O err | DgWrote _ err =>
      if err : bool then None else Some (DgRInter (Slice (copy_at t) copy_buffer))
  | _ => None
  end.

(** The goroutine [t] is that of the connection accepted as number [t], and nobody
    else writes to its buffer. *)
Definition echo_allows (w : dg) (a : dg_act) : bool :=
  match a with
  | DgCall t p u =>
      match made (dg_logs w) !! t, dg_users w !! t with
      | Some (_, q), Some (_, v) =>
          bool_decide (q = p) && bool_decide (OnAccept_udp_next t v = Some u)
      | _, _ => false
      end
  | DgStore _ _ => false
  | _ => true
  end.

(** The slice that a goroutine has filled and not yet posted. *)
Definition held (t : nat) (u : dg_user) : list slice :=
  match u with
  | DgRead (S l) _ => [Slice (copy_at t) (S l)]
  | DgWErr b | DgWPost b => [b]
  | _ => []
  end.

(** What a buffer has from its start on after datagrams were read into it. *)
Definition overlay (ds : list bytes) : bytes :=
  foldl (fun buf d => d ++ drop (length d) buf) [] ds.
Arguments overlay ds : simpl never.

Lemma overlay_snoc ds d : overlay (ds ++ [d]) = d ++ drop (length d) (overlay ds).
Proof. unfold overlay. by rewrite foldl_app. Qed.

Lemma overlay_length ds d : d ∈ ds -> (length d <= length (overlay ds))%nat.
Proof.
  induction ds as [|x ds IH] using rev_ind; [by intros ?%not_elem_of_nil|].
  rewrite overlay_snoc, length_app, length_drop.
  intros [Hd%IH| ->%list_elem_of_singleton]%elem_of_app; lia.
Qed.

Lemma overlay_bound n ds :
  Forall (fun d => length d <= n)%nat ds -> (length (overlay ds) <= n)%nat.
Proof.
  induction ds as [|x ds IH] using rev_ind; [unfold overlay; cbn; lia|].
  rewrite Forall_app, Forall_singleton. intros [Hds%IH Hx].
  rewrite overlay_snoc, length_app, length_drop. lia.
Qed.

(** The last datagram is there as it was read. *)
Lemma overlay_last ds d : take (length d) (overlay (ds ++ [d])) = d.
Proof. by rewrite overlay_snoc, take_app_length. Qed.

(** The memory has [buf] at [a]. *)
Definition has (m : mem) (a : Z) (buf : bytes) : Prop :=
  forall i x, buf !! i = Some x -> m (a + Z.of_nat i) = x.

Lemma has_store m a buf d : has m a buf -> has (store a d m) a (d ++ drop (length d) buf).
Proof.
  intros Hm i x Hi. unfold store. replace (Z.to_nat (a + Z.of_nat i - a)) with i by lia.
  apply lookup_app_Some in Hi as [Hi|[Hl Hi]].
  - rewrite Hi. by rewrite decide_True by lia.
  - rewrite lookup_ge_None_2 by done. rewrite lookup_drop in Hi.
    replace (length d + (i - length d))%nat with i in Hi by lia. by apply Hm.
Qed.

Lemma has_store_other m a a' buf d :
  a + Z.of_nat (length buf) <= a' \/ a' + Z.of_nat (length d) <= a ->
  has m a buf -> has (store a' d m) a buf.
Proof.
  intros Hd Hm i x Hi. rewrite <- (Hm i x Hi). unfold store.
  pose proof (lookup_lt_Some _ _ _ Hi).
  destruct (d !! Z.to_nat (a + Z.of_nat i - a')) as [v|] eqn:Hv; [|done].
  apply lookup_lt_Some in Hv. case_decide; [lia|done].
Qed.

Lemma has_load m a buf n : has m a buf -> (n <= length buf)%nat ->
  load m (Slice a n) = take n buf.
Proof.
  intros Hm Hn. apply list_eq. intros i. unfold load. cbn. rewrite list_lookup_fmap.
  destruct (decide (i < n)%nat) as [Hi|Hi].
  - rewrite lookup_seq_lt, lookup_take_lt by done. cbn.
    destruct (lookup_lt_is_Some_2 buf i ltac:(lia)) as [x Hx].
    by rewrite Hx, (Hm _ _ Hx).
  - rewrite lookup_seq_ge by lia. by rewrite lookup_take_ge by lia.
Qed.

Section echo.
Context (get : ip_addr -> bytes).

Fixpoint udp_echo_moves (acts : list dg_act) (w : dg) : outcome dg :=
  match acts with
  | [] => Ok w
  | a :: acts =>
      if echo_allows w a then
        match dg_move get a w with
        | Ok w => udp_echo_moves acts w
        | Fault f => Fault f
        end
      else Fault Blocked
  end.

Definition udp_echo_reachable (w : dg) : Prop :=
  exists n acts, udp_echo_moves acts (dg0 n) = Ok w.

(** ** The invariant *)

Definition proc_data (c : dg_pc) : Prop :=
  match c with XNew d | XPut d _ => dg_data d <> [] | _ => True end.

(** The goroutine [t] of the connection [p]: its slices, its buffer, and what was
    read from there for each datagram that was sent. *)
Definition copy_slice (t : nat) (u : dg_user) : Prop :=
  match u with
  | DgRInter b | DgRErr b | DgRTake b => b = Slice (copy_at t) copy_buffer
  | _ => True
  end.

Record copying (t : nat) (p : ptr) (u : dg_user) (m : mem) (l : dg_log) : Prop := Copying {
  cp_slice : copy_slice t u;
  cp_posted : (fun d => Slice (copy_at t) (length d)) <$> about p (taken l) =
    about p (posted l) ++ held t u;
  cp_small : Forall (fun d => length d <= copy_buffer)%nat (about p (taken l));
  cp_mem : has m (copy_at t) (overlay (about p (taken l)));
  cp_sent j x : about p (sent l) !! j = Some x ->
    (j < sg_taken x <= length (about p (taken l)))%nat /\
    sg_data x = take (sl_len (sg_slice x)) (overlay (take (sg_taken x) (about p (taken l))))
}.

Record echo_inv (w : dg) : Prop := EchoInv {
  ei_dg : dg_inv get w;
  ei_calls : calls (dg_logs w) = [];
  ei_open p o : pcbs (dg_gst w) !! p = Some o -> p_err o = false;
  ei_data p : Forall (fun b => b <> []) (about p (put (dg_logs w)));
  ei_proc : proc_data (dg_proc w);
  ei_users t p u : dg_users w !! t = Some (p, u) -> u <> DgIdle ->
    exists k, made (dg_logs w) !! t = Some (k, p);
  ei_copy t k p q u : made (dg_logs w) !! t = Some (k, p) ->
    dg_users w !! t = Some (q, u) -> copying t p u (dg_mem (dg_gst w)) (dg_logs w)
}.

Lemma echo_inv_init n : echo_inv (dg0 n).
Proof.
  split; cbn; try done.
  - apply dg_inv_init.
  - by intros t p u [[= -> ->] _]%lookup_replicate.
Qed.

Lemma next_returned t v u : OnAccept_udp_next t v = Some u ->
  dg_returned v = true /\ dg_entry u = true /\ held t u = held t v /\ copy_slice t u /\
  u <> DgCLock.
Proof.
  destruct v as [| | | |l []| | | | |[|n] []| | | | | | |]; cbn; try done;
    by intros [= <-].
Qed.

(** Each connection is in the list of accepted ones once. *)
Lemma made_unique w t1 t2 k1 k2 p :
  dg_inv get w -> made (dg_logs w) !! t1 = Some (k1, p) ->
  made (dg_logs w) !! t2 = Some (k2, p) -> t1 = t2.
Proof.
  intros I H1 H2. eapply (NoDup_lookup (made (dg_logs w)).*2); [apply I| |];
    rewrite list_lookup_fmap; [by rewrite H1|by rewrite H2].
Qed.

Lemma lookup_made (l : dg_log) t k p : made l !! t = Some (k, p) -> p ∈ (made l).*2.
Proof. intros H. apply (made_fst k). by eapply list_elem_of_lookup_2. Qed.

Lemma echo_call w t p u w' :
  echo_inv w -> echo_allows w (DgCall t p u) = true -> dg_move get (DgCall t p u) w = Ok w' ->
  echo_inv w'.
Proof.
  intros I Hal Hm. pose proof (move_inv _ _ _ _ (ei_dg _ I) Hm) as I'.
  destruct w as [g us c l]. cbn in Hal.
  destruct (made l !! t) as [[k q]|] eqn:Ht; [|done].
  destruct (us !! t) as [[q0 v]|] eqn:Hv; [|done].
  apply andb_true_iff in Hal as [->%bool_decide_eq_true Hn%bool_decide_eq_true].
  destruct (next_returned _ _ _ Hn) as (_ & _ & Hh & Hsl & Hne).
  cbn in Hm. rewrite Hv in Hm. case_match; [|done]. injection Hm as <-.
  destruct I. split; cbn in *; try done.
  - rewrite ei_calls0. by destruct u.
  - intros t' p' u' [(<- & [= <- <-] & _)|[_ ?]]%list_lookup_insert_Some ?; eauto.
  - intros t' k' p' q' u' Hk [(<- & [= <- <-] & _)|[_ Hu']]%list_lookup_insert_Some.
    + destruct (ei_copy0 _ _ _ _ _ Hk Hv). split; try done. by rewrite Hh.
    + destruct (ei_copy0 _ _ _ _ _ Hk Hu'). by split.
Qed.

(** Nobody is in [Close]. *)
Lemma echo_not_closing w t p u :
  echo_inv w -> dg_users w !! t = Some (p, u) -> dg_returned u = false -> closing u = false.
Proof.
  intros I Hu Hr. pose proof (ei_dg _ I) as D.
  destruct (inv_obj _ _ _ D (di_users _ _ D _ _ _ Hu Hr)) as (o & ch & _ & _ & Hconn).
  pose proof (dc_calls _ _ _ _ _ _ _ _ Hconn) as Hcalls.
  rewrite (ei_calls _ I) in Hcalls. destruct (closing u) eqn:Hc; [|done].
  assert (0 < in_conn closing p (dg_users w))%nat; [|rewrite times_nil in Hcalls; lia].
  apply (count_if_pos _ _ t (p, u)); [done|]. cbn. by rewrite bool_decide_true.
Qed.

(** What the queue of a connection holds came from a host. *)
Lemma echo_queue_data w p o ch :
  echo_inv w -> p ∈ (made (dg_logs w)).*2 -> pcbs (dg_gst w) !! p = Some o ->
  bchans (dg_gst w) !! recvQueued o = Some ch -> Forall (fun b => b <> []) (c_buf ch).
Proof.
  intros I Hp Ho Hc. destruct (inv_obj _ _ _ (ei_dg _ I) Hp) as (o' & ch' & Ho' & Hc' & Hconn).
  assert (o' = o) as -> by congruence. assert (ch' = ch) as -> by congruence.
  pose proof (ei_data _ I p) as Hd. rewrite (dc_queue _ _ _ _ _ _ _ _ Hconn) in Hd.
  by apply Forall_app in Hd as [_ ?].
Qed.

(** Nothing was read. *)
Lemma copying_log t p u u' m l l' :
  copying t p u m l -> copy_slice t u' -> about p (taken l') = about p (taken l) ->
  about p (posted l') ++ held t u' = about p (posted l) ++ held t u ->
  about p (sent l') = about p (sent l) -> copying t p u' m l'.
Proof. intros [] Hs Ht Hp He. split; rewrite ?Ht, ?Hp, ?He; done. Qed.

(** A datagram was read. *)
Lemma copying_read t p b d m l l' :
  copying t p (DgRTake b) m l -> d <> [] -> (length d <= copy_buffer)%nat ->
  about p (taken l') = about p (taken l) ++ [d] ->
  about p (posted l') = about p (posted l) -> about p (sent l') = about p (sent l) ->
  copying t p (DgRead (length d) false) (store (copy_at t) d m) l'.
Proof.
  intros [_ Hp Hsm Hmem Hsent] Hd Hlen Ht Hp' Hs. cbn in Hp. rewrite app_nil_r in Hp.
  split; rewrite ?Ht, ?Hp', ?Hs.
  - done.
  - rewrite fmap_app, Hp. by destruct d.
  - apply Forall_app. by rewrite Forall_singleton.
  - rewrite overlay_snoc. by apply has_store.
  - intros j x Hj. destruct (Hsent j x Hj) as [? Hx]. rewrite length_app. split; [lia|].
    by rewrite take_app_le by lia.
Qed.

(** What a step does to the goroutine that makes it: the slice that it fills with a
    datagram is the one that it posts next. *)
Lemma copying_user t p u u' o o' ch ch' m l (g : shared) :
  user_moves u o ch u' o' ch' ->
  took p u g = match u with DgRTake _ => (p,.) <$> take 1 (c_buf ch) | _ => [] end ->
  closing u = false -> p_err o = false -> Forall (fun b => b <> []) (c_buf ch) ->
  copying t p u m l -> copying t p u' (copied u ch m) (user_log p u g l).
Proof.
  intros Hmv Htk Hcl He Hd Hcp. pose proof (cp_slice _ _ _ _ _ Hcp) as Hsl.
  assert (Htk' : about p (taken (user_log p u g l)) = about p (taken l) ++ about p (took p u g))
    by (cbn; apply about_app).
  assert (Hpo : about p (posted (user_log p u g l)) = about p (posted l) ++ about p (posts p u))
    by (cbn; apply about_app).
  rewrite Htk in Htk'.
  destruct u as [|b|b|b| |b|b|b| | | | | | | | |]; cbn in Hmv, Hcl, Hsl; try done;
    destruct_and?; simplify_eq;
    try (apply (copying_log _ _ _ _ _ _ _ Hcp); rewrite ?Htk', ?Hpo, ?He; cbn;
      by rewrite ?about_here, ?app_nil_r).
  unfold copied. destruct (c_buf ch) as [|d bs] eqn:Hb.
  { apply (copying_log _ _ _ _ _ _ _ Hcp); rewrite ?Htk', ?Hpo; cbn; by rewrite ?app_nil_r. }
  apply Forall_cons in Hd as [Hne _]. destruct d as [|z d]; [done|].
  assert (Hlen : (length (z :: d) <= copy_buffer)%nat) by eauto.
  change (_ <$> _) with [(p, z :: d)] in Htk'.
  apply (copying_read _ _ _ _ _ _ _ Hcp); rewrite ?Htk', ?Hpo; cbn [posts];
    by rewrite ?about_here, ?app_nil_r.
Qed.

(** What it does to the others: they have other buffers. *)
Lemma copying_other t t' p p' u v o ch u' o' ch' m l (g : shared) :
  t' <> t -> p' <> p -> copy_slice t u -> user_moves u o ch u' o' ch' ->
  copying t' p' v m l -> copying t' p' v (copied u ch m) (user_log p u g l).
Proof.
  intros Hne Hpp Hsl Hmv [Hs Hp Hsm Hmem Hsent].
  destruct (user_others p p' u g Hpp) as (A1 & A2 & _).
  unfold user_log. fold (posts p u).
  split; cbn [taken posted sent]; rewrite ?about_app, ?A1, ?A2, ?app_nil_r; try done.
  destruct u as [| | | | | | |b| | | | | | | | |]; try done. cbn in Hsl, Hmv. subst b.
  destruct Hmv as (_ & _ & Hlen). unfold copied. cbn [sl_ptr].
  destruct (c_buf ch) as [|[|z d] bs]; [done..|]. specialize (Hlen _ _ eq_refl).
  cbn [sl_len] in Hlen. pose proof (overlay_bound _ _ Hsm) as Hov.
  apply has_store_other; [|done]. unfold copy_at. nia.
Qed.

Lemma echo_user w t w' :
  echo_inv w -> dg_move get (DgStep t) w = Ok w' -> echo_inv w'.
Proof.
  intros I Hm. pose proof (move_inv _ _ _ _ (ei_dg _ I) Hm) as I'.
  destruct w as [g us c l]. cbn in Hm.
  destruct (us !! t) as [[p u]|] eqn:Hu; [|done].
  destruct (dg_user_step p u g) as [[u' g']|] eqn:Hst; [|done]. injection Hm as <-.
  assert (Hr : dg_returned u = false) by by destruct u.
  pose proof (di_users _ _ (ei_dg _ I) _ _ _ Hu Hr) as Hp. cbn in Hp.
  destruct (inv_obj _ _ _ (ei_dg _ I) Hp) as (o & ch & Ho & Hc & _). cbn in Ho, Hc.
  pose proof (echo_not_closing _ _ _ _ I Hu Hr) as Hcl.
  pose proof (echo_queue_data _ _ _ _ I Hp Ho Hc) as Hd.
  pose proof (dg_user_run p u o ch g Ho Hc) as Hrun. rewrite Hst in Hrun.
  destruct Hrun as (o' & ch' & -> & Hmv & Htk).
  assert (He : p_err o' = false).
  { rewrite <- (ei_open _ I _ _ Ho). destruct u; cbn in Hmv, Hcl; try done;
      destruct_and?; by simplify_eq. }
  destruct (ei_users _ I _ _ _ Hu ltac:(by intros ->)) as [k Hk]. cbn in Hk.
  pose proof (ei_copy _ I _ _ _ _ _ Hk Hu) as Hcp. cbn in Hcp.
  split; try done; try apply I; cbn [dg_gst dg_users dg_logs upd dg_go dg_mem pcbs].
  - intros q o1 [[<- <-]|[_ ?]]%lookup_insert_Some; [done|by apply (ei_open _ I q)].
  - intros t' q v [(<- & [= <- <-] & _)|[_ Hv]]%list_lookup_insert_Some ?; [by exists k|].
    by apply (ei_users _ I t' q v Hv).
  - intros t' k' p' q' v Hk' Hv. destruct (decide (t' = t)) as [->|Hne].
    + cbn in Hk'. rewrite Hk in Hk'. injection Hk' as <- <-.
      apply list_lookup_insert_Some in Hv as [(_ & [= <- <-] & _)|[? _]]; [|done].
      eapply copying_user; try done. by apply (ei_open _ I p).
    + rewrite list_lookup_insert_ne in Hv by done.
      eapply copying_other; try done; [|by apply Hcp|by apply (ei_copy _ I t' k' p' q' v)].
      intros ->. apply Hne. by eapply (made_unique _ _ _ _ _ _ (ei_dg _ I)).
Qed.

(** A step that leaves the goroutines of the program, the accepted connections and
    the objects as they are. *)
Lemma echo_frame w w' :
  echo_inv w -> dg_inv get w' -> dg_users w' = dg_users w ->
  made (dg_logs w') = made (dg_logs w) -> calls (dg_logs w') = calls (dg_logs w) ->
  taken (dg_logs w') = taken (dg_logs w) -> posted (dg_logs w') = posted (dg_logs w) ->
  sent (dg_logs w') = sent (dg_logs w) -> dg_mem (dg_gst w') = dg_mem (dg_gst w) ->
  pcbs (dg_gst w') = pcbs (dg_gst w) -> proc_data (dg_proc w') ->
  (forall p, Forall (fun b => b <> []) (about p (put (dg_logs w')))) ->
  echo_inv w'.
Proof.
  intros [] D Hu Hm Hc Ht Hp Hs Hmem Ho Hd Hput.
  split; rewrite ?Hu, ?Hm, ?Hc, ?Ht, ?Hp, ?Ho; try done.
  intros t k p q u Hk Hv. rewrite Hmem. destruct (ei_copy0 _ _ _ _ _ Hk Hv).
  split; rewrite ?Ht, ?Hp, ?Hs; done.
Qed.

Lemma dg_take_inv k g c' g' :
  dg_take k g = Ok (c', g') -> proc_data c' /\ pcbs g' = pcbs g /\ dg_mem g' = dg_mem g.
Proof.
  destruct k; cbn; unfold mbind, M_bind, on_go, on_sq, on_closeQueue, zoom; try done.
  - destruct (chan_recv (closeQueue g)) as [[[p|] q]|]; [|done..]. by intros [= <- <-].
  - destruct (chan_recv (dg_sq g)) as [[[[p x]|] q]|]; [|done..]. by intros [= <- <-].
Qed.

Lemma echo_new w d c' g' :
  echo_inv w -> dg_proc w = XNew d -> dg_proc_step get (XNew d) (dg_gst w) = Ok (c', g') ->
  dg_inv get (Dg g' (dg_users w) c' (proc_log get (XNew d) c' (dg_gst w) (dg_logs w))) ->
  echo_inv (Dg g' (dg_users w) c' (proc_log get (XNew d) c' (dg_gst w) (dg_logs w))).
Proof.
  intros I Hc Hst D. injection Hst as <- <-.
  set (p := fresh (dom (pcbs (dg_gst w)))) in *.
  assert (Hnone : dg_none (dg_logs w) p).
  { apply (di_none _ _ (ei_dg _ I)). intros Hin.
    destruct (inv_obj _ _ _ (ei_dg _ I) Hin) as (o & _ & Ho & _).
    apply (is_fresh (dom (pcbs (dg_gst w)))). by eapply elem_of_dom_2. }
  pose proof (ei_proc _ I) as Hd. rewrite Hc in Hd. destruct I. split; try done; cbn.
  - intros q o [[<- <-]|[_ ?]]%lookup_insert_Some; [done|by eapply ei_open0].
  - intros t q u Hu Hne. destruct (ei_users0 t q u Hu Hne) as [k Hk]. exists k.
    by apply lookup_app_l_Some.
  - intros t k q q' u [Hk|[Hlen Hk]]%lookup_app_Some Hu.
    { by destruct (ei_copy0 _ _ _ _ _ Hk Hu). }
    apply list_lookup_singleton_Some in Hk as [Ht [= <- <-]].
    destruct (decide (u = DgIdle)) as [->|Hne].
    + destruct Hnone as [_ Ht0 Hp0 Hs0 _ _ _].
      split; cbn [taken posted sent]; rewrite ?Ht0, ?Hp0, ?Hs0; done.
    + destruct (ei_users0 t q' u Hu Hne) as [k' Hk']. apply lookup_lt_Some in Hk'. lia.
Qed.

(** A datagram is sent: what is in the buffer then. *)
Lemma echo_send_inv w p data :
  echo_inv w -> dg_proc w = XUdpSend p data ->
  dg_inv get (Dg (dg_gst w) (dg_users w) XIdle
    (proc_log get (XUdpSend p data) XIdle (dg_gst w) (dg_logs w))) ->
  echo_inv (Dg (dg_gst w) (dg_users w) XIdle
    (proc_log get (XUdpSend p data) XIdle (dg_gst w) (dg_logs w))).
Proof.
  intros I Hc D. pose proof (di_proc _ _ (ei_dg _ I)) as Hok. rewrite Hc in Hok.
  destruct Hok as [Hin _].
  destruct (inv_obj _ _ _ (ei_dg _ I) Hin) as (o & ch & Ho & _ & Hconn).
  split; try done; try apply I. cbn [dg_gst dg_users dg_logs proc_log made].
  rewrite Ho. intros t k q q' u Hk Hu. pose proof (ei_copy _ I _ _ _ _ _ Hk Hu) as Hcp.
  destruct (decide (q = p)) as [->|Hne].
  2: { apply (copying_log _ _ _ _ _ _ _ Hcp); try done; [by apply Hcp|]. cbn.
       by rewrite about_app, about_other, app_nil_r. }
  destruct Hcp as [Hsl Hp Hsm Hmem Hsent]. split; try done.
  cbn [sent taken]. rewrite about_app, about_here.
  pose proof (dc_posted _ _ _ _ _ _ _ _ Hconn) as Hpost.
  rewrite (dc_hand _ _ _ _ _ _ _ _ Hconn), Hc in Hpost by eauto. cbn in Hpost.
  rewrite decide_True in Hpost by done. set (n := length (about p (sent (dg_logs w)))) in *.
  change ([data] ++ ?x) with (data :: x) in Hpost.
  rewrite Hpost, <- app_assoc, <- app_comm_cons in Hp.
  pose proof (f_equal (.!! n) Hp) as Hn. cbn [app] in Hn.
  rewrite list_lookup_fmap, list_lookup_middle in Hn by (unfold n; by rewrite length_fmap).
  destruct (about p (taken (dg_logs w)) !! n) as [d|] eqn:Hd; [|done].
  cbn in Hn. injection Hn as <-. pose proof (lookup_lt_Some _ _ _ Hd) as Hlt.
  intros j x [Hj|[Hj [Hjn <-]%list_lookup_singleton_Some]]%lookup_app_Some; [by apply Hsent|].
  assert (j = n) as -> by (unfold n; lia). 
  cbn [sg_taken sg_data sg_slice sl_len]. split; [split; [exact Hlt|done]|].
  rewrite (take_ge (about p _)) by done. apply has_load; [done|].
  apply overlay_length. by eapply list_elem_of_lookup_2.
Qed.

Lemma echo_proc w w' : echo_inv w -> dg_move get DgProc w = Ok w' -> echo_inv w'.
Proof.
  intros I Hm. pose proof (move_inv _ _ _ _ (ei_dg _ I) Hm) as D.
  destruct w as [g us c l]. cbn in Hm.
  destruct (dg_proc_step get c g) as [[c' g']|] eqn:Hst; [|done]. injection Hm as <-.
  pose proof (ei_data _ I) as Hput. pose proof (ei_proc _ I) as Hd. cbn in Hput, Hd.
  destruct c as [|d|d|d p|p data|p data|p].
  - done.
  - cbn in Hst. destruct (decide (dg_data d = [])); [done|]. injection Hst as <- <-.
    apply (echo_frame _ _ I D); try done. cbn. by destruct (udpPcbs g !! _).
  - by apply (echo_new _ _ _ _ I).
  - cbn in Hst. unfold mbind, M_bind in Hst. rewrite on_go_eq in Hst.
    destruct (at_recvQueued _ _ g) as [[[] g1]|] eqn:Hs; [|done]. injection Hst as <- <-.
    apply (echo_frame _ _ I D); try done; cbn.
    + unfold at_recvQueued, mbind, M_bind, at_bchan, at_pcb, zoom, at_key in Hs.
      destruct (pcbs g !! p) as [o|] eqn:Ho; [|done]. cbn in Hs.
      destruct (bchans _ !! _) as [ch|]; [|done].
      destruct (chan_send _ ch) as [[[] ?]|]; [|done]. injection Hs as <-. cbn.
      by rewrite insert_id.
    + intros q. rewrite about_app. apply Forall_app. split; [done|].
      rewrite about_cons, app_nil_r. case_decide; by repeat constructor.
  - cbn in Hst. unfold mbind, M_bind, on_go, at_pcb, zoom, at_key in Hst.
    destruct (pcbs g !! p) as [o|] eqn:Ho; [|done]. cbn in Hst.
    rewrite (ei_open _ I _ _ Ho) in Hst. injection Hst as <- <-.
    apply (echo_frame _ _ I D); try done. by apply insert_id.
  - cbn in Hst. destruct (decide _); [done|]. injection Hst as <- <-.
    by apply (echo_send_inv (Dg g us (XUdpSend p data) l)).
  - cbn in Hst. unfold mbind, M_bind, on_go, at_pcb, zoom, at_key in Hst.
    destruct (pcbs g !! p) as [o|] eqn:Ho; [|done]. injection Hst as <- <-.
    apply (echo_frame _ _ I D); try done. by apply insert_id.
Qed.

Lemma echo_move w a w' :
  echo_inv w -> echo_allows w a = true -> dg_move get a w = Ok w' -> echo_inv w'.
Proof.
  intros I Ha Hm. pose proof (move_inv _ _ _ _ (ei_dg _ I) Hm) as D.
  destruct a as [t p u|t|k|d| |x data];
    [by eapply echo_call|by eapply echo_user| | |by eapply echo_proc|done];
    destruct w as [g us c l]; cbn in Hm; destruct c; try done.
  - destruct (dg_take k g) as [[c' g']|] eqn:Ht; [|done]. injection Hm as <-.
    destruct (dg_take_inv _ _ _ _ Ht) as (? & ? & ?). apply (echo_frame _ _ I D); try done. apply I.
  - injection Hm as <-. apply (echo_frame _ _ I D); try done. apply I.
Qed.

Lemma udp_echo_reachable_inv w : udp_echo_reachable w -> echo_inv w.
Proof.
  intros (n & acts & Hm). pose proof (echo_inv_init n) as I. revert Hm I.
  generalize (dg0 n). induction acts as [|a acts IH]; intros w0; cbn; [by intros [= ->]|].
  destruct (echo_allows w0 a) eqn:Ha; [|done].
  destruct (dg_move get a w0) as [w1|] eqn:Hm; [|done]. intros Hms I.
  apply (IH w1 Hms). by eapply echo_move.
Qed.

(** ** Properties *)

(** Each host has one connection. *)
Lemma echo_one w k p :
  echo_inv w -> (k, p) ∈ made (dg_logs w) -> about k (made (dg_logs w)) = [p].
Proof.
  intros I Hin. pose proof (ei_dg _ I) as D.
  assert (Hreg : forall p', (k, p') ∈ made (dg_logs w) ->
    last (about k (made (dg_logs w))) = Some p').
  { intros p' Hin'. apply (di_table _ _ D). destruct (di_left _ _ D _ _ Hin') as [?|[Hf|Hc]]; [done|..].
    - destruct (di_conn _ _ D _ _ Hin') as (o & ch & _ & _ & _ & Hconn).
      pose proof (dc_calls _ _ _ _ _ _ _ _ Hconn) as Hcalls.
      rewrite (ei_calls _ I), times_nil in Hcalls. lia.
    - destruct Hc as (p2 & _ & Hc). rewrite (ei_calls _ I), times_nil in Hc. lia. }
  pose proof (proj1 (last_Some _ _) (Hreg p Hin)) as [ps Hps].
  destruct ps as [|p' ps]; [done|].
  assert (Hin' : (k, p') ∈ made (dg_logs w)) by (apply elem_of_about; rewrite Hps; left).
  pose proof (Hreg p' Hin') as Hl. rewrite (Hreg p Hin) in Hl. injection Hl as <-.
  pose proof (about_nodup k _ (di_nodup _ _ D)) as Hn. rewrite Hps in Hn.
  apply NoDup_cons in Hn as [[] _]. apply elem_of_app. right. by left.
Qed.

(** The datagram that a sent one was read for. *)
Lemma sent_for w t k p q u j x :
  echo_inv w -> made (dg_logs w) !! t = Some (k, p) -> dg_users w !! t = Some (q, u) ->
  about p (sent (dg_logs w)) !! j = Some x ->
  exists d, about p (taken (dg_logs w)) !! j = Some d /\
    sg_slice x = Slice (copy_at t) (length d).
Proof.
  intros I Ht Hu Hj. destruct (ei_copy _ I _ _ _ _ _ Ht Hu) as [_ Hp _ _ _].
  destruct (inv_obj _ _ _ (ei_dg _ I) (lookup_made _ _ _ _ Ht)) as (o & ch & _ & _ & Hconn).
  rewrite (dc_posted _ _ _ _ _ _ _ _ Hconn), <- !app_assoc in Hp.
  pose proof (f_equal (.!! j) Hp) as Hn. cbn beta in Hn.
  assert (Hs : (sg_slice <$> about p (sent (dg_logs w))) !! j = Some (sg_slice x))
    by (by rewrite list_lookup_fmap, Hj).
  rewrite (lookup_app_l_Some _ _ _ _ Hs), list_lookup_fmap in Hn.
  destruct (about p (taken (dg_logs w)) !! j) as [d|]; [|done].
  exists d. cbn in Hn. by injection Hn as <-.
Qed.

(** What a host has sent is in the hands of its connection. *)
Lemma came_is w k p :
  echo_inv w -> (k, p) ∈ made (dg_logs w) ->
  about k (came (dg_logs w)) =
    about p (taken (dg_logs w)) ++ queue_of (dg_gst w) p ++ hand_recv get k (dg_proc w).
Proof.
  intros I Hin. destruct (di_conn _ _ (ei_dg _ I) _ _ Hin) as (o & ch & Ho & Hc & _ & Hconn).
  rewrite (di_came _ _ (ei_dg _ I)), (echo_one _ _ _ I Hin). cbn. rewrite app_nil_r.
  rewrite (dc_queue _ _ _ _ _ _ _ _ Hconn). unfold queue_of. rewrite Ho, Hc. cbn.
  by rewrite <- app_assoc.
Qed.

(** What was sent for a datagram: the first bytes of the buffer. *)
Lemma sent_data w t k p q u j x :
  echo_inv w -> made (dg_logs w) !! t = Some (k, p) -> dg_users w !! t = Some (q, u) ->
  about p (sent (dg_logs w)) !! j = Some x ->
  exists d, about k (came (dg_logs w)) !! j = Some d /\ length (sg_data x) = length d /\
    sg_slice x = Slice (copy_at t) (length d) /\
    (j < sg_taken x <= length (about p (taken (dg_logs w))))%nat /\
    sg_data x = take (length d) (overlay (take (sg_taken x) (about k (came (dg_logs w))))).
Proof.
  intros I Ht Hu Hj. destruct (sent_for _ _ _ _ _ _ _ _ I Ht Hu Hj) as (d & Hd & Hs).
  destruct (cp_sent _ _ _ _ _ (ei_copy _ I _ _ _ _ _ Ht Hu) j x Hj) as [Hn Hx].
  rewrite Hs in Hx. cbn in Hx. exists d.
  rewrite (came_is _ _ _ I (list_elem_of_lookup_2 _ _ _ Ht)).
  split; [by apply lookup_app_l_Some|]. rewrite take_app_le by apply Hn.
  split_and!; try done; try apply Hn. rewrite Hx, length_take_le; [done|].
  apply overlay_length, (list_elem_of_lookup_2 _ j). by rewrite lookup_take_lt by apply Hn.
Qed.


(** ** A host that waits for each echo *)

(** What has been sent back to a host, and whether it has waited for that when it
    sends its next datagram. *)
Definition sent_back (k : bytes * Z) (l : dg_log) : list bytes :=
  concat ((fun p => sg_data <$> about p (sent l)) <$> about k (made l)).

Definition waits_for_echo (k : bytes * Z) (w : dg) (a : dg_act) : bool :=
  match a with
  | DgCome d =>
      bool_decide (dg_key get d = k ->
        length (sent_back k (dg_logs w)) = length (about k (came (dg_logs w))))
  | _ => true
  end.

Fixpoint patient (k : bytes * Z) (acts : list dg_act) (w : dg) : bool :=
  match acts with
  | [] => true
  | a :: acts =>
      waits_for_echo k w a &&
      match dg_move get a w with Ok w => patient k acts w | Fault _ => true end
  end.

(** What a step does to the logs. *)
Definition grows (w : dg) (a : dg_act) (w' : dg) : Prop :=
  length (dg_users w') = length (dg_users w) /\
  (exists m, made (dg_logs w') = made (dg_logs w) ++ m) /\
  (came (dg_logs w') = came (dg_logs w) \/
   exists d, a = DgCome d /\ sent (dg_logs w') = sent (dg_logs w) /\
     made (dg_logs w') = made (dg_logs w) /\
     came (dg_logs w') = came (dg_logs w) ++ [(dg_key get d, dg_data d)]) /\
  (sent (dg_logs w') = sent (dg_logs w) \/
   exists p x, sent (dg_logs w') = sent (dg_logs w) ++ [(p, x)] /\
     made (dg_logs w') = made (dg_logs w) /\ came (dg_logs w') = came (dg_logs w) /\
     taken (dg_logs w') = taken (dg_logs w) /\
     sg_taken x = length (about p (taken (dg_logs w)))).

Lemma move_grows w a w' : dg_move get a w = Ok w' -> grows w a w'.
Proof.
  destruct w as [g us c l], a as [t p u|t|k|d| |x data]; cbn [dg_move]; unfold grows.
  - repeat case_match; try done. intros [= <-]. cbn.
    split_and!; [by rewrite length_insert|by exists []; rewrite app_nil_r|by left..].
  - repeat case_match; try done. intros [= <-]. cbn.
    split_and!; [by rewrite length_insert|by exists []; rewrite app_nil_r|by left..].
  - repeat case_match; try done. intros [= <-]. cbn.
    split_and!; [done|by exists []; rewrite app_nil_r|by left..].
  - destruct c; try done. intros [= <-]. cbn.
    split_and!; [done|by exists []; rewrite app_nil_r|right; eauto|by left].
  - destruct (dg_proc_step get c g) as [[c' g']|]; [|done]. intros [= <-]. cbn [dg_users dg_logs].
    split; [done|]. destruct c as [|d|d|d p|p data|p data|p]; cbn [proc_log];
      try (destruct c'; cbn; (split_and!;
        [first [by exists []; rewrite app_nil_r|by eexists]|by left..])).
    cbn. split; [by exists []; rewrite app_nil_r|]. split; [by left|].
    destruct (pcbs g !! p) as [o|]; [right|left; by rewrite app_nil_r].
    eexists p, _. by split_and!.
  - intros [= <-]. cbn. split_and!; [done|by exists []; rewrite app_nil_r|by left..].
Qed.

Lemma sent_back_grows k l l' m :
  made l' = made l ++ m -> (exists x, sent l' = sent l ++ x) ->
  (length (sent_back k l) <= length (sent_back k l'))%nat.
Proof.
  intros Hm [x Hx]. unfold sent_back. rewrite Hm, about_app, fmap_app, concat_app, length_app.
  cut (forall ps, (length (concat ((fun p => sg_data <$> about p (sent l)) <$> ps)) <=
    length (concat ((fun p => sg_data <$> about p (sent l')) <$> ps)))%nat).
  { intros H. specialize (H (about k (made l))). lia. }
  intros ps. induction ps as [|p ps IH]; cbn; [done|].
  assert (length (about p (sent l)) <= length (about p (sent l')))%nat
    by (rewrite Hx, about_app, length_app; lia).
  rewrite !length_app, !length_fmap. lia.
Qed.

(** The buffer has the datagram alone as it is sent. *)
Record in_turn (k : bytes * Z) (w : dg) : Prop := InTurn {
  it_echo : echo_inv w;
  it_came : (length (about k (came (dg_logs w))) <= S (length (sent_back k (dg_logs w))))%nat;
  it_taken t p j x : made (dg_logs w) !! t = Some (k, p) -> is_Some (dg_users w !! t) ->
    about p (sent (dg_logs w)) !! j = Some x -> sg_taken x = S j
}.

(** What has been sent back to a host with one connection. *)
Lemma sent_back_one w t k p :
  echo_inv w -> made (dg_logs w) !! t = Some (k, p) ->
  sent_back k (dg_logs w) = sg_data <$> about p (sent (dg_logs w)).
Proof.
  intros I Ht. unfold sent_back.
  rewrite (echo_one _ _ _ I (list_elem_of_lookup_2 _ _ _ Ht)). cbn. apply app_nil_r.
Qed.

Lemma in_turn_move k w a w' :
  in_turn k w -> echo_allows w a = true -> waits_for_echo k w a = true ->
  dg_move get a w = Ok w' -> in_turn k w'.
Proof.
  intros [I Hc Hk] Hal Hw Hm. pose proof (echo_move _ _ _ I Hal Hm) as I'.
  destruct (move_grows _ _ _ Hm) as (Hus & [m Hmade] & Hcame & Hsent).
  assert (Hex : exists y, sent (dg_logs w') = sent (dg_logs w) ++ y)
    by (destruct Hsent as [->|(p & x & -> & _)]; [by exists []; rewrite app_nil_r|by eexists]).
  pose proof (sent_back_grows k _ _ _ Hmade Hex) as Hback. split; [done|..].
  - destruct Hcame as [->|(d & -> & _ & _ & ->)]; [lia|].
    rewrite about_app, about_cons, app_nil_r, length_app.
    apply bool_decide_eq_true in Hw. case_decide as Hd; cbn; [specialize (Hw Hd)|]; lia.
  - intros t p j x Ht [[q u] Hu] Hj.
    assert (Hu0 : is_Some (dg_users w !! t))
      by (apply lookup_lt_is_Some; rewrite <- Hus; by eapply lookup_lt_Some).
    assert (Ht0 : forall j' x', about p (sent (dg_logs w)) !! j' = Some x' ->
      made (dg_logs w) !! t = Some (k, p)).
    { intros j' x' Hj'. rewrite Hmade in Ht.
      apply lookup_app_Some in Ht as [?|[_ Hin%list_elem_of_lookup_2]]; [done|]. exfalso.
      assert (Hn : p ∉ (made (dg_logs w)).*2).
      { pose proof (di_nodup _ _ (ei_dg _ I')) as Hnd. rewrite Hmade, fmap_app in Hnd.
        apply NoDup_app in Hnd as (_ & Hnd & _). intros Hp. apply (Hnd _ Hp).
        apply list_elem_of_fmap. by exists (k, p). }
      by rewrite (dn_sent _ _ (di_none _ _ (ei_dg _ I) _ Hn)) in Hj'. }
    destruct (decide (is_Some (about p (sent (dg_logs w)) !! j))) as [[x0 Hj0]|Hnone].
    + destruct Hex as [y Hy]. rewrite Hy, about_app in Hj.
      rewrite (lookup_app_l_Some _ _ _ _ Hj0) in Hj. injection Hj as <-. by eapply Hk; eauto.
    + destruct (sent_data _ _ _ _ _ _ _ _ I' Ht Hu Hj) as (d & _ & _ & _ & Hn & _).
      pose proof (came_is _ _ _ I' (list_elem_of_lookup_2 _ _ _ Ht)) as Hci.
      destruct Hsent as [Hs|(p' & x' & Hs & Hmd & Hcm & _)]; rewrite Hs in Hj;
        [by destruct Hnone|].
      rewrite about_app in Hj. apply lookup_app_Some in Hj as [?|[Hl Hj]]; [by destruct Hnone|].
      rewrite Hmd in Ht. rewrite Hcm in Hci.
      rewrite (sent_back_one _ _ _ _ I Ht), length_fmap, Hci, length_app in Hc. lia.
Qed.

End echo.

(** ** Runs of the echo with one host

    [sq] are the entries of [sendQueue], [rq] is the queue of the connection, [m] the
    memory, [u] is where the copying goroutine is. *)
Definition echo_obj : PCB :=
  Pcb UDP None 50 None (IPv4 1) 53 (IPv4 6) 80 false false 1 None 0 false.
Definition echo_gst (sq : list (ptr * slice)) (rq : list bytes) (m : mem) : shared :=
  Shared
    (GoState {[1%positive := echo_obj]} {[1%positive := Chan QUEUE rq false]} ∅
      {[test_key := 1%positive]} (make_chan QUEUE) (make_chan QUEUE) (make_chan QUEUE)
      (make_chan QUEUE) (make_chan QUEUE) false)
    (Chan QUEUE sq false) m.
Definition one_host sq rq m (u : dg_user) (c : dg_pc) (l : dg_log) : dg :=
  Dg (echo_gst sq rq m) [(1%positive, u)] c l.
Definition echo_datagram (b : bytes) : datagram :=
  Datagram None 50 (IPv4 1) 53 (IPv4 6) 80 b.
Abbreviation reach := (udp_echo_reachable test_get).

(** The state can be reached. *)
Definition echoing sq rq m u c l : Prop :=
  made l = [(test_key, 1%positive)] /\ reach (one_host sq rq m u c l).

Lemma reach_step w a w' :
  reach w -> echo_allows w a = true -> dg_move test_get a w = Ok w' -> reach w'.
Proof.
  intros (n & acts & Hm) Ha Hs. exists n, (acts ++ [a]). revert Hm. generalize (dg0 n).
  induction acts as [|b acts IH]; intros w0; cbn.
  - intros [= ->]. by rewrite Ha, Hs.
  - destruct (echo_allows w0 b); [|done]. destruct (dg_move test_get b w0); [|done]. apply IH.
Qed.

(** A datagram comes in; it is put into the queue, if there is room. *)
Definition found_log (b : bytes) : dg_log -> dg_log := came_log test_get (echo_datagram b).
Definition put_log (b : bytes) (l : dg_log) : dg_log :=
  proc_log test_get (XPut (echo_datagram b) 1) XIdle shared0 (found_log b l).

Lemma echo_find sq rq m u l b :
  b <> [] -> echoing sq rq m u XIdle l ->
  echoing sq rq m u (XPut (echo_datagram b) 1) (found_log b l).
Proof.
  intros Hb (Hm & H). split; [done|]. destruct b as [|z b]; [done|].
  eapply (reach_step _ (DgCome (echo_datagram (z :: b)))) in H; [|done|reflexivity].
  eapply (reach_step _ DgProc) in H; [exact H|done|reflexivity].
Qed.

Lemma echo_come sq rq m u l b :
  (length rq < QUEUE)%nat -> b <> [] -> echoing sq rq m u XIdle l ->
  echoing sq (rq ++ [b]) m u XIdle (put_log b l).
Proof.
  intros Hl Hb (Hm & H)%(echo_find _ _ _ _ _ b); [|done]. split; [done|].
  eapply (reach_step _ DgProc) in H; [exact H|done|].
  cbn [dg_move one_host dg_proc_step]. unfold mbind, M_bind.
  rewrite on_go_eq, (at_recvQueued_run _ echo_obj (Chan QUEUE rq false)) by done.
  by rewrite chan_send_run.
Qed.

(** The first one opens the connection. *)
Definition echo_log0 (b : bytes) : dg_log :=
  DgLog [(test_key, b)] [(test_key, 1%positive)] [(1%positive, b)] [] [] [] [] [] [].
Definition mem0 : mem := fun _ => 0.

Lemma echo_first b :
  b <> [] -> echoing [] [b] mem0 DgIdle XIdle (echo_log0 b).
Proof.
  intros Hb. destruct b as [|z b]; [done|]. split; [done|].
  exists 1%nat, [DgCome (echo_datagram (z :: b)); DgProc; DgProc; DgProc]. reflexivity.
Qed.

(** The copying goroutine makes a step, or the next call. *)
Lemma echo_goes sq rq m u l sq' rq' m' u' :
  dg_user_step 1 u (echo_gst sq rq m) = Ok (u', echo_gst sq' rq' m') ->
  echoing sq rq m u XIdle l ->
  echoing sq' rq' m' u' XIdle (user_log 1 u (echo_gst sq rq m) l).
Proof.
  intros Hs (Hm & H). split; [done|].
  eapply (reach_step _ (DgStep 0)) in H; [exact H|done|]. cbn. by rewrite Hs.
Qed.

Lemma echo_calls sq rq m v u l :
  OnAccept_udp_next 0 v = Some u -> echoing sq rq m v XIdle l ->
  echoing sq rq m u XIdle (call_log 1 u l).
Proof.
  intros Hn (Hm & H). destruct (next_returned _ _ _ Hn) as (Hr & He & _). split; [done|].
  eapply (reach_step _ (DgCall 0 1 u)) in H; [exact H|..]; cbn; rewrite Hm; cbn.
  - by rewrite Hn, !bool_decide_true.
  - by rewrite Hr, He, bool_decide_true by by left.
Qed.

(** Two logs that say the same of everything but calls of methods. *)
Lemma echoing_log sq rq m u c l l' : l = l' -> echoing sq rq m u c l -> echoing sq rq m u c l'.
Proof. by intros ->. Qed.

(** It waits for a datagram; it reads one and goes on to write it; it writes it, if
    there is room in [sendQueue], and goes on to read the next one. *)
Definition whole : slice := Slice 0 copy_buffer.
Definition first_of (b : bytes) : slice := Slice 0 (length b).

Definition with_taken (b : bytes) (l : dg_log) : dg_log :=
  DgLog (came l) (made l) (put l) (taken l ++ [(1%positive, b)]) (posted l) (sent l)
    (dropped l) (calls l) (forgot l).
Definition with_posted (b : bytes) (l : dg_log) : dg_log :=
  DgLog (came l) (made l) (put l) (taken l) (posted l ++ [(1%positive, first_of b)]) (sent l)
    (dropped l) (calls l) (forgot l).

Lemma user_log_same u (g : shared) l :
  took 1 u g = [] -> posts 1 u = [] -> user_log 1 u g l = l.
Proof.
  intros Ht Hp. unfold user_log. fold (posts 1 u). rewrite Ht, Hp, !app_nil_r. by destruct l.
Qed.

Lemma call_log_same u l : u <> DgCLock -> call_log 1 u l = l.
Proof. intros Hu. unfold call_log. destruct u; try done; rewrite app_nil_r; by destruct l. Qed.

Lemma echo_waits sq rq m v l :
  OnAccept_udp_next 0 v = Some (DgRInter whole) -> echoing sq rq m v XIdle l ->
  echoing sq rq m (DgRTake whole) XIdle l.
Proof.
  intros Hv H. eapply (echo_calls _ _ _ v) in H; [|done]. rewrite call_log_same in H by done.
  eapply echo_goes in H; [|reflexivity]. rewrite user_log_same in H by done.
  eapply echo_goes in H; [|reflexivity]. by rewrite user_log_same in H by done.
Qed.

Lemma echo_read sq rq m l b :
  b <> [] -> (length b <= copy_buffer)%nat ->
  echoing sq (b :: rq) m (DgRTake whole) XIdle l ->
  echoing sq rq (store 0 b m) (DgWPost (first_of b)) XIdle (with_taken b l).
Proof.
  intros Hb Hl H.
  assert (Hrun : at_recvQueued 1 chan_recv (echo_gst sq (b :: rq) m) =
    Ok (Some b, dg_go (echo_gst sq rq m)))
    by (by rewrite (at_recvQueued_run _ echo_obj (Chan QUEUE (b :: rq) false))).
  eapply (echo_goes _ _ _ _ _ sq rq (store 0 b m) (DgRead (length b) false)) in H.
  2: { cbn [dg_user_step]. unfold mbind, M_bind. rewrite on_go_eq, Hrun.
       destruct b as [|z b]; [done|]. by rewrite decide_False by (cbn [sl_len whole]; lia). }
  apply (echoing_log _ _ _ _ _ _ (with_taken b l)) in H.
  2: { unfold user_log, took, with_taken. rewrite Hrun. by rewrite app_nil_r. }
  eapply (echo_calls _ _ _ _ (DgWErr (first_of b))) in H; [|by destruct b].
  rewrite call_log_same in H by done. eapply echo_goes in H; [|reflexivity].
  by rewrite user_log_same in H by done.
Qed.

Lemma echo_write sq rq m l b :
  (length sq < QUEUE)%nat -> echoing sq rq m (DgWPost (first_of b)) XIdle l ->
  echoing (sq ++ [(1%positive, first_of b)]) rq m (DgRTake whole) XIdle (with_posted b l).
Proof.
  intros Hl H.
  eapply (echo_goes _ _ _ _ _ (sq ++ [(1%positive, first_of b)]) rq m (DgWDone _)) in H.
  2: { cbn [dg_user_step]. unfold mbind, M_bind, on_sq, zoom. cbn [dg_sq echo_gst].
       by rewrite chan_send_run. }
  apply (echoing_log _ _ _ _ _ _ (with_posted b l)) in H.
  2: { unfold user_log, with_posted. cbn. by rewrite app_nil_r. }
  eapply echo_goes in H; [|reflexivity]. rewrite user_log_same in H by done.
  eapply echo_waits; [|exact H]. reflexivity.
Qed.

(** The loop takes an entry and sends what is in the buffer. *)
Definition with_sent (b : slice) (m : mem) (l : dg_log) : dg_log :=
  DgLog (came l) (made l) (put l) (taken l) (posted l)
    (sent l ++ [(1%positive,
       Sending (IPv4 6, 80) b (load m b) (length (about 1%positive (taken l))))])
    (dropped l) (calls l) (forgot l).

Lemma echo_sends sq rq m u l b :
  sl_len b <> 0%nat -> echoing ((1%positive, b) :: sq) rq m u XIdle l ->
  echoing sq rq m u XIdle (with_sent b m l).
Proof.
  intros Hb (Hm & H). split; [done|].
  eapply (reach_step _ (DgTake CaseSend)) in H; [|done|reflexivity].
  eapply (reach_step _ DgProc) in H; [|done|reflexivity].
  eapply (reach_step _ DgProc) in H; [exact H|done|].
  cbn -[QUEUE]. by rewrite decide_False.
Qed.

(** ** A buffer that is used again *)

(** C36: A host that sends two datagrams before it gets the first one back can get the
    second one in its place: [Write] leaves its slice in [sendQueue] and returns,
    and [io.Copy] reads the next datagram into the same buffer.  Whatever the two
    are, there is a run in which the first one is never sent back: in its place
    comes the second one, with the end of the first if that is longer. *)
Theorem go_udp_echo_overwrites d1 d2 :
  d1 <> [] -> d2 <> [] -> (length d1 <= copy_buffer)%nat -> (length d2 <= copy_buffer)%nat ->
  exists w k p, udp_echo_reachable test_get w /\ made (dg_logs w) = [(k, p)] /\
    about k (came (dg_logs w)) = [d1; d2] /\
    (sg_data <$> about p (sent (dg_logs w))) =
      [take (length d1) (d2 ++ drop (length d2) d1); d2] /\
    c_buf (dg_sq (dg_gst w)) = [] /\ queue_of (dg_gst w) p = [].
Proof.
  intros H1 H2 L1 L2. assert (HQ : (1 < QUEUE)%nat) by (unfold QUEUE; lia).
  pose proof (echo_first d1 H1) as H.
  apply (echo_come _ _ _ _ _ d2) in H; [|cbn [length]; lia|done].
  apply echo_waits, echo_read, echo_write in H; try done; [|cbn [length]; lia].
  apply echo_read in H; try done. apply echo_sends in H; [|by destruct d1].
  apply (echo_write []) in H; [|cbn [length]; lia]. apply echo_sends in H; [|by destruct d2].
  destruct H as [Hm H]. eexists _, test_key, 1%positive. split; [exact H|].
  assert (Ha1 : has (store 0 d2 (store 0 d1 mem0)) 0 (d2 ++ drop (length d2) d1)).
  { apply has_store. pose proof (has_store mem0 0 [] d1) as Ha.
    rewrite drop_nil, app_nil_r in Ha. by apply Ha. }
  split; [exact Hm|]. split; [reflexivity|]. split; [|done].
  change (_ <$> _) with [load (store 0 d2 (store 0 d1 mem0)) (first_of d1);
    load (store 0 d2 (store 0 d1 mem0)) (first_of d2)].
  unfold first_of. rewrite !(has_load _ _ _ _ Ha1) by (rewrite length_app, length_drop; lia).
  by rewrite take_app_length.
Qed.

(** ** A host that floods the echo *)

(** The state can be reached, with some memory and logs. *)
Definition flooded sq rq u c : Prop := exists m l, echoing sq rq m u c l.
Definition one_byte : ptr * slice := (1%positive, first_of [1]).

Lemma flood_come sq rq u :
  (length rq < QUEUE)%nat -> flooded sq rq u XIdle -> flooded sq (rq ++ [[1]]) u XIdle.
Proof. intros Hl (m & l & H). eexists m, _. by apply (echo_come _ _ _ _ _ [1]) in H. Qed.

Lemma flood_read sq rq :
  flooded sq ([1] :: rq) (DgRTake whole) XIdle ->
  flooded sq rq (DgWPost (first_of [1])) XIdle.
Proof.
  intros (m & l & H). eexists _, _. apply echo_read in H; [exact H|done|].
  unfold copy_buffer. cbn. lia.
Qed.

Lemma flood_write sq rq :
  (length sq < QUEUE)%nat -> flooded sq rq (DgWPost (first_of [1])) XIdle ->
  flooded (sq ++ [one_byte]) rq (DgRTake whole) XIdle.
Proof. intros Hl (m & l & H). eexists _, _. by apply echo_write in H. Qed.

(** As often as there is room. *)
Lemma flood_rounds n sq :
  (length sq + n <= QUEUE)%nat -> flooded sq [] (DgRTake whole) XIdle ->
  flooded (sq ++ replicate n one_byte) [] (DgRTake whole) XIdle.
Proof.
  revert sq. induction n as [|n IH]; intros sq Hl H; cbn [replicate];
    [by rewrite app_nil_r|].
  change (_ :: replicate n _) with ([one_byte] ++ replicate n one_byte).
  rewrite app_assoc. apply IH; [rewrite length_app; cbn; lia|].
  apply flood_write; [lia|]. apply flood_read, (flood_come sq []); [unfold QUEUE; cbn; lia|done].
Qed.

Lemma flood_fill n sq rq u :
  (length rq + n <= QUEUE)%nat -> flooded sq rq u XIdle ->
  flooded sq (rq ++ replicate n [1]) u XIdle.
Proof.
  revert rq. induction n as [|n IH]; intros rq Hl H; cbn [replicate]; [by rewrite app_nil_r|].
  change ([1] :: replicate n [1]) with ([[1]] ++ replicate n [1]).
  rewrite app_assoc. apply IH; [rewrite length_app; cbn; lia|].
  apply flood_come; [lia|done].
Qed.

(** The connection has been accepted, its goroutine has echoed the first datagram
    and waits for another one. *)
Lemma flood_start : flooded [one_byte] [] (DgRTake whole) XIdle.
Proof.
  apply (flood_write []); [unfold QUEUE; cbn; lia|]. apply flood_read.
  pose proof (echo_first [1] ltac:(done)) as H. apply echo_waits in H; [|done].
  by eexists _, _.
Qed.

(** Both queues are full, and a datagram more has come. *)
Lemma flood_full :
  exists sq rq, length sq = QUEUE /\ length rq = QUEUE /\
    flooded sq rq (DgWPost (first_of [1])) (XPut (echo_datagram [1]) 1).
Proof.
  assert (HQ : (1 < QUEUE)%nat) by (unfold QUEUE; lia).
  pose proof (flood_rounds (QUEUE - 1) [one_byte] ltac:(cbn [length]; lia) flood_start) as H.
  set (sq := _ ++ replicate _ _) in H.
  apply flood_come in H; [|cbn [length]; lia]. apply (flood_read sq []) in H.
  apply (flood_fill QUEUE) in H; [|cbn [length]; lia].
  destruct H as (m & l & H). apply (echo_find _ _ _ _ _ [1]) in H; [|done].
  exists sq, (replicate QUEUE [1]).
  split_and!; [|by rewrite length_replicate|eexists _, _; exact H].
  unfold sq. rewrite length_app, length_replicate. cbn [length]. lia.
Qed.

Lemma chan_send_full {T} (x : T) l : length l = QUEUE ->
  chan_send x (Chan QUEUE l false) = Fault Blocked.
Proof. intros Hl. unfold chan_send. cbn [c_buf c_cap c_closed]. by rewrite decide_False by lia. Qed.

Lemma flood_stuck sq rq m l a :
  length sq = QUEUE -> length rq = QUEUE ->
  let w := one_host sq rq m (DgWPost (first_of [1])) (XPut (echo_datagram [1]) 1) l in
  echo_allows w a = true -> dg_move test_get a w = Fault Blocked.
Proof.
  intros Hs Hr w. unfold w. destruct a as [[|t] p u|[|t]|k|d| |x data]; cbn -[QUEUE]; try done.
  - intros _. unfold mbind, M_bind, on_sq, zoom. cbn [dg_sq echo_gst].
    by rewrite chan_send_full.
  - intros _. unfold mbind, M_bind.
    rewrite on_go_eq, (at_recvQueued_run _ echo_obj (Chan QUEUE rq false)) by done.
    by rewrite chan_send_full.
Qed.

(** C34: A host that sends datagrams faster than they are sent back stops the whole
    stack for good: with [sendQueue] and the queue of its connection full, the
    processing goroutine waits in [go_udp_recv_h] for the copying goroutine to
    read, and the copying goroutine waits in [Write] for the processing goroutine
    to take an entry.  The state can be reached, with a single connection that is
    open, and no step of anybody is possible any more. *)
Theorem go_udp_echo_deadlock :
  exists w k p o, udp_echo_reachable test_get w /\ made (dg_logs w) = [(k, p)] /\
    pcbs (dg_gst w) !! p = Some o /\ p_err o = false /\
    length (queue_of (dg_gst w) p) = QUEUE /\
    length (c_buf (dg_sq (dg_gst w))) = QUEUE /\
    forall a, echo_allows w a = true -> dg_move test_get a w = Fault Blocked.
Proof.
  destruct flood_full as (sq & rq & Hs & Hr & m & l & Hm & H).
  eexists _, test_key, 1%positive, echo_obj. split; [exact H|]. split; [exact Hm|].
  split; [done|]. split; [done|]. split; [exact Hr|]. split; [exact Hs|].
  intros a. by apply flood_stuck.
Qed.

(** ** Witnesses *)

(** Two datagrams, of which one has been sent back and the other one read. *)
Definition copy_one (l : nat) : list dg_act :=
  [DgCall 0 1 (DgRInter whole); DgStep 0; DgStep 0; DgStep 0;
   DgCall 0 1 (DgWErr (Slice 0 l)); DgStep 0; DgStep 0; DgStep 0].
Definition send_one : list dg_act := [DgTake CaseSend; DgProc; DgProc].
Definition echo_test_acts : list dg_act :=
  come_new 1 ++ come_known 2 ++ copy_one 1 ++ send_one ++ take 4 (copy_one 1).
Definition patient_acts : list dg_act :=
  come_new 1 ++ copy_one 1 ++ send_one ++ come_known 2 ++ copy_one 1 ++ send_one ++
  come_known 3.
Definition echo_run (acts : list dg_act) : dg :=
  match udp_echo_moves test_get acts (dg0 1) with Ok w => w | Fault _ => dg0 1 end.



Lemma go_udp_echo_overwrites_witness :
  exists w k p, udp_echo_reachable test_get w /\ made (dg_logs w) = [(k, p)] /\
    about k (came (dg_logs w)) = [[1]; [2]] /\
    (sg_data <$> about p (sent (dg_logs w))) = [[2]; [2]] /\
    c_buf (dg_sq (dg_gst w)) = [] /\ queue_of (dg_gst w) p = [].
Proof.
  apply (go_udp_echo_overwrites [1] [2]); [done|done| |];
    apply Nat.leb_le; by vm_compute.
Defined.
