(* ===== verification/GoInput.v ===== *)
(** * Packets on their way from the device to lwIP, through Go

    [go_netif_read] runs in a goroutine of its own: it reads packets from the
    device and queues them; [go_netif_proc] takes each one, puts it into the
    second queue and calls [cs_netif_proc] of src/src/cs.c, which asks
    [go_input_h] for it.  Proved: what the turn of the loop for a packet is in all
    the parts that it goes through (src/lwipcs.go, src/lwipcs.c, src/src/cs.c):
    lwIP gets a chain of buffers with exactly its bytes; and that every packet
    comes to that point once and in order, whichever way the two goroutines run,
    and what either of them waits for. *)

From S2P Require Import Prelude Lwip Cs Tcp Udp Netif Bridge GoChan GoBind GoApp.
From S2P Require Import LwipRef Runs GoRuns.
Local Open Scope Z_scope.

(** ** A turn of the loop *)

Section turn.
Context {St : Type} `{!Lwip St, !LwipLaws St, !LwipUdp St, !LwipTcpAddr St}.
Context `{!LwipNetif (world St go_state)}.
Context (backs : ptr -> option (cs_callback St go_state)).
Context (go_cs_ : go_cs_callback St go_state) (Event : option (Handler St)).
(** What the main programs put into the table. *)
Context (Halloc : g_pbuf_alloc go_cs_ = Some (fun len => lift (pbuf_alloc len))).
Context (Htake : g_pbuf_take go_cs_ = Some (fun p buf len => lift (pbuf_take p buf len))).
Context (Hproc : g_netif_proc go_cs_ = Some (cs_netif_proc backs)).
Implicit Types (w : world St go_state).
Abbreviation vw w := (view (lw w)).

(** [go_input_h] as the layer calls it. *)
Definition input_h := go_cs_input_h (GoExports0 := go_exports (Some go_cs_) Event).

(** [go_cs_pbuf_take] copies as many bytes as the buffers have, which is what was
    asked of [pbuf_alloc]. *)
Lemma alloc_take_len buf len w :
  0 <= len ->
  (o ← lift (pbuf_alloc len);
   match o with
   | Some p => go_cs_pbuf_take (Some go_cs_) p buf
   | None => mret tt
   end;; mret (o, len)) w =
  (o ← lift (pbuf_alloc len);
   match o with
   | None => mret (None, len)
   | Some p => _ ← lift (pbuf_take p buf len); mret (Some p, len)
   end) w.
Proof.
  intros Hlen. pose proof (pbuf_alloc_law (lw w) len Hlen) as Hlaw. unfold wpf in Hlaw.
  unfold mbind, M_bind, lift. destruct (pbuf_alloc len (lw w)) as [[o s]|]; [|done].
  destruct o as [p|]; [|done]. destruct Hlaw as (cs & m & Hs & Ho & Hh & Hl & _).
  unfold go_cs_pbuf_take, member, deref, mbind, M_bind, mret, M_ret, lift. rewrite Htake.
  assert (Htl : pbuf_tot_len p s = Ok (len, s))
    by (rewrite <- Hl; apply pbuf_tot_len_law; [rewrite Hs; exact Ho|exact Hh]).
  cbn. rewrite Htl. unfold lift. cbn. by destruct (pbuf_take p buf len s) as [[? ?]|].
Qed.

(** The first queue holds [i] and then [l], the second one is empty. *)
Definition input_ready (i : bytes) (l : list bytes) (g : go_state) : Prop :=
  c_buf (inputQueue g) = i :: l /\ inputQueue2 g = make_chan QUEUE.

(** The binding after a packet has left it. *)
Definition input_done (l : list bytes) (g : go_state) : go_state :=
  set_inputQueue (Chan (c_cap (inputQueue g)) l (c_closed (inputQueue g))) g.

Lemma forward_input_run i l g :
  input_ready i l g ->
  forward_input g = Ok (tt, set_inputQueue2 (Chan QUEUE [i] false) (input_done l g)).
Proof.
  intros [Hb H2]. unfold forward_input.
  erewrite bind_Ok; [|unfold on_inputQueue, zoom, chan_recv; by rewrite Hb].
  erewrite bind_Ok by done. unfold on_inputQueue2, zoom. cbn [inputQueue2 set_inputQueue].
  by rewrite H2.
Qed.

(** [go_input_h] on the packet [i]: its bytes in a new chain, unless lwIP has no
    buffer; in both cases its length, and the second queue is empty again. *)
Lemma input_h_run arg n i l g w :
  app w = set_inputQueue2 (Chan QUEUE [i] false) (input_done l g) ->
  inputQueue2 g = make_chan QUEUE -> i <> [] -> Z.of_nat (length i) < 2 ^ 16 ->
  exists o s, input_h arg n 0 w =
      Ok ((o, Z.of_nat (length i)), with_lw s (with_app (input_done l g) w)) /\
    match o with
    | Some p => exists cs, filled (vw w) (view s) p i cs
    | None => view s = vw w
    end.
Proof.
  intros Ha H2 Hi Hlen.
  set (len := Z.of_nat (length i)) in *.
  set (w1 := with_app (input_done l g) w).
  assert (Hrun : input_h arg n 0 w =
    (o ← lift (pbuf_alloc len);
     match o with
     | Some p => go_cs_pbuf_take (Some go_cs_) p i
     | None => mret tt
     end;; mret (o, len)) w1).
  { unfold input_h, go_cs_input_h. cbn -[go_cs_pbuf_alloc go_cs_pbuf_take].
    unfold GoBind.go_input_h. erewrite bind_Ok by done. rewrite Ha.
    cbn -[go_cs_pbuf_alloc go_cs_pbuf_take].
    erewrite bind_Ok by (unfold go, zoom; rewrite Ha; done).
    destruct i as [|x i]; [done|]. fold len. rewrite (wrap_u_small 16) by (unfold len; lia).
    replace (with_app _ w) with w1.
    2: { unfold w1. f_equal. destruct g; cbn in H2; by subst. }
    unfold go_cs_pbuf_alloc, member, deref, mbind, M_bind, mret, M_ret. by rewrite Halloc. }
  rewrite Hrun, alloc_take_len by (unfold len; lia).
  cut (wp (o ← lift (pbuf_alloc len);
     match o with
     | None => mret (None, len)
     | Some p => _ ← lift (pbuf_take p i len); mret (Some p, len)
     end) w1 (fun r w' => r.2 = len /\ exists s, w' = with_lw s w1 /\
       match r.1 with
       | Some p => exists cs, filled (vw w) (view s) p i cs
       | None => view s = vw w
       end)).
  - intros ([o n'] & w' & -> & Hn & s & -> & Hp)%wp_Ok. cbn in Hn, Hp. subst n'.
    by exists o, s.
  - apply wp_alloc_take; [unfold len; lia|unfold len; lia| |].
    + intros s Hs. apply wp_ret. split; [done|]. by exists s.
    + intros p cs s Hf. apply wp_ret. split; [done|]. exists s. split; [done|]. exists cs.
      by rewrite firstn_all2 in Hf by (unfold len; lia).
Qed.

(** C27: A packet goes through Go once: the turn of the loop for the packet [i] is
    [cs_netif_proc] handing to lwIP a fresh chain of buffers with exactly the bytes
    of [i], whose number is added to the octets received; or, when lwIP has no
    buffer, a discard, with nothing left allocated.  In both cases the packet has
    left the first queue and the second queue is empty again. *)
Theorem go_input_turn n x b cb i l w :
  input_ready i l (app w) -> i <> [] -> Z.of_nat (length i) < 2 ^ 16 ->
  netifs w !! n = Some x -> n_state x = Some b -> backs b = Some cb ->
  cb_input cb = Some input_h ->
  exists o s,
    let x' := mib2_ifinoctets (Z.of_nat (length i)) x in
    let w' := with_lw s (with_app (input_done l (app w)) w) in
    match o with
    | Some p => exists cs, filled (vw w) (view s) p i cs
    | None => view s = vw w
    end /\
    proc_turn (Some go_cs_) n CaseInput w =
      (match o with
       | Some p =>
           err ← netif_input p n;
           if decide (err <> ERR_OK) then _ ← lift (pbuf_free p); mret tt else mret tt
       | None => netif_set n (mib2_ifindiscards 1);; link_recv_inc
       end;; netif_poll_all) (upd_netif n x' w').
Proof.
  intros Hr Hi Hlen Hx Hb Hcb Hin.
  set (w0 := with_app (set_inputQueue2 (Chan QUEUE [i] false) (input_done l (app w))) w).
  destruct (input_h_run (cb_state cb) n i l (app w) w0 eq_refl (proj2 Hr) Hi Hlen)
    as (o & s & Hrun & Hp).
  exists o, s. cbn zeta. split; [done|].
  assert (Hturn : proc_turn (Some go_cs_) n CaseInput w = cs_netif_proc backs n w0).
  { unfold proc_turn. erewrite bind_Ok.
    2: { unfold go, zoom. by rewrite (forward_input_run _ _ _ Hr). }
    unfold go_cs_netif_proc, member, deref, mbind, M_bind, mret, M_ret. by rewrite Hproc. }
  pose proof (low_level_input_run backs n x b cb input_h w0 o _ _ x Hx Hb Hcb Hin Hrun Hx)
    as Hlow. cbn zeta in Hlow.
  rewrite Hturn. unfold cs_netif_proc, cs_netif_input.
  set (wx := upd_netif n _ (with_lw s (with_app _ w))).
  change (with_app (input_done l (app w)) w0) with (with_app (input_done l (app w)) w) in Hlow.
  fold wx in Hlow. destruct o as [p|].
  - unfold mbind, M_bind. by rewrite Hlow.
  - assert (Hset : netif_set n (mib2_ifindiscards 1) wx =
      Ok (tt, upd_netif n (mib2_ifindiscards 1 (mib2_ifinoctets (Z.of_nat (length i)) x)) wx))
      by (apply netif_set_run; cbn; apply lookup_insert_eq).
    unfold mbind, M_bind. by rewrite Hlow, Hset.
Qed.
End turn.

(** ** The two goroutines *)

(** Where [go_netif_read] is: before [go_cs_input]; with a packet to queue;
    returned. *)
Inductive reader_pc : Type :=
| RdInput
| RdQueue (i : bytes)
| RdEnd.

(** Where [go_netif_proc] is: in its [select]; before a packet goes into the second
    queue; in [go_cs_netif_proc], before [go_input_h]; behind that, in lwIP and
    the callbacks that it makes, or in another case of the [select], where it may
    stay for ever. *)
Inductive input_pc : Type :=
| InSelect
| InForward (i : bytes)
| InInput
| InOther.

#[export] Instance input_pc_eq_dec : EqDecision input_pc.
Proof. solve_decision. Defined.

(** Ghosts: the packets that came from the device, and those that [go_input_h]
    gave to C. *)
Record input_sys : Type := InputSys {
  in_gst : go_state;
  in_reader : reader_pc;
  in_proc : input_pc;
  in_read : list bytes;
  in_given : list bytes
}.

(** What happens next: the device gives a packet, or nothing, on which
    [go_netif_read] ends; the reader queues its packet; the loop takes the case of
    [inputQueue], or another one; it goes on with a packet; it comes back to the
    [select]; other code changes anything but the two queues. *)
Inductive input_act : Type :=
| ActDevice (i : bytes)
| ActQueue
| ActTake
| ActLeave
| ActProc
| ActReturn
| ActOther (g : go_state).

(** The receive in [go_input_h]; the [default] of its [select] gives nothing. *)
Definition give_input : G (list bytes) :=
  g ← gets id;
  if chan_ready (inputQueue2 g) then
    i ← on_inputQueue2 chan_recv; mret (match i with Some i => [i] | None => [] end)
  else mret [].

(** The receive of the [select]. *)
Definition take_input : G bytes := r ← on_inputQueue chan_recv; deref r.

Definition input_move (a : input_act) (w : input_sys) : outcome input_sys :=
  let '(InputSys g r c rd gv) := w in
  match a with
  | ActDevice i =>
      match r, i with
      | RdInput, [] => Ok (InputSys g RdEnd c rd gv)
      | RdInput, _ :: _ => Ok (InputSys g (RdQueue i) c (rd ++ [i]) gv)
      | _, _ => Fault Blocked
      end
  | ActQueue =>
      match r with
      | RdQueue i =>
          match on_inputQueue (chan_send i) g with
          | Ok (_, g') => Ok (InputSys g' RdInput c rd gv)
          | Fault f => Fault f
          end
      | _ => Fault Blocked
      end
  | ActTake =>
      match c with
      | InSelect =>
          match take_input g with
          | Ok (i, g') => Ok (InputSys g' r (InForward i) rd gv)
          | Fault f => Fault f
          end
      | _ => Fault Blocked
      end
  | ActLeave =>
      match c with
      | InSelect => Ok (InputSys g r InOther rd gv)
      | _ => Fault Blocked
      end
  | ActReturn =>
      match c with
      | InOther => Ok (InputSys g r InSelect rd gv)
      | _ => Fault Blocked
      end
  | ActProc =>
      match c with
      | InSelect | InOther => Fault Blocked
      | InForward i =>
          match on_inputQueue2 (chan_send i) g with
          | Ok (_, g') => Ok (InputSys g' r InInput rd gv)
          | Fault f => Fault f
          end
      | InInput =>
          match give_input g with
          | Ok (i, g') => Ok (InputSys g' r InOther rd (gv ++ i))
          | Fault f => Fault f
          end
      end
  | ActOther (GoState ps bs ts us _ _ rq sq cq rn) =>
      Ok (InputSys (GoState ps bs ts us (inputQueue g) (inputQueue2 g) rq sq cq rn)
            r c rd gv)
  end.

Fixpoint input_moves (acts : list input_act) (w : input_sys) : outcome input_sys :=
  match acts with
  | [] => Ok w
  | a :: acts => match input_move a w with Ok w => input_moves acts w | Fault f => Fault f end
  end.

Definition input0 : input_sys := InputSys go_state0 RdInput InSelect [] [].
Definition input_reachable (w : input_sys) : Prop :=
  exists acts, input_moves acts input0 = Ok w.

(** The packets that a goroutine has in hand. *)
Definition reader_hand (r : reader_pc) : list bytes :=
  match r with RdQueue i => [i] | _ => [] end.
Definition proc_hand (c : input_pc) : list bytes :=
  match c with InForward i => [i] | _ => [] end.

Record input_inv (w : input_sys) : Prop := InputInv {
  ii_order : in_read w = in_given w ++ c_buf (inputQueue2 (in_gst w)) ++
    proc_hand (in_proc w) ++ c_buf (inputQueue (in_gst w)) ++ reader_hand (in_reader w);
  ii_second : match in_proc w with
              | InInput => length (c_buf (inputQueue2 (in_gst w))) = 1%nat
              | _ => c_buf (inputQueue2 (in_gst w)) = []
              end;
  ii_q1 : c_cap (inputQueue (in_gst w)) = QUEUE /\ c_closed (inputQueue (in_gst w)) = false;
  ii_q2 : c_cap (inputQueue2 (in_gst w)) = QUEUE /\ c_closed (inputQueue2 (in_gst w)) = false;
  ii_some : Forall (fun i => i <> []) (in_read w)
}.

(** Why a step cannot be made. *)
Definition input_waits (a : input_act) (w : input_sys) : Prop :=
  match a with
  | ActDevice _ => in_reader w <> RdInput
  | ActQueue => forall i, in_reader w = RdQueue i ->
      (QUEUE <= length (c_buf (inputQueue (in_gst w))))%nat
  | ActTake => in_proc w = InSelect -> c_buf (inputQueue (in_gst w)) = []
  | ActLeave => in_proc w <> InSelect
  | ActProc => in_proc w = InSelect \/ in_proc w = InOther
  | ActReturn => in_proc w <> InOther
  | ActOther _ => False
  end.

(** A step keeps the invariant, or waits: the reader for room in a full queue, the
    loop for a packet. *)
Lemma input_move_spec a w :
  input_inv w ->
  match input_move a w with
  | Ok w' => input_inv w'
  | Fault f => f = Blocked /\ input_waits a w
  end.
Proof.
  intros [Ho Hs [Hq1 Hc1] [Hq2 Hc2] Hn]. destruct w as [g r c rd gv]. cbn in *.
  destruct a as [i| | | | | |g']; cbn.
  - destruct r; [|done..]. destruct i as [|x i]; split; cbn in *; try done.
    + by rewrite Ho, !app_nil_r, <- !app_assoc.
    + apply Forall_app. split; [done|]. by repeat constructor.
  - destruct r as [|i|]; [done| |done]. unfold on_inputQueue, zoom, chan_send. rewrite Hc1.
    case_decide as Hl; [|split; [done|]; cbn; intros ? _; lia]. split; cbn; try done.
    by rewrite Ho, !app_nil_r.
  - destruct c; [|done..]. unfold take_input, on_inputQueue, zoom, chan_recv, mbind, M_bind.
    destruct (c_buf (inputQueue g)) as [|i l] eqn:Hb; [by rewrite Hc1|].
    by split.
  - destruct c; by split.
  - destruct c as [|i| |]; [by auto|..|by auto].
    + unfold on_inputQueue2, zoom, chan_send. rewrite Hc2, Hs.
      rewrite decide_True by (rewrite Hq2; cbn; unfold QUEUE; lia).
      split; cbn; try done. by rewrite Ho, Hs.
    + unfold give_input, on_inputQueue2, zoom, chan_ready, chan_recv, mbind, M_bind. cbn.
      destruct (c_buf (inputQueue2 g)) as [|i [|]] eqn:Hb; [done| |done].
      unfold mret, M_ret. rewrite Hb. split; cbn; try done. by rewrite Ho, <- !app_assoc.
  - destruct c; by split.
  - by destruct g'.
Qed.

Lemma input_inv_init : input_inv input0.
Proof. by split. Qed.

Lemma input_reachable_inv w : input_reachable w -> input_inv w.
Proof.
  intros [acts Hm]. pose proof input_inv_init as I. revert Hm I. generalize input0.
  induction acts as [|a acts IH]; intros w0; cbn; [by intros [= ->]|].
  pose proof (input_move_spec a w0) as Hs. destruct (input_move a w0) as [w1|]; [|done].
  eauto.
Qed.

(** C10: However the goroutine that reads the device and the one that runs the stack
    take turns, and whatever else changes the binding, the packets that came from
    the device are, in order, those that [go_input_h] has given to C, and those on
    the way; the second queue has a packet only between the two steps of the loop
    that put it in and take it out; no step ever fails; and the only waits are that
    of the reader for room in a full queue and that of the loop for a packet.  When
    the reader waits the loop can go on with a packet, unless it is in lwIP, in a
    callback or in another case: as long as that does not return the device is not
    read either. *)
Theorem go_input_in_order w :
  input_reachable w ->
  in_read w = in_given w ++ c_buf (inputQueue2 (in_gst w)) ++ proc_hand (in_proc w) ++
    c_buf (inputQueue (in_gst w)) ++ reader_hand (in_reader w) /\
  (in_proc w <> InInput -> c_buf (inputQueue2 (in_gst w)) = []) /\
  (forall a f, input_move a w = Fault f -> f = Blocked /\ input_waits a w) /\
  (forall i, in_reader w = RdQueue i ->
     (exists w', input_move ActQueue w = Ok w') \/
     (QUEUE <= length (c_buf (inputQueue (in_gst w))))%nat /\
     (in_proc w = InOther \/
      exists a w', (a = ActTake \/ a = ActProc) /\ input_move a w = Ok w')).
Proof.
  intros I%input_reachable_inv. split_and!.
  - apply I.
  - intros Hp. pose proof (ii_second _ I) as H2. by destruct (in_proc w).
  - intros a f Hf. pose proof (input_move_spec a w I) as Hs. by rewrite Hf in Hs.
  - intros i Hi. pose proof (input_move_spec ActQueue w I) as H1.
    destruct (input_move ActQueue w) as [w'|] eqn:E1; [left; by exists w'|right].
    destruct H1 as [_ Hl]. specialize (Hl _ Hi). split; [done|].
    pose proof (input_move_spec ActProc w I) as H2.
    destruct (input_move ActProc w) as [w'|] eqn:E2; [right; exists ActProc, w'; tauto|].
    destruct H2 as [_ [Hp|Hp]]; [right|by left].
    pose proof (input_move_spec ActTake w I) as H3.
    destruct (input_move ActTake w) as [w'|] eqn:E3; [exists ActTake, w'; tauto|].
    destruct H3 as [_ Hb]. specialize (Hb Hp). rewrite Hb in Hl. cbn in Hl.
    unfold QUEUE in Hl. lia.
Qed.

(** ** Witnesses *)

Definition test_frames : list input_act :=
  [ActDevice [1; 2]; ActQueue; ActTake; ActDevice [3]; ActQueue; ActProc; ActProc;
   ActReturn; ActDevice [4]; ActTake; ActProc; ActQueue].
Definition test_input_sys : input_sys :=
  match input_moves test_frames input0 with Ok w => w | Fault _ => input0 end.

Lemma test_input_run :
  in_read test_input_sys = [[1; 2]; [3]; [4]] /\ in_given test_input_sys = [[1; 2]] /\
  c_buf (inputQueue2 (in_gst test_input_sys)) = [[3]] /\ in_proc test_input_sys = InInput.
Proof. by vm_compute. Qed.

Lemma go_input_in_order_witness :
  input_reachable test_input_sys /\
  in_read test_input_sys = in_given test_input_sys ++
    c_buf (inputQueue2 (in_gst test_input_sys)) ++ proc_hand (in_proc test_input_sys) ++
    c_buf (inputQueue (in_gst test_input_sys)) ++ reader_hand (in_reader test_input_sys).
Proof.
  assert (H : input_reachable test_input_sys) by (exists test_frames; by vm_compute).
  split; [exact H|]. apply (go_input_in_order test_input_sys H).
Defined.

(** The tables of the runs of [GoRuns], with the layer's [cs_netif_proc]. *)
Definition input_table : go_cs_callback ref go_state :=
  gback go_backs run_fuel false true (fun _ _ w => Ok ((0, []), w))
    (fun _ _ n w => Ok (n, w)) 9%positive 8%positive.
Definition gw_input : GW :=
  with_app (set_inputQueue (Chan QUEUE [[1; 2; 3]; [4]] false) go_state0) gw0.

Lemma go_input_turn_witness :
  exists o s,
    let x' := mib2_ifinoctets (Z.of_nat (length [1; 2; 3])) netif0 in
    let w' := with_lw s (with_app (input_done [[4]] (app gw_input)) gw_input) in
    match o with
    | Some p => exists cs, filled (view (lw gw_input)) (view s) p [1; 2; 3] cs
    | None => view s = view (lw gw_input)
    end /\
    proc_turn (Some input_table) 8 CaseInput gw_input =
      (match o with
       | Some p =>
           err ← netif_input p 8;
           if decide (err <> ERR_OK) then _ ← lift (pbuf_free p); mret tt else mret tt
       | None => netif_set 8 (mib2_ifindiscards 1);; link_recv_inc
       end;; netif_poll_all) (upd_netif 8 x' w').
Proof.
  apply (go_input_turn go_backs input_table no_event eq_refl eq_refl eq_refl 8 netif0 9
    go_tbl [1; 2; 3] [[4]] gw_input); [by split|done|done|..]; reflexivity.
Defined.
